(* ===== verification/_CoqProject ===== *)
-Q . S2P
Prelude.v
GoLib.v
GoText.v
Conc.v
Own.v
TitleFilter.v
Protocol.v
Compress.v
Peer.v
PeerManager.v
PeerSafety.v
PeerProps.v
World.v
Config.v
ConfigProps.v
SecretStore.v
Identity.v
Pairing.v
Token.v
PairSession.v
Supervisor.v
SupervisorProps.v
PairFlow.v
PairFlowProps.v
Signaling.v
SignalingProps.v
Update.v
Updater.v
Agent.v
AgentProps.v
Upkeep.v
Turn.v
Firewall.v
Sleep.v
Commands.v
CommandsProps.v
Main.v
MainProps.v
TmuxText.v
TmuxReplies.v
Host.v
Bridge.v
Handler.v
HostInv.v
HostSafety.v
HandlerSafety.v
HostProps.v
Delivery.v
PairedAgent.v
