(* ===== verification/Prelude.v ===== *)
(** * pmux-agent, verified

    The pmux agent keeps a tmux server reachable from one paired phone. A
    signaling server brings the two together; after that they talk over a
    WebRTC data channel, and the phone lists sessions, attaches to a pane,
    types into it and sees its output. This library models the Go program
    under src/ and proves what its parts promise to each other and to their
    users.

    ** The parts, and the files that model them

    - Groundwork. [Prelude] (results, state passing, record update, bytes,
      automation), [GoLib] (the functions of strings, strconv, encoding/hex
      and encoding/base64 the agent calls), [World] (files, random bytes, the
      clock and HTTP, with an oracle for everything the environment decides),
      [Conc] and [Own] (goroutines over a shared store).
    - The wire. [Protocol] is internal/protocol: message structs, field
      validation, [Decode] and [DecodeRequest]. [Compress] is compress.go: the
      output compressor over any compression that keeps [FlateLaws].
    - The peer connection. [Peer], [PeerManager] are
      internal/webrtc/peer.go: the state and lock sections of a peer, and every
      operation and callback of the manager as a goroutine. [PeerSafety] proves
      the invariant of every goroutine, [PeerProps] states the results.
    - The signaling client. [Signaling], [SignalingProps] are
      internal/webrtc/signaling.go: [Run], the loops and the public methods as
      events of one transition system.
    - The terminal side. [TitleFilter] is internal/tmux/titlefilter.go.
      [TmuxText], [Host] are tmux.go and resize.go: the text of commands and
      replies, and the client's operations. [Bridge] is pty.go: pane bridges,
      their relay goroutine and the ownership of a pane's pipe. [Handler] is
      internal/agent/handler.go: every request and the two goroutines of an
      attachment. [HostInv], [HostSafety], [HandlerSafety] prove them safe
      goroutine by goroutine, [HostProps] states the results, and [Delivery]
      puts the filter, the compressor, the bridge and the stream together.
    - Who is who. [SecretStore] (secretstore*.go: the interface with its laws
      and three implementations), [Identity] (identity.go), [Pairing]
      (pairing.go), [Token] (hmac.go, errors.go, jwt.go, unpair.go and the
      first call of pair_session.go), [PairSession] (pair_session.go).
    - Configuration and text. [GoText] has the rest of the standard library
      the agent calls (words, lines, quoting, file paths, durations).
      [Config], [ConfigProps] are internal/config/config.go: defaults, file,
      environment, validation, listing and paths.
    - The agent process. [Supervisor], [SupervisorProps] are pidfile.go,
      supervisor.go, procargs_*.go and agent_start.go, agent_stop.go,
      agent_restart.go, with other processes acting before every call.
      [Agent] is agent.go: [Run] in order, its fatal errors, its end, and the
      running agent as a transition system that composes the store, the peer
      manager and the other processes; [AgentProps] proves the composition,
      and [PairedAgent] that it admits what the pair command stored.
      [Upkeep] is cleanup.go, monitor.go and the update loop. [Turn] is the
      request for TURN credentials.
    - The host. [Firewall] is internal/firewall: every platform's probe.
      [Sleep] is keepawake*.go and sleepwatch_*.go: what keeps the host awake,
      and the two watchers that announce its sleep.
    - Updates. [Update], [Updater] are internal/update: state, versions, the
      check, the install methods and the verified download.
    - The commands. [PairFlow], [PairFlowProps] are pair.go, unpair.go and the
      dialing of pair_session.go. [Commands], [CommandsProps] are init.go,
      status.go, agent_detail.go, uninstall.go and internal/proxy. [Main],
      [MainProps] are cmd/pmux/main.go, from the arguments to the exit code or
      to becoming tmux; every handler runs the commands above on one machine.
    - [TmuxReplies] relates tmux's listings to what the client parses.

    The interfaces between them are classes: [SecretStoreLaws] (what a store
    promises; the three stores are instances), [PairLib], [MainLib] and
    [ProcArgs] (code outside the repository and the platform), [StoreOpener]
    (how a process gets its store), [RelyGuarantee] (what goroutines may do to
    each other), [Stage] (what part of a command's state is the store),
    [FlateLaws] (what compress/flate promises to the compressor).

    ** How Go is modelled

    An integer is a [Z], cut to its width where the source can overflow it; a
    string is a list of bytes ([String.string]); a map is a [gmap]; a struct is
    a record and a tagged union an inductive type. A function returning
    [(T, error)] returns [result E T], with one constructor of [E] for every
    error the source can return there. Sequential code with effects is a
    function on the [World] and the objects it changes.

    Concurrent code is a set of goroutines over a shared store. A goroutine is
    the sequence of its atomic sections (a lock hold, a channel operation, a
    call into a library) and every interleaving of sections is an execution.
    [Conc] is enough where goroutines end ([PeerManager]): [safe] says that a
    goroutine keeps an invariant and moves the store along a preorder, its
    guarantee, while the others move it along its rely. [Own]
    adds loops and tokens: a lock that is held, a channel only its owner
    closes, a stream only its goroutine writes to. The owner of a token relies
    on the others leaving what it protects alone; a section that blocks must
    name the lower-ranked token it waits for, or wait for input; [released]
    turns this into the absence of deadlock.

    What the environment answers (Pion, tmux, the kernel, the server, the
    keyring, the clock) is read from oracle lists in the store, so a theorem
    about every store is a theorem about every behaviour of the environment.
    Third-party code whose result matters (MessagePack, HMAC, SHA-256, X25519,
    HKDF, JSON, URL parsing, IDNA) is a parameter of the definitions that call
    it. Hypotheses about it are named where they are used and say what is
    documented; the witnesses instantiate them by concrete functions.

    ** What is proved

    - Access. A request reaches the handler only from a peer that proved
      possession of the pairing secret over this connection; a failed
      handshake is final; only the paired device gets a peer; nothing is
      dispatched after teardown; what a MAC or a signature covers determines
      its fields; the host answers a pairing once, to the right mobile, and
      believes it committed only on the server's word.
    - Streams. What the phone reads of an attachment, inflated where it asked
      for compression, is what the pane printed, without title sequences and
      without a gap, up to where the stream has got. Output follows the attached event of its own stream and no
      other; a hole is never sent as if it were whole; a pane has at most one
      pipe, that of its recorded owner; the filter removes titles and nothing
      else, however the stream is cut.
    - Progress. No goroutine of the terminal side waits for ever.
    - Bounds. Peers, buffered candidates, reconnect pace, message sizes.
    - Persistence. Secrets, identity and the paired device survive a restart,
      and an unpaired device is forgotten.
    - Input. Nothing a peer sends is run by the tmux command line or the shell;
      bodies of host-only events are never parsed.
    - The agent as a whole. Whatever the goroutines, the server and the other
      processes do, a device is let in only while it is the one that was
      stored; after a pairing only the phone that proved itself is, with the
      secret that was agreed with it; a forced relay is never left; the start
      stops at the first fatal error, and the end leaves no PID file.
    - Commands. A device is stored only if it proved that it saw the code;
      only an answered question unpairs or uninstalls; init keeps the
      configuration that is there and writes no setting but two; uninstalling
      takes what is the program's and no other file; arguments that are not
      pmux's reach tmux unchanged whatever fails.
    - Processes. Only a process that is an agent is signalled, the commands
      end, and an agent that was started is found again.
    - Sleep. The lock that delays a suspend is never leaked and is dropped only
      after the notice went out; the macOS run loop always stops and no stop
      comes after it is released.
    - Updates. What replaces the binary has the published checksum and came
      from a trusted host.
    - Configuration. The effective configuration is the documented overlay,
      field by field.

    Where the source departs from what it says, an [Example] or a lemma shows
    it on the model ([closed_bus_spins], [unreadable_replaced],
    [status_trusts_a_reused_pid], [file_agent_misses_new_pairing] and others).
    ** Bounds and fuel

    Loops that end because a list shrinks are structural. [Filter] takes its
    chunk's length as fuel, enough because each round consumes a byte. The
    retry loops of [SecretStore] and [World] run over the oracle's finite
    answers; quoting and durations take the length of the string, of which each
    round consumes a byte; redirects recurse on the replies that are left; a
    loop that polls or waits recurses on its ticks or events, whatever their
    number. [run_loop_stops] counts turns instead: nine of each goroutine are
    the number of locations they can still pass. Goroutines that never end are [Loop]s and need no fuel; the
    executable demonstrations run a schedule, a list of choices.

    ** What is not modelled

    The JSON, MessagePack and archive formats, the cryptographic primitives,
    Pion and the WebSocket library are parameters or oracles. Log lines are
    left out. A panic of a send on a closing data channel is modelled for
    output and for the attached event, the two places that recover from one.
    The reaping of started children is left out, as are profiles, the help
    text, the messages of error values and the forced exit on a second
    interrupt. Read and write deadlines are answers of the environment: a read
    or a write may fail at any moment. TOML is a parameter, so what
    init writes is compared line by line, not parsed. The exclusive lock of the
    PID file is only a call that may fail. [Main] takes what ListSessions and
    ps answer as given; the operations themselves are in [Host].
    Terminal output is a list of lines by their meaning. Contexts are modelled
    where they end something, as an event or as a number of ticks.
*)

From stdpp Require Export base tactics option list numbers strings gmap.
From Stdlib Require Export ZArith Lia.
From Stdlib Require Export Init.Byte.
From Stdlib Require Strings.Byte.

#[global] Open Scope Z_scope.
#[global] Set Default Proof Using "Type".

(** ** Results of fallible operations

    A Go function returning [(T, error)] is a [result T E]: [Ok] is a nil
    error, [Err] carries the error, one constructor of an error type per
    [return ..., err] site of the source. *)

Inductive result (E A : Type) : Type :=
| Ok (a : A)
| Err (e : E).

Arguments Ok {E A} a.
Arguments Err {E A} e.

#[export] Instance result_ret E : MRet (result E) := fun A a => Ok a.
#[export] Instance result_bind E : MBind (result E) := fun A B k m =>
  match m with
  | Ok a => k a
  | Err e => Err e
  end.
#[export] Instance result_fmap E : FMap (result E) := fun A B f m =>
  match m with
  | Ok a => Ok (f a)
  | Err e => Err e
  end.

Definition is_ok {E A} (m : result E A) : bool :=
  match m with
  | Ok _ => true
  | Err _ => false
  end.

Definition to_option {E A} (m : result E A) : option A :=
  match m with
  | Ok a => Some a
  | Err _ => None
  end.

(** Wrapping an error on its way up: Go's [fmt.Errorf("...: %w", err)]. *)
Definition map_err {E F A} (f : E -> F) (m : result E A) : result F A :=
  match m with
  | Ok a => Ok a
  | Err e => Err (f e)
  end.

Definition of_option {E A} (e : E) (o : option A) : result E A :=
  match o with
  | Some a => Ok a
  | None => Err e
  end.

(** [check b e] is Go's [if !b { return e }]. *)
Definition check {E} (b : bool) (e : E) : result E unit :=
  if b then Ok tt else Err e.

(** ** State passing

    [M S A] is a computation over a store [S]: the shape of every operation
    that mutates a Go object or performs an effect on its environment. *)

Definition M (S A : Type) : Type := S -> A * S.

#[export] Instance M_ret S : MRet (M S) := fun A a s => (a, s).
#[export] Instance M_bind S : MBind (M S) := fun A B k m s =>
  let '(a, s') := m s in k a s'.

Definition mget {S : Type} : M S S := fun s => (s, s).
Definition mput {S : Type} (s : S) : M S unit := fun _ => (tt, s).
Definition mmod {S : Type} (f : S -> S) : M S unit := fun s => (tt, f s).

(** Running a sequence: the continuation sees the value and the store of the
    first computation. *)
Lemma mbind_run {S A B : Type} (m : M S A) (k : A -> M S B) s :
  (m ≫= k) s = k (fst (m s)) (snd (m s)).
Proof. unfold mbind, M_bind. by destruct (m s). Qed.

Lemma mret_run {S A : Type} (a : A) (s : S) : (mret a : M S A) s = (a, s).
Proof. done. Qed.

(** Fallible state passing: an error returns at once, with the store as the
    failing call left it. *)
Definition mbind_err {S E A B : Type}
    (m : M S (result E A)) (k : A -> M S (result E B)) : M S (result E B) :=
  fun s => match m s with
           | (Ok a, s') => k a s'
           | (Err e, s') => (Err e, s')
           end.

Notation "x ←! m ; k" := (mbind_err m (fun x => k))
  (at level 20, m at level 100, k at level 200, right associativity).

Definition ok {S E A : Type} (a : A) : M S (result E A) := fun s => (Ok a, s).
Definition fail {S E A : Type} (e : E) : M S (result E A) := fun s => (Err e, s).
Definition lift {S E A : Type} (r : result E A) : M S (result E A) := fun s => (r, s).

(** Wrap the error of a call ([fmt.Errorf("...: %w", err)]). *)
Definition wrap {S E F A : Type} (f : E -> F) (m : M S (result E A)) : M S (result F A) :=
  fun s => let '(r, s') := m s in (map_err f r, s').

(** A call whose error the source drops ([_ = f()]). *)
Definition ignore {S A : Type} (m : M S A) : M S unit := fun s => (tt, snd (m s)).

Lemma mbind_err_Ok {S E A B : Type} (m : M S (result E A)) (k : A -> M S (result E B)) s b s' :
  mbind_err m k s = (Ok b, s') <-> exists a s1, m s = (Ok a, s1) /\ k a s1 = (Ok b, s').
Proof. unfold mbind_err. destruct (m s) as [[a|e] s1]; naive_solver. Qed.

Lemma wrap_Ok {S E F A : Type} (f : E -> F) (m : M S (result E A)) s a s' :
  wrap f m s = (Ok a, s') <-> m s = (Ok a, s').
Proof. unfold wrap. destruct (m s) as [[]]; simpl; naive_solver. Qed.

(** Two stores side by side: a computation on one of them. *)
Definition on_fst {S T A : Type} (m : M S A) : M (S * T) A :=
  fun '(s, t) => let '(a, s') := m s in (a, (s', t)).
Definition on_snd {S T A : Type} (m : M T A) : M (S * T) A :=
  fun '(s, t) => let '(a, t') := m t in (a, (s, t')).

(** ** Updating one field of a record

    [r <| f := v |>] is [r] with field [f] set to [v]. A record opts in with an
    instance of [Eta], its reconstruction from its own fields; the setter of a
    field is found by abstracting that field out of it. *)

Class Eta (R : Type) := eta : R -> R.
(** A record, so that unification cannot guess a setter. *)
Class Upd {R T : Type} (field : R -> T) := MkUpd { upd : (T -> T) -> R -> R }.
Arguments upd {R T} field {_} _ _.
Arguments MkUpd {R T} field _.

Ltac make_setter R field :=
  let e := constr:(_ : Eta R) in
  let e := eval cbv beta delta [eta] in e in
  let e := eval red in e in
  match eval pattern field in e with
  | ?g _ => exact (MkUpd field (fun h (r : R) => g (fun r' => h (field r')) r))
  end.

#[export] Hint Extern 0 (@Upd ?R _ ?field) => make_setter R field : typeclass_instances.

Notation "r <| f := v |>" := (upd f (fun _ => v) r)
  (at level 1, left associativity, v at level 200).
Notation "r <| f ::= h |>" := (upd f h r)
  (at level 1, left associativity, h at level 200).

(** ** Bytes *)

#[export] Instance byte_eq_decision : EqDecision byte := Strings.Byte.byte_eq_dec.

Definition byteZ (b : byte) : Z := Z.of_N (Strings.Byte.to_N b).

Definition Zbyte (z : Z) : byte :=
  default x00 (Strings.Byte.of_N (Z.to_N (z mod 256))).

Lemma byteZ_range b : 0 <= byteZ b < 256.
Proof.
  unfold byteZ. pose proof (Strings.Byte.to_N_bounded b). lia.
Qed.

Lemma byteZ_inj b1 b2 : byteZ b1 = byteZ b2 -> b1 = b2.
Proof.
  unfold byteZ. intros Heq%N2Z.inj.
  apply (f_equal Strings.Byte.of_N) in Heq. rewrite !Strings.Byte.of_to_N in Heq. by injection Heq.
Qed.

Lemma Zbyte_byteZ b : Zbyte (byteZ b) = b.
Proof.
  unfold Zbyte. pose proof (byteZ_range b).
  rewrite Z.mod_small by lia. unfold byteZ. rewrite N2Z.id, Strings.Byte.of_to_N. done.
Qed.

Lemma byteZ_Zbyte z : byteZ (Zbyte z) = z mod 256.
Proof.
  unfold Zbyte. pose proof (Z.mod_pos_bound z 256 ltac:(lia)) as Hm.
  destruct (Strings.Byte.of_N (Z.to_N (z mod 256))) as [b|] eqn:Hb; simpl.
  - apply Strings.Byte.to_of_N in Hb. unfold byteZ. rewrite Hb. lia.
  - apply Strings.Byte.of_N_None_iff in Hb. lia.
Qed.

(** ** Generic lemmas *)

Lemma bind_Ok {E A B : Type} (m : result E A) (k : A -> result E B) b :
  m ≫= k = Ok b <-> exists a, m = Ok a /\ k a = Ok b.
Proof.
  destruct m; simpl; split; [eauto | by intros (? & [= ->] & ?) | done | by intros (? & [=] & ?)].
Qed.

Lemma check_Ok {E : Type} (b : bool) (e : E) u : check b e = Ok u <-> b = true.
Proof. destruct b, u; by split. Qed.

Lemma map_err_Ok {E F A : Type} (f : E -> F) (m : result E A) a :
  map_err f m = Ok a <-> m = Ok a.
Proof. destruct m; simpl; split; congruence. Qed.

Lemma Zlength_app' {A : Type} (l1 l2 : list A) :
  Z.of_nat (length (l1 ++ l2)) = Z.of_nat (length l1) + Z.of_nat (length l2).
Proof. rewrite length_app. lia. Qed.

(** ** Automation

    [pmux] collects the facts the components use again and again; [go_case]
    splits the conditionals of a translated Go function one at a time. *)

Create HintDb pmux.
#[export] Hint Resolve byteZ_range : pmux.
Create Rewrite HintDb pmux_ok.
Create Rewrite HintDb pmux_str.
#[export] Hint Rewrite @bind_Ok @check_Ok @map_err_Ok : pmux_ok.

Ltac go_case :=
  match goal with
  | |- context [ if ?b then _ else _ ] =>
      lazymatch b with
      | context [ if _ then _ else _ ] => fail
      | context [ match _ with _ => _ end ] => fail
      | _ => destruct b eqn:?
      end
  | |- context [ match ?x with _ => _ end ] =>
      lazymatch x with
      | context [ match _ with _ => _ end ] => fail
      | _ => destruct x eqn:?
      end
  end.

Ltac go_cases := repeat (go_case; simplify_eq/=; try done).

(** Turn boolean facts in the context into propositions. *)
Ltac bool_to_prop :=
  repeat match goal with
  | H : (_ && _)%bool = true |- _ => apply andb_true_iff in H as [??]
  | H : (_ || _)%bool = false |- _ => apply orb_false_iff in H as [??]
  | H : negb _ = true |- _ => apply negb_true_iff in H
  | H : negb _ = false |- _ => apply negb_false_iff in H
  | H : bool_decide _ = true |- _ => apply bool_decide_eq_true in H
  | H : bool_decide _ = false |- _ => apply bool_decide_eq_false in H
  | H : (_ <? _) = true |- _ => apply Z.ltb_lt in H
  | H : (_ <? _) = false |- _ => apply Z.ltb_ge in H
  | H : (_ <=? _) = true |- _ => apply Z.leb_le in H
  | H : (_ <=? _) = false |- _ => apply Z.leb_gt in H
  | H : (_ >? _) = true |- _ => rewrite Z.gtb_ltb in H
  | H : (_ >? _) = false |- _ => rewrite Z.gtb_ltb in H
  | H : (_ >=? _) = true |- _ => rewrite Z.geb_leb in H
  | H : (_ >=? _) = false |- _ => rewrite Z.geb_leb in H
  | H : (_ =? _) = true |- _ => apply Z.eqb_eq in H
  | H : (_ =? _) = false |- _ => apply Z.eqb_neq in H
  end.

(** [lia] with division and modulo by constants. *)
Ltac dlia := Z.to_euclidean_division_equations; lia.
