(* ===== verification/GoLib.v ===== *)
(** * The fragment of Go's standard library the agent uses

    [strings], [strconv], [encoding/hex] and [encoding/base64], written out
    as executable functions on byte strings (a Go [string] is a sequence of
    bytes, here [String.string]; a [[]byte] is [list byte]). Each definition
    follows the documented behaviour of the Go function of the same name for
    the argument shapes the agent uses (single-byte separators, base 10). *)

From S2P Require Import Prelude.
From Stdlib Require Import Ascii.
From Stdlib Require String.
Open Scope Z_scope.

Definition slen (s : string) : Z := Z.of_nat (String.length s).
Definition blen (b : list byte) : Z := Z.of_nat (length b).

(** [[]byte(s)] and [string(b)]. *)
Definition bytes_of (s : string) : list byte := String.list_byte_of_string s.
Definition string_of (b : list byte) : string := String.string_of_list_byte b.

Lemma bytes_of_app s t : bytes_of (s +:+ t) = (bytes_of s ++ bytes_of t)%list.
Proof.
  unfold bytes_of, String.list_byte_of_string.
  induction s as [|c s IH]; simpl; [done|]. by rewrite IH.
Qed.

Lemma string_of_bytes_of s : string_of (bytes_of s) = s.
Proof. apply String.string_of_list_byte_of_string. Qed.

Lemma bytes_of_inj s t : bytes_of s = bytes_of t -> s = t.
Proof. intros H. by rewrite <-(string_of_bytes_of s), H, string_of_bytes_of. Qed.

Lemma length_bytes_of s : length (bytes_of s) = String.length s.
Proof.
  unfold bytes_of, String.list_byte_of_string. rewrite length_map.
  induction s; simpl; congruence.
Qed.

Lemma slen_app s t : slen (s +:+ t) = slen s + slen t.
Proof.
  assert (String.length (s +:+ t) = String.length s + String.length t)%nat as H.
  { induction s as [|c s IH]; [done|]. simpl. by rewrite IH. }
  unfold slen. rewrite H. lia.
Qed.

Lemma slen_nonneg s : 0 <= slen s.
Proof. unfold slen. lia. Qed.

(** ** Package strings *)

Fixpoint sforall (P : ascii -> bool) (s : string) : bool :=
  match s with
  | EmptyString => true
  | String c s' => P c && sforall P s'
  end.

Fixpoint mem_char (c : ascii) (s : string) : bool :=
  match s with
  | EmptyString => false
  | String d s' => Ascii.eqb c d || mem_char c s'
  end.

Definition HasPrefix (s pre : string) : bool := String.prefix pre s.

Fixpoint drop_while (P : ascii -> bool) (s : string) : string :=
  match s with
  | EmptyString => EmptyString
  | String c s' => if P c then drop_while P s' else s
  end.

Fixpoint srev_app (s acc : string) : string :=
  match s with
  | EmptyString => acc
  | String c s' => srev_app s' (String c acc)
  end.
Definition srev (s : string) : string := srev_app s "".

(** [strings.TrimLeft], [TrimRight] and [Trim] with an ASCII cutset. *)
Definition TrimLeft (s cutset : string) : string :=
  drop_while (fun c => mem_char c cutset) s.
Definition TrimRight (s cutset : string) : string :=
  srev (drop_while (fun c => mem_char c cutset) (srev s)).
Definition Trim (s cutset : string) : string := TrimRight (TrimLeft s cutset) cutset.

(** [strings.TrimPrefix]. *)
Fixpoint sdrop (n : nat) (s : string) : string :=
  match n, s with
  | O, _ => s
  | S n', String _ s' => sdrop n' s'
  | S _, EmptyString => ""
  end.
Fixpoint stake (n : nat) (s : string) : string :=
  match n, s with
  | S n', String c s' => String c (stake n' s')
  | _, _ => ""
  end.
Definition TrimPrefix (s pre : string) : string :=
  if HasPrefix s pre then sdrop (String.length pre) s else s.

(** [strings.HasSuffix]. *)
Definition HasSuffix (s suf : string) : bool := String.prefix (srev suf) (srev s).

(** [strings.Contains]: [sub] starts somewhere in [s]. *)
Fixpoint Contains (s sub : string) : bool :=
  HasPrefix s sub ||
  match s with
  | EmptyString => false
  | String _ s' => Contains s' sub
  end.

(** The byte sequences Go's [strings.TrimSpace] removes: the six ASCII
    blanks, and the UTF-8 encodings of the other Unicode White_Space runes. *)
Definition space_runes : list string :=
  map string_of
    [[x09]; [x0a]; [x0b]; [x0c]; [x0d]; [x20];
     [xc2; x85]; [xc2; xa0]; [xe1; x9a; x80];
     [xe2; x80; x80]; [xe2; x80; x81]; [xe2; x80; x82]; [xe2; x80; x83];
     [xe2; x80; x84]; [xe2; x80; x85]; [xe2; x80; x86]; [xe2; x80; x87];
     [xe2; x80; x88]; [xe2; x80; x89]; [xe2; x80; x8a];
     [xe2; x80; xa8]; [xe2; x80; xa9]; [xe2; x80; xaf];
     [xe2; x81; x9f]; [xe3; x80; x80]].

Definition leading_space (runes : list string) (s : string) : option string :=
  find (fun r => HasPrefix s r) runes.

Fixpoint trim_runes (fuel : nat) (runes : list string) (s : string) : string :=
  match fuel with
  | O => s
  | S fuel' =>
      match leading_space runes s with
      | Some r => trim_runes fuel' runes (sdrop (String.length r) s)
      | None => s
      end
  end.

(** Every round removes at least one byte, so the length is enough fuel. *)
Definition TrimSpace (s : string) : string :=
  let l := trim_runes (String.length s) space_runes s in
  srev (trim_runes (String.length l) (map srev space_runes) (srev l)).

(** [strings.Split] on a single byte and [strings.SplitN] with a positive
    limit: at most [n] fields, the last one the unsplit rest. *)
Fixpoint split_aux (sep : ascii) (cur s : string) : list string :=
  match s with
  | EmptyString => [srev cur]
  | String c s' =>
      if Ascii.eqb c sep then srev cur :: split_aux sep "" s'
      else split_aux sep (String c cur) s'
  end.
Definition Split (s : string) (sep : ascii) : list string := split_aux sep "" s.

Fixpoint cut_at (sep : ascii) (s : string) : option (string * string) :=
  match s with
  | EmptyString => None
  | String c s' =>
      if Ascii.eqb c sep then Some ("", s')
      else match cut_at sep s' with
           | Some (a, b) => Some (String c a, b)
           | None => None
           end
  end.

Fixpoint SplitN (s : string) (sep : ascii) (n : nat) : list string :=
  match n with
  | O => []
  | S O => [s]
  | S n' =>
      match cut_at sep s with
      | Some (a, b) => a :: SplitN b sep n'
      | None => [s]
      end
  end.

Fixpoint Join (l : list string) (sep : string) : string :=
  match l with
  | [] => ""
  | [a] => a
  | a :: l' => a +:+ sep +:+ Join l' sep
  end.

(** [strings.Replace(s, old, new, 1)] for a non-empty [old]. *)
Fixpoint Replace1 (s old new : string) : string :=
  if HasPrefix s old then new +:+ sdrop (String.length old) s
  else match s with
       | EmptyString => ""
       | String c s' => String c (Replace1 s' old new)
       end.

(** [strings.ReplaceAll] of a single byte. *)
Fixpoint ReplaceByte (s : string) (old : ascii) (new : string) : string :=
  match s with
  | EmptyString => ""
  | String c s' =>
      if Ascii.eqb c old then new +:+ ReplaceByte s' old new
      else String c (ReplaceByte s' old new)
  end.

(** ASCII case mapping; [strings.ToLower] on ASCII input. *)
Definition is_ascii (s : string) : bool :=
  sforall (fun c => N.ltb (N_of_ascii c) 128) s.
Definition lower_char (c : ascii) : ascii :=
  let n := N_of_ascii c in
  if (N.leb 65 n && N.leb n 90)%N then ascii_of_N (n + 32) else c.
Fixpoint lower_ascii (s : string) : string :=
  match s with
  | EmptyString => ""
  | String c s' => String (lower_char c) (lower_ascii s')
  end.

(** ** Package strconv *)

Definition is_digit (c : ascii) : bool :=
  let n := N_of_ascii c in (N.leb 48 n && N.leb n 57)%N.
Definition digit_val (c : ascii) : Z := Z.of_N (N_of_ascii c) - 48.

Inductive NumError := ErrSyntax | ErrRange.

Definition maxInt64 : Z := 9223372036854775807.
Definition minInt64 : Z := -9223372036854775808.

(** The digit loop of [strconv.ParseUint]: it stops at the first character
    that is no digit, or at the first value over [max]. *)
Fixpoint parse_uint (max acc : Z) (s : string) : Z * option NumError :=
  match s with
  | EmptyString => (acc, None)
  | String c s' =>
      if is_digit c then
        let n := acc * 10 + digit_val c in
        if n >? max then (max, Some ErrRange) else parse_uint max n s'
      else (0, Some ErrSyntax)
  end.

(** [strconv.ParseUint(s, 10, bits)] with [max = 2^bits - 1]: the value and
    the error. *)
Definition ParseUint (s : string) (max : Z) : Z * option NumError :=
  match s with
  | EmptyString => (0, Some ErrSyntax)
  | _ => parse_uint max 0 s
  end.

Definition maxUint64 : Z := 18446744073709551615.

(** [strconv.ParseInt(s, 10, 64)], which is [strconv.Atoi] on a 64-bit
    platform: out of range the value is clamped and the error set, on a
    syntax error the value is 0. Callers that drop the error see the value. *)
Definition parse_signed (neg : bool) (body : string) : Z * option NumError :=
  match ParseUint body maxUint64 with
  | (_, Some ErrSyntax) => (0, Some ErrSyntax)
  | (un, _) =>
      if neg then
        if un <=? - minInt64 then (- un, None) else (minInt64, Some ErrRange)
      else
        if un <=? maxInt64 then (un, None) else (maxInt64, Some ErrRange)
  end.

Definition ParseInt (s : string) : Z * option NumError :=
  match s with
  | String "+"%char s' => parse_signed false s'
  | String "-"%char s' => parse_signed true s'
  | _ => parse_signed false s
  end.

Definition Atoi (s : string) : Z * option NumError := ParseInt s.

Definition digit_char (d : Z) : ascii := ascii_of_N (Z.to_N (48 + d)).

Fixpoint digits_of (fuel : nat) (n : Z) (acc : string) : string :=
  match fuel with
  | O => acc
  | S fuel' =>
      let acc' := String (digit_char (n mod 10)) acc in
      if n <? 10 then acc' else digits_of fuel' (n / 10) acc'
  end.

(** [strconv.FormatUint(n, 10)]: 20 digits hold every 64-bit value. *)
Definition FormatUint (n : Z) : string := digits_of 20 n "".
Definition Itoa (n : Z) : string :=
  if n <? 0 then "-" +:+ FormatUint (- n) else FormatUint n.

(** ** Package encoding/hex *)

Definition hex_digit (d : Z) : ascii :=
  if d <? 10 then ascii_of_N (Z.to_N (48 + d)) else ascii_of_N (Z.to_N (87 + d)).

Fixpoint hex_encode (b : list byte) : string :=
  match b with
  | [] => ""
  | x :: b' =>
      String (hex_digit (byteZ x / 16)) (String (hex_digit (byteZ x mod 16)) (hex_encode b'))
  end.

Definition hex_val (c : ascii) : option Z :=
  let n := Z.of_N (N_of_ascii c) in
  if (48 <=? n) && (n <=? 57) then Some (n - 48)
  else if (97 <=? n) && (n <=? 102) then Some (n - 87)
  else if (65 <=? n) && (n <=? 70) then Some (n - 55)
  else None.

(** [hex.DecodeString]: both cases accepted, odd lengths refused. *)
Fixpoint hex_decode (s : string) : option (list byte) :=
  match s with
  | EmptyString => Some []
  | String c (String d s') =>
      match hex_val c, hex_val d, hex_decode s' with
      | Some a, Some b, Some r => Some (Zbyte (a * 16 + b) :: r)
      | _, _, _ => None
      end
  | String _ EmptyString => None
  end.

(** Lowercase hexadecimal, the character class [[0-9a-f]]. *)
Definition is_lower_hex (c : ascii) : bool :=
  let n := N_of_ascii c in
  ((N.leb 48 n && N.leb n 57) || (N.leb 97 n && N.leb n 102))%N.

(** ** Package encoding/base64, [StdEncoding] *)

Definition b64_char (d : Z) : ascii :=
  if d <? 26 then ascii_of_N (Z.to_N (65 + d))
  else if d <? 52 then ascii_of_N (Z.to_N (71 + d))
  else if d <? 62 then ascii_of_N (Z.to_N (d - 4))
  else if d =? 62 then "+"%char else "/"%char.

Definition b64_val (c : ascii) : option Z :=
  let n := Z.of_N (N_of_ascii c) in
  if (65 <=? n) && (n <=? 90) then Some (n - 65)
  else if (97 <=? n) && (n <=? 122) then Some (n - 71)
  else if (48 <=? n) && (n <=? 57) then Some (n + 4)
  else if n =? 43 then Some 62
  else if n =? 47 then Some 63
  else None.

Fixpoint b64_encode (b : list byte) : string :=
  match b with
  | [] => ""
  | [x] =>
      let n := byteZ x * 65536 in
      String (b64_char (n / 262144)) (String (b64_char (n / 4096 mod 64)) "==")
  | [x; y] =>
      let n := byteZ x * 65536 + byteZ y * 256 in
      String (b64_char (n / 262144)) (String (b64_char (n / 4096 mod 64))
        (String (b64_char (n / 64 mod 64)) "="))
  | x :: y :: z :: b' =>
      let n := byteZ x * 65536 + byteZ y * 256 + byteZ z in
      String (b64_char (n / 262144)) (String (b64_char (n / 4096 mod 64))
        (String (b64_char (n / 64 mod 64)) (String (b64_char (n mod 64)) (b64_encode b'))))
  end.

(** The decoder skips CR and LF anywhere in its input. *)
Fixpoint strip_crlf (s : string) : string :=
  match s with
  | EmptyString => ""
  | String c s' =>
      if Ascii.eqb c "010"%char || Ascii.eqb c "013"%char then strip_crlf s'
      else String c (strip_crlf s')
  end.

Fixpoint b64_quads (s : string) : option (list byte) :=
  match s with
  | EmptyString => Some []
  | String c1 (String c2 (String c3 (String c4 rest))) =>
      match b64_val c1, b64_val c2 with
      | Some a, Some b =>
          if Ascii.eqb c3 "="%char then
            (* two padding bytes end the input; trailing bits are ignored *)
            if Ascii.eqb c4 "="%char && String.eqb rest "" then
              Some [Zbyte ((a * 262144 + b * 4096) / 65536)]
            else None
          else
            match b64_val c3 with
            | None => None
            | Some c =>
                if Ascii.eqb c4 "="%char then
                  if String.eqb rest "" then
                    let n := a * 262144 + b * 4096 + c * 64 in
                    Some [Zbyte (n / 65536); Zbyte (n / 256)]
                  else None
                else
                  match b64_val c4, b64_quads rest with
                  | Some d, Some r =>
                      let n := a * 262144 + b * 4096 + c * 64 + d in
                      Some (Zbyte (n / 65536) :: Zbyte (n / 256) :: Zbyte n :: r)
                  | _, _ => None
                  end
            end
      | _, _ => None
      end
  | _ => None
  end.

Definition b64_decode (s : string) : option (list byte) := b64_quads (strip_crlf s).

(** ** Lemmas *)

Lemma b64_val_char d : 0 <= d < 64 -> b64_val (b64_char d) = Some d.
Proof.
  intros Hd.
  assert (forallb (fun d => bool_decide (b64_val (b64_char d) = Some d)) (seqZ 0 64) = true)
    as Hall by (vm_compute; reflexivity).
  rewrite forallb_forall in Hall. specialize (Hall d).
  eapply bool_decide_eq_true_1, Hall, list_elem_of_In, elem_of_seqZ. lia.
Qed.

Lemma b64_char_not_pad d : 0 <= d < 64 -> Ascii.eqb (b64_char d) "=" = false.
Proof.
  intros Hd. destruct (Ascii.eqb_spec (b64_char d) "=") as [He|]; [|done].
  pose proof (b64_val_char d Hd) as Hv. rewrite He in Hv. done.
Qed.

Lemma b64_char_not_crlf d : 0 <= d < 64 ->
  (Ascii.eqb (b64_char d) "010" || Ascii.eqb (b64_char d) "013")%bool = false.
Proof.
  intros Hd. pose proof (b64_val_char d Hd) as Hv.
  destruct (Ascii.eqb_spec (b64_char d) "010") as [He|]; [rewrite He in Hv; done|].
  destruct (Ascii.eqb_spec (b64_char d) "013") as [He|]; [rewrite He in Hv; done|done].
Qed.

(** Induction three bytes at a time, the shape of [b64_encode]. *)
Lemma list_ind3 {A} (P : list A -> Prop) :
  P [] -> (forall x, P [x]) -> (forall x y, P [x; y]) ->
  (forall x y z l, P l -> P (x :: y :: z :: l)) -> forall l, P l.
Proof.
  intros H0 H1 H2 H3.
  fix IH 1. intros [|x [|y [|z l]]]; [done|apply H1|apply H2|apply H3, IH].
Qed.

Ltac b64_digits :=
  repeat match goal with
  | |- context [Ascii.eqb (b64_char ?d) "="] => rewrite (b64_char_not_pad d) by dlia
  | |- context [b64_val (b64_char ?d)] => rewrite (b64_val_char d) by dlia
  | |- context [(Ascii.eqb (b64_char ?d) "010" || _)%bool] => rewrite (b64_char_not_crlf d) by dlia
  end.

Ltac byte_ranges :=
  repeat match goal with
  | x : byte |- _ =>
      lazymatch goal with
      | _ : 0 <= byteZ x < 256 |- _ => fail
      | _ => pose proof (byteZ_range x)
      end
  end.

Lemma Zbyte_eq z x : z mod 256 = byteZ x -> Zbyte z = x.
Proof. intros H. apply byteZ_inj. by rewrite byteZ_Zbyte. Qed.

Lemma b64_encode_no_crlf b : strip_crlf (b64_encode b) = b64_encode b.
Proof.
  induction b as [|x|x y|x y z b IH] using list_ind3; [done|..];
    byte_ranges; cbn [b64_encode strip_crlf]; cbv zeta; b64_digits; [done|done|by rewrite IH].
Qed.

Lemma b64_quads_encode b : b64_quads (b64_encode b) = Some b.
Proof.
  induction b as [|x|x y|x y z b IH] using list_ind3; [done|..];
    byte_ranges; cbn [b64_encode b64_quads]; cbv zeta; b64_digits.
  - simpl. do 2 f_equal. apply Zbyte_eq. dlia.
  - simpl. do 2 f_equal; [apply Zbyte_eq; dlia|]. f_equal. apply Zbyte_eq. dlia.
  - rewrite IH. f_equal. repeat f_equal; apply Zbyte_eq; dlia.
Qed.

Lemma b64_decode_encode b : b64_decode (b64_encode b) = Some b.
Proof. unfold b64_decode. by rewrite b64_encode_no_crlf, b64_quads_encode. Qed.

Lemma b64_encode_inj a b : b64_encode a = b64_encode b -> a = b.
Proof. intros H. apply (f_equal b64_decode) in H. rewrite !b64_decode_encode in H. by injection H. Qed.

Lemma hex_digit_spec d : 0 <= d < 16 -> hex_val (hex_digit d) = Some d /\ is_lower_hex (hex_digit d) = true.
Proof.
  intros Hd.
  assert (forallb (fun d => bool_decide (hex_val (hex_digit d) = Some d) && is_lower_hex (hex_digit d))
            (seqZ 0 16) = true) as Hall by (vm_compute; reflexivity).
  rewrite forallb_forall in Hall. specialize (Hall d).
  ospecialize (Hall _); [apply list_elem_of_In, elem_of_seqZ; lia|].
  by apply andb_true_iff in Hall as [?%bool_decide_eq_true ?].
Qed.

Lemma hex_val_digit d : 0 <= d < 16 -> hex_val (hex_digit d) = Some d.
Proof. apply hex_digit_spec. Qed.

Lemma hex_digit_lower d : 0 <= d < 16 -> is_lower_hex (hex_digit d) = true.
Proof. apply hex_digit_spec. Qed.

Lemma hex_encode_lower b : sforall is_lower_hex (hex_encode b) = true.
Proof.
  induction b as [|x b IH]; [done|]. byte_ranges. simpl.
  by rewrite IH, !hex_digit_lower by dlia.
Qed.

Lemma slen_hex_encode b : slen (hex_encode b) = 2 * blen b.
Proof. unfold slen, blen. induction b as [|x b IH]; [done|]. cbn [hex_encode String.length length]. lia. Qed.

Lemma hex_decode_encode b : hex_decode (hex_encode b) = Some b.
Proof.
  induction b as [|x b IH]; [done|]. byte_ranges. simpl.
  rewrite !hex_val_digit, IH by dlia. do 2 f_equal. apply Zbyte_eq. dlia.
Qed.

#[export] Hint Rewrite b64_decode_encode hex_decode_encode slen_hex_encode : pmux_str.

(** *** Decimal numbers *)

Lemma digit_char_spec d : 0 <= d < 10 ->
  is_digit (digit_char d) = true /\ digit_val (digit_char d) = d.
Proof.
  intros Hd.
  assert (forallb (fun d => is_digit (digit_char d) && (digit_val (digit_char d) =? d))
            (seqZ 0 10) = true) as Hall by (vm_compute; reflexivity).
  rewrite forallb_forall in Hall. specialize (Hall d).
  ospecialize (Hall _); [apply list_elem_of_In, elem_of_seqZ; lia|].
  apply andb_true_iff in Hall as [? ?%Z.eqb_eq]. done.
Qed.

Lemma parse_uint_digits fuel max n acc :
  0 <= n < 10 ^ Z.of_nat fuel -> n <= max -> fuel <> O ->
  parse_uint max 0 (digits_of fuel n acc) = parse_uint max n acc.
Proof.
  revert n acc. induction fuel as [|fuel IH]; intros n acc Hn Hmax Hf; [done|].
  cbn [digits_of]. destruct (n <? 10) eqn:Hlt; bool_to_prop.
  - rewrite Z.mod_small by lia. destruct (digit_char_spec n) as [Hd Hv]; [lia|].
    cbn [parse_uint]. rewrite Hd, Hv. cbv zeta. rewrite Z.mul_0_l, Z.add_0_l.
    destruct (n >? max) eqn:Hgt; bool_to_prop; [lia|done].
  - rewrite Nat2Z.inj_succ, Z.pow_succ_r in Hn by lia.
    destruct fuel as [|fuel']; [simpl in Hn; lia|].
    rewrite IH; [|split; [apply Z.div_pos; lia|apply Z.div_lt_upper_bound; lia]|dlia|done].
    destruct (digit_char_spec (n mod 10)) as [Hd Hv]; [dlia|].
    cbn [parse_uint]. rewrite Hd, Hv. cbv zeta.
    replace (n / 10 * 10 + n mod 10) with n by dlia.
    destruct (n >? max) eqn:Hgt; bool_to_prop; [lia|done].
Qed.

Lemma digits_of_nonempty fuel n acc : (fuel <> O \/ acc <> "") -> digits_of fuel n acc <> "".
Proof.
  revert n acc. induction fuel as [|fuel IH]; intros n acc H; [by destruct H|].
  cbn [digits_of]. destruct (n <? 10); [done|]. apply IH. by right.
Qed.

Lemma ParseUint_FormatUint n max :
  0 <= n <= max -> n < 10 ^ 20 -> ParseUint (FormatUint n) max = (n, None).
Proof.
  intros Hn Hlt. unfold ParseUint, FormatUint.
  pose proof (digits_of_nonempty 20 n "") as Hne.
  destruct (digits_of 20 n "") as [|c s] eqn:Hd; [exfalso; apply Hne; [by left|done]|].
  rewrite <-Hd, parse_uint_digits; [done|simpl; lia|lia|done].
Qed.

(** *** Fields joined by a separator *)

Lemma append_sep_inj c a1 a2 b1 b2 :
  mem_char c a1 = false -> mem_char c a2 = false ->
  a1 +:+ String c b1 = a2 +:+ String c b2 -> a1 = a2 /\ b1 = b2.
Proof.
  revert a2. induction a1 as [|x a1 IH]; intros [|y a2]; cbn; intros H1 H2 Heq.
  - by injection Heq.
  - injection Heq as -> _. by rewrite Ascii.eqb_refl in H2.
  - injection Heq as <- _. by rewrite Ascii.eqb_refl in H1.
  - injection Heq as <- Heq. apply orb_false_iff in H1 as [_ H1], H2 as [_ H2].
    destruct (IH _ H1 H2 Heq) as [-> ->]. done.
Qed.

Lemma sforall_mem P c s : sforall P s = true -> mem_char c s = true -> P c = true.
Proof.
  induction s as [|x s IH]; cbn; [done|]. intros [Hx Hs]%andb_true_iff [Hc|Hc]%orb_true_iff; [|auto].
  by apply Ascii.eqb_eq in Hc as ->.
Qed.

Lemma sforall_not_mem P c s : sforall P s = true -> P c = false -> mem_char c s = false.
Proof.
  intros Hs Hc. destruct (mem_char c s) eqn:Hm; [|done]. pose proof (sforall_mem _ _ _ Hs Hm). congruence.
Qed.

Lemma append_inj_l a b1 b2 : a +:+ b1 = a +:+ b2 -> b1 = b2.
Proof. induction a as [|x a IH]; cbn; [done|]. intros [= H]. auto. Qed.

Lemma append_assoc a b c : (a +:+ b) +:+ c = a +:+ (b +:+ c).
Proof.
  induction a as [|x a IH]; [done|].
  change (String x ((a +:+ b) +:+ c) = String x (a +:+ (b +:+ c))). by rewrite IH.
Qed.

Lemma append_length_inj a1 a2 b1 b2 :
  slen a1 = slen a2 -> a1 +:+ b1 = a2 +:+ b2 -> a1 = a2 /\ b1 = b2.
Proof.
  unfold slen. revert a2. induction a1 as [|x a1 IH]; intros [|y a2]; cbn; intros Hl Heq; try lia; [done|].
  injection Heq as -> Heq. destruct (IH a2) as [-> ->]; [lia|done..].
Qed.

Lemma parse_uint_range max acc s n :
  0 <= acc <= max -> parse_uint max acc s = (n, None) -> 0 <= n <= max.
Proof.
  revert acc. induction s as [|c s IH]; intros acc Hacc; cbn; [by intros [= <-]|].
  destruct (is_digit c) eqn:Hc; [|done].
  assert (0 <= digit_val c) as Hd.
  { unfold is_digit in Hc. apply andb_true_iff in Hc as [Hc _].
    apply N.leb_le in Hc. unfold digit_val. lia. }
  destruct (_ >? _) eqn:Hgt; [done|]. bool_to_prop. apply IH. lia.
Qed.

Lemma ParseUint_range s max n : 0 <= max -> ParseUint s max = (n, None) -> 0 <= n <= max.
Proof. intros Hm. unfold ParseUint. destruct s; [done|]. apply parse_uint_range. lia. Qed.

(** ** Package unicode/utf8 *)

Definition RuneError : Z := 65533.

(** A valid Unicode scalar value. *)
Definition is_scalar (r : Z) : bool :=
  ((0 <=? r) && (r <=? 55295)) || ((57344 <=? r) && (r <=? 1114111)).

(** [utf8.EncodeRune]: an invalid rune is encoded as U+FFFD. *)
Definition encode_rune (r : Z) : list byte :=
  if negb (is_scalar r) then [xef; xbf; xbd]
  else if r <? 128 then [Zbyte r]
  else if r <? 2048 then [Zbyte (192 + r / 64); Zbyte (128 + r mod 64)]
  else if r <? 65536 then
    [Zbyte (224 + r / 4096); Zbyte (128 + r / 64 mod 64); Zbyte (128 + r mod 64)]
  else
    [Zbyte (240 + r / 262144); Zbyte (128 + r / 4096 mod 64);
     Zbyte (128 + r / 64 mod 64); Zbyte (128 + r mod 64)].

Definition in_range (lo hi : Z) (b : byte) : bool := (lo <=? byteZ b) && (byteZ b <=? hi).
Definition is_cont : byte -> bool := in_range 128 191.

(** The range the second byte must lie in, by the first. *)
Definition second_range (b0 : Z) : Z * Z :=
  if b0 =? 224 then (160, 191)
  else if b0 =? 237 then (128, 159)
  else if b0 =? 240 then (144, 191)
  else if b0 =? 244 then (128, 143)
  else (128, 191).

(** [utf8.DecodeRune] on a non-empty input: the rune and the bytes after it;
    an invalid sequence yields U+FFFD and consumes one byte. *)
Definition decode_rune (b : byte) (rest : list byte) : Z * list byte :=
  let b0 := byteZ b in
  let '(lo, hi) := second_range b0 in
  if b0 <? 128 then (b0, rest)
  else if (194 <=? b0) && (b0 <=? 223) then
    match rest with
    | c1 :: rest1 =>
        if is_cont c1 then ((b0 - 192) * 64 + (byteZ c1 - 128), rest1) else (RuneError, rest)
    | [] => (RuneError, rest)
    end
  else if (224 <=? b0) && (b0 <=? 239) then
    match rest with
    | c1 :: c2 :: rest2 =>
        if in_range lo hi c1 && is_cont c2
        then ((b0 - 224) * 4096 + (byteZ c1 - 128) * 64 + (byteZ c2 - 128), rest2)
        else (RuneError, rest)
    | _ => (RuneError, rest)
    end
  else if (240 <=? b0) && (b0 <=? 244) then
    match rest with
    | c1 :: c2 :: c3 :: rest3 =>
        if in_range lo hi c1 && is_cont c2 && is_cont c3
        then ((b0 - 240) * 262144 + (byteZ c1 - 128) * 4096 + (byteZ c2 - 128) * 64 + (byteZ c3 - 128), rest3)
        else (RuneError, rest)
    | _ => (RuneError, rest)
    end
  else (RuneError, rest).

Fixpoint runes_of (fuel : nat) (b : list byte) : list Z :=
  match fuel, b with
  | S fuel', x :: rest => let '(r, rest') := decode_rune x rest in r :: runes_of fuel' rest'
  | _, _ => []
  end.

(** The conversions [[]rune(s)] and [string(runes)]: each rune takes at least
    one byte. *)
Definition runes (s : string) : list Z := runes_of (String.length s) (bytes_of s).
Definition string_of_runes (l : list Z) : string := string_of (concat (map encode_rune l)).

(** [strings.Map] with a mapping that keeps or drops a rune. *)
Definition filter_runes (keep : Z -> bool) (s : string) : string :=
  string_of_runes (base.filter (fun r => keep r = true) (runes s)).

Lemma decode_rune_scalar b rest : is_scalar (fst (decode_rune b rest)) = true.
Proof.
  unfold decode_rune. pose proof (byteZ_range b). unfold second_range, is_cont, in_range.
  destruct (byteZ b <? 128) eqn:?;
    [repeat case_match; simplify_eq; cbn; unfold is_scalar; bool_to_prop; apply orb_true_iff; left; lia|].
  repeat case_match; simplify_eq; cbn [fst]; try reflexivity; unfold is_scalar;
    bool_to_prop; rewrite orb_true_iff, !andb_true_iff, !Z.leb_le; lia.
Qed.

Lemma bytes_of_string_of b : bytes_of (string_of b) = b.
Proof. apply String.list_byte_of_string_of_list_byte. Qed.

Lemma decode_encode_rune r rest : is_scalar r = true ->
  exists b bs, encode_rune r = b :: bs /\ decode_rune b (bs ++ rest) = (r, rest).
Proof.
  intros Hr. unfold encode_rune. rewrite Hr. cbn [negb].
  unfold is_scalar in Hr. rewrite orb_true_iff, !andb_true_iff, !Z.leb_le in Hr.
  assert (forall z, 0 <= z < 256 -> byteZ (Zbyte z) = z) as HZ.
  { intros z Hz. rewrite byteZ_Zbyte. by apply Z.mod_small. }
  unfold decode_rune, is_cont, in_range, second_range.
  destruct (r <? 128) eqn:H1; [|destruct (r <? 2048) eqn:H2; [|destruct (r <? 65536) eqn:H3]];
    bool_to_prop; do 2 eexists; (split; [reflexivity|]); cbn [app];
    rewrite !HZ by dlia.
  all: repeat case_match; bool_to_prop; simplify_eq; rewrite ?andb_false_iff, ?Z.leb_gt in *;
    try (f_equal; dlia); exfalso; dlia.
Qed.

Lemma runes_of_encode l fuel rest :
  Forall (fun r => is_scalar r = true) l ->
  (length (concat (map encode_rune l) ++ rest) <= fuel)%nat ->
  exists fuel', runes_of fuel (concat (map encode_rune l) ++ rest) = (l ++ runes_of fuel' rest)%list /\
    (length rest <= fuel')%nat.
Proof.
  intros Hl. revert fuel. induction Hl as [|r l Hr Hl IH]; intros fuel Hf; [by exists fuel|].
  destruct (decode_encode_rune r (concat (map encode_rune l) ++ rest) Hr) as (b & bs & He & Hd).
  cbn [map concat] in *. rewrite He in *. cbn [app] in *. rewrite <-app_assoc in *.
  destruct fuel as [|fuel]; cbn [length] in Hf; [lia|]. cbn [runes_of]. rewrite Hd.
  destruct (IH fuel) as (fuel' & -> & Hf'); [rewrite !length_app in *; lia|]. by exists fuel'.
Qed.

Lemma runes_of_scalar fuel b : Forall (fun r => is_scalar r = true) (runes_of fuel b).
Proof.
  revert b. induction fuel as [|fuel IH]; intros [|x b]; cbn; try constructor.
  pose proof (decode_rune_scalar x b) as Hs. destruct (decode_rune x b) as [r rest]. by constructor.
Qed.

Lemma runes_string_of_runes l :
  Forall (fun r => is_scalar r = true) l -> runes (string_of_runes l) = l.
Proof.
  intros Hl. unfold runes, string_of_runes. rewrite bytes_of_string_of.
  rewrite <-(app_nil_r (concat _)).
  destruct (runes_of_encode l (String.length (string_of (concat (map encode_rune l) ++ []))) [] Hl)
    as (fuel' & -> & _).
  - by rewrite <-length_bytes_of, bytes_of_string_of, app_nil_r.
  - destruct fuel'; cbn; by rewrite app_nil_r.
Qed.

(** *** Splitting what was joined *)

Lemma append_nil_r s : s +:+ "" = s.
Proof. induction s as [|c s IH]; [done|]. change (String c (s +:+ "") = String c s). by rewrite IH. Qed.

Lemma srev_app_spec s acc : srev_app s acc = srev s +:+ acc.
Proof.
  revert acc. induction s as [|c s IH]; intros acc; [done|].
  unfold srev. cbn [srev_app]. rewrite !IH, append_assoc. done.
Qed.

Lemma srev_cons c s : srev (String c s) = srev s +:+ String c "".
Proof. unfold srev. cbn [srev_app]. apply srev_app_spec. Qed.

Lemma split_aux_last sep cur s : mem_char sep s = false -> split_aux sep cur s = [srev cur +:+ s].
Proof.
  revert cur. induction s as [|c s IH]; intros cur; cbn; [by rewrite append_nil_r|].
  intros [Hc Hs]%orb_false_iff. rewrite Ascii.eqb_sym, Hc, IH by done.
  by rewrite srev_cons, append_assoc.
Qed.

Lemma split_aux_field sep cur a s : mem_char sep a = false ->
  split_aux sep cur (a +:+ String sep s) = (srev cur +:+ a) :: split_aux sep "" s.
Proof.
  revert cur. induction a as [|c a IH]; intros cur.
  - intros _. change ("" +:+ String sep s) with (String sep s). cbn [split_aux].
    by rewrite Ascii.eqb_refl, append_nil_r.
  - cbn [mem_char]. intros [Hc Hs]%orb_false_iff.
    change (String c a +:+ String sep s) with (String c (a +:+ String sep s)). cbn [split_aux].
    rewrite Ascii.eqb_sym, Hc, IH by done. by rewrite srev_cons, append_assoc.
Qed.

Lemma Split_Join sep l : l <> [] -> Forall (fun a => mem_char sep a = false) l ->
  Split (Join l (String sep "")) sep = l.
Proof.
  intros Hne Hl. unfold Split. induction Hl as [|a l Ha Hl IH]; [done|].
  destruct l as [|b l]; [by rewrite split_aux_last|].
  change (Join (a :: b :: l) (String sep "")) with (a +:+ String sep (Join (b :: l) (String sep ""))).
  rewrite split_aux_field by done. by rewrite IH.
Qed.

Lemma Itoa_Atoi n max : 0 <= n <= max -> n < 10 ^ 20 -> ParseUint (Itoa n) max = (n, None).
Proof.
  intros Hn Hlt. unfold Itoa. destruct (n <? 0) eqn:H; bool_to_prop; [lia|]. by apply ParseUint_FormatUint.
Qed.

Lemma Itoa_inj n m : 0 <= n < 10 ^ 20 -> 0 <= m < 10 ^ 20 -> Itoa n = Itoa m -> n = m.
Proof.
  intros Hn Hm H. pose proof (Itoa_Atoi n (10 ^ 20) ltac:(lia) ltac:(lia)) as H1.
  rewrite H, Itoa_Atoi in H1 by lia. congruence.
Qed.

Lemma digits_of_digits fuel n acc : 0 <= n -> sforall is_digit acc = true ->
  sforall is_digit (digits_of fuel n acc) = true.
Proof.
  revert n acc. induction fuel as [|fuel IH]; intros n acc Hn Ha; [done|]. cbn [digits_of].
  assert (sforall is_digit (String (digit_char (n mod 10)) acc) = true) as Hd.
  { cbn [sforall]. rewrite Ha, andb_true_r. apply digit_char_spec. dlia. }
  destruct (n <? 10); [done|]. apply IH; [dlia|done].
Qed.

Lemma Itoa_digits c n : 0 <= n -> is_digit c = false -> mem_char c (Itoa n) = false.
Proof.
  intros Hn Hc. unfold Itoa. destruct (n <? 0) eqn:H; bool_to_prop; [lia|].
  eapply sforall_not_mem; [|done]. by apply digits_of_digits.
Qed.

Lemma mem_char_app c s1 s2 : mem_char c (s1 +:+ s2) = mem_char c s1 || mem_char c s2.
Proof.
  induction s1 as [|d s1 IH]; [done|].
  change (String d s1 +:+ s2) with (String d (s1 +:+ s2)). cbn [mem_char]. by rewrite IH, orb_assoc.
Qed.

