(* ===== verification/GoText.v ===== *)
(** * More of Go's standard library: words, lines, paths, durations

    [strings.Fields], the lines of a [bufio.Scanner], case-insensitive
    comparison, [strconv.Quote], lexical file paths and [time.ParseDuration],
    as executable functions on byte strings. *)

From S2P Require Import Prelude GoLib.
From Stdlib Require Import Ascii.
From Stdlib Require Floats.SpecFloat.
Open Scope Z_scope.

(** ** Words and lines *)

(** [strings.Fields]. *)
Fixpoint fields (skip : nat) (cur s : string) : list string :=
  let flush l := if decide (cur = "") then l else cur :: l in
  match s with
  | EmptyString => flush []
  | String c rest =>
      match skip with
      | S k => fields k cur rest
      | O =>
          match leading_space space_runes s with
          | Some r => flush (fields (String.length r - 1) "" rest)
          | None => fields 0 (cur +:+ String c "") rest
          end
      end
  end.
Definition Fields (s : string) : list string := fields 0 "" s.

Definition newline : ascii := "010"%char.

Definition dropCR (s : string) : string :=
  if HasSuffix s (String "013"%char "") then stake (String.length s - 1) s else s.

(** The lines a [bufio.Scanner] yields: it stops at a line that does not fit
    its 64 KiB buffer. *)
Fixpoint scanLines (pieces : list string) : list string :=
  match pieces with
  | [] => []
  | [line] => if decide (line = "") then [] else if slen line <? 65536 then [dropCR line] else []
  | line :: rest => if slen line <? 65536 then dropCR line :: scanLines rest else []
  end.
Definition Lines (data : list byte) : list string := scanLines (Split (string_of data) newline).

(** [filepath.Base]: the last element, without trailing slashes. *)
Definition Base (s : string) : string :=
  if decide (s = "") then "." else
  let s := TrimRight s "/" in
  if decide (s = "") then "/" else List.last (Split s "/"%char) "".

(** [strings.TrimSuffix]. *)
Definition TrimSuffix (s suf : string) : string :=
  if HasSuffix s suf then stake (String.length s - String.length suf) s else s.

(** ** Comparison with a lower-case ASCII word

    [strings.ToLower] maps two runes beyond ASCII to ASCII letters; every
    other one, and an invalid byte, stays beyond ASCII. *)
Definition lower_rune (r : Z) : Z :=
  if (65 <=? r) && (r <=? 90) then r + 32
  else if r =? 304 then 105
  else if r =? 8490 then 107
  else if r <? 128 then r
  else RuneError.

(** [strings.ToLower(s) == word]. *)
Definition EqualsLower (s word : string) : bool :=
  bool_decide (map lower_rune (runes s) = runes word).

Fixpoint infix_of (sub l : list Z) : bool :=
  bool_decide (take (length sub) l = sub) || match l with [] => false | _ :: l => infix_of sub l end.

(** [strings.Contains(strings.ToLower(s), word)]. *)
Definition ContainsLower (s word : string) : bool := infix_of (runes word) (map lower_rune (runes s)).

(** The text before and after the first occurrence of [sep]: [strings.Index],
    [strings.Cut]. *)
Fixpoint Cut (s sep : string) : option (string * string) :=
  if HasPrefix s sep then Some ("", sdrop (String.length sep) s) else
  match s with
  | EmptyString => None
  | String c rest => '(a, b) ← Cut rest sep; Some (String c a, b)
  end.

(** ** strconv.Quote *)

Definition backslash : string := String "092"%char "".
Definition doubleQuote : string := String "034"%char "".

(** [n] hexadecimal digits of [r]. *)
Fixpoint hexDigits (n : nat) (r : Z) : string :=
  match n with
  | O => ""
  | S n' => hexDigits n' (r / 16) +:+ String (hex_digit (r mod 16)) ""
  end.

Section Quote.
(** [strconv.IsPrint]. *)
Variable IsPrint : Z -> bool.

Definition escapeRune (r : Z) : string :=
  if (r =? 34) || (r =? 92) then backslash +:+ string_of (encode_rune r)
  else if IsPrint r then string_of (encode_rune r)
  else backslash +:+
    (if r =? 7 then "a" else if r =? 8 then "b" else if r =? 12 then "f" else if r =? 10 then "n"
     else if r =? 13 then "r" else if r =? 9 then "t" else if r =? 11 then "v"
     else if (r <? 32) || (r =? 127) then "x" +:+ hexDigits 2 r
     else if r <? 65536 then "u" +:+ hexDigits 4 r
     else "U" +:+ hexDigits 8 r).

(** Every round consumes a byte; an invalid one is written in hexadecimal. *)
Fixpoint quoteBody (fuel : nat) (b : list byte) : string :=
  match fuel, b with
  | S fuel', x :: rest =>
      let '(r, rest') := decode_rune x rest in
      (if (r =? RuneError) && (length rest' =? length rest)%nat
       then backslash +:+ "x" +:+ hexDigits 2 (byteZ x)
       else escapeRune r) +:+ quoteBody fuel' rest'
  | _, _ => ""
  end.

Definition Quote (s : string) : string :=
  doubleQuote +:+ quoteBody (String.length s) (bytes_of s) +:+ doubleQuote.
End Quote.

(** ** Package path/filepath *)

Definition slash : ascii := "/"%char.

(** One element of a path, onto the elements kept so far (the last first). *)
Definition cleanStep (rooted : bool) (kept : list string) (e : string) : list string :=
  if bool_decide (e = "") || bool_decide (e = ".") then kept
  else if bool_decide (e = "..") then
    match kept with
    | top :: below => if bool_decide (top = "..") then e :: kept else below
    | [] => if rooted then [] else [e]
    end
  else e :: kept.

Definition IsAbs (path : string) : bool := HasPrefix path "/".

Definition Clean (path : string) : string :=
  if decide (path = "") then "." else
  let rooted := IsAbs path in
  let kept := rev (foldl (cleanStep rooted) [] (Split path slash)) in
  let out := (if rooted then "/" else "") +:+ GoLib.Join kept "/" in
  if decide (out = "") then "." else out.

Definition JoinPath (dir name : string) : string :=
  match base.filter (fun e => e <> "") [dir; name] with
  | [] => ""
  | l => Clean (GoLib.Join l "/")
  end.

(** ** time.ParseDuration *)

Module Time.
Import SpecFloat.

Definition Nanosecond : Z := 1.
Definition Microsecond : Z := 1000.
Definition Millisecond : Z := 1000000.
Definition Second : Z := 1000000000.
Definition Minute : Z := 60 * Second.
Definition Hour : Z := 60 * Minute.

Inductive DurationError := InvalidDuration | MissingUnit | UnknownUnit (u : string).

Definition two63 : Z := 9223372036854775808.

(** float64. *)
Definition float (z : Z) : spec_float := binary_normalize 53 1024 z 0 false.
Definition fmul : spec_float -> spec_float -> spec_float := SFmul 53 1024.
Definition fdiv : spec_float -> spec_float -> spec_float := SFdiv 53 1024.
(** The conversion of a non-negative number to [uint64] truncates. *)
Definition ftrunc (x : spec_float) : Z :=
  match x with
  | S754_finite _ m e => if 0 <=? e then Zpos m * 2 ^ e else Zpos m / 2 ^ (- e)
  | _ => 0
  end.

Definition unitMap (u : string) : option Z :=
  if decide (u = "ns") then Some Nanosecond
  else if decide (u = "us") then Some Microsecond
  else if decide (u = string_of [xc2; xb5; x73]) then Some Microsecond
  else if decide (u = string_of [xce; xbc; x73]) then Some Microsecond
  else if decide (u = "ms") then Some Millisecond
  else if decide (u = "s") then Some Second
  else if decide (u = "m") then Some Minute
  else if decide (u = "h") then Some Hour
  else None.

Fixpoint leadingInt (x : Z) (s : string) : option (Z * string) :=
  match s with
  | String c rest =>
      if is_digit c then
        if x >? two63 / 10 then None else
        let x := x * 10 + digit_val c in
        if x >? two63 then None else leadingInt x rest
      else Some (x, s)
  | EmptyString => Some (x, s)
  end.

(** Digits beyond what fits are skipped. *)
Fixpoint leadingFraction (x : Z) (scale : spec_float) (overflow : bool) (s : string) : Z * spec_float * string :=
  match s with
  | String c rest =>
      if is_digit c then
        if overflow then leadingFraction x scale true rest else
        if x >? (two63 - 1) / 10 then leadingFraction x scale true rest else
        let y := x * 10 + digit_val c in
        if y >? two63 then leadingFraction x scale true rest
        else leadingFraction y (fmul scale (float 10)) false rest
      else (x, scale, s)
  | EmptyString => (x, scale, s)
  end.

(** The bytes up to the next digit or point, and the rest. *)
Fixpoint unitText (s : string) : string * string :=
  match s with
  | String c rest =>
      if Ascii.eqb c "." || is_digit c then ("", s)
      else let '(u, rest) := unitText rest in (String c u, rest)
  | EmptyString => ("", "")
  end.

(** One number with its unit: its nanoseconds, and the rest. *)
Definition component (s : string) : result DurationError (Z * string) :=
  match s with
  | EmptyString => Err InvalidDuration
  | String c _ =>
      if negb (Ascii.eqb c "." || is_digit c) then Err InvalidDuration else
      match leadingInt 0 s with
      | None => Err InvalidDuration
      | Some (v, s1) =>
          let pre := negb (String.length s =? String.length s1)%nat in
          let '(f, scale, s2, post) :=
            match s1 with
            | String "." s' =>
                let '(f, scale, s2) := leadingFraction 0 (float 1) false s' in
                (f, scale, s2, negb (String.length s' =? String.length s2)%nat)
            | _ => (0, float 1, s1, false)
            end in
          if negb pre && negb post then Err InvalidDuration else
          let '(u, s3) := unitText s2 in
          if decide (u = "") then Err MissingUnit else
          match unitMap u with
          | None => Err (UnknownUnit u)
          | Some unit =>
              if v >? two63 / unit then Err InvalidDuration else
              let v := v * unit in
              let v := if f >? 0 then v + ftrunc (fmul (float f) (fdiv (float unit) scale)) else v in
              if (f >? 0) && (v >? two63) then Err InvalidDuration else Ok (v, s3)
          end
      end
  end.

(** The loop; the sum wraps around at 64 bits. Every round consumes a byte. *)
Fixpoint components (fuel : nat) (d : Z) (s : string) : result DurationError Z :=
  match fuel, s with
  | _, EmptyString => Ok d
  | O, _ => Err InvalidDuration
  | S fuel', _ =>
      vs ← component s;
      let d := (d + fst vs) mod 18446744073709551616 in
      if d >? two63 then Err InvalidDuration else components fuel' d (snd vs)
  end.

Definition ParseDuration (s : string) : result DurationError Z :=
  let '(neg, s) :=
    match s with
    | String "-" s' => (true, s')
    | String "+" s' => (false, s')
    | _ => (false, s)
    end in
  if decide (s = "0") then Ok 0
  else if decide (s = "") then Err InvalidDuration
  else
    d ← components (String.length s) 0 s;
    if neg : bool then Ok (- d) else if d >? two63 - 1 then Err InvalidDuration else Ok d.

(** The cases of Go's own test suite. *)
Example durations :
  map ParseDuration ["0"; "5s"; "-5s"; "1h15m30.918273645s"; "1.5h"; ".5s"; "1.s"; "52763797000ns";
                     "0.3333333333333333333h"; "9007199254740993ns"; "9223372036854775.807us";
                     "0.830103483285477580700h"; "0.100000000000000000000h"] =
  map Ok [0; 5 * Second; -5 * Second; Hour + 15 * Minute + 30 * Second + 918273645; 90 * Minute;
          500 * Millisecond; Second; 52763797000; 20 * Minute; 9007199254740993; 9223372036854775807;
          49 * Minute + 48 * Second + 372539827; 6 * Minute].
Proof. vm_compute. reflexivity. Qed.

Example bad_durations :
  map ParseDuration [""; "3"; "-"; "s"; "."; "-.s"; "1x"; "9223372036854775808ns"; "3000000h"] =
  map Err [InvalidDuration; MissingUnit; InvalidDuration; InvalidDuration; InvalidDuration; InvalidDuration;
           UnknownUnit "x"; InvalidDuration; InvalidDuration].
Proof. vm_compute. reflexivity. Qed.
End Time.

Example quotes : Quote (fun r => (32 <=? r) && (r <? 127)) (string_of [x61; x22; x0a; x01; xff]) =
  doubleQuote +:+ "a" +:+ backslash +:+ doubleQuote +:+ backslash +:+ "n" +:+ backslash +:+ "x01" +:+
  backslash +:+ "xff" +:+ doubleQuote.
Proof. vm_compute. reflexivity. Qed.

Example paths : map Clean ["/a/./b//c/"; "/a/../../b"; "a/../.."; ""; "/"] = ["/a/b/c"; "/b"; ".."; "."; "/"].
Proof. vm_compute. reflexivity. Qed.

(** ** Decimal numbers read back *)

Definition int63 (n : Z) : Prop := 0 <= n <= maxInt64.

Lemma ParseInt_unsigned s n : s <> "" -> sforall is_digit s = true -> ParseUint s maxUint64 = (n, None) ->
  n <= maxInt64 -> ParseInt s = (n, None).
Proof.
  intros Hne Hd Hp Hn.
  assert (ParseInt s = parse_signed false s) as ->.
  { destruct s as [|c s]; [done|]. cbn [sforall] in Hd. apply andb_true_iff in Hd as [Hc _].
    destruct c as [[] [] [] [] [] [] [] []]; try done; by vm_compute in Hc. }
  unfold parse_signed. rewrite Hp. by destruct (n <=? maxInt64) eqn:?; bool_to_prop; [|lia].
Qed.

Lemma ParseInt_Itoa n : int63 n -> ParseInt (Itoa n) = (n, None).
Proof.
  intros [H0 H1]. unfold maxInt64 in H1. assert (Hs : Itoa n = FormatUint n).
  { unfold Itoa. destruct (n <? 0) eqn:?; bool_to_prop; [lia|done]. }
  apply ParseInt_unsigned.
  - rewrite Hs. apply digits_of_nonempty. by left.
  - rewrite Hs. by apply digits_of_digits.
  - apply Itoa_Atoi; unfold maxUint64; lia.
  - unfold maxInt64. lia.
Qed.

Lemma Atoi_Itoa n : int63 n -> Atoi (Itoa n) = (n, None).
Proof. apply ParseInt_Itoa. Qed.


Lemma sforall_app P s1 s2 : sforall P (s1 +:+ s2) = sforall P s1 && sforall P s2.
Proof.
  induction s1 as [|c s1 IH]; [done|].
  change (String c s1 +:+ s2) with (String c (s1 +:+ s2)). cbn [sforall]. by rewrite IH, andb_assoc.
Qed.

Lemma sforall_srev P s : sforall P (srev s) = sforall P s.
Proof.
  induction s as [|c s IH]; [done|]. rewrite srev_cons, sforall_app, IH. cbn. by rewrite andb_true_r, andb_comm.
Qed.

Lemma srev_app_string s1 s2 : srev (s1 +:+ s2) = srev s2 +:+ srev s1.
Proof.
  induction s1 as [|c s1 IH]; [by rewrite append_nil_r|].
  change (String c s1 +:+ s2) with (String c (s1 +:+ s2)). by rewrite !srev_cons, IH, append_assoc.
Qed.

Lemma srev_involutive s : srev (srev s) = s.
Proof. induction s as [|c s IH]; [done|]. by rewrite srev_cons, srev_app_string, IH. Qed.

(** No space rune starts or ends with a visible ASCII character. *)
Definition visible (c : ascii) : bool := ((33 <=? N_of_ascii c) && (N_of_ascii c <=? 126))%N.

Lemma leading_visible runes c s :
  forallb (fun r => match r with String d _ => negb (visible d) | EmptyString => false end) runes = true ->
  visible c = true -> leading_space runes (String c s) = None.
Proof.
  intros Hr Hc. unfold leading_space. induction runes as [|[|d r] rs IH]; [done|done|].
  cbn [forallb] in Hr. apply andb_true_iff in Hr as [Hd Hrs]. cbn [find].
  assert (HasPrefix (String c s) (String d r) = false) as ->; [|by apply IH].
  unfold HasPrefix. cbn. destruct (ascii_dec d c) as [->|]; [|done]. by rewrite Hc in Hd.
Qed.

Lemma trim_visible fuel runes c s :
  forallb (fun r => match r with String d _ => negb (visible d) | EmptyString => false end) runes = true ->
  visible c = true -> trim_runes fuel runes (String c s) = String c s.
Proof. intros Hr Hc. destruct fuel; [done|]. cbn [trim_runes]. by rewrite leading_visible. Qed.

Lemma TrimSpace_visible s : sforall visible s = true -> TrimSpace s = s.
Proof.
  intros Hs. unfold TrimSpace. destruct s as [|c s]; [done|].
  assert (Hc : visible c = true) by (cbn in Hs; by apply andb_true_iff in Hs as [? _]).
  rewrite (trim_visible _ space_runes) by (done || by vm_compute).
  rewrite <- sforall_srev in Hs. pose proof (srev_involutive (String c s)) as Hinv.
  destruct (srev (String c s)) as [|d r]; [done|].
  cbn [sforall] in Hs. apply andb_true_iff in Hs as [Hdv _].
  rewrite trim_visible; [done|by vm_compute|done].
Qed.

Lemma digit_visible c : is_digit c = true -> visible c = true.
Proof.
  unfold is_digit, visible. rewrite !andb_true_iff, !N.leb_le. lia.
Qed.

Lemma sforall_impl (P Q : ascii -> bool) s : (forall c, P c = true -> Q c = true) -> sforall P s = true -> sforall Q s = true.
Proof.
  intros HPQ. induction s as [|c s IH]; [done|]. cbn. rewrite !andb_true_iff. intros [Hc Hs]. auto.
Qed.

Lemma Itoa_unsigned n : 0 <= n -> Itoa n = FormatUint n.
Proof. intros H. unfold Itoa. destruct (n <? 0) eqn:?; bool_to_prop; [lia|done]. Qed.

Lemma TrimSpace_Itoa n : 0 <= n -> TrimSpace (Itoa n) = Itoa n.
Proof.
  intros H. apply TrimSpace_visible. rewrite Itoa_unsigned by done.
  eapply sforall_impl; [apply digit_visible|]. by apply digits_of_digits.
Qed.
