(* ===== verification/Conc.v ===== *)
(** * Goroutines over a shared store

    A goroutine is the sequence of its atomic sections: what it does to the
    shared store between two points where another goroutine may run (a lock
    hold, a channel operation, a call into a library). A section may block,
    and may start further goroutines. A program is a pool of goroutines with
    an environment; every interleaving is an execution. [safe] is a
    rely/guarantee argument for one goroutine: it keeps an invariant [I] and
    the others only move the store along a preorder [R], so what it has learnt and [R]
    preserves still holds when it runs next; its own sections do what [G] allows,
    which may be less. *)

From S2P Require Import Prelude.

(** What a goroutine relies on, and what it guarantees, which is no more. *)
Class RelyGuarantee {S : Type} (R G : S -> S -> Prop) := {
  rg_preorder :: PreOrder R;
  rg_refl :: Reflexive G;
  G_R : forall s s', G s s' -> R s s'
}.

Section Conc.
Context {S : Type}.

Inductive Thread : Type :=
| Done
| Atomic (section : S -> option (S * list Thread * Thread)).

(** A piece of a goroutine that yields an [A] to what follows. *)
Definition Proc (A : Type) : Type := (A -> Thread) -> Thread.

#[export] Instance Proc_ret : MRet Proc := fun A a k => k a.
#[export] Instance Proc_bind : MBind Proc := fun A B f p k => p (fun a => f a k).

(** One atomic section. *)
Definition act {A} (f : M S A) : Proc A := fun k =>
  Atomic (fun s => let '(a, s') := f s in Some (s', [], k a)).

(** A section that waits until it is enabled. *)
Definition wait {A} (f : S -> option (A * S)) : Proc A := fun k =>
  Atomic (fun s => match f s with Some (a, s') => Some (s', [], k a) | None => None end).

(** A section that also starts goroutines ([go] inside a lock hold). *)
Definition act_go {A} (f : S -> A * S * list Thread) : Proc A := fun k =>
  Atomic (fun s => let '(a, s', new) := f s in Some (s', new, k a)).

(** [go p]. *)
Definition run (p : Proc unit) : Thread := p (fun _ => Done).
Definition go (p : Proc unit) : Proc unit := act_go (fun s => (tt, s, [run p])).

(** ** Executions *)

(** What the environment does: change the store, start goroutines (callbacks,
    timers, incoming messages). *)
Variable env : S -> S -> list Thread -> Prop.

Inductive cstep : S * list Thread -> S * list Thread -> Prop :=
| step_thread before f after s s' new t :
    f s = Some (s', new, t) ->
    cstep (s, before ++ Atomic f :: after) (s', before ++ t :: after ++ new)
| step_env s s' ts new :
    env s s' new -> cstep (s, ts) (s', ts ++ new).

Inductive csteps : S * list Thread -> S * list Thread -> Prop :=
| csteps_refl c : csteps c c
| csteps_step c1 c2 c3 : csteps c1 c2 -> cstep c2 c3 -> csteps c1 c3.

(** Run the [i]-th goroutine of the pool for one section, if it is enabled. *)
Definition exec_one (i : nat) (c : S * list Thread) : S * list Thread :=
  let '(s, ts) := c in
  match ts !! i with
  | Some (Atomic f) =>
      match f s with
      | Some (s', new, t) => (s', take i ts ++ t :: drop (Datatypes.S i) ts ++ new)
      | None => c
      end
  | _ => c
  end.

(** A schedule: which goroutine runs next. *)
Definition exec (schedule : list nat) (c : S * list Thread) : S * list Thread :=
  foldl (fun c i => exec_one i c) c schedule.

Lemma csteps_trans c1 c2 c3 : csteps c1 c2 -> csteps c2 c3 -> csteps c1 c3.
Proof.
  intros H1 H2. induction H2 as [c | c2 c3 c4 H23 IH H34]; [done|].
  eapply csteps_step; [by apply IH|done].
Qed.

Lemma exec_one_step i c : exec_one i c = c \/ cstep c (exec_one i c).
Proof.
  destruct c as [s ts]. unfold exec_one.
  destruct (ts !! i) as [[|f]|] eqn:Hi; [by left| |by left].
  destruct (f s) as [[[s' new] t]|] eqn:Hf; [|by left]. right.
  rewrite <-(take_drop_middle _ _ _ Hi) at 1. by apply step_thread.
Qed.

Lemma exec_csteps schedule c : csteps c (exec schedule c).
Proof.
  revert c. induction schedule as [|i sch IH]; intros c; [constructor|]. cbn.
  destruct (exec_one_step i c) as [Hi | Hi]; [unfold exec in IH; rewrite Hi; apply IH|].
  eapply csteps_trans; [|apply IH]. econstructor; [constructor|done].
Qed.

(** ** Rely/guarantee *)

Variable I : S -> Prop.
Variable R : S -> S -> Prop.
(** What a section of the goroutine itself does to the store. *)
Variable G : S -> S -> Prop.
Context {RG : RelyGuarantee R G}.

(** From any later store satisfying the invariant, the goroutine's next
    section keeps the invariant, does what [G] allows, and leaves (and starts)
    goroutines that do the same. *)
Inductive safe (s0 : S) : Thread -> Prop :=
| safe_Done : safe s0 Done
| safe_Atomic f :
    (forall s s' new t, R s0 s -> I s -> f s = Some (s', new, t) ->
      I s' /\ G s s' /\ Forall (safe s') new /\ safe s' t) ->
    safe s0 (Atomic f).

Lemma safe_later s s' t : R s s' -> safe s t -> safe s' t.
Proof using RG.
  intros HR Hs. inversion Hs as [|f Hf]; subst; constructor.
  intros s1 s2 new t HR1. apply Hf. by etrans.
Qed.

Lemma Forall_safe_later s s' ts : R s s' -> Forall (safe s) ts -> Forall (safe s') ts.
Proof using RG. intros HR Hts. eapply Forall_impl; [exact Hts|]. intros t. by apply safe_later. Qed.

Hypothesis env_ok : forall s s' new, I s -> env s s' new -> I s' /\ G s s' /\ Forall (safe s') new.

Lemma cstep_safe c c' :
  cstep c c' -> I (fst c) -> Forall (safe (fst c)) (snd c) ->
  I (fst c') /\ G (fst c) (fst c') /\ Forall (safe (fst c')) (snd c').
Proof using RG env_ok.
  intros Hstep HI Hts. destruct Hstep as [before f after s s' new t Hf | s s' ts new He]; cbn in *.
  - apply Forall_app in Hts as [Hb [Ht Ha]%Forall_cons].
    inversion Ht as [|g Hg]; subst.
    destruct (Hg s s' new t) as (HI' & HG & Hnew & Ht'); [reflexivity|done..|]. pose proof (G_R _ _ HG) as HR.
    split_and!; [done..|]. apply Forall_app. split; [by eapply Forall_safe_later|].
    apply Forall_cons. split; [done|]. apply Forall_app. split; [by eapply Forall_safe_later|done].
  - destruct (env_ok s s' new HI He) as (HI' & HG & Hnew). pose proof (G_R _ _ HG) as HR. split_and!; [done..|].
    apply Forall_app. split; [by eapply Forall_safe_later|done].
Qed.

Lemma pool_safe c c' :
  csteps c c' -> I (fst c) -> Forall (safe (fst c)) (snd c) ->
  I (fst c') /\ R (fst c) (fst c') /\ Forall (safe (fst c')) (snd c').
Proof using RG env_ok.
  intros Hsteps HI Hts. induction Hsteps as [c | c1 c2 c3 _ IH Hstep]; [split_and!; done|].
  destruct (IH HI Hts) as (HI2 & HR2 & Hts2).
  destruct (cstep_safe _ _ Hstep HI2 Hts2) as (? & ?%G_R & ?).
  split_and!; [done| |done]. by etrans.
Qed.

(** ** Rules for pieces of goroutines

    [safeP s p Q]: [p], run from [s] on, is safe, and hands over values that
    satisfy [Q] of the store at that moment. *)

Definition safeP {A} (s : S) (p : Proc A) (Q : S -> A -> Prop) : Prop :=
  forall k, (forall s' a, R s s' -> Q s' a -> safe s' (k a)) -> safe s (p k).

Lemma safe_run s p Q : safeP s p Q -> safe s (run p).
Proof using Type. intros Hp. apply Hp. intros. constructor. Qed.

Lemma safeP_ret {A} s (a : A) Q : Q s a -> safeP s (mret a) Q.
Proof using RG. intros HQ k Hk. by apply Hk. Qed.

Lemma safeP_weaken {A} s (p : Proc A) (Q Q' : S -> A -> Prop) :
  (forall s' a, R s s' -> Q s' a -> Q' s' a) -> safeP s p Q -> safeP s p Q'.
Proof using Type. intros HQ Hp k Hk. apply Hp. intros s' a HR Ha. apply Hk; auto. Qed.

Lemma safeP_bind {A B} s (p : Proc A) (f : A -> Proc B) Q Q' :
  safeP s p Q -> (forall s' a, R s s' -> Q s' a -> safeP s' (f a) Q') ->
  safeP s (p ≫= f) Q'.
Proof using RG.
  intros Hp Hf k Hk. apply Hp. intros s1 a HR1 Ha. apply (Hf s1 a HR1 Ha).
  intros s2 b HR2 Hb. apply Hk; [by etrans|done].
Qed.

Lemma safeP_act {A} s0 (f : M S A) Q :
  (forall s, R s0 s -> I s -> let '(a, s') := f s in I s' /\ G s s' /\ Q s' a) ->
  safeP s0 (act f) Q.
Proof using RG.
  intros Hf k Hk. constructor. intros s s' new t HR HI Heq.
  specialize (Hf s HR HI). destruct (f s) as [a s1]. injection Heq as <- <- <-.
  destruct Hf as (HI' & HG & HQ). split_and!; [done..|constructor|]. apply Hk; [|done].
  etrans; [done|by apply G_R].
Qed.

Lemma safeP_wait {A} s0 (f : S -> option (A * S)) Q :
  (forall s a s', R s0 s -> I s -> f s = Some (a, s') -> I s' /\ G s s' /\ Q s' a) ->
  safeP s0 (wait f) Q.
Proof using RG.
  intros Hf k Hk. constructor. intros s s' new t HR HI Heq.
  destruct (f s) as [[a s1]|] eqn:Hfs; [|done]. injection Heq as <- <- <-.
  destruct (Hf s a s1 HR HI Hfs) as (HI' & HG & HQ).
  split_and!; [done..|constructor|]. apply Hk; [|done]. etrans; [done|by apply G_R].
Qed.

Lemma safeP_act_go {A} s0 (f : S -> A * S * list Thread) Q :
  (forall s, R s0 s -> I s ->
    let '(a, s', new) := f s in I s' /\ G s s' /\ Forall (safe s') new /\ Q s' a) ->
  safeP s0 (act_go f) Q.
Proof using RG.
  intros Hf k Hk. constructor. intros s s' new t HR HI Heq.
  specialize (Hf s HR HI). destruct (f s) as [[a s1] new1]. injection Heq as <- <- <-.
  destruct Hf as (HI' & HG & Hnew & HQ). split_and!; [done..|]. apply Hk; [|done].
  etrans; [done|by apply G_R].
Qed.

Lemma safeP_go s0 p Q :
  (forall s, R s0 s -> safe s (run p)) -> (forall s, R s0 s -> Q s tt) -> safeP s0 (go p) Q.
Proof using RG.
  intros Hp HQ. apply safeP_act_go. intros s HR HI. split_and!; [done|reflexivity| |auto].
  apply Forall_singleton. auto.
Qed.
End Conc.

Arguments Thread S : clear implicits.
Arguments Proc S A : clear implicits.
