(* ===== verification/Own.v ===== *)
(** * Goroutines that own what they must give back

    The goroutines of [Conc], with two additions. A goroutine may loop for
    ever: [Loop l] is the start of the next iteration of the loop named [l].
    And a goroutine may own tokens: a lock it holds, a channel only it closes.
    [gsafe] is a rely/guarantee argument in which the owner of a token relies
    on the others leaving what the token protects alone. It also says why a
    section may be blocked: it waits for input, or for a token of a lower rank
    that another goroutine owns. From that, [released] proves that every token
    somebody wants is given back: the goroutines cannot deadlock. *)

From S2P Require Import Prelude.

Section Own.
Context {S L : Type}.

Inductive GThread : Type :=
| Ended
| Loop (l : L)
| Section_ (section : S -> option (S * option GThread * GThread)).

(** A piece of a goroutine that yields an [A] to what follows. *)
Definition Go (A : Type) : Type := (A -> GThread) -> GThread.

#[export] Instance Go_ret : MRet Go := fun A a k => k a.
#[export] Instance Go_bind : MBind Go := fun A B f p k => p (fun a => f a k).

(** One atomic section; one that waits until it is enabled; one that starts a
    goroutine. *)
Definition atomically {A} (f : M S A) : Go A := fun k =>
  Section_ (fun s => let '(a, s') := f s in Some (s', None, k a)).

Definition await {A} (f : S -> option (A * S)) : Go A := fun k =>
  Section_ (fun s => match f s with Some (a, s') => Some (s', None, k a) | None => None end).

Definition goroutine (p : Go unit) : GThread := p (fun _ => Ended).

Definition spawn (t : GThread) : Go unit := fun k =>
  Section_ (fun s => Some (s, Some t, k tt)).

(** What follows a loop is never reached. *)
Definition forever {A} (l : L) : Go A := fun _ => Loop l.

(** ** Executions *)

Variable body : L -> GThread.

#[local] Abbreviation Pool := (list GThread).

(** Goroutine [i] runs one section, or starts the next iteration of its loop. *)
Inductive istep (i : nat) : S * Pool -> S * Pool -> Prop :=
| istep_section s ts f s' new t :
    ts !! i = Some (Section_ f) -> f s = Some (s', new, t) ->
    istep i (s, ts) (s', <[i := t]> ts ++ option_list new)
| istep_loop s ts l :
    ts !! i = Some (Loop l) -> istep i (s, ts) (s, <[i := body l]> ts).

Inductive isteps : S * Pool -> S * Pool -> Prop :=
| isteps_refl c : isteps c c
| isteps_step c1 i c2 c3 : istep i c1 c2 -> isteps c2 c3 -> isteps c1 c3.

(** Run goroutine [i] once, if it is enabled. *)
Definition sched_one (i : nat) (c : S * Pool) : S * Pool :=
  let '(s, ts) := c in
  match ts !! i with
  | Some (Section_ f) =>
      match f s with
      | Some (s', new, t) => (s', <[i := t]> ts ++ option_list new)
      | None => c
      end
  | Some (Loop l) => (s, <[i := body l]> ts)
  | _ => c
  end.

Definition sched (schedule : list nat) (c : S * Pool) : S * Pool :=
  foldl (fun c i => sched_one i c) c schedule.

Lemma isteps_trans c1 c2 c3 : isteps c1 c2 -> isteps c2 c3 -> isteps c1 c3.
Proof. intros H. revert c3. induction H; intros; [done|]. econstructor; eauto. Qed.

(** ** Ownership *)

Context {K : Type} `{Countable K}.
Implicit Types (X Y O : gset K).

Variable I : S -> Prop.                      (** the invariant *)
Variable R : S -> S -> Prop.                 (** how the store evolves *)
Variable owned : S -> gset K.                (** the tokens that exist *)
Variable frame : K -> S -> S -> Prop.        (** what only the owner may change *)
Variable rank : K -> nat.                    (** the order of waiting *)
Variable wanted : K -> S -> Prop.            (** somebody may wait for it *)
Variable prereq : S -> K -> option K.        (** what is released before it *)
Variable loop_ok : gset K -> S -> L -> Prop.

Definition doomed (k : K) (s : S) : Prop :=
  wanted k s /\ forall k', prereq s k = Some k' -> k' ∉ owned s.

(** What a goroutine that owns [X] may rely on from [s] to [s']. *)
Definition rely X (s s' : S) : Prop :=
  R s s' /\ X ⊆ owned s' /\ forall k, k ∈ X -> frame k s s'.

(** What one of its sections must respect. *)
Definition guar X (s s' : S) : Prop :=
  I s' /\ R s s' /\ forall k, k ∈ owned s -> k ∉ X -> frame k s s'.

(** The tokens of a goroutine after a section: [X'], and [Y] for the one it
    starts. *)
Definition handover X X' Y (s s' : S) : Prop :=
  X' ## Y /\ X' ∪ Y ## owned s ∖ X /\ owned s' = (owned s ∖ X) ∪ X' ∪ Y.

(** Why a section may be blocked. *)
Definition may_block X (s : S) (blocked : S -> Prop) : Prop :=
  (forall k, k ∈ X -> ~ doomed k s) \/
  exists k, wanted k s /\ (forall k', k' ∈ X -> (rank k < rank k')%nat) /\
    forall s', blocked s' <-> (k ∈ owned s').

Inductive gsafe : gset K -> S -> GThread -> Prop :=
| gsafe_Ended X s0 : X = ∅ -> gsafe X s0 Ended
| gsafe_Loop X s0 l : loop_ok X s0 l -> (forall k, k ∈ X -> ~ doomed k s0) -> gsafe X s0 (Loop l)
| gsafe_Section X s0 f :
    (forall s, rely X s0 s -> I s -> f s = None -> may_block X s (fun s' => f s' = None)) ->
    (forall s s' new t, rely X s0 s -> I s -> f s = Some (s', new, t) ->
      guar X s s' /\ exists X' Y, handover X X' Y s s' /\ gsafe X' s' t /\
        (forall u, new = Some u -> gsafe Y s' u) /\ (new = None -> Y = ∅)) ->
    gsafe X s0 (Section_ f).

(** ** What the components owe *)

Context {R_preorder : PreOrder R}.
Context {frame_preorder : forall k, PreOrder (frame k)}.
Hypothesis loop_safe : forall X s l, loop_ok X s l -> gsafe X s (body l).
Lemma rely_refl X s : X ⊆ owned s -> rely X s s.
Proof using R_preorder frame_preorder. intros HX. split_and!; [done|done|]. intros k _. done. Qed.

Lemma rely_trans X s1 s2 s3 : rely X s1 s2 -> rely X s2 s3 -> rely X s1 s3.
Proof using R_preorder frame_preorder.
  intros (H1 & _ & Hf1) (H2 & HX & Hf2). split_and!; [by etrans|done|].
  intros k Hk. etrans; auto.
Qed.

(** A pool and who owns what in it. *)
Record pool_ok (own : nat -> gset K) (c : S * Pool) : Prop := {
  pool_inv : I (fst c);
  pool_safe : forall i t, snd c !! i = Some t -> exists s0, rely (own i) s0 (fst c) /\ gsafe (own i) s0 t;
  pool_apart : forall i j, i <> j -> own i ## own j;
  pool_owned : forall k, k ∈ owned (fst c) <-> exists i, k ∈ own i;
  pool_rest : forall i, (length (snd c) <= i)%nat -> own i = ∅
}.

Lemma guar_rely X Y s s' :
  guar X s s' -> Y ⊆ owned s -> Y ⊆ owned s' -> X ## Y -> rely Y s s'.
Proof using Type.
  intros (_ & HR & Hf) Hs Hs' HXY. split_and!; [done|done|].
  intros k Hk. apply Hf; [by apply Hs|]. intros HX. by apply (HXY k).
Qed.

Lemma lookup_new (ts : Pool) i t new j u :
  (i < length ts)%nat -> (<[i := t]> ts ++ option_list new) !! j = Some u ->
  (j = i /\ u = t) \/ (j <> i /\ ts !! j = Some u) \/ (j = length ts /\ new = Some u).
Proof using Type.
  intros Hi Hj. apply lookup_app_Some in Hj as [Hj | [Hlen Hj]].
  - destruct (decide (i = j)) as [-> | Hne].
    + rewrite list_lookup_insert_eq in Hj by done. left. by simplify_eq.
    + rewrite list_lookup_insert_ne in Hj by done. right; left. auto.
  - rewrite length_insert in *. destruct new as [u'|]; [|done]. cbn in Hj.
    destruct (j - length ts)%nat eqn:Hd; [|done]. simplify_eq/=. right; right. split; [lia|done].
Qed.

Lemma iter_ok own i s ts l :
  pool_ok own (s, ts) -> ts !! i = Some (Loop l) -> pool_ok own (s, <[i := body l]> ts).
Proof using loop_safe.
  intros Hp Hi. pose proof (lookup_lt_Some _ _ _ Hi) as Hlt. split; cbn [fst snd].
  - apply (pool_inv _ _ Hp).
  - intros j u Hu. destruct (decide (i = j)) as [<- | Hne].
    + rewrite list_lookup_insert_eq in Hu by done. simplify_eq.
      destruct (pool_safe _ _ Hp i _ Hi) as (s0 & Hrel & Hsafe). exists s0. split; [done|].
      inversion Hsafe; subst. by apply loop_safe.
    + rewrite list_lookup_insert_ne in Hu by done. by apply (pool_safe _ _ Hp).
  - apply (pool_apart _ _ Hp).
  - apply (pool_owned _ _ Hp).
  - intros j Hj. rewrite length_insert in Hj. by apply (pool_rest _ _ Hp).
Qed.

Lemma istep_ok own i c c' :
  pool_ok own c -> istep i c c' ->
  exists own', pool_ok own' c' /\ R (fst c) (fst c') /\
    (forall j, j <> i -> (j < length (snd c))%nat -> own' j = own j /\ rely (own j) (fst c) (fst c')) /\
    (forall f, snd c !! i = Some (Section_ f) -> forall j u, j = i \/ (length (snd c) <= j)%nat ->
      snd c' !! j = Some u -> gsafe (own' j) (fst c') u).
Proof using R_preorder frame_preorder loop_safe.
  intros Hp Hstep. destruct Hstep as [s ts f s' new t Hi Hf | s ts l Hi]; cbn [fst snd] in *.
  - pose proof (lookup_lt_Some _ _ _ Hi) as Hlt.
    destruct (pool_safe _ _ Hp i _ Hi) as (s0 & Hrel & Hsafe).
    inversion Hsafe as [| | X0 s1 f0 _ Hgo]; subst.
    destruct (Hgo s s' new t Hrel (pool_inv _ _ Hp) Hf) as (Hg & X' & Y & (HXY & Hap & Ho) & Ht & Hnew & Hnone).
    pose proof (pool_apart _ _ Hp) as Hapart. pose proof (pool_owned _ _ Hp) as Howned. cbn [fst] in *.
    set (own' := fun j => if decide (j = i) then X' else if decide (j = length ts) then Y else own j).
    assert (Hother : forall j, j <> i -> own j ⊆ owned s ∖ own i).
    { intros j Hj k Hk. apply elem_of_difference. split; [apply Howned; eauto|].
      specialize (Hapart j i Hj). set_solver. }
    assert (Hrely : forall j, j <> i -> rely (own j) s s').
    { intros j Hj. specialize (Hother j Hj). eapply guar_rely; [exact Hg| | |]; set_solver. }
    exists own'. split; [split|split; [|split]]; cbn [fst snd].
    + apply Hg.
    + intros j u Hu. apply lookup_new in Hu as [[-> ->] | [[Hne Hu] | [-> Hu]]]; unfold own'; [| | |done].
      * rewrite decide_True by done. exists s'. split; [apply rely_refl; set_solver|done].
      * pose proof (lookup_lt_Some _ _ _ Hu). rewrite !decide_False by lia.
        destruct (pool_safe _ _ Hp j u Hu) as (s1 & Hr1 & Hs1). exists s1. split; [|done].
        eapply rely_trans; [exact Hr1|]. cbn [fst]. auto.
      * rewrite decide_False by lia. rewrite decide_True by done. exists s'.
        split; [apply rely_refl; set_solver|auto].
    + intros j1 j2 Hne. unfold own'.
      repeat case_decide; subst; try lia; try (by apply Hapart);
        repeat match goal with
        | |- context [own ?j] => pose proof (Hother j ltac:(done)); generalize dependent (own j)
        end; set_solver.
    + intros k. rewrite Ho. split.
      * rewrite !elem_of_union, elem_of_difference. intros [[[Hk Hni] | Hk] | Hk].
        -- apply Howned in Hk as (j & Hk). exists j. unfold own'.
           rewrite decide_False by (intros ->; done). rewrite decide_False; [done|].
           intros ->. rewrite (pool_rest _ _ Hp) in Hk by done. set_solver.
        -- exists i. unfold own'. by rewrite decide_True by done.
        -- exists (length ts). unfold own'. rewrite decide_False by lia. by rewrite decide_True by done.
      * intros (j & Hk). unfold own' in Hk. repeat case_decide; subst; [set_solver..|].
        pose proof (Hother j ltac:(done)). set_solver.
    + intros j Hj. rewrite length_app, length_insert in Hj. unfold own'.
      rewrite decide_False by lia. case_decide as Hd; [|apply (pool_rest _ _ Hp); cbn; lia].
      subst j. destruct new; [cbn in Hj; lia|auto].
    + apply Hg.
    + intros j Hj Hjl. unfold own'. rewrite !decide_False by lia. auto.
    + intros _ _ j u Hj Hu. apply lookup_new in Hu as [[-> ->] | [[Hne Hu] | [-> Hu]]]; unfold own'; [| | |done].
      * by rewrite decide_True by done.
      * pose proof (lookup_lt_Some _ _ _ Hu). lia.
      * rewrite decide_False by lia. rewrite decide_True by done. auto.
  - exists own. split; [by apply iter_ok|split; [done|split]]; cbn [fst snd].
    + intros j Hj Hjl. split; [done|]. apply rely_refl.
      intros k Hk. apply (pool_owned _ _ Hp). eauto.
    + intros f Hf. congruence.
Qed.

(** ** Nobody waits for ever

    [path k'] runs the pool until [k'] is free; a goroutine that waits for
    [k'] is where it was. *)

Hypothesis wanted_stable : forall k s s', R s s' -> k ∈ owned s' -> wanted k s -> wanted k s'.
Hypothesis prereq_stable : forall k s s', R s s' -> k ∈ owned s' -> wanted k s ->
  prereq s' k = prereq s k.
Hypothesis prereq_free : forall k k' s s', R s s' -> wanted k s -> prereq s k = Some k' ->
  k ∈ owned s' -> k' ∉ owned s -> k' ∉ owned s'.

Lemma doomed_stable k s s' : R s s' -> k ∈ owned s' -> doomed k s -> doomed k s'.
Proof using wanted_stable prereq_stable prereq_free.
  intros HR Hk [Hw Hp]. split; [eauto|]. intros k' Hk'.
  rewrite (prereq_stable _ _ _ HR Hk Hw) in Hk'. eauto.
Qed.

Lemma blocked_path own c c' k i f :
  isteps c c' -> pool_ok own c -> k ∈ owned (fst c) -> k ∉ owned (fst c') ->
  snd c !! i = Some (Section_ f) -> (forall s, (f s = None) <-> (k ∈ owned s)) ->
  exists own1 c1, isteps c c1 /\ pool_ok own1 c1 /\ (k ∉ owned (fst c1)) /\
    snd c1 !! i = Some (Section_ f) /\ own1 i = own i /\ rely (own i) (fst c) (fst c1).
Proof using R_preorder frame_preorder loop_safe.
  intros Hsteps. revert own. induction Hsteps as [c | c1 j c2 c3 Hstep _ IH];
    intros own Hp Hk Hk' Hi Hf; [done|].
  destruct (istep_ok own j c1 c2 Hp Hstep) as (own2 & Hp2 & _ & Hother & _).
  assert (Hne : i <> j).
  { intros ->. apply Hf in Hk. inversion Hstep; subst; cbn in *; congruence. }
  pose proof (lookup_lt_Some _ _ _ Hi) as Hlt.
  destruct (Hother i Hne Hlt) as [Hown Hrely].
  assert (Hi2 : snd c2 !! i = Some (Section_ f)).
  { inversion Hstep; subst; cbn in *; [rewrite lookup_app_l by (by rewrite length_insert)|];
      by rewrite list_lookup_insert_ne by done. }
  destruct (decide (k ∈ owned (fst c2))) as [Hk2 | Hk2].
  - destruct (IH own2 Hp2 Hk2 Hk' Hi2 Hf) as (own3 & c4 & H4 & Hp4 & Hk4 & Hi4 & Hown4 & Hr4).
    exists own3, c4. split_and!; [by econstructor|done..|congruence|].
    rewrite Hown in Hr4. by eapply rely_trans.
  - exists own2, c2. split_and!; [econstructor; [done|constructor]|done..].
Qed.

(** Progress of the owner of a doomed token [k], if the tokens below [k] can
    be freed. *)
Section Release.
Variable k : K.
Hypothesis below : forall k' own c, (rank k' < rank k)%nat -> pool_ok own c ->
  k' ∈ owned (fst c) -> wanted k' (fst c) -> exists c', isteps c c' /\ k' ∉ owned (fst c').

Definition frees (c : S * Pool) : Prop := exists c', isteps c c' /\ k ∉ owned (fst c').

Lemma frees_steps c c1 : isteps c c1 -> frees c1 -> frees c.
Proof using Type. intros H1 (c2 & H2 & Hk). exists c2. split; [by eapply isteps_trans|done]. Qed.

Fixpoint gthread_rect (P : GThread -> Prop) (HE : P Ended) (HL : forall l, P (Loop l))
    (HS : forall f, (forall s s' new t, f s = Some (s', new, t) ->
        P t /\ forall u, new = Some u -> P u) -> P (Section_ f)) (t : GThread) : P t :=
  match t with
  | Ended => HE
  | Loop l => HL l
  | Section_ f => HS f (fun s s' new t' Hf =>
      match f s as r return r = Some (s', new, t') -> P t' /\ forall u, new = Some u -> P u with
      | Some (s1, new1, t1) => fun Heq =>
          eq_ind (s1, new1, t1) (fun r => P (snd r) /\ forall u, snd (fst r) = Some u -> P u)
            (conj (gthread_rect P HE HL HS t1)
               (match new1 as n return forall u, n = Some u -> P u with
                | Some u1 => fun u Hu => eq_ind u1 P (gthread_rect P HE HL HS u1) u
                               (f_equal (default u1) Hu)
                | None => fun u Hu => False_ind _ (eq_ind None (fun o => match o with None => True | Some _ => False end) Logic.I (Some u) Hu)
                end))
            (s', new, t') (f_equal (default (s1, new1, t1)) Heq)
      | None => fun Heq => False_ind _ (eq_ind None (fun o => match o with None => True | Some _ => False end) Logic.I (Some _) Heq)
      end Hf)
  end.

Lemma owner_progress t : forall own c i s0,
  snd c !! i = Some t -> pool_ok own c -> k ∈ own i -> rely (own i) s0 (fst c) ->
  gsafe (own i) s0 t -> doomed k s0 -> frees c.
Proof using R_preorder frame_preorder loop_safe below wanted_stable prereq_stable prereq_free.
  induction t as [| l | f IH] using gthread_rect; intros own c i s0 Hi Hp Hk Hrel Hsafe Hdoom.
  - inversion Hsafe; subst. set_solver.
  - inversion Hsafe as [| X s1 l0 _ Hnd |]; subst. by destruct (Hnd k Hk).
  - assert (Hgo : forall own1 c1 r, snd c1 !! i = Some (Section_ f) -> pool_ok own1 c1 ->
      own1 i = own i -> rely (own i) s0 (fst c1) -> f (fst c1) = Some r -> frees c1).
    { clear c Hp Hi Hrel. intros own1 [s ts] [[s' new] t] Hi Hp Hown Hrel Hf. cbn [fst snd] in *.
      destruct (istep_ok own1 i (s, ts) (s', <[i := t]> ts ++ option_list new))
        as (own' & Hp' & HR & Hother & Hnew); [done|by econstructor|]. cbn [fst snd] in *.
      pose proof (lookup_lt_Some _ _ _ Hi) as Hlt.
      apply (frees_steps _ (s', <[i := t]> ts ++ option_list new)).
      { econstructor; [by econstructor|constructor]. }
      destruct (decide (k ∈ owned s')) as [Hks|Hks]; [|by eexists; split; [constructor|]].
      assert (Hd' : doomed k s').
      { eapply (doomed_stable k s); [done|done|]. eapply (doomed_stable k s0); [apply Hrel| |done].
        destruct Hrel as (_ & Hsub & _). auto. }
      destruct (proj1 (pool_owned _ _ Hp' k) Hks) as (j & Hj).
      assert (Hjw : j = i \/ (length ts <= j)%nat).
      { destruct (decide (j = i)) as [?|Hne]; [by left|right]. destruct (decide (length ts <= j)%nat) as [|Hlt'];
          [done|]. destruct (Hother j Hne ltac:(lia)) as [Heq _]. rewrite Heq in Hj.
        destruct (pool_apart _ _ Hp j i Hne k); [done|]. by rewrite Hown. }
      assert (Hju : exists u, (<[i := t]> ts ++ option_list new) !! j = Some u).
      { apply lookup_lt_is_Some. destruct (decide (length (<[i := t]> ts ++ option_list new) <= j)%nat) as [Hge|];
          [|lia]. rewrite (pool_rest _ _ Hp') in Hj by done. set_solver. }
      destruct Hju as (u & Hu). specialize (Hnew f Hi j u Hjw Hu).
      assert (Hsub : own' j ⊆ owned s') by (intros k0 Hk0; apply (pool_owned _ _ Hp'); eauto).
      apply lookup_new in Hu as [[-> ->] | [[Hne Hu] | [-> Hu]]]; [| | |done].
      - eapply (proj1 (IH _ _ _ _ Hf)); [|exact Hp'|exact Hj|by apply rely_refl|done|done].
        cbn. rewrite lookup_app_l by (by rewrite length_insert). by rewrite list_lookup_insert_eq.
      - pose proof (lookup_lt_Some _ _ _ Hu). lia.
      - eapply (proj2 (IH _ _ _ _ Hf) u Hu); [|exact Hp'|exact Hj|by apply rely_refl|done|done].
        cbn. rewrite lookup_app_r by (rewrite length_insert; lia).
        rewrite length_insert, Nat.sub_diag, Hu. done. }
    destruct (f (fst c)) as [r|] eqn:Hf; [by eapply Hgo|].
    inversion Hsafe as [| | X s1 f0 Hblock _]; subst.
    assert (Hdc : doomed k (fst c)).
    { eapply doomed_stable; [apply Hrel| |done]. destruct Hrel as (_ & Hsub & _). auto. }
    destruct (Hblock _ Hrel (pool_inv _ _ Hp) Hf) as [Hnd | (k' & Hw' & Hrank & Hiff)];
      [by destruct (Hnd k Hk)|].
    assert (Hk' : k' ∈ owned (fst c)) by by apply Hiff.
    destruct (below k' own c (Hrank k Hk) Hp Hk' Hw') as (c' & Hsteps & Hfree).
    destruct (blocked_path own c c' k' i f Hsteps Hp Hk' Hfree Hi Hiff)
      as (own1 & c1 & Hs1 & Hp1 & Hk1 & Hi1 & Hown1 & Hr1).
    apply (frees_steps _ c1 Hs1).
    destruct (f (fst c1)) as [r|] eqn:Hf1; [|by destruct Hk1; apply Hiff].
    eapply Hgo; [done|exact Hp1|done|by eapply rely_trans|done].
Qed.
End Release.

Hypothesis body_section : forall l, exists f, body l = Section_ f.

Lemma isteps_ok own c c' : isteps c c' -> pool_ok own c ->
  R (fst c) (fst c') /\ exists own', pool_ok own' c'.
Proof using R_preorder frame_preorder loop_safe.
  intros Hsteps. revert own. induction Hsteps as [c | c1 j c2 c3 Hstep Hsteps IH]; intros own Hp.
  - split; [done|eauto].
  - destruct (istep_ok _ _ _ _ Hp Hstep) as (own2 & Hp2 & HR & _).
    destruct (IH own2 Hp2) as [HR' Hex]. split; [by etrans|done].
Qed.

Lemma gsafe_section_later X s0 s f : rely X s0 s -> gsafe X s0 (Section_ f) -> gsafe X s (Section_ f).
Proof using R_preorder frame_preorder.
  intros Hr Hs. inversion Hs as [| | X1 s1 f1 Hb Hg]; subst. constructor.
  - intros s1 Hr1. apply Hb. by eapply rely_trans.
  - intros s1 s' new t Hr1. apply Hg. by eapply rely_trans.
Qed.

Lemma doomed_released k own c :
  (forall k' own c, (rank k' < rank k)%nat -> pool_ok own c ->
     k' ∈ owned (fst c) -> wanted k' (fst c) -> exists c', isteps c c' /\ k' ∉ owned (fst c')) ->
  pool_ok own c -> k ∈ owned (fst c) -> doomed k (fst c) -> frees k c.
Proof using R_preorder frame_preorder loop_safe body_section wanted_stable prereq_stable prereq_free.
  intros Hbelow Hp Hk Hd. destruct (proj1 (pool_owned _ _ Hp k) Hk) as (i & Hi).
  destruct (snd c !! i) as [t|] eqn:Ht; cycle 1.
  { apply lookup_ge_None in Ht. rewrite (pool_rest _ _ Hp) in Hi by done. set_solver. }
  destruct (pool_safe _ _ Hp i t Ht) as (s0 & Hr & Hs).
  assert (Hsec : forall f own1 c1, fst c1 = fst c -> snd c1 !! i = Some (Section_ f) -> pool_ok own1 c1 ->
    own1 i = own i -> gsafe (own i) s0 (Section_ f) -> frees k c1).
  { intros f own1 c1 Hc Hf Hp1 Hown Hsf. eapply (owner_progress k Hbelow (Section_ f) own1 c1 i (fst c));
      rewrite ?Hown, ?Hc; [done|done|done| | |done].
    - apply rely_refl. apply Hr.
    - by eapply gsafe_section_later. }
  destruct t as [| l | f]; [| |by eapply (Hsec f own c)].
  - inversion Hs; subst. set_solver.
  - destruct (body_section l) as [f Hf]. destruct c as [s ts]. cbn [fst snd] in *.
    apply (frees_steps k _ (s, <[i := body l]> ts)).
    { econstructor; [by constructor|constructor]. }
    eapply (Hsec f own); [done| |by apply iter_ok|done|].
    + cbn. rewrite list_lookup_insert_eq by (by eapply lookup_lt_Some). by rewrite Hf.
    + rewrite <-Hf. apply loop_safe. by inversion Hs.
Qed.

Hypothesis prereq_rank : forall k k' s, prereq s k = Some k' -> (rank k' < rank k)%nat.
Hypothesis prereq_wanted : forall k k' s, I s -> wanted k s -> prereq s k = Some k' ->
  k' ∈ owned s -> wanted k' s.

(** Every token somebody waits for can be freed, by the goroutines alone. *)
Lemma released n : forall k own c, (rank k < n)%nat -> pool_ok own c -> k ∈ owned (fst c) ->
  wanted k (fst c) -> exists c', isteps c c' /\ k ∉ owned (fst c').
Proof using R_preorder frame_preorder loop_safe body_section wanted_stable prereq_stable
  prereq_free prereq_rank prereq_wanted.
  induction n as [|n IHn]; intros k own c Hn Hp Hk Hw; [lia|].
  assert (Hbelow : forall k' own c, (rank k' < rank k)%nat -> pool_ok own c ->
     k' ∈ owned (fst c) -> wanted k' (fst c) -> exists c', isteps c c' /\ k' ∉ owned (fst c')).
  { intros k' own' c' Hlt. apply IHn. lia. }
  destruct (prereq (fst c) k) as [k'|] eqn:Hk'.
  1: destruct (decide (k' ∈ owned (fst c))) as [Hin|Hno].
  - destruct (Hbelow k' own c (prereq_rank _ _ _ Hk') Hp Hin) as (c1 & Hs1 & Hf1);
      [by eapply prereq_wanted; [apply (pool_inv _ _ Hp)| | |]|].
    destruct (isteps_ok own c c1 Hs1 Hp) as (HR & own1 & Hp1).
    apply (frees_steps k c c1 Hs1).
    destruct (decide (k ∈ owned (fst c1))) as [Hk1|Hk1]; [|by eexists; split; [constructor|]].
    eapply doomed_released; [done|exact Hp1|done|]. split; [eauto|].
    intros k2. rewrite (prereq_stable _ _ _ HR Hk1 Hw). intros. by simplify_eq.
  - eapply doomed_released; [done|exact Hp|done|]. split; [done|]. intros; by simplify_eq.
  - eapply doomed_released; [done|exact Hp|done|]. split; [done|]. intros; by simplify_eq.
Qed.

(** ** Rules for pieces of goroutines

    [gsafeP X s p Q]: [p], run by the owner of [X] from [s] on, is safe, and
    hands over a value and the tokens it still owns as [Q] says. *)

Definition gsafeP {A} X (s : S) (p : Go A) (Q : S -> A -> gset K -> Prop) : Prop :=
  forall k, (forall s' a X', Q s' a X' -> gsafe X' s' (k a)) -> gsafe X s (p k).

Lemma gsafeP_goroutine X s p : gsafeP X s p (fun _ _ X' => X' = ∅) -> gsafe X s (goroutine p).
Proof using Type. intros Hp. apply Hp. intros s' _ X' ->. by constructor. Qed.

Lemma gsafeP_ret {A} X s (a : A) (Q : S -> A -> gset K -> Prop) : Q s a X -> gsafeP X s (mret a) Q.
Proof using Type. intros HQ k Hk. by apply Hk. Qed.

Lemma gsafeP_bind {A B} X s (p : Go A) (f : A -> Go B) Q Q' :
  gsafeP X s p Q -> (forall s' a X', Q s' a X' -> gsafeP X' s' (f a) Q') -> gsafeP X s (p ≫= f) Q'.
Proof using Type. intros Hp Hf k Hk. apply Hp. intros s1 a X1 HQ. by apply (Hf s1 a X1 HQ). Qed.

Lemma gsafeP_weaken {A} X s (p : Go A) (Q Q' : S -> A -> gset K -> Prop) :
  gsafeP X s p Q -> (forall s' a X', Q s' a X' -> Q' s' a X') -> gsafeP X s p Q'.
Proof using Type. intros Hp HQ k Hk. apply Hp. intros s1 a X1 H1. by apply Hk, HQ. Qed.

Lemma gsafeP_forever {A} X s l (Q : S -> A -> gset K -> Prop) :
  loop_ok X s l -> (forall k, k ∈ X -> ~ doomed k s) -> gsafeP X s (forever l) Q.
Proof using Type. intros Hl Hd k _. by constructor. Qed.

Lemma gsafeP_await {A} X s0 (f : S -> option (A * S)) Q :
  (forall s, rely X s0 s -> I s -> f s = None -> may_block X s (fun s' => f s' = None)) ->
  (forall s a s', rely X s0 s -> I s -> f s = Some (a, s') ->
    guar X s s' /\ exists X', handover X X' ∅ s s' /\ Q s' a X') ->
  gsafeP X s0 (await f) Q.
Proof using Type.
  intros Hb Hf k Hk. constructor.
  - intros s Hr HI Hn. destruct (f s) as [[]|] eqn:Hfs; [done|].
    destruct (Hb s Hr HI Hfs) as [Hd | (k' & Hw & Hrk & Hiff)]; [by left|right].
    exists k'. split_and!; [done|done|]. intros s'. rewrite <-Hiff. by destruct (f s') as [[]|].
  - intros s s' new t Hr HI Heq. destruct (f s) as [[a s1]|] eqn:Hfs; [|done].
    injection Heq as <- <- <-. destruct (Hf s a s1 Hr HI Hfs) as (Hg & X' & Hh & HQ).
    split; [done|]. exists X', ∅. split_and!; [done|by apply Hk|done|done].
Qed.

Lemma gsafeP_atomically {A} X s0 (f : M S A) Q :
  (forall s, rely X s0 s -> I s -> let '(a, s') := f s in
    guar X s s' /\ exists X', handover X X' ∅ s s' /\ Q s' a X') ->
  gsafeP X s0 (atomically f) Q.
Proof using Type.
  intros Hf k Hk. constructor.
  - intros s Hr HI Hn. by destruct (f s).
  - intros s s' new t Hr HI Heq. specialize (Hf s Hr HI). destruct (f s) as [a s1].
    injection Heq as <- <- <-. destruct Hf as (Hg & X' & Hh & HQ).
    split; [done|]. exists X', ∅. split_and!; [done|by apply Hk|done|done].
Qed.

Lemma gsafeP_spawn X X' Y s0 t Q :
  X' ## Y -> X = X' ∪ Y ->
  (forall s, rely X s0 s -> I s -> gsafe Y s t) -> (forall s, rely X s0 s -> I s -> Q s tt X') ->
  gsafeP X s0 (spawn t) Q.
Proof using R_preorder frame_preorder.
  intros Hap -> Ht HQ k Hk. constructor; [done|].
  intros s s' new u Hr HI Heq. injection Heq as <- <- <-. split; [split_and!; [done|done|]|].
  { intros k0 _ _. done. }
  exists X', Y. split_and!.
  - split_and!; [done|clear; set_solver|]. destruct Hr as (_ & Hsub & _).
    rewrite <-(assoc_L (∪)). rewrite (comm_L (∪)). by rewrite <-union_difference_L.
  - apply Hk. auto.
  - intros v [= <-]. auto.
  - done.
Qed.

(** Tokens that stay; tokens given back and taken. *)
Lemma handover_same X s s' : X ⊆ owned s -> owned s' = owned s -> handover X X ∅ s s'.
Proof using Type.
  clear. intros HX Ho. split_and!; [set_solver|set_solver|]. rewrite Ho, (union_empty_r_L _).
  rewrite (comm_L (∪)). by rewrite <-union_difference_L.
Qed.

Lemma handover_swap X Give Take s s' :
  X ⊆ owned s -> Give ⊆ X -> Take ## owned s -> owned s' = (owned s ∖ Give) ∪ Take ->
  handover X ((X ∖ Give) ∪ Take) ∅ s s'.
Proof using Type.
  clear. intros HX HG HT Ho. split_and!; [set_solver|set_solver|]. rewrite Ho, (union_empty_r_L _).
  apply set_eq. intros x. rewrite !elem_of_union, !elem_of_difference.
  destruct (decide (x ∈ X)); destruct (decide (x ∈ Give)); set_solver.
Qed.

(** What a goroutine still knows after a step, its own or another's. *)
Definition keeps X (s s' : S) : Prop := R s s' /\ forall k, k ∈ X -> frame k s s'.

Lemma keeps_refl X s : keeps X s s.
Proof using R_preorder frame_preorder. split; [done|]. intros k _. done. Qed.

Lemma keeps_trans X s1 s2 s3 : keeps X s1 s2 -> keeps X s2 s3 -> keeps X s1 s3.
Proof using R_preorder frame_preorder.
  intros [H1 Hf1] [H2 Hf2]. split; [by etrans|]. intros k Hk. etrans; auto.
Qed.

Lemma rely_keeps X s s' : rely X s s' -> keeps X s s'.
Proof using Type. intros (HR & _ & Hf). by split. Qed.

(** A step that leaves every token and all it protects alone. *)
Definition still (s s' : S) : Prop :=
  I s' /\ R s s' /\ (forall k, frame k s s') /\ owned s' = owned s.

Lemma still_refl s : I s -> still s s.
Proof using R_preorder frame_preorder. intros HI. split_and!; [done|done| |done]. intros k. done. Qed.

Lemma still_guar X s s' : still s s' -> guar X s s'.
Proof using Type. intros (HI & HR & Hf & _). split_and!; auto. Qed.

Lemma still_keeps X s s' : still s s' -> keeps X s s'.
Proof using Type. intros (HI & HR & Hf & _). split; auto. Qed.

(** [quietP X s p Q]: [p] is safe and keeps its tokens [X]. *)
Definition quietP {A} X (s : S) (p : Go A) (Q : S -> A -> Prop) : Prop :=
  gsafeP X s p (fun s' a X' => X' = X /\ keeps X s s' /\ Q s' a).

Lemma quietP_ret {A} X s (a : A) (Q : S -> A -> Prop) : Q s a -> quietP X s (mret a) Q.
Proof using R_preorder frame_preorder.
  intros HQ. apply gsafeP_ret. split_and!; [done|apply keeps_refl|done].
Qed.

Lemma quietP_bind {A B} X s (p : Go A) (f : A -> Go B) Q Q' :
  quietP X s p Q -> (forall s' a, keeps X s s' -> Q s' a -> quietP X s' (f a) Q') ->
  quietP X s (p ≫= f) Q'.
Proof using R_preorder frame_preorder.
  intros Hp Hf. eapply gsafeP_bind; [exact Hp|]. intros s1 a X1 (-> & Hk & HQ).
  eapply gsafeP_weaken; [apply (Hf s1 a Hk HQ)|]. intros s2 b X2 (-> & Hk2 & HQ2).
  split_and!; [done|by eapply keeps_trans|done].
Qed.

Lemma quietP_weaken {A} X s (p : Go A) (Q Q' : S -> A -> Prop) :
  quietP X s p Q -> (forall s' a, keeps X s s' -> Q s' a -> Q' s' a) -> quietP X s p Q'.
Proof using Type.
  intros Hp HQ. eapply gsafeP_weaken; [exact Hp|]. intros s1 a X1 (-> & Hk & H1). auto.
Qed.

Lemma quietP_still {A} X s0 (f : M S A) (Q : S -> A -> Prop) :
  (forall s, rely X s0 s -> I s -> let '(a, s') := f s in still s s' /\ Q s' a) ->
  quietP X s0 (atomically f) Q.
Proof using R_preorder frame_preorder.
  intros Hf. apply gsafeP_atomically. intros s Hr HI. specialize (Hf s Hr HI).
  destruct (f s) as [a s']. destruct Hf as [Hs HQ]. split; [by apply still_guar|].
  exists X. split_and!.
  - apply handover_same; [apply Hr|apply Hs].
  - done.
  - eapply keeps_trans; [by apply rely_keeps|by apply still_keeps].
  - done.
Qed.

Lemma quietP_await {A} X s0 (f : S -> option (A * S)) (Q : S -> A -> Prop) :
  (forall s, rely X s0 s -> I s -> f s = None -> may_block X s (fun s' => f s' = None)) ->
  (forall s a s', rely X s0 s -> I s -> f s = Some (a, s') -> still s s' /\ Q s' a) ->
  quietP X s0 (await f) Q.
Proof using R_preorder frame_preorder.
  intros Hb Hf. apply gsafeP_await; [done|]. intros s a s' Hr HI Heq.
  destruct (Hf s a s' Hr HI Heq) as [Hs HQ]. split; [by apply still_guar|].
  exists X. split_and!.
  - apply handover_same; [apply Hr|apply Hs].
  - done.
  - eapply keeps_trans; [by apply rely_keeps|by apply still_keeps].
  - done.
Qed.

(** ** Executions with an environment *)



(** The environment starts goroutines and changes the store. *)
Variable env : S -> S -> option GThread -> Prop.

Inductive gstep : S * Pool -> S * Pool -> Prop :=
| gstep_goroutine i c c' : istep i c c' -> gstep c c'
| gstep_env s s' ts new : env s s' new -> gstep (s, ts) (s', ts ++ option_list new).

Inductive gsteps : S * Pool -> S * Pool -> Prop :=
| gsteps_refl c : gsteps c c
| gsteps_step c1 c2 c3 : gsteps c1 c2 -> gstep c2 c3 -> gsteps c1 c3.

Lemma gsteps_trans c1 c2 c3 : gsteps c1 c2 -> gsteps c2 c3 -> gsteps c1 c3.
Proof.
  intros H1 H2. induction H2 as [c | c2 c3 c4 H23 IH H34]; [done|].
  eapply gsteps_step; [by apply IH|done].
Qed.

Lemma sched_one_step i c : sched_one i c = c \/ gstep c (sched_one i c).
Proof.
  destruct c as [s ts]. unfold sched_one.
  destruct (ts !! i) as [[| l | f]|] eqn:Hi; [by left| |  |by left].
  - right. eapply gstep_goroutine. by constructor.
  - destruct (f s) as [[[s' new] t]|] eqn:Hf; [|by left].
    right. eapply gstep_goroutine. by econstructor.
Qed.

Lemma sched_gsteps schedule c : gsteps c (sched schedule c).
Proof.
  revert c. induction schedule as [|i sch IH]; intros c; [constructor|]. cbn.
  destruct (sched_one_step i c) as [Hi | Hi]; [unfold sched in IH; rewrite Hi; apply IH|].
  eapply gsteps_trans; [|apply IH]. econstructor; [constructor|done].
Qed.

Hypothesis env_ok : forall s s' new, I s -> env s s' new ->
  guar ∅ s s' /\ exists Y, Y ## owned s /\ owned s' = owned s ∪ Y /\
    (forall u, new = Some u -> gsafe Y s' u) /\ (new = None -> Y = ∅).


Lemma gstep_ok own c c' : gstep c c' -> pool_ok own c ->
  R (fst c) (fst c') /\ exists own', pool_ok own' c'.
Proof using R_preorder frame_preorder loop_safe env_ok.
  intros [i c1 c2 Hi | s s' ts new He] Hp.
  - destruct (istep_ok own i c1 c2 Hp Hi) as (own' & Hp' & HR & _). eauto.
  - destruct (env_ok s s' new (pool_inv _ _ Hp) He) as (Hg & Y & HY & Ho & Hnew & Hnone).
    split; [apply Hg|]. cbn [fst snd] in *.
    assert (Hrest : own (length ts) = ∅) by by apply (pool_rest _ _ Hp).
    assert (Hown : forall j, own j ⊆ owned s) by (intros j k Hk; apply (pool_owned _ _ Hp); eauto).
    exists (fun j => if decide (j = length ts) then Y else own j). split; cbn [fst snd].
    + apply Hg.
    + intros j u Hu. apply lookup_app_Some in Hu as [Hu | [Hlen Hu]].
      * pose proof (lookup_lt_Some _ _ _ Hu). rewrite decide_False by lia.
        destruct (pool_safe _ _ Hp j u Hu) as (s0 & Hr & Hs). exists s0. split; [|done].
        eapply rely_trans; [exact Hr|]. apply (guar_rely ∅); [done|done| |apply disjoint_empty_l].
        rewrite Ho. intros k Hk. apply elem_of_union_l. by apply Hown in Hk.
      * destruct new as [u'|]; [|done]. cbn in Hu. destruct (j - length ts)%nat eqn:Hd; [|done].
        simplify_eq/=. rewrite decide_True by lia. exists s'. split; [|auto].
        apply rely_refl. rewrite Ho. apply union_subseteq_r.
    + intros i j Hij. pose proof (Hown i). pose proof (Hown j).
      repeat case_decide; subst; [done| | |by apply (pool_apart _ _ Hp)]; clear - HY H0 H1; set_solver.
    + intros k. rewrite Ho, elem_of_union. split.
      * intros [Hk | Hk].
        -- apply (pool_owned _ _ Hp) in Hk as (j & Hk). exists j. rewrite decide_False; [done|].
           intros ->. rewrite Hrest in Hk. clear - Hk. set_solver.
        -- exists (length ts). by rewrite decide_True.
      * intros (j & Hk). case_decide; [by right|left]. by apply Hown in Hk.
    + intros j Hj. rewrite length_app in Hj. case_decide as Hd; [|apply (pool_rest _ _ Hp); cbn; lia].
      subst j. destruct new; [cbn in Hj; lia|auto].
Qed.

Lemma gsteps_ok own c c' : gsteps c c' -> pool_ok own c ->
  R (fst c) (fst c') /\ exists own', pool_ok own' c'.
Proof using R_preorder frame_preorder loop_safe env_ok.
  intros Hsteps. revert own. induction Hsteps as [c | c1 c2 c3 _ IH Hstep]; intros own Hp.
  - split; [done|eauto].
  - destruct (IH own Hp) as (HR & own2 & Hp2). destruct (gstep_ok own2 _ _ Hstep Hp2) as (HR' & Hex).
    split; [by etrans|done].
Qed.

Lemma pool_ok_init s : I s -> owned s = ∅ -> pool_ok (fun _ => ∅) (s, []).
Proof using Type.
  clear. intros HI Ho. split; cbn [fst snd]; [done|done|set_solver| |done].
  intros k. rewrite Ho. set_solver.
Qed.
End Own.

Arguments GThread S L : clear implicits.
Arguments Go S L A : clear implicits.
