(* ===== verification/TitleFilter.v ===== *)
(** * internal/tmux/titlefilter.go

    The streaming filter that removes [ESC k ... ESC \] window-title sequences
    from pane output. [Filter] is the chunk loop of the source, with its
    bulk-copy fast path; [byteStep] is the one-byte-at-a-time machine it
    implements, and [Strips] the relation between input and output that says
    what may be removed. *)

From S2P Require Import Prelude GoLib.


Definition maxTitleLen : Z := 512.

(** Title filter states. *)
Inductive tfState :=
| tfPassthrough
| tfSawEsc
| tfInTitle
| tfSawEscInTitle.

#[export] Instance tfState_eq_dec : EqDecision tfState.
Proof. solve_decision. Defined.

Record t := mk {
  state : tfState;
  titleBuf : list byte;
  out : list byte
}.

Definition set_state (s : tfState) (f : t) : t := mk s f.(titleBuf) f.(out).
Definition emit (bs : list byte) (f : t) : t := mk f.(state) f.(titleBuf) (f.(out) ++ bs).

Definition NewTitleFilter : t := mk tfPassthrough [] [].

Definition Reset (f : t) : t := mk tfPassthrough [] f.(out).

Definition ESC : byte := x1b.
Definition char_k : byte := x6b.
Definition backslash : byte := x5c.

Definition appendTitle (b : byte) (f : t) : t :=
  let buf := (f.(titleBuf) ++ [b])%list in
  if blen buf >? maxTitleLen
  then mk tfPassthrough [] (f.(out) ++ buf)
  else mk f.(state) buf f.(out).

(** [bytes.IndexByte]: [None] is -1. *)
Fixpoint IndexByte (data : list byte) (c : byte) : option nat :=
  match data with
  | [] => None
  | b :: data' => if decide (b = c) then Some O else S <$> IndexByte data' c
  end.

(** One iteration of the loop in [Filter]: [data] is [data[i:]], the result
    the filter and the bytes still to process. *)
Definition filterIter (f : t) (data : list byte) : t * list byte :=
  match data with
  | [] => (f, [])
  | b :: rest =>
      match f.(state) with
      | tfPassthrough =>
          match IndexByte data ESC with
          | None => (emit data f, [])
          | Some idx => (set_state tfSawEsc (emit (take idx data) f), drop (idx + 1) data)
          end
      | tfSawEsc =>
          if decide (b = char_k) then (mk tfInTitle [ESC; char_k] f.(out), rest)
          else if decide (b = ESC) then (emit [ESC] f, rest)
          else (set_state tfPassthrough (emit [ESC; b] f), rest)
      | tfInTitle =>
          let f' := if decide (b = ESC) then set_state tfSawEscInTitle f else f in
          (appendTitle b f', rest)
      | tfSawEscInTitle =>
          if decide (b = backslash) then (mk tfPassthrough [] f.(out), rest)
          else if decide (b = ESC) then (appendTitle b f, rest)
          else (appendTitle b (set_state tfInTitle f), rest)
      end
  end.

Fixpoint filterLoop (fuel : nat) (f : t) (data : list byte) : t :=
  match data, fuel with
  | [], _ | _, O => f
  | _, S fuel' => let '(f', data') := filterIter f data in filterLoop fuel' f' data'
  end.

(** [Filter]: every iteration consumes a byte, so the length of the chunk is
    enough fuel ([filterLoop_bytes]). The empty result stands for nil. *)
Definition Filter (f : t) (data : list byte) : list byte * t :=
  if blen data =? 0 then ([], f)
  else
    let f' := filterLoop (length data) (mk f.(state) f.(titleBuf) []) data in
    (f'.(out), f').

(** A stream of chunks, as [streamOutput] feeds them to one filter. *)
Fixpoint FilterAll (f : t) (chunks : list (list byte)) : list byte * t :=
  match chunks with
  | [] => ([], f)
  | c :: cs =>
      let '(o, f1) := Filter f c in
      let '(os, f2) := FilterAll f1 cs in
      ((o ++ os)%list, f2)
  end.

(** ** The byte machine *)

Definition byteStep (f : t) (b : byte) : t :=
  match f.(state) with
  | tfPassthrough => if decide (b = ESC) then set_state tfSawEsc f else emit [b] f
  | _ => fst (filterIter f [b])
  end.

(** Bytes taken in but neither emitted nor discarded yet. *)
Definition pending (f : t) : list byte :=
  match f.(state) with
  | tfPassthrough => []
  | tfSawEsc => [ESC]
  | tfInTitle | tfSawEscInTitle => f.(titleBuf)
  end.

(** A complete title sequence the filter may discard. *)
Definition is_title (bs : list byte) : Prop :=
  exists body, bs = [ESC; char_k] ++ body ++ [ESC; backslash] /\ blen bs <= maxTitleLen + 1.

(** [Strips i o]: [o] is [i] with some complete title sequences removed and
    nothing else changed. *)
Inductive Strips : list byte -> list byte -> Prop :=
| Strips_nil : Strips [] []
| Strips_copy i o bs : Strips i o -> Strips (i ++ bs) (o ++ bs)
| Strips_title i o bs : is_title bs -> Strips i o -> Strips (i ++ bs) o.

(** The well-formedness of a filter between two calls. *)
Definition wf (f : t) : Prop :=
  match f.(state) with
  | tfPassthrough | tfSawEsc => f.(titleBuf) = []
  | tfInTitle =>
      exists body, f.(titleBuf) = [ESC; char_k] ++ body /\ blen f.(titleBuf) <= maxTitleLen
  | tfSawEscInTitle =>
      exists body, f.(titleBuf) = [ESC; char_k] ++ body ++ [ESC] /\ blen f.(titleBuf) <= maxTitleLen
  end.

(** ** The loop is the byte machine *)

Lemma blen_app a b : blen (a ++ b) = blen a + blen b.
Proof. unfold blen. rewrite length_app. lia. Qed.
Lemma blen_cons x b : blen (x :: b) = 1 + blen b.
Proof. unfold blen. simpl. lia. Qed.
#[export] Hint Rewrite blen_app blen_cons : pmux_str.

Lemma emit_emit a b f : emit b (emit a f) = emit (a ++ b) f.
Proof. unfold emit. simpl. by rewrite app_assoc. Qed.

Lemma IndexByte_None data c : IndexByte data c = None -> c ∉ data.
Proof.
  induction data as [|b data IH]; simpl; [intros _; apply not_elem_of_nil|].
  destruct (decide (b = c)); [done|].
  destruct (IndexByte data c); [done|]. intros _. apply not_elem_of_cons; auto.
Qed.

Lemma IndexByte_Some data c idx :
  IndexByte data c = Some idx ->
  exists pre post, data = pre ++ c :: post /\ length pre = idx /\ c ∉ pre.
Proof.
  revert idx. induction data as [|b data IH]; intros idx; simpl; [done|].
  destruct (decide (b = c)) as [->|Hne]; intros H.
  - injection H as <-. exists [], data. split_and!; [done..|apply not_elem_of_nil].
  - destruct (IndexByte data c) as [i|]; simplify_eq/=.
    destruct (IH _ eq_refl) as (pre & post & -> & <- & ?).
    exists (b :: pre), post. split_and!; [done..|apply not_elem_of_cons; auto].
Qed.

(** In passthrough, ESC-free bytes are copied one after the other. *)
Lemma bytes_passthrough f data :
  f.(state) = tfPassthrough -> ESC ∉ data ->
  foldl byteStep f data = emit data f.
Proof.
  revert f. induction data as [|b data IH]; intros f Hs Hn; simpl.
  - destruct f; unfold emit; simpl. by rewrite app_nil_r.
  - rewrite not_elem_of_cons in Hn. destruct Hn as [Hb Hn].
    unfold byteStep at 2. rewrite Hs. destruct (decide (b = ESC)); [congruence|].
    rewrite IH by done. by rewrite emit_emit.
Qed.

Lemma filterIter_bytes f data f' rest :
  data <> [] -> filterIter f data = (f', rest) ->
  exists done, data = done ++ rest /\ done <> [] /\ foldl byteStep f done = f'.
Proof.
  intros Hne H. destruct data as [|b data]; [done|].
  destruct f as [s buf o]. destruct s; cbn [filterIter state] in H.
  - destruct (IndexByte (b :: data) ESC) as [idx|] eqn:Hi; simplify_eq.
    + destruct (IndexByte_Some _ _ _ Hi) as (pre & post & -> & <- & Hpre).
      exists (pre ++ [ESC])%list. rewrite take_app_length.
      replace (length pre + 1)%nat with (length (pre ++ [ESC])) by (rewrite length_app; simpl; lia).
      replace (pre ++ ESC :: post) with ((pre ++ [ESC]) ++ post) by by rewrite <-app_assoc.
      rewrite drop_app_length. split_and!; [done|by destruct pre|].
      by rewrite foldl_app, (bytes_passthrough _ pre).
    + exists (b :: data). rewrite app_nil_r. split_and!; [done..|].
      apply bytes_passthrough; [done|]. by apply IndexByte_None.
  - exists [b]. repeat case_decide; simplify_eq; split_and!; try done;
      cbn; by repeat case_decide.
  - exists [b]. simplify_eq. by split_and!.
  - exists [b]. repeat case_decide; simplify_eq; split_and!; try done;
      cbn; by repeat case_decide.
Qed.

Lemma filterLoop_bytes fuel f data :
  (length data <= fuel)%nat -> filterLoop fuel f data = foldl byteStep f data.
Proof.
  revert f data. induction fuel as [|fuel IH]; intros f data Hlen.
  - destruct data; simpl in *; [done|lia].
  - destruct data as [|b data]; [done|].
    cbn [filterLoop]. destruct (filterIter f (b :: data)) as [f' rest] eqn:Hit.
    destruct (filterIter_bytes f (b :: data) f' rest) as (dn & Hd & Hne & <-); [done..|].
    rewrite Hd, foldl_app. apply IH.
    apply (f_equal length) in Hd. rewrite length_app in Hd.
    destruct dn; simpl in *; [done|lia].
Qed.

Definition clear_out (f : t) : t := mk f.(state) f.(titleBuf) [].

Lemma Filter_bytes f data :
  data <> [] ->
  Filter f data = (out (foldl byteStep (clear_out f) data), foldl byteStep (clear_out f) data).
Proof.
  intros Hne. unfold Filter. destruct (blen data =? 0) eqn:Hl.
  - destruct data; [done|]. unfold blen in Hl. simpl in Hl. lia.
  - by rewrite filterLoop_bytes.
Qed.

(** The output buffer only grows, and what is appended does not depend on
    what it held: the machine is a transducer. *)
Lemma byteStep_frame f b pre :
  byteStep (mk f.(state) f.(titleBuf) (pre ++ f.(out))) b =
  let f' := byteStep f b in mk f'.(state) f'.(titleBuf) (pre ++ f'.(out)).
Proof.
  destruct f as [s buf o]. destruct s; simpl; unfold byteStep; simpl;
    repeat case_decide; simpl; unfold emit, set_state, appendTitle; simpl;
    repeat case_match; simpl; by rewrite ?app_assoc.
Qed.

Lemma bytes_frame f data pre :
  foldl byteStep (mk f.(state) f.(titleBuf) (pre ++ f.(out))) data =
  let f' := foldl byteStep f data in mk f'.(state) f'.(titleBuf) (pre ++ f'.(out)).
Proof.
  revert f. induction data as [|b data IH]; intros f; [done|].
  cbn [foldl]. rewrite byteStep_frame. cbv zeta. apply IH.
Qed.

Lemma bytes_from f data :
  foldl byteStep f data =
  let f' := foldl byteStep (clear_out f) data in mk f'.(state) f'.(titleBuf) (f.(out) ++ f'.(out)).
Proof.
  pose proof (bytes_frame (clear_out f) data f.(out)) as H. simpl in H.
  rewrite app_nil_r in H. by destruct f.
Qed.

(** ** Splitting a stream into chunks does not matter *)

Lemma Filter_from f data :
  let f' := foldl byteStep (clear_out f) data in
  fst (Filter f data) = f'.(out) /\
  (snd (Filter f data)).(state) = f'.(state) /\ (snd (Filter f data)).(titleBuf) = f'.(titleBuf).
Proof.
  destruct data as [|b data]; [done|]. by rewrite Filter_bytes.
Qed.

(** What is left of a stream when its titles are taken out, and a filter that
    has seen [data]. *)
Definition stripped (data : list byte) : list byte := fst (Filter NewTitleFilter data).

Definition has_seen (f : t) (data : list byte) : Prop :=
  clear_out f = clear_out (foldl byteStep NewTitleFilter data).

Lemma stripped_bytes data : stripped data = out (foldl byteStep NewTitleFilter data).
Proof. apply (Filter_from NewTitleFilter data). Qed.

Lemma new_has_seen : has_seen NewTitleFilter [].
Proof. done. Qed.

Lemma Filter_has_seen f data chunk :
  has_seen f data ->
  stripped (data ++ chunk) = stripped data ++ fst (Filter f chunk) /\
  has_seen (snd (Filter f chunk)) (data ++ chunk).
Proof.
  intros Hf. destruct (Filter_from f chunk) as (Ho & Hs & Hb). unfold has_seen in *.
  rewrite !stripped_bytes, foldl_app, (bytes_from (foldl byteStep NewTitleFilter data)), <-Hf, Ho.
  split; [done|]. unfold clear_out at 1. by rewrite Hs, Hb.
Qed.

Lemma stripped_prefix data data' : data `prefix_of` data' -> stripped data `prefix_of` stripped data'.
Proof.
  intros [rest ->]. rewrite !stripped_bytes, foldl_app.
  rewrite (bytes_from (foldl byteStep NewTitleFilter data)). cbn [out]. by apply prefix_app_r.
Qed.

Lemma FilterAll_from f chunks :
  let f' := foldl byteStep (clear_out f) (concat chunks) in
  fst (FilterAll f chunks) = f'.(out) /\
  (snd (FilterAll f chunks)).(state) = f'.(state) /\
  (snd (FilterAll f chunks)).(titleBuf) = f'.(titleBuf).
Proof.
  revert f. induction chunks as [|c cs IH]; intros f; [done|]. cbn [FilterAll concat].
  pose proof (Filter_from f c) as (Ho & Hs & Hb).
  destruct (Filter f c) as [o f1]. simpl in Ho, Hs, Hb.
  specialize (IH f1). destruct (FilterAll f1 cs) as [os f2]. destruct IH as (Ho2 & Hs2 & Hb2).
  simpl in Ho2, Hs2, Hb2. cbv zeta. rewrite foldl_app, bytes_from. cbn [fst snd state titleBuf out].
  assert (clear_out f1 = clear_out (foldl byteStep (clear_out f) c)) as Hc.
  { unfold clear_out. by rewrite Hs, Hb. }
  rewrite <-Hc, Ho, Ho2. done.
Qed.

(** Filtering a stream chunk by chunk gives exactly the output of the
    one-byte-at-a-time machine on the concatenated stream, whatever the chunk
    boundaries: the bulk-copy fast path and sequences that span two reads
    change nothing, and the filter is left in the same state. *)
Theorem filter_chunks f chunks :
  let f' := foldl byteStep (mk f.(state) f.(titleBuf) []) (concat chunks) in
  fst (FilterAll f chunks) = f'.(out) /\
  (snd (FilterAll f chunks)).(state) = f'.(state) /\
  (snd (FilterAll f chunks)).(titleBuf) = f'.(titleBuf).
Proof. apply FilterAll_from. Qed.

(** ** What the filter may remove *)

Lemma appendTitle_spec b f :
  let f' := appendTitle b f in
  (f' = mk tfPassthrough [] (f.(out) ++ f.(titleBuf) ++ [b])) \/
  (f' = mk f.(state) (f.(titleBuf) ++ [b]) f.(out) /\
   blen (f.(titleBuf) ++ [b]) <= maxTitleLen).
Proof.
  unfold appendTitle. destruct (blen _ >? maxTitleLen) eqn:Hcap; [by left|right].
  bool_to_prop. split; [done|lia].
Qed.

(** The three ways a step can treat the bytes held back: emit some and hold
    the rest, hold them all, or discard a complete title. *)
Definition step_ok (f : t) (b : byte) : Prop :=
  exists bs, (byteStep f b).(out) = f.(out) ++ bs /\ wf (byteStep f b) /\
    (pending f ++ [b] = bs ++ pending (byteStep f b) \/
     (bs = [] /\ pending (byteStep f b) = [] /\ is_title (pending f ++ [b]))).

Lemma byteStep_ok f b : wf f -> step_ok f b.
Proof.
  unfold step_ok. destruct f as [s buf o]. destruct s; cbn [wf state titleBuf];
    unfold byteStep; cbn [state filterIter fst titleBuf out].
  - intros ->. case_decide; subst; [exists []|exists [b]]; cbn; rewrite ?app_nil_r; auto.
  - intros ->. repeat case_decide; subst; cbn; [exists []|exists [ESC]|exists [ESC; b]];
      rewrite ?app_nil_r; split_and!; auto. by exists [].
  - intros (body & -> & Hlen).
    case_decide; subst; cbn [set_state titleBuf out];
    match goal with |- context [appendTitle ?c ?g] => destruct (appendTitle_spec c g) as [-> | [-> Hcap]] end;
      cbn [fst set_state state titleBuf out pending wf] in *.
    1,3: eexists; split_and!; [done..|left; by rewrite app_nil_r].
    + exists []; rewrite app_nil_r; split_and!; [done| |by left]. exists body. by rewrite app_assoc.
    + exists []; rewrite app_nil_r; split_and!; [done| |by left].
      exists (body ++ [b]). split; [by rewrite app_assoc|done].
  - intros (body & -> & Hlen). repeat case_decide; subst; cbn [set_state titleBuf out].
    + exists []. rewrite app_nil_r. split_and!; [done..|right]. split_and!; [done..|].
      cbn [pending state titleBuf]. exists body. rewrite <-!app_assoc. split; [done|].
      unfold blen, maxTitleLen in *. rewrite ?length_app in *. simpl in *. lia.
    + match goal with |- context [appendTitle ?c ?g] => destruct (appendTitle_spec c g) as [-> | [-> Hcap]] end;
        cbn [fst set_state state titleBuf out pending wf] in *.
      * eexists; split_and!; [done..|left; by rewrite app_nil_r].
      * exists []; rewrite app_nil_r; split_and!; [done| |by left].
        exists (body ++ [ESC]). split; [by rewrite <-!app_assoc|done].
    + match goal with |- context [appendTitle ?c ?g] => destruct (appendTitle_spec c g) as [-> | [-> Hcap]] end;
        cbn [fst set_state state titleBuf out pending wf] in *.
      * eexists; split_and!; [done..|left; by rewrite app_nil_r].
      * exists []; rewrite app_nil_r; split_and!; [done| |by left].
        exists (body ++ [ESC] ++ [b])%list. split; [by rewrite <-!app_assoc|done].
Qed.

Lemma bytes_ok f data i o :
  wf f -> Strips i o ->
  let f' := foldl byteStep f data in
  exists i' bs, i ++ pending f ++ data = i' ++ pending f' /\
    f'.(out) = f.(out) ++ bs /\ wf f' /\ Strips i' (o ++ bs).
Proof.
  revert f i o. induction data as [|b data IH]; intros f i o Hwf Hs; cbn [foldl].
  - exists i, []. by rewrite !app_nil_r.
  - destruct (byteStep_ok f b Hwf) as (bs & Ho & Hwf' & Hcase).
    assert (exists i1, Strips i1 (o ++ bs) /\ i ++ pending f ++ [b] = i1 ++ pending (byteStep f b))
      as (i1 & Hs1 & Hi1).
    { destruct Hcase as [Hcopy | (-> & Hp & Ht)].
      - exists (i ++ bs). rewrite Hcopy, app_assoc. split; [by constructor|done].
      - exists (i ++ (pending f ++ [b])). rewrite Hp, !app_nil_r. split; [by constructor|done]. }
    destruct (IH (byteStep f b) i1 (o ++ bs) Hwf' Hs1) as (i' & bs' & Hi' & Ho' & Hwf'' & Hs').
    exists i', (bs ++ bs'). rewrite Ho', Ho, <-Hi', <-!app_assoc in *.
    split_and!; [|done..]. rewrite (app_assoc i1), <-Hi1, <-!app_assoc. done.
Qed.

Lemma wf_pending f : wf f -> blen (pending f) <= maxTitleLen.
Proof.
  destruct f as [s buf o]. destruct s; unfold wf, pending, maxTitleLen, blen; simpl;
    [lia|lia|by intros (?&?&?)..].
Qed.

(** C27: whatever a pane prints and however it is cut into reads, the filter
    only ever removes complete [ESC k ... ESC \] titles of at most 513 bytes:
    the bytes it has not emitted yet are the end of the input (at most 512 of
    them), and what it emitted is the rest of the input with such titles cut
    out and every other byte in its place. *)
Theorem filter_only_strips_titles chunks :
  let '(o, f') := FilterAll NewTitleFilter chunks in
  exists i, concat chunks = i ++ pending f' /\ Strips i o /\ blen (pending f') <= maxTitleLen.
Proof.
  pose proof (FilterAll_from NewTitleFilter chunks) as (Ho & Hs & Hb).
  destruct (FilterAll NewTitleFilter chunks) as [o f']. simpl in Ho, Hs, Hb.
  destruct (bytes_ok (clear_out NewTitleFilter) (concat chunks) [] []) as (i & bs & Hi & Hbs & Hwf & Hst);
    [done|constructor|].
  assert (pending f' = pending (foldl byteStep (clear_out NewTitleFilter) (concat chunks))) as Hp.
  { unfold pending. by rewrite Hs, Hb. }
  exists i. rewrite Hp, Ho, Hbs. split_and!; [done..|by apply wf_pending].
Qed.

(** ** A title that arrives whole is removed *)

Lemma bytes_in_title f body :
  f.(state) = tfInTitle -> ESC ∉ body -> blen (f.(titleBuf) ++ body) <= maxTitleLen ->
  foldl byteStep f body = mk tfInTitle (f.(titleBuf) ++ body) f.(out).
Proof.
  revert f. induction body as [|b body IH]; intros [s buf o] Hs Hn Hlen; cbn in Hs; subst s.
  - by rewrite app_nil_r.
  - rewrite not_elem_of_cons in Hn. destruct Hn as [Hb Hn]. cbn [foldl titleBuf out] in *.
    unfold byteStep at 2. cbn [state filterIter fst]. rewrite decide_False by done.
    match goal with |- context [appendTitle ?c ?g] => destruct (appendTitle_spec c g) as [Ha | [Ha Hcap]] end;
      revert Ha; unfold appendTitle; cbn [titleBuf out state].
    + destruct (blen _ >? maxTitleLen) eqn:Hc; [|done]. bool_to_prop.
      unfold blen in *. rewrite !length_app in *. simpl in *. lia.
    + intros ->. rewrite IH; cbn [state titleBuf out]; rewrite <-?app_assoc; auto.
Qed.

Lemma foldl_title o body :
  ESC ∉ body -> blen body <= maxTitleLen - 3 ->
  foldl byteStep (mk tfPassthrough [] o) ([ESC; char_k] ++ body ++ [ESC; backslash]) =
  mk tfPassthrough [] o.
Proof.
  intros Hn Hlen. rewrite foldl_app.
  change (foldl byteStep (mk tfPassthrough [] o) [ESC; char_k]) with (mk tfInTitle [ESC; char_k] o).
  rewrite foldl_app, (bytes_in_title _ body);
    [|done|done|unfold blen, maxTitleLen in *; simpl; lia].
  cbn [foldl titleBuf out]. unfold byteStep at 2. cbn [state filterIter fst].
  rewrite decide_True by done.
  match goal with |- context [appendTitle ?c ?g] => destruct (appendTitle_spec c g) as [Ha | [Ha Hcap]] end;
    revert Ha; unfold appendTitle; cbn [titleBuf out state set_state].
  - destruct (blen _ >? maxTitleLen) eqn:Hc; [|done]. bool_to_prop.
    unfold blen, maxTitleLen in *. rewrite !length_app in *. simpl in *. lia.
  - intros ->. done.
Qed.

(** A title sequence with an ESC-free body of at most 509 bytes,
    arriving when the filter is passing text through, leaves no trace: text
    before it (free of ESC), the title, and anything after it filter to that
    text followed by the filtered rest. *)
Theorem filter_removes_title pre body post :
  ESC ∉ pre -> ESC ∉ body -> blen body <= maxTitleLen - 3 ->
  fst (Filter NewTitleFilter (pre ++ [ESC; char_k] ++ body ++ [ESC; backslash] ++ post)) =
  pre ++ fst (Filter NewTitleFilter post).
Proof.
  intros Hpre Hbody Hlen.
  rewrite !(proj1 (Filter_from _ _)). unfold clear_out. cbn [state titleBuf NewTitleFilter].
  rewrite foldl_app, (bytes_passthrough _ pre) by done.
  replace ([ESC; char_k] ++ body ++ [ESC; backslash] ++ post)
    with (([ESC; char_k] ++ body ++ [ESC; backslash]) ++ post) by by rewrite <-!app_assoc.
  rewrite foldl_app. unfold emit. cbn [state titleBuf out]. rewrite foldl_title by done.
  by rewrite bytes_from.
Qed.

(** A title between "a" and "b" in one read. *)
Lemma filter_removes_title_witness :
  fst (Filter NewTitleFilter ([x61] ++ [ESC; char_k] ++ [x7a; x73] ++ [ESC; backslash] ++ [x62])) =
  [x61] ++ fst (Filter NewTitleFilter [x62]).
Proof.
  apply (filter_removes_title [x61] [x7a; x73] [x62]);
    [by apply (bool_decide_unpack (ESC ∉ [x61]))
    |by apply (bool_decide_unpack (ESC ∉ [x7a; x73]))|done].
Defined.
