(* ===== verification/Protocol.v ===== *)
(** * internal/protocol: wire messages, validation and the decoder

    The message structs of messages.go as records, the [Message] interface as
    their tagged union, the [Validate] methods of validation.go, and [decode]
    of codec.go. MessagePack is a third-party library: unmarshalling is the
    parameter [unmarshalInto], typed by the Go struct it decodes into. *)

From S2P Require Import Prelude GoLib.

(** ** messages.go *)

Record PaneSize := mkPaneSize { ps_Cols : Z; ps_Rows : Z }.

Record TmuxPane := mkTmuxPane {
  tp_ID : string; tp_Index : Z; tp_Active : bool; tp_Size : PaneSize;
  tp_Title : string; tp_CurrentCommand : string
}.

Record TmuxWindow := mkTmuxWindow {
  tw_ID : string; tw_Name : string; tw_Index : Z; tw_Active : bool;
  tw_Panes : list TmuxPane
}.

Record TmuxSession := mkTmuxSession {
  ts_ID : string; ts_Name : string; ts_CreatedAt : Z;
  ts_Windows : list TmuxWindow; ts_LastActivityAt : Z; ts_Attached : bool
}.

(** Mobile to host. *)
Record ListSessionsRequest := mkListSessions { ls_Type : string }.
Record AttachRequest := mkAttach {
  ar_Type : string; ar_PaneID : string; ar_Cols : Z; ar_Rows : Z;
  ar_Reattach : bool; ar_Compression : string
}.
Record DetachRequest := mkDetach { dr_Type : string }.
Record InputRequest := mkInput { ir_Type : string; ir_Data : list byte }.
Record ResizeRequest := mkResize { rr_Type : string; rr_Cols : Z; rr_Rows : Z }.
Record KillSessionRequest := mkKillSession { kr_Type : string; kr_Session : string }.
Record PingRequest := mkPing { pr_Type : string }.
Record CreateSessionRequest := mkCreateSession { cr_Type : string }.
Record AuthResponseRequest := mkAuthResponse {
  au_Type : string; au_Mac : string; au_Nonce : string
}.

(** Host to mobile. *)
Record SessionsEvent := mkSessions {
  se_Type : string; se_Sessions : list TmuxSession;
  se_AgentVersion : string; se_UpdateAvailable : string
}.
Record OutputEvent := mkOutput { oe_Type : string; oe_Data : list byte }.
Record AttachedEvent := mkAttached {
  at_Type : string; at_PaneID : string; at_Compression : string
}.
Record DetachedEvent := mkDetached { de_Type : string }.
Record SessionEndedEvent := mkSessionEnded { ee_Type : string; ee_Session : string }.
Record PaneClosedEvent := mkPaneClosed { pc_Type : string; pc_PaneID : string }.
Record ErrorEvent := mkError { er_Type : string; er_Code : string; er_Message : string }.
Record PongEvent := mkPong { po_Type : string; po_Latency : Z }.
Record SessionCreatedEvent := mkSessionCreated { sc_Type : string; sc_Session : TmuxSession }.
Record AuthChallengeEvent := mkAuthChallenge { ac_Type : string; ac_Nonce : string; ac_V : Z }.
Record AuthConfirmEvent := mkAuthConfirm { af_Type : string; af_Mac : string }.

(** The dynamic type of a [Message] value. *)
Inductive Kind :=
| KListSessions | KAttach | KDetach | KInput | KResize | KKillSession | KPing
| KCreateSession | KAuthResponse
| KSessions | KOutput | KAttached | KDetached | KSessionEnded | KPaneClosed
| KSessionCreated | KAuthChallenge | KAuthConfirm | KError | KPong.

#[export] Instance Kind_eq_dec : EqDecision Kind.
Proof. solve_decision. Defined.

Definition payload (k : Kind) : Type :=
  match k with
  | KListSessions => ListSessionsRequest
  | KAttach => AttachRequest
  | KDetach => DetachRequest
  | KInput => InputRequest
  | KResize => ResizeRequest
  | KKillSession => KillSessionRequest
  | KPing => PingRequest
  | KCreateSession => CreateSessionRequest
  | KAuthResponse => AuthResponseRequest
  | KSessions => SessionsEvent
  | KOutput => OutputEvent
  | KAttached => AttachedEvent
  | KDetached => DetachedEvent
  | KSessionEnded => SessionEndedEvent
  | KPaneClosed => PaneClosedEvent
  | KSessionCreated => SessionCreatedEvent
  | KAuthChallenge => AuthChallengeEvent
  | KAuthConfirm => AuthConfirmEvent
  | KError => ErrorEvent
  | KPong => PongEvent
  end.

Record Message := Msg { msg_kind : Kind; msg_body : payload msg_kind }.

(** Each [MessageType] method returns a constant of its type. *)
Definition kindType (k : Kind) : string :=
  match k with
  | KListSessions => "list_sessions"
  | KAttach => "attach"
  | KDetach => "detach"
  | KInput => "input"
  | KResize => "resize"
  | KKillSession => "kill_session"
  | KPing => "ping"
  | KCreateSession => "create_session"
  | KAuthResponse => "auth_response"
  | KSessions => "sessions"
  | KOutput => "output"
  | KAttached => "attached"
  | KDetached => "detached"
  | KSessionEnded => "session_ended"
  | KPaneClosed => "pane_closed"
  | KSessionCreated => "session_created"
  | KAuthChallenge => "auth_challenge"
  | KAuthConfirm => "auth_confirm"
  | KError => "error"
  | KPong => "pong"
  end.

Definition MessageType (m : Message) : string := kindType (msg_kind m).

(** ** validation.go *)

Definition MaxStringIDLength : Z := 255.
Definition MaxErrorCodeLength : Z := 255.
Definition MaxErrorMessageLength : Z := 4096.
Definition MaxInputSize : Z := 16 * 1024.
Definition MaxOutputSize : Z := Z.shiftl 1 20.
Definition MinDimension : Z := 1.
Definition MaxDimension : Z := 500.
Definition MaxAuthBlobLength : Z := 128.

Inductive ValidationError :=
| ExceedsMaximumLength (typ field : string) (max : Z)
| DimensionOutOfRange (typ field : string)
| ExceedsMaximumSize (typ field : string) (max : Z)
| MustNotBeEmpty (typ field : string)
| MustBeNonNegative (typ field : string).

Abbreviation Validation := (result ValidationError unit).

Definition validateStringLen (typ field v : string) (max : Z) : Validation :=
  if slen v >? max then Err (ExceedsMaximumLength typ field max) else Ok tt.

Definition validateDimension (typ field : string) (v : Z) : Validation :=
  if (v <? MinDimension) || (v >? MaxDimension)
  then Err (DimensionOutOfRange typ field) else Ok tt.

Definition validateByteSize (typ field : string) (n max : Z) : Validation :=
  if n >? max then Err (ExceedsMaximumSize typ field max) else Ok tt.

Definition AttachRequest_Validate (m : AttachRequest) : Validation :=
  _ ← validateStringLen "attach" "paneId" m.(ar_PaneID) MaxStringIDLength;
  _ ← validateDimension "attach" "cols" m.(ar_Cols);
  validateDimension "attach" "rows" m.(ar_Rows).

Definition InputRequest_Validate (m : InputRequest) : Validation :=
  validateByteSize "input" "data" (blen m.(ir_Data)) MaxInputSize.

Definition AuthResponseRequest_Validate (m : AuthResponseRequest) : Validation :=
  if slen m.(au_Mac) =? 0 then Err (MustNotBeEmpty "auth_response" "mac") else
  _ ← validateStringLen "auth_response" "mac" m.(au_Mac) MaxAuthBlobLength;
  if slen m.(au_Nonce) =? 0 then Err (MustNotBeEmpty "auth_response" "nonce") else
  validateStringLen "auth_response" "nonce" m.(au_Nonce) MaxAuthBlobLength.

Definition ResizeRequest_Validate (m : ResizeRequest) : Validation :=
  _ ← validateDimension "resize" "cols" m.(rr_Cols);
  validateDimension "resize" "rows" m.(rr_Rows).

Definition KillSessionRequest_Validate (m : KillSessionRequest) : Validation :=
  validateStringLen "kill_session" "session" m.(kr_Session) MaxStringIDLength.

Definition OutputEvent_Validate (m : OutputEvent) : Validation :=
  validateByteSize "output" "data" (blen m.(oe_Data)) MaxOutputSize.

Definition AttachedEvent_Validate (m : AttachedEvent) : Validation :=
  validateStringLen "attached" "paneId" m.(at_PaneID) MaxStringIDLength.

Definition SessionEndedEvent_Validate (m : SessionEndedEvent) : Validation :=
  validateStringLen "session_ended" "session" m.(ee_Session) MaxStringIDLength.

Definition PaneClosedEvent_Validate (m : PaneClosedEvent) : Validation :=
  validateStringLen "pane_closed" "paneId" m.(pc_PaneID) MaxStringIDLength.

Definition ErrorEvent_Validate (m : ErrorEvent) : Validation :=
  _ ← validateStringLen "error" "code" m.(er_Code) MaxErrorCodeLength;
  validateStringLen "error" "message" m.(er_Message) MaxErrorMessageLength.

Definition PongEvent_Validate (m : PongEvent) : Validation :=
  if m.(po_Latency) <? 0 then Err (MustBeNonNegative "pong" "latency") else Ok tt.

(** The [msg.(Validatable)] assertion and the call in [decode]: the kinds
    without a [Validate] method are not checked. *)
Definition validateMessage (m : Message) : Validation :=
  match m with
  | Msg KAttach p => AttachRequest_Validate p
  | Msg KInput p => InputRequest_Validate p
  | Msg KAuthResponse p => AuthResponseRequest_Validate p
  | Msg KResize p => ResizeRequest_Validate p
  | Msg KKillSession p => KillSessionRequest_Validate p
  | Msg KOutput p => OutputEvent_Validate p
  | Msg KAttached p => AttachedEvent_Validate p
  | Msg KSessionEnded p => SessionEndedEvent_Validate p
  | Msg KPaneClosed p => PaneClosedEvent_Validate p
  | Msg KError p => ErrorEvent_Validate p
  | Msg KPong p => PongEvent_Validate p
  | _ => Ok tt
  end.

(** ** codec.go *)

Definition MaxMessageSize : Z := Z.shiftl 1 20.

(** [IsRequest] and [IsEvent] switch on the dynamic type only. *)
Definition IsRequest (k : Kind) : bool :=
  match k with
  | KListSessions | KAttach | KDetach | KInput | KResize
  | KKillSession | KCreateSession | KPing => true
  | _ => false
  end.

Definition IsEvent (k : Kind) : bool :=
  match k with
  | KSessions | KOutput | KAttached | KDetached | KSessionEnded | KPaneClosed
  | KSessionCreated | KError | KPong | KAuthChallenge | KAuthConfirm => true
  | _ => false
  end.

(** The [switch env.Type] of [decode]. *)
Definition kindOfType (typ : string) : option Kind :=
  if decide (typ = "list_sessions") then Some KListSessions
  else if decide (typ = "attach") then Some KAttach
  else if decide (typ = "detach") then Some KDetach
  else if decide (typ = "input") then Some KInput
  else if decide (typ = "resize") then Some KResize
  else if decide (typ = "kill_session") then Some KKillSession
  else if decide (typ = "ping") then Some KPing
  else if decide (typ = "create_session") then Some KCreateSession
  else if decide (typ = "auth_response") then Some KAuthResponse
  else if decide (typ = "sessions") then Some KSessions
  else if decide (typ = "output") then Some KOutput
  else if decide (typ = "attached") then Some KAttached
  else if decide (typ = "detached") then Some KDetached
  else if decide (typ = "session_ended") then Some KSessionEnded
  else if decide (typ = "pane_closed") then Some KPaneClosed
  else if decide (typ = "session_created") then Some KSessionCreated
  else if decide (typ = "auth_challenge") then Some KAuthChallenge
  else if decide (typ = "auth_confirm") then Some KAuthConfirm
  else if decide (typ = "error") then Some KError
  else if decide (typ = "pong") then Some KPong
  else None.

Inductive DecodeError :=
| MessageTooLarge (n : Z)
| EnvelopeError
| MissingType
| UnknownMessageType (typ : string)
| NotAcceptedFromPeer (typ : string)
| BodyError (typ : string)
| InvalidMessage (typ : string) (e : ValidationError).

Section Codec.
(** [msgpack.Unmarshal] into the envelope and into a message struct. *)
Variable unmarshalEnvelope : list byte -> option string.
Variable unmarshalInto : forall k : Kind, list byte -> option (payload k).

Definition decode (data : list byte) (requestsOnly : bool) : result DecodeError Message :=
  if blen data >? MaxMessageSize then Err (MessageTooLarge (blen data)) else
  match unmarshalEnvelope data with
  | None => Err EnvelopeError
  | Some typ =>
      if decide (typ = "") then Err MissingType else
      match kindOfType typ with
      | None => Err (UnknownMessageType typ)
      | Some k =>
          if requestsOnly && negb (IsRequest k) && negb (bool_decide (k = KAuthResponse))
          then Err (NotAcceptedFromPeer typ) else
          match unmarshalInto k data with
          | None => Err (BodyError typ)
          | Some p =>
              match validateMessage (Msg k p) with
              | Err e => Err (InvalidMessage typ e)
              | Ok _ => Ok (Msg k p)
              end
          end
      end
  end.

Definition Decode (data : list byte) : result DecodeError Message := decode data false.
Definition DecodeRequest (data : list byte) : result DecodeError Message := decode data true.
End Codec.

(** [Encode] over [msgpack.Marshal]. *)
Definition Encode (marshal : Message -> option (list byte)) (m : Message)
  : result string (list byte) :=
  match marshal m with
  | None => Err (MessageType m)
  | Some data => Ok data
  end.

(** ** Specification *)

(** The field bounds a decoded message satisfies. *)
Definition InBounds (m : Message) : Prop :=
  match m with
  | Msg KAttach p =>
      slen p.(ar_PaneID) <= 255 /\ 1 <= p.(ar_Cols) <= 500 /\ 1 <= p.(ar_Rows) <= 500
  | Msg KInput p => blen p.(ir_Data) <= 16384
  | Msg KAuthResponse p => 1 <= slen p.(au_Mac) <= 128 /\ 1 <= slen p.(au_Nonce) <= 128
  | Msg KResize p => 1 <= p.(rr_Cols) <= 500 /\ 1 <= p.(rr_Rows) <= 500
  | Msg KKillSession p => slen p.(kr_Session) <= 255
  | Msg KOutput p => blen p.(oe_Data) <= 1048576
  | Msg KAttached p => slen p.(at_PaneID) <= 255
  | Msg KSessionEnded p => slen p.(ee_Session) <= 255
  | Msg KPaneClosed p => slen p.(pc_PaneID) <= 255
  | Msg KError p => slen p.(er_Code) <= 255 /\ slen p.(er_Message) <= 4096
  | Msg KPong p => 0 <= p.(po_Latency)
  | _ => True
  end.

(** What a peer may send: a request, or the handshake response. *)
Definition peer_may_send (k : Kind) : bool := IsRequest k || bool_decide (k = KAuthResponse).

(** ** Lemmas *)

Lemma validateStringLen_Ok typ field v max :
  validateStringLen typ field v max = Ok tt <-> slen v <= max.
Proof. unfold validateStringLen. destruct (slen v >? max) eqn:H; bool_to_prop; split; (done || lia). Qed.

Lemma validateDimension_Ok typ field v :
  validateDimension typ field v = Ok tt <-> 1 <= v <= 500.
Proof.
  unfold validateDimension, MinDimension, MaxDimension.
  destruct (v <? 1) eqn:H1, (v >? 500) eqn:H2; simpl; bool_to_prop; split; (done || lia).
Qed.

Lemma validateByteSize_Ok typ field n max :
  validateByteSize typ field n max = Ok tt <-> n <= max.
Proof. unfold validateByteSize. destruct (n >? max) eqn:H; bool_to_prop; split; (done || lia). Qed.

Lemma seq_Ok {E} (m k : result E unit) : (m ≫= fun _ => k) = Ok tt <-> m = Ok tt /\ k = Ok tt.
Proof. destruct m as [[]|]; simpl; naive_solver. Qed.

Lemma if_err_Ok {E} (b : bool) (e : E) (k : result E unit) :
  (if b then Err e else k) = Ok tt <-> b = false /\ k = Ok tt.
Proof. destruct b; naive_solver. Qed.

#[export] Hint Rewrite validateStringLen_Ok validateDimension_Ok validateByteSize_Ok
  @seq_Ok @if_err_Ok : pmux_ok.

Lemma validateMessage_spec m : validateMessage m = Ok tt <-> InBounds m.
Proof.
  destruct m as [[] p]; cbn [validateMessage InBounds]; try done;
    unfold AttachRequest_Validate, InputRequest_Validate, AuthResponseRequest_Validate,
      ResizeRequest_Validate, KillSessionRequest_Validate, OutputEvent_Validate,
      AttachedEvent_Validate, SessionEndedEvent_Validate, PaneClosedEvent_Validate,
      ErrorEvent_Validate, PongEvent_Validate, MaxStringIDLength, MaxErrorCodeLength,
      MaxErrorMessageLength, MaxInputSize, MaxAuthBlobLength;
    autorewrite with pmux_ok; rewrite ?Z.eqb_neq, ?Z.ltb_ge;
    try change MaxOutputSize with 1048576;
    repeat match goal with |- context [slen ?x] =>
      lazymatch goal with H : 0 <= slen x |- _ => fail | _ => pose proof (slen_nonneg x) end end;
    solve [tauto | lia].
Qed.

Lemma kindOfType_kindType k : kindOfType (kindType k) = Some k.
Proof. by destruct k. Qed.

Lemma kindOfType_Some typ k : kindOfType typ = Some k -> typ = kindType k.
Proof. unfold kindOfType. repeat case_decide; by intros [= <-]. Qed.

Lemma peer_may_send_spec k :
  IsRequest k || bool_decide (k = KAuthResponse) = negb (IsEvent k).
Proof. by destruct k. Qed.

Lemma inj_pair2_Kind k (p q : payload k) : Msg k p = Msg k q -> p = q.
Proof.
  intros H. inversion H as [Hp]. by apply (Eqdep_dec.inj_pair2_eq_dec _ Kind_eq_dec) in Hp.
Qed.

Section CodecLemmas.
Context (unmarshalEnvelope : list byte -> option string).
Context (unmarshalInto : forall k : Kind, list byte -> option (payload k)).
Abbreviation decode' := (decode unmarshalEnvelope unmarshalInto).

Lemma decode_Ok data ro m :
  decode' data ro = Ok m <->
  blen data <= MaxMessageSize /\ unmarshalEnvelope data = Some (MessageType m) /\
  unmarshalInto (msg_kind m) data = Some (msg_body m) /\ InBounds m /\
  (ro = true -> peer_may_send (msg_kind m) = true).
Proof.
  unfold decode, peer_may_send. rewrite <-validateMessage_spec. destruct m as [k p].
  unfold MessageType. cbn [msg_kind msg_body].
  destruct (blen data >? MaxMessageSize) eqn:Hsz; bool_to_prop; [split; [done|lia]|].
  destruct (unmarshalEnvelope data) as [typ|]; [|naive_solver].
  case_decide as Ht; [subst; split; [done|by intros (_ & [= He] & _); destruct k]|].
  destruct (kindOfType typ) as [k'|] eqn:Hk; cycle 1.
  { split; [done|]. intros (_ & [= ->] & _). by rewrite kindOfType_kindType in Hk. }
  apply kindOfType_Some in Hk as ->.
  destruct (decide (k' = k)) as [->|Hne]; cycle 1.
  { split.
    - destruct (ro && _ && _); [done|]. destruct (unmarshalInto k' data); [|done].
      destruct (validateMessage _); [|done]. intros [= -> _]. done.
    - intros (_ & [= He] & _). apply (f_equal kindOfType) in He.
      rewrite !kindOfType_kindType in He. congruence. }
  replace (ro && negb (IsRequest k) && negb (bool_decide (k = KAuthResponse)))
    with (ro && negb (IsRequest k || bool_decide (k = KAuthResponse)))
    by (rewrite negb_orb; by destruct ro).
  destruct (unmarshalInto k data) as [p'|]; cycle 1.
  { destruct (ro && _); naive_solver. }
  destruct (ro && negb _) eqn:Hr.
  { apply andb_true_iff in Hr as [-> Hr%negb_true_iff].
    split; [done|]. intros (_ & _ & _ & _ & Hp). specialize (Hp eq_refl). congruence. }
  assert (ro = true -> IsRequest k || bool_decide (k = KAuthResponse) = true) as Hp.
  { intros ->. by apply negb_false_iff. }
  destruct (validateMessage (Msg k p')) as [[]|e] eqn:Hv; split.
  - intros Heq. assert (Msg k p' = Msg k p) as ->%inj_pair2_Kind by congruence. auto.
  - by intros (_ & _ & [= ->] & _).
  - done.
  - intros (_ & _ & [= ->] & Hv' & _). congruence.
Qed.
End CodecLemmas.

(** ** Properties *)

(** C28: what [Decode] returns without an error was at most 1 MiB on the wire,
    is the body the MessagePack decoder produced for the struct named by the
    envelope's type, and satisfies every field bound of validation.go; and a
    message that satisfies all of this is never refused. *)
Theorem Decode_exact env into data m :
  Decode env into data = Ok m <->
  blen data <= MaxMessageSize /\ env data = Some (MessageType m) /\
  into (msg_kind m) data = Some (msg_body m) /\ InBounds m.
Proof. unfold Decode. rewrite decode_Ok. naive_solver. Qed.

(** [DecodeRequest] is [Decode] restricted to what a peer may send: it
    accepts the same message when that message is a request or an
    auth_response, and never anything of another kind. *)
Theorem DecodeRequest_restricts_Decode env into data m :
  DecodeRequest env into data = Ok m <->
  Decode env into data = Ok m /\ peer_may_send (msg_kind m) = true.
Proof. unfold Decode, DecodeRequest. rewrite !decode_Ok. naive_solver. Qed.

(** The body of a host-only event is never parsed on the host:
    [DecodeRequest] gives the same result whatever the MessagePack decoder
    would do with the bodies of event messages, so a peer cannot reach it. *)
Theorem DecodeRequest_ignores_event_bodies env into into' data :
  (forall k, IsEvent k = false -> into k data = into' k data) ->
  DecodeRequest env into data = DecodeRequest env into' data.
Proof.
  intros Hagree. unfold DecodeRequest, decode.
  destruct (_ >? _); [done|]. destruct (env data); [|done]. case_decide; [done|].
  destruct (kindOfType _) as [k|]; [|done].
  destruct (IsEvent k) eqn:Hev.
  - by destruct k.
  - by rewrite Hagree.
Qed.

(** A "sessions" envelope with a body decoder that would accept anything. *)
Lemma DecodeRequest_ignores_event_bodies_witness :
  DecodeRequest (fun _ => Some "sessions") (fun _ _ => None) [x00] =
  DecodeRequest (fun _ => Some "sessions")
    (fun k _ => match k with KSessions => Some (mkSessions "sessions" [] "" "") | _ => None end) [x00].
Proof.
  apply (DecodeRequest_ignores_event_bodies (fun _ => Some "sessions") (fun _ _ => None)
    (fun k _ => match k with KSessions => Some (mkSessions "sessions" [] "" "") | _ => None end) [x00]).
  intros k; destruct k; (reflexivity || discriminate).
Defined.
