(* ===== verification/Compress.v ===== *)
(** * internal/protocol/compress.go: output compression

    [OutputCompressor] over a [flate.Writer]. compress/flate is seen as its
    client sees it: a writer is its level and the calls made on it so far, and
    each call writes some bytes to the underlying writer or fails. [FlateLaws]
    says what its documentation promises of a sync flush; a writer of stored
    blocks and its reader show that the promises can be kept. *)

From S2P Require Import Prelude GoLib.
Open Scope Z_scope.

(** ** compress/flate *)

Inductive WriterCall := CallWrite (data : list byte) | CallFlush | CallClose.

#[export] Instance WriterCall_eq_dec : EqDecision WriterCall.
Proof. solve_decision. Defined.

(** What a call writes to the underlying writer, on a writer of the given
    level and after the given calls; or its error. *)
Definition Flate : Type := Z -> list WriterCall -> WriterCall -> result string (list byte).

Definition DefaultCompression : Z := -1.

(** [flate.Writer]. *)
Record Writer := mkWriter { fw_level : Z; fw_calls : list WriterCall }.

(** The bytes of a sequence of calls, if none of them failed. *)
Fixpoint emitted (flate : Flate) (level : Z) (past calls : list WriterCall) : option (list byte) :=
  match calls with
  | [] => Some []
  | c :: calls =>
      out ← to_option (flate level past c);
      rest ← emitted flate level (past ++ [c]) calls;
      Some (out ++ rest)
  end.

(** The bytes the client handed in. *)
Definition written (calls : list WriterCall) : list byte :=
  concat (map (fun c => match c with CallWrite data => data | _ => [] end) calls).

(** An open writer that was flushed after the last write. *)
Definition flushed (calls : list WriterCall) : Prop :=
  (CallClose ∉ calls) /\ (calls = [] \/ last calls = Some CallFlush).

(** The documented behaviour: after a flush the reader of what came out so far
    gets what went in so far; a writer into memory fails only once closed. *)
Class FlateLaws (flate : Flate) (inflate : list byte -> list byte) : Prop := {
  flate_flush level calls out :
    emitted flate level [] calls = Some out -> flushed calls -> inflate out = written calls;
  flate_open level calls c : CallClose ∉ calls -> is_ok (flate level calls c) = true
}.

(** ** compress.go *)

Record OutputCompressor := mkCompressor { c_w : Writer; c_buf : list byte }.

#[export] Instance Writer_eta : Eta Writer := fun w => mkWriter (fw_level w) (fw_calls w).
#[export] Instance OutputCompressor_eta : Eta OutputCompressor := fun c => mkCompressor (c_w c) (c_buf c).

Definition NewOutputCompressor : OutputCompressor := mkCompressor (mkWriter DefaultCompression []) [].

Inductive CompressError := CompressWrite (e : string) | CompressFlush (e : string).

Section Compress.
Variable flate : Flate.

(** A call on [c.w], which writes into [c.buf]. What a failed call wrote is
    never read: the next one resets the buffer. *)
Definition w_call (call : WriterCall) : M OutputCompressor (result string unit) := fun c =>
  let r := flate (fw_level (c_w c)) (fw_calls (c_w c)) call in
  let c := c <| c_w ::= fun w => w <| fw_calls ::= fun l => l ++ [call] |> |> in
  match r with
  | Ok out => (Ok tt, c <| c_buf ::= fun b => b ++ out |>)
  | Err e => (Err e, c)
  end.

Definition Compress (data : list byte) : M OutputCompressor (result CompressError (list byte)) :=
  _ ← mmod (fun c => c <| c_buf := [] |>);
  _ ←! wrap CompressWrite (w_call (CallWrite data));
  _ ←! wrap CompressFlush (w_call CallFlush);
  fun c => (Ok (c_buf c), c).

Definition Close : M OutputCompressor (result string unit) := w_call CallClose.

(** A sequence of messages. *)
Fixpoint CompressAll (chunks : list (list byte)) : M OutputCompressor (result CompressError (list (list byte))) :=
  match chunks with
  | [] => ok []
  | data :: chunks =>
      out ←! Compress data;
      outs ←! CompressAll chunks;
      ok (out :: outs)
  end.

(** ** What a compressor has sent *)

(** Everything it returned so far is [sent], for the texts [plain]. *)
Definition carries (c : OutputCompressor) (sent plain : list byte) : Prop :=
  emitted flate (fw_level (c_w c)) [] (fw_calls (c_w c)) = Some sent /\
  flushed (fw_calls (c_w c)) /\ written (fw_calls (c_w c)) = plain.

Lemma new_carries : carries NewOutputCompressor [] [].
Proof. split_and!; [done| |done]. split; [set_solver|by left]. Qed.

Lemma emitted_app level past l1 l2 :
  emitted flate level past (l1 ++ l2) =
  (out1 ← emitted flate level past l1; out2 ← emitted flate level (past ++ l1) l2; Some (out1 ++ out2)).
Proof.
  revert past. induction l1 as [|c l1 IH]; intros past; cbn [app emitted].
  - rewrite app_nil_r. by destruct (emitted flate level past l2).
  - destruct (to_option _) as [o|]; [|done]. cbn. rewrite IH, <-app_assoc.
    destruct (emitted flate level (past ++ [c]) l1) as [o1|]; [|done]. cbn.
    destruct (emitted flate level _ l2); [|done]. cbn. by rewrite app_assoc.
Qed.

Lemma Compress_carries c sent plain data out c' :
  carries c sent plain -> Compress data c = (Ok out, c') -> carries c' (sent ++ out) (plain ++ data).
Proof.
  destruct c as [[level calls] buf]. intros (He & [Ho _] & Hw). unfold Compress, w_call, wrap, mbind_err, mbind, M_bind, mmod.
  cbn in *. destruct (flate level calls (CallWrite data)) as [o1|] eqn:H1; [|done].
  cbn. destruct (flate level (calls ++ [CallWrite data]) CallFlush) as [o2|] eqn:H2; [|done].
  cbn. intros [= <- <-]. unfold carries. cbn. rewrite <-app_assoc. cbn. split_and!.
  - rewrite emitted_app, He. cbn. rewrite H1. cbn. by rewrite H2; cbn; rewrite app_nil_r.
  - split; [|right; by rewrite last_app]. rewrite elem_of_app. set_solver.
  - unfold written in *. rewrite map_app, concat_app, Hw. cbn. by rewrite !app_nil_r.
Qed.

(** ** Every message can be inflated when it arrives *)

Section Laws.
Context (inflate : list byte -> list byte) (laws : FlateLaws flate inflate).

Lemma carries_inflate c sent plain : carries c sent plain -> inflate sent = plain.
Proof using laws. intros (He & Hf & <-). by eapply flate_flush. Qed.

Lemma Compress_total c sent plain data :
  carries c sent plain -> exists out c', Compress data c = (Ok out, c').
Proof using laws.
  destruct c as [[level calls] buf]. intros (_ & [Ho _] & _). unfold Compress, w_call, wrap, mbind_err, mbind, M_bind, mmod. cbn in *.
  pose proof (flate_open level calls (CallWrite data) Ho) as H1.
  destruct (flate level calls (CallWrite data)) as [o1|]; [|done]. cbn.
  assert (Ho2 : CallClose ∉ calls ++ [CallWrite data]) by (rewrite elem_of_app; set_solver).
  pose proof (flate_open level _ CallFlush Ho2) as H2.
  destruct (flate level (calls ++ [CallWrite data]) CallFlush) as [o2|]; [|done]. cbn. eauto.
Qed.

Lemma CompressAll_from c sent plain chunks :
  carries c sent plain -> exists outs c', CompressAll chunks c = (Ok outs, c') /\
    forall n, inflate (sent ++ concat (take n outs)) = plain ++ concat (take n chunks).
Proof using laws.
  revert c sent plain. induction chunks as [|data chunks IH]; intros c sent plain Hc; cbn [CompressAll].
  - exists [], c. split; [done|]. intros n. rewrite !take_nil. cbn. rewrite !app_nil_r. by eapply carries_inflate.
  - destruct (Compress_total c sent plain data Hc) as (out & c1 & H1).
    pose proof (Compress_carries c sent plain data out c1 Hc H1) as Hc1.
    destruct (IH c1 _ _ Hc1) as (outs & c2 & H2 & Hn).
    exists (out :: outs), c2. unfold mbind_err. rewrite H1, H2. split; [done|]. intros [|n]; cbn.
    + rewrite !app_nil_r. by eapply carries_inflate.
    + rewrite !app_assoc. apply Hn.
Qed.
End Laws.

(** What is compressed can be read as it arrives. A fresh compressor
    takes any sequence of chunks without error, and a reader that has got the
    first [n] messages, and not one byte more, inflates them to exactly the
    first [n] chunks, although all the messages are one deflate stream. *)
Theorem CompressAll_inflates inflate (laws : FlateLaws flate inflate) chunks :
  exists outs c', CompressAll chunks NewOutputCompressor = (Ok outs, c') /\
    forall n, inflate (concat (take n outs)) = concat (take n chunks).
Proof. exact (CompressAll_from inflate laws NewOutputCompressor [] [] chunks new_carries). Qed.
End Compress.


(** ** Stored blocks

    A flate writer that compresses nothing: each write goes out as stored
    blocks (RFC 1951, 3.2.4), a flush as an empty one, the sync marker. *)

Definition block (data : list byte) : list byte :=
  let n := Z.of_nat (length data) in
  x00 :: Zbyte n :: Zbyte (n / 256) :: Zbyte (65535 - n) :: Zbyte ((65535 - n) / 256) :: data.

Definition blockSize : nat := Z.to_nat 65535.

Fixpoint blocks (fuel : nat) (data : list byte) : list byte :=
  match fuel with
  | O => []
  | S fuel =>
      if bool_decide (data = []) then []
      else block (take blockSize data) ++ blocks fuel (drop blockSize data)
  end.

Definition stored : Flate := fun _ past call =>
  if bool_decide (CallClose ∈ past) then Err "flate: closed writer"
  else match call with
       | CallWrite data => Ok (blocks (length data) data)
       | CallFlush => Ok (block [])
       | CallClose => Ok (x01 :: tail (block []))
       end.

(** The reader; a round takes a header, so the length is fuel enough. *)
Fixpoint unblock (fuel : nat) (input : list byte) : list byte :=
  match fuel, input with
  | S fuel, _ :: lo :: hi :: _ :: _ :: rest =>
      let n := Z.to_nat (byteZ lo + 256 * byteZ hi) in
      take n rest ++ unblock fuel (drop n rest)
  | _, _ => []
  end.

Definition stored_inflate (input : list byte) : list byte := unblock (length input) input.

Lemma unblock_fuel f1 f2 input :
  (length input <= f1)%nat -> (length input <= f2)%nat -> unblock f1 input = unblock f2 input.
Proof.
  revert f2 input. induction f1 as [|f1 IH]; intros f2 input H1 H2.
  { destruct input; [by destruct f2|cbn in H1; lia]. }
  destruct f2 as [|f2]; [destruct input; [done|cbn in H2; lia]|]. destruct input as [|b1 [|b2 [|b3 [|b4 [|b5 rest]]]]]; try done. cbn [unblock]. f_equal.
  apply IH; rewrite length_drop; cbn in *; lia.
Qed.

Lemma unblock_block data rest :
  (length data <= blockSize)%nat ->
  stored_inflate (block data ++ rest) = data ++ stored_inflate rest.
Proof.
  intros Hl. set (n := Z.of_nat (length data)). assert (Hn : 0 <= n <= 65535) by (unfold blockSize in Hl; lia).
  set (k := Z.to_nat (byteZ (Zbyte n) + 256 * byteZ (Zbyte (n / 256)))). assert (Hk : k = length data).
  { unfold k. rewrite !byteZ_Zbyte, (Z.mod_small (n / 256)).
    - rewrite Z.add_comm, <-Z.div_mod by lia. unfold n. lia.
    - split; [apply Z.div_pos; lia|apply Z.div_lt_upper_bound; lia]. }
  change (take k (data ++ rest) ++ unblock (4 + length (data ++ rest)) (drop k (data ++ rest)) = data ++ stored_inflate rest).
  rewrite Hk, take_app_length, drop_app_length. f_equal. apply unblock_fuel; [rewrite length_app; lia|lia].
Qed.

Lemma unblock_blocks fuel data rest :
  (length data <= fuel)%nat -> stored_inflate (blocks fuel data ++ rest) = data ++ stored_inflate rest.
Proof.
  revert data. induction fuel as [|fuel IH]; intros data Hl; cbn [blocks]; [by destruct data; [|cbn in Hl; lia]|].
  case_bool_decide as Hd; [by subst|]. rewrite <-app_assoc, unblock_block by (rewrite length_take; lia).
  destruct data as [|x data]; [done|]. rewrite IH.
  - by rewrite app_assoc, take_drop.
  - rewrite length_drop. assert (blockSize <> 0)%nat by done. cbn in *. lia.
Qed.

Lemma stored_emitted level past calls out rest :
  (CallClose ∉ past ++ calls) -> emitted stored level past calls = Some out ->
  stored_inflate (out ++ rest) = written calls ++ stored_inflate rest.
Proof.
  revert past out. induction calls as [|c calls IH]; intros past out Ho; cbn [emitted]; [by intros [= <-]|].
  assert (Hp : CallClose ∉ past) by (intros ?; apply Ho, elem_of_app; by left).
  assert (Hne : c <> CallClose) by (intros ->; apply Ho, elem_of_app; right; constructor).
  assert (Hs : forall d, d <> CallClose -> stored level past d =
    Ok (match d with CallWrite data => blocks (length data) data | _ => block [] end)).
  { intros d Hd. unfold stored. rewrite bool_decide_eq_false_2 by done. by destruct d. }
  rewrite Hs by done. cbn [to_option option_bind mbind]. rewrite cons_middle, app_assoc in Ho.
  destruct (emitted stored level (past ++ [c]) calls) as [out'|] eqn:He; [|done]. cbn. intros [= <-].
  rewrite <-app_assoc. destruct c as [data| |]; [| |done].
  - rewrite unblock_blocks by done. unfold written. cbn. rewrite <-app_assoc. f_equal. by eapply IH.
  - rewrite (unblock_block []) by (cbn; lia). unfold written. cbn. by eapply IH.
Qed.

#[export] Instance stored_laws : FlateLaws stored stored_inflate.
Proof.
  split.
  - intros level calls out He [Ho _]. rewrite <-(app_nil_r out), (stored_emitted level [] calls out []) by done.
    by rewrite app_nil_r.
  - intros level calls c Ho. unfold stored. rewrite bool_decide_eq_false_2 by done. by destruct c.
Qed.

Lemma CompressAll_inflates_witness :
  FlateLaws stored stored_inflate /\
  exists outs c', CompressAll stored [bytes_of "ls"; []; bytes_of "pwd"] NewOutputCompressor = (Ok outs, c') /\
    forall n, stored_inflate (concat (take n outs)) = concat (take n [bytes_of "ls"; []; bytes_of "pwd"]).
Proof.
  split; [exact stored_laws|]. exact (CompressAll_inflates stored stored_inflate stored_laws _).
Defined.
