(* ===== verification/Peer.v ===== *)
(** * internal/webrtc/peer.go, the Peer type: state and lock sections

    A peer connection's own state and what each critical section of its
    methods does to it. The goroutines that run these sections are in
    [PeerManager]. Pion is third-party: its answers come from the
    environment. HMAC and SHA-256 are parameters. *)

From S2P Require Import Prelude GoLib Protocol.
From Stdlib Require Import Ascii.
Open Scope Z_scope.

(** The message exchanged with the signaling server (signaling.go). *)
Record SignalingMessage := mkSignal {
  sm_Type : string; sm_Token : string; sm_Name : string; sm_Status : string;
  sm_Error : string; sm_Reason : string; sm_TargetDeviceID : string;
  sm_DeviceID : string; sm_AttemptID : string; sm_SDP : string;
  sm_Candidate : string; sm_SDPMid : string; sm_SDPMLineIndex : option Z
}.

#[export] Instance SignalingMessage_eta : Eta SignalingMessage := fun m =>
  mkSignal (sm_Type m) (sm_Token m) (sm_Name m) (sm_Status m) (sm_Error m) (sm_Reason m)
    (sm_TargetDeviceID m) (sm_DeviceID m) (sm_AttemptID m) (sm_SDP m) (sm_Candidate m)
    (sm_SDPMid m) (sm_SDPMLineIndex m).

#[export] Instance SignalingMessage_eq_dec : EqDecision SignalingMessage.
Proof. solve_decision. Defined.

(** The zero message with a type. *)
Definition signal (typ : string) : SignalingMessage :=
  mkSignal typ "" "" "" "" "" "" "" "" "" "" "" None.

Definition maxBufferedICECandidates : nat := 64.
Definition maxReplacedAttempts : nat := 8.
Definition bufferedAmountLowThreshold : Z := 4096.
Definition maxBufferedAmount : Z := 512 * 1024.
Definition maxControlBufferedAmount : Z := 2 * maxBufferedAmount.
Definition authNonceSize : nat := 32.
Definition authProtocolVersion : Z := 2.
Definition authLabelMobileToHost : string := "pocketmux-auth-v2 mobile->host".
Definition authLabelHostToMobile : string := "pocketmux-auth-v2 host->mobile".
Definition dtlsFingerprintAlgorithm : string := "sha-256".

(** The pattern [^[0-9a-f]{32}$] of connect attempt IDs. *)
Definition attemptIDPattern (id : string) : bool :=
  (slen id =? 32) && sforall is_lower_hex id.

Record ICECandidateInit := mkICE {
  ice_Candidate : string;
  ice_SDPMid : string;
  ice_SDPMLineIndex : option Z
}.

#[export] Instance ICECandidateInit_eq_dec : EqDecision ICECandidateInit.
Proof. solve_decision. Defined.

(** [webrtc.PeerConnectionState]. *)
Inductive PCState :=
| PCNew | PCConnecting | PCConnected | PCDisconnected | PCFailed | PCClosed.

#[export] Instance PCState_eq_dec : EqDecision PCState.
Proof. solve_decision. Defined.

(** What a successful proof of key possession was computed over. *)
Record Transcript := mkTranscript {
  tr_hostNonce : list byte;
  tr_mobileNonce : list byte;
  tr_hostFp : list byte;
  tr_mobileFp : list byte;
  tr_mac : list byte
}.

Record Peer := mkPeer {
  p_DeviceID : string;
  p_attemptID : string;
  p_sharedSecret : list byte;
  p_dc : bool;                       (** the DataChannel has been created *)
  p_closed : bool;                   (** closed, and [done] with it *)
  p_remoteDescSet : bool;
  p_iceCandidates : list ICECandidateInit;
  p_silenced : bool;
  p_dispatchMu : option nat;         (** the dispatch that holds the mutex *)
  p_dispatchStopped : bool;
  p_sendStop : bool;                 (** the channel is closed *)
  p_authenticated : bool;
  p_authConfirmed : bool;
  p_authResolved : bool;
  p_authNonce : list byte;           (** [[]] is nil *)
  p_authTimer : option nat;          (** the timer, until it is stopped *)
  (** History, kept for the specification only. *)
  p_verified : option Transcript;    (** the proof that was accepted *)
  p_sent : list Message;             (** what [dc.Send] took, in order *)
  p_sentRaw : list (list byte);      (** what [SendRaw] sent *)
  p_delivered : list Message         (** what the handler was called with *)
}.

#[export] Instance Peer_eta : Eta Peer := fun p =>
  mkPeer (p_DeviceID p) (p_attemptID p) (p_sharedSecret p) (p_dc p) (p_closed p)
    (p_remoteDescSet p) (p_iceCandidates p) (p_silenced p) (p_dispatchMu p)
    (p_dispatchStopped p) (p_sendStop p) (p_authenticated p) (p_authConfirmed p)
    (p_authResolved p) (p_authNonce p) (p_authTimer p) (p_verified p) (p_sent p)
    (p_sentRaw p) (p_delivered p).

(** The literal of [handleConnectRequest]. *)
Definition newPeer (mobileDeviceID attemptID : string) (sharedSecret : list byte) : Peer :=
  mkPeer mobileDeviceID attemptID sharedSecret false false false [] false None false false
    false false false [] None None [] [] [].

(** ** Outbound *)

(** [isAuthHandshakeMessage]. *)
Definition isAuthHandshakeMessage (msg : Message) : bool :=
  bool_decide (MessageType msg = "auth_challenge") || bool_decide (MessageType msg = "auth_confirm").

Inductive SendError :=
| PeerClosed
| NoDataChannel
| NotAuthenticated (typ : string)
| EncodeFailed
| ConnectionClosing
| SendCanceled
| SendTimeout
| BufferFull (typ : string)
| DCSendFailed
| NoPeer (deviceID : string).

(** The locked gate of [SendMessageContext]. *)
Definition sendGate (msg : Message) (p : Peer) : result SendError unit :=
  if p_closed p then Err PeerClosed
  else if negb (p_dc p) then Err NoDataChannel
  else if negb (p_authConfirmed p) && negb (isAuthHandshakeMessage msg)
  then Err (NotAuthenticated (MessageType msg))
  else Ok tt.

(** The locked gate of [SendRaw]. *)
Definition rawGate (p : Peer) : result SendError unit :=
  if p_closed p then Err PeerClosed
  else if negb (p_dc p) then Err NoDataChannel
  else if negb (p_authConfirmed p) then Err (NotAuthenticated "raw send")
  else Ok tt.

Definition isOutput (msg : Message) : bool := bool_decide (msg_kind msg = KOutput).

(** [silence] and [Close] (the Pion closes are the environment's). *)
Definition silence (p : Peer) : Peer := p <| p_silenced := true |>.

Definition closePeer (p : Peer) : Peer :=
  if p_closed p then p else p <| p_closed := true |> <| p_authTimer := None |>.

(** ** Authentication *)

Section Auth.
Variable hmac_sha256 : list byte -> list byte -> list byte.
Variable sha256 : list byte -> list byte.

(** The bytes written to the HMAC. *)
Definition authInput (label : string) (hostNonce mobileNonce hostFp mobileFp : list byte) : list byte :=
  bytes_of label ++ hostNonce ++ mobileNonce ++ hostFp ++ mobileFp.

Definition authMAC (secret : list byte) (label : string)
    (hostNonce mobileNonce hostFp mobileFp : list byte) : list byte :=
  hmac_sha256 secret (authInput label hostNonce mobileNonce hostFp mobileFp).

(** What [pcDTLSFingerprints] reads of the transport: the remote certificate
    and the local parameters, or the error of [GetLocalParameters]. *)
Record DTLSTransport := mkDTLS {
  dtls_RemoteCertificate : list byte;
  dtls_LocalFingerprints : option (list (string * string))
}.

Inductive FingerprintError :=
| NoSCTP | NoDTLS | NoRemoteCertificate | LocalParameters | DecodeLocalFingerprint
| LocalFingerprintLength (n : Z) | NoLocalFingerprint.

(** The first fingerprint with the algorithm decides. Algorithm names are
    ASCII, where [strings.EqualFold] compares lower-cased. *)
Fixpoint localFingerprint (fps : list (string * string)) : result FingerprintError (list byte) :=
  match fps with
  | [] => Err NoLocalFingerprint
  | (alg, value) :: rest =>
      if negb (bool_decide (lower_ascii alg = lower_ascii dtlsFingerprintAlgorithm))
      then localFingerprint rest
      else match hex_decode (ReplaceByte value ":" "") with
           | None => Err DecodeLocalFingerprint
           | Some localSum =>
               if negb (blen localSum =? 32) then Err (LocalFingerprintLength (blen localSum))
               else Ok localSum
           end
  end.

Definition pcDTLSFingerprints (sctp : option (option DTLSTransport))
    : result FingerprintError (list byte * list byte) :=
  match sctp with
  | None => Err NoSCTP
  | Some None => Err NoDTLS
  | Some (Some dtls) =>
      if blen (dtls_RemoteCertificate dtls) =? 0 then Err NoRemoteCertificate else
      let remoteSum := sha256 (dtls_RemoteCertificate dtls) in
      match dtls_LocalFingerprints dtls with
      | None => Err LocalParameters
      | Some fps => localSum ← localFingerprint fps; Ok (localSum, remoteSum)
      end
  end.

(** The fields [verifyAuthResponse] captures under the lock. *)
Record AuthSnapshot := mkSnapshot {
  as_resolved : bool;
  as_hostNonce : list byte;
  as_secret : list byte
}.

Definition authSnapshot (p : Peer) : AuthSnapshot :=
  mkSnapshot (p_authResolved p) (p_authNonce p) (p_sharedSecret p).

Inductive VerifyOutcome :=
| VerifyDrop                       (** auth already resolved: nothing happens *)
| VerifyFail                       (** [failAuth] *)
| VerifyOK (t : Transcript).

(** [verifyAuthResponse] up to the comparison of the MACs; [fps] is the answer
    of [peerDTLSFingerprints]. *)
Definition checkAuthResponse (snap : AuthSnapshot) (decoded : Message)
    (fps : result FingerprintError (list byte * list byte)) : VerifyOutcome :=
  if as_resolved snap then VerifyDrop else
  match decoded with
  | Msg KAuthResponse resp =>
      match b64_decode (au_Nonce resp) with
      | None => VerifyFail
      | Some mobileNonce =>
          if negb (blen mobileNonce =? Z.of_nat authNonceSize) then VerifyFail else
          match b64_decode (au_Mac resp) with
          | None => VerifyFail
          | Some gotMAC =>
              if blen (as_hostNonce snap) =? 0 then VerifyFail else
              match fps with
              | Err _ => VerifyFail
              | Ok (hostFp, mobileFp) =>
                  let want := authMAC (as_secret snap) authLabelMobileToHost
                                (as_hostNonce snap) mobileNonce hostFp mobileFp in
                  if bool_decide (want = gotMAC)
                  then VerifyOK (mkTranscript (as_hostNonce snap) mobileNonce hostFp mobileFp gotMAC)
                  else VerifyFail
              end
          end
      end
  | _ => VerifyFail
  end.

(** The section that commits a successful handshake; [false] if auth resolved
    meanwhile. *)
Definition commitAuth (t : Transcript) : M Peer bool := fun p =>
  if p_authResolved p then (false, p)
  else (true, p <| p_authResolved := true |> <| p_authenticated := true |>
                <| p_authNonce := [] |> <| p_authTimer := None |>
                <| p_verified := Some t |>).

(** The section of [failAuth]; [false] if auth had already resolved. *)
Definition resolveFailed : M Peer bool := fun p =>
  if p_authResolved p then (false, p)
  else (true, p <| p_authResolved := true |> <| p_authNonce := [] |> <| p_authTimer := None |>).

Definition authConfirm (secret : list byte) (t : Transcript) : Message :=
  Msg KAuthConfirm (mkAuthConfirm "auth_confirm"
    (b64_encode (authMAC secret authLabelHostToMobile
       (tr_hostNonce t) (tr_mobileNonce t) (tr_hostFp t) (tr_mobileFp t)))).

Definition authChallenge (nonce : list byte) : Message :=
  Msg KAuthChallenge (mkAuthChallenge "auth_challenge" (b64_encode nonce) authProtocolVersion).

(** ** What holds of a peer at any time *)

(** The accepted proof is the MAC, under this peer's secret, of this
    connection's nonces and certificates. *)
Definition proof_ok (p : Peer) (t : Transcript) : Prop :=
  tr_mac t = authMAC (p_sharedSecret p) authLabelMobileToHost
    (tr_hostNonce t) (tr_mobileNonce t) (tr_hostFp t) (tr_mobileFp t) /\
  length (tr_mobileNonce t) = authNonceSize /\ tr_hostNonce t <> [].

Definition is_confirm (m : Message) : Prop := MessageType m = "auth_confirm".

(** Nothing but handshake messages goes out before the auth_confirm. *)
Definition sent_in_order (l : list Message) : Prop :=
  forall l1 m l2, l = l1 ++ m :: l2 -> isAuthHandshakeMessage m = false -> Exists is_confirm l1.

Record peer_ok (p : Peer) : Prop := {
  ok_secret : p_sharedSecret p <> [];
  ok_ice : (length (p_iceCandidates p) <= maxBufferedICECandidates)%nat;
  ok_verified : forall t, p_verified p = Some t -> proof_ok p t /\ p_authResolved p = true;
  ok_authenticated : p_authenticated p = true -> is_Some (p_verified p);
  ok_confirmed : p_authConfirmed p = true -> Exists is_confirm (p_sent p);
  ok_confirm_sent : Exists is_confirm (p_sent p) -> is_Some (p_verified p);
  ok_order : sent_in_order (p_sent p);
  ok_raw : p_sentRaw p <> [] -> Exists is_confirm (p_sent p);
  ok_delivered : p_delivered p <> [] -> is_Some (p_verified p);
  ok_requests : Forall (fun m => IsRequest (msg_kind m) = true) (p_delivered p);
  ok_dispatch : p_dispatchStopped p = true -> p_dispatchMu p = None
}.

(** How a peer may change: what is set once stays set, the logs only grow, and
    nothing is delivered once dispatch is stopped. *)
Record peer_le (p p' : Peer) : Prop := {
  le_id : p_DeviceID p' = p_DeviceID p;
  le_attempt : p_attemptID p' = p_attemptID p;
  le_secret : p_sharedSecret p' = p_sharedSecret p;
  le_closed : p_closed p = true -> p_closed p' = true;
  le_silenced : p_silenced p = true -> p_silenced p' = true;
  le_resolved : p_authResolved p = true -> p_authResolved p' = true;
  le_confirmed : p_authConfirmed p = true -> p_authConfirmed p' = true;
  le_verified : is_Some (p_verified p) -> p_verified p' = p_verified p;
  le_failed : p_authResolved p = true -> p_verified p = None -> p_verified p' = None;
  le_stopped : p_dispatchStopped p = true ->
    p_dispatchStopped p' = true /\ p_delivered p' = p_delivered p;
  le_sent : p_sent p `prefix_of` p_sent p';
  le_delivered : p_delivered p `prefix_of` p_delivered p'
}.
End Auth.
