(* ===== verification/PeerManager.v ===== *)
(** * internal/webrtc/peer.go, the PeerManager: connections as goroutines

    The manager's state under [pm.mu], the peers it created, and every
    operation as a goroutine ([Conc]): one atomic section per lock hold,
    callback or call into a library. What Pion, the signaling server, the
    clock and the keyring answer is read from oracle lists, so a theorem about
    every store is about every behaviour of theirs. *)

From S2P Require Import Prelude GoLib Conc Protocol Peer.
From Stdlib Require Import Ascii.
Open Scope Z_scope.

(** ** State *)

(** A reference to a peer: peers are compared by identity, not by value. *)
Definition Ref : Type := nat.

Record ICEServer := mkICEServer {
  is_URLs : list string; is_Username : string; is_Credential : string
}.

#[export] Instance ICEServer_eq_dec : EqDecision ICEServer.
Proof. solve_decision. Defined.

(** What the manager did that others see; for a peer, with its reference. *)
Inductive Effect :=
| ESignal (m : SignalingMessage) (sent : bool)
| EAllowed (deviceID : string)
| ESecret (deviceID : string) (secret : option (list byte))
| EInserted (deviceID : string) (r : Ref) (allowed : string)
| EPeerDisconnect (deviceID : string) (r : Ref)
| EClosePion (r : Ref)
| ESetRemote (r : Ref) (sdp : string)
| EAddICE (r : Ref) (ice : ICECandidateInit)
| ETurn (servers : list ICEServer)                          (** the server's TURN credentials *)
| EConnection (relayOnly : bool) (servers : list ICEServer). (** a connection asked of Pion *)

#[export] Instance Effect_eq_dec : EqDecision Effect.
Proof. solve_decision. Defined.

(** The callbacks of the manager's [time.AfterFunc] timers. *)
Inductive TimerKind :=
| TGrace (deviceID : string)
| TWatchdog (deviceID : string) (r : Ref)
| TAuth (r : Ref)
| TAnswer (deviceID : string) (r : Ref).

Record Sys := mkSys {
  (** configuration *)
  s_MaxPeers : Z;
  s_ForceRelay : bool;
  s_customAPI : bool;
  s_hasDisconnect : bool;            (** [OnPeerDisconnect != nil] *)
  s_hasSecretFn : bool;              (** [SharedSecretFn != nil] *)
  s_hasHandler : bool;
  (** guarded by pm.mu *)
  s_allowed : string;
  s_peers : gmap string Ref;
  s_disconnectTimers : gmap string nat;
  s_iceRestartTimers : gmap string nat;
  s_disconnectTimes : gmap string Z;
  s_cleanupWg : nat;
  s_teardownWg : nat;
  s_closed : bool;
  s_shutDown : bool;
  s_replacedAttempts : list string;
  s_turnCache : list ICEServer;
  s_turnCacheTime : Z;
  (** the heap: peers, armed timers, local wait groups and channels *)
  s_store : gmap Ref Peer;
  s_armed : gmap nat TimerKind;
  s_latches : gmap nat nat;
  s_next : nat;
  (** oracles: booleans, numbers, SDP texts, secrets, TURN replies, nonces,
      Pion states and fingerprints *)
  s_bools : list bool;
  s_nums : list Z;
  s_strings : list string;
  s_secrets : list (option (list byte));
  s_turns : list (option (list ICEServer));
  s_nonces : list (option (list byte));
  s_states : list PCState;
  s_fps : list (result FingerprintError (list byte * list byte));
  s_log : list Effect
}.

#[export] Instance Sys_eta : Eta Sys := fun s =>
  mkSys (s_MaxPeers s) (s_ForceRelay s) (s_customAPI s) (s_hasDisconnect s) (s_hasSecretFn s)
    (s_hasHandler s) (s_allowed s) (s_peers s) (s_disconnectTimers s) (s_iceRestartTimers s)
    (s_disconnectTimes s) (s_cleanupWg s) (s_teardownWg s) (s_closed s) (s_shutDown s)
    (s_replacedAttempts s) (s_turnCache s) (s_turnCacheTime s) (s_store s) (s_armed s)
    (s_latches s) (s_next s) (s_bools s) (s_nums s) (s_strings s) (s_secrets s) (s_turns s)
    (s_nonces s) (s_states s) (s_fps s) (s_log s).

Abbreviation P A := (Proc Sys A).
Abbreviation T := (Thread Sys).

(** A new manager, with the callbacks and limits as its owner sets them later:
    [handler]: whether there is one; [answers] holds what the environment will
    answer. *)
Definition NewPeerManager (handler : bool) (answers : Sys) : Sys :=
  mkSys 1 false false false false handler "" ∅ ∅ ∅ ∅ 0 0 false false [] [] 0 ∅ ∅ ∅ 0
    (s_bools answers) (s_nums answers) (s_strings answers) (s_secrets answers) (s_turns answers)
    (s_nonces answers) (s_states answers) (s_fps answers) [].

(** ** Answers of the environment *)

Definition ask_bool : M Sys bool := fun s =>
  (default false (head (s_bools s)), s <| s_bools ::= tail |>).
Definition ask_num : M Sys Z := fun s => (default 0 (head (s_nums s)), s <| s_nums ::= tail |>).
Definition ask_string : M Sys string := fun s =>
  (default "" (head (s_strings s)), s <| s_strings ::= tail |>).
Definition ask_secret : M Sys (option (list byte)) := fun s =>
  (default None (head (s_secrets s)), s <| s_secrets ::= tail |>).
Definition ask_turn : M Sys (option (list ICEServer)) := fun s =>
  (default None (head (s_turns s)), s <| s_turns ::= tail |>).
Definition ask_nonce : M Sys (option (list byte)) := fun s =>
  (default None (head (s_nonces s)), s <| s_nonces ::= tail |>).
(** [conn.ConnectionState()]. *)
Definition ask_state : M Sys PCState := fun s =>
  (default PCNew (head (s_states s)), s <| s_states ::= tail |>).
Definition ask_fps : M Sys (result FingerprintError (list byte * list byte)) := fun s =>
  (default (Err NoSCTP) (head (s_fps s)), s <| s_fps ::= tail |>).

Definition effect (e : Effect) : M Sys unit := fun s => (tt, s <| s_log ::= fun l => l ++ [e] |>).

(** ** Peers in the heap *)

Definition peer_at (s : Sys) (r : Ref) : option Peer := s_store s !! r.

(** Run a section of a peer (its [p.mu] hold); a reference to no peer is never
    used. *)
Definition on_peer {A} (r : Ref) (dflt : A) (f : M Peer A) : M Sys A := fun s =>
  match s_store s !! r with
  | Some p => let '(a, p') := f p in (a, s <| s_store ::= <[r := p']> |>)
  | None => (dflt, s)
  end.

Definition get_peer {A} (r : Ref) (dflt : A) (f : Peer -> A) : M Sys A := fun s =>
  (from_option f dflt (s_store s !! r), s).

(** ** signaling.Send *)

Definition signaling_Send (m : SignalingMessage) : P bool :=
  act (sent ← ask_bool; _ ← effect (ESignal m sent); mret sent).

(** ** Timers

    [time.AfterFunc] arms a timer. While it is armed the environment may fire
    it at any time, which starts the goroutine of its callback; [Stop] disarms
    it. *)

Definition arm (k : TimerKind) (s : Sys) : nat * Sys :=
  (s_next s, s <| s_next ::= Datatypes.S |> <| s_armed ::= <[s_next s := k]> |>).

Definition stop (t : nat) (s : Sys) : Sys := s <| s_armed ::= delete t |>.

(** [stopTimersLocked]. *)
Definition stopTimer (field : gmap string nat) (deviceID : string) (s : Sys) : Sys :=
  match field !! deviceID with
  | Some t => stop t s
  | None => s
  end.

Definition stopTimersLocked (deviceID : string) (s : Sys) : Sys :=
  let s := (stopTimer (s_disconnectTimers s) deviceID s) <| s_disconnectTimers ::= delete deviceID |> in
  let s := (stopTimer (s_iceRestartTimers s) deviceID s) <| s_iceRestartTimers ::= delete deviceID |> in
  s <| s_disconnectTimes ::= delete deviceID |>.

(** ** Peer goroutines *)

(** [Close]: one section, under [p.mu]. *)
Definition Peer_Close (r : Ref) : P unit :=
  act (was ← get_peer r true p_closed;
       _ ← on_peer r tt (mmod closePeer);
       if was : bool then mret tt else effect (EClosePion r)).

Definition isNone {A} (o : option A) : bool := match o with None => true | Some _ => false end.

(** [stopDispatch]: release output sends, then wait out a dispatch in
    progress. *)
Definition stopDispatch (r : Ref) : P unit :=
  _ ← act (on_peer r tt (mmod (fun p => p <| p_sendStop := true |>)));
  wait (fun s =>
    match s_store s !! r with
    | Some p =>
        if isNone (p_dispatchMu p)
        then Some (tt, s <| s_store ::= <[r := p <| p_dispatchStopped := true |>]> |>)
        else None
    | None => Some (tt, s)
    end).

(** [OnPeerDisconnect(deviceID)]; the handler is another component. *)
Definition callDisconnect (deviceID : string) (r : Ref) : P unit :=
  act (effect (EPeerDisconnect deviceID r)).

(** ** Background cleanup *)

(** [ClosePeerIfCurrent]: the section under [pm.mu], then the close. *)
Definition removeIfCurrent (deviceID : string) (r : Ref) : M Sys unit := fun s =>
  if decide (s_peers s !! deviceID = Some r)
  then (tt, stopTimersLocked deviceID (s <| s_peers ::= delete deviceID |>))
  else (tt, s).

Definition ClosePeerIfCurrent (deviceID : string) (r : Ref) : P unit :=
  _ ← act (removeIfCurrent deviceID r);
  Peer_Close r.

Definition teardownIfCurrent (r : Ref) : P unit :=
  _ ← stopDispatch r;
  dev ← act (get_peer r "" p_DeviceID);
  call ← act (fun s => (bool_decide (s_peers s !! dev = Some r) && s_hasDisconnect s, s));
  if call : bool then callDisconnect dev r else mret tt.

Definition wg_done_cleanup : P unit := act (mmod (fun s => s <| s_cleanupWg ::= Nat.pred |>)).
Definition wg_done_teardown : P unit := act (mmod (fun s => s <| s_teardownWg ::= Nat.pred |>)).

(** The goroutine [scheduleCleanup] starts. *)
Definition cleanupGoroutine (r : Ref) : P unit :=
  _ ← teardownIfCurrent r;
  _ ← wg_done_teardown;
  dev ← act (get_peer r "" p_DeviceID);
  _ ← ClosePeerIfCurrent dev r;
  wg_done_cleanup.

(** [scheduleCleanup], within a hold of [pm.mu]. *)
Definition scheduleCleanup (r : Ref) (s : Sys) : Sys * list T :=
  if s_closed s then (s, [])
  else (s <| s_teardownWg ::= Datatypes.S |> <| s_cleanupWg ::= Datatypes.S |>, [run (cleanupGoroutine r)]).

(** A hold of [pm.mu] that only schedules a cleanup. *)
Definition scheduleCleanupProc (r : Ref) : P unit :=
  act_go (fun s => let '(s', new) := scheduleCleanup r s in (tt, s', new)).

Definition goCleanup (fn : P unit) : P unit :=
  act_go (fun s =>
    let tracked := negb (s_closed s) in
    let s' := if tracked then s <| s_cleanupWg ::= Datatypes.S |> else s in
    (tt, s', [run (_ ← fn; if tracked then wg_done_cleanup else mret tt)])).

(** [goTeardownLocked], within a hold of [pm.mu]. *)
Definition goTeardownLocked (fn : P unit) (s : Sys) : Sys * list T :=
  let tracked := negb (s_closed s) in
  let s' := if tracked then s <| s_teardownWg ::= Datatypes.S |> <| s_cleanupWg ::= Datatypes.S |> else s in
  (s', [run (_ ← fn; if tracked then (_ ← wg_done_teardown; wg_done_cleanup) else mret tt)]).

(** [closeViaManager]. *)
Definition closeViaManager (r : Ref) : P unit :=
  act_go (fun s =>
    if s_closed s then (tt, s, [run (Peer_Close r)])
    else let '(s', new) := scheduleCleanup r s in (tt, s', new)).

(** [failAuth]. *)
Definition failAuth (r : Ref) : P unit :=
  failed ← act (on_peer r false resolveFailed);
  if failed : bool then closeViaManager r else mret tt.

Section Manager.
(** HMAC-SHA256 and MessagePack. *)
Variable hmac_sha256 : list byte -> list byte -> list byte.
Variable unmarshalEnvelope : list byte -> option string.
Variable unmarshalInto : forall k : Kind, list byte -> option (payload k).
Variable marshal : Message -> option (list byte).

(** ** Sending *)

(** How the select of [waitForSendReady] ends. *)
Definition waitOutcome (n : Z) (p : Peer) : option (result SendError unit) :=
  if n =? 0 then Some (Ok tt)
  else if n =? 1 then (if p_closed p then Some (Err PeerClosed) else None)
  else if n =? 2 then (if p_sendStop p then Some (Err ConnectionClosing) else None)
  else if n =? 3 then Some (Err SendCanceled)
  else Some (Err SendTimeout).

Definition waitForSendReady (r : Ref) : P (result SendError unit) :=
  buffered ← act ask_num;
  if buffered <=? maxBufferedAmount then mret (Ok tt)
  else
    n ← act ask_num;
    wait (fun s =>
      match s_store s !! r with
      | Some p => match waitOutcome n p with Some o => Some (o, s) | None => None end
      | None => Some (Err PeerClosed, s)
      end).

(** [dc.Send]. *)
Definition dc_Send (r : Ref) (msg : Message) : P (result SendError unit) :=
  act (sent ← ask_bool;
       if sent : bool then
         _ ← on_peer r tt (mmod (fun p => p <| p_sent ::= fun l => l ++ [msg] |>));
         mret (Ok tt)
       else mret (Err DCSendFailed)).

Definition SendMessageContext (r : Ref) (msg : Message) : P (result SendError unit) :=
  gate ← act (get_peer r (Err PeerClosed) (sendGate msg));
  match gate with
  | Err e => mret (Err e)
  | Ok _ =>
      match Encode marshal msg with
      | Err _ => mret (Err EncodeFailed)
      | Ok _ =>
          if isOutput msg then
            w ← waitForSendReady r;
            match w with
            | Err e => mret (Err e)
            | Ok _ => dc_Send r msg
            end
          else
            buffered ← act ask_num;
            if buffered >? maxControlBufferedAmount then mret (Err (BufferFull (MessageType msg)))
            else dc_Send r msg
      end
  end.

(** [SendRaw]. *)
Definition SendRaw (r : Ref) (data : list byte) : P (result SendError unit) :=
  gate ← act (get_peer r (Err PeerClosed) rawGate);
  match gate with
  | Err e => mret (Err e)
  | Ok _ =>
      w ← waitForSendReady r;
      match w with
      | Err e => mret (Err e)
      | Ok _ =>
          act (sent ← ask_bool;
               if sent : bool then
                 _ ← on_peer r tt (mmod (fun p => p <| p_sentRaw ::= fun l => l ++ [data] |>));
                 mret (Ok tt)
               else mret (Err DCSendFailed))
      end
  end.

(** [SendTo]. *)
Definition SendTo (deviceID : string) (msg : Message) : P (result SendError unit) :=
  r ← act (fun s => (s_peers s !! deviceID, s));
  match r with
  | None => mret (Err (NoPeer deviceID))
  | Some r => SendMessageContext r msg
  end.

(** ** The handshake *)

(** [sendAuthChallenge], run by [OnOpen]. *)
Definition sendAuthChallenge (r : Ref) : P unit :=
  nonce ← act ask_nonce;
  match nonce with
  | None => failAuth r
  | Some nonce =>
      _ ← act (t ← arm (TAuth r);
               on_peer r tt (mmod (fun p => p <| p_authNonce := nonce |> <| p_authTimer := Some t |>)));
      e ← SendMessageContext r (authChallenge nonce);
      if is_ok e then mret tt else failAuth r
  end.

(** [verifyAuthResponse]. *)
Definition verifyAuthResponse (r : Ref) (decoded : Message) : P unit :=
  snap ← act (get_peer r (mkSnapshot true [] []) authSnapshot);
  fps ← act ask_fps;
  match checkAuthResponse hmac_sha256 snap decoded fps with
  | VerifyDrop => mret tt
  | VerifyFail => failAuth r
  | VerifyOK t =>
      committed ← act (on_peer r false (commitAuth t));
      if committed : bool then
        e ← SendMessageContext r (authConfirm hmac_sha256 (as_secret snap) t);
        if is_ok e then act (on_peer r tt (mmod (fun p => p <| p_authConfirmed := true |>)))
        else
          _ ← act (on_peer r tt (mmod (fun p => p <| p_authenticated := false |>)));
          closeViaManager r
      else mret tt
  end.

(** ** Dispatch *)

(** Take [dispatchMu] under the ticket [t]: [Some true], or [Some false] when
    dispatch has stopped; [None] while another dispatch holds it. *)
Definition acquireDispatch (r : Ref) (s : Sys) : option (option nat * Sys) :=
  match s_store s !! r with
  | None => Some (None, s)
  | Some p =>
      if isNone (p_dispatchMu p) then
        if p_dispatchStopped p then Some (None, s)
        else Some (Some (s_next s),
          s <| s_next ::= Datatypes.S |> <| s_store ::= <[r := p <| p_dispatchMu := Some (s_next s) |>]> |>)
      else None
  end.

Definition releaseDispatch (r : Ref) (t : nat) : P unit :=
  act (on_peer r tt (mmod (fun p =>
    if decide (p_dispatchMu p = Some t) then p <| p_dispatchMu := None |> else p))).

(** The handler call, which runs while this dispatch holds the mutex. *)
Definition callHandler (r : Ref) (t : nat) (msg : Message) : P unit :=
  wait (fun s =>
    match s_store s !! r with
    | Some p =>
        if decide (p_dispatchMu p = Some t)
        then Some (tt, s <| s_store ::= <[r := p <| p_delivered ::= fun l => l ++ [msg] |>]> |>)
        else None
    | None => Some (tt, s)
    end).

Definition handleDataChannelMessage (r : Ref) (data : list byte) : P unit :=
  held ← wait (acquireDispatch r);
  match held with
  | None => mret tt
  | Some t =>
      authed ← act (get_peer r false p_authenticated);
      _ ← match DecodeRequest unmarshalEnvelope unmarshalInto data with
          | Err _ => if authed : bool then mret tt else failAuth r
          | Ok decoded =>
              if negb authed then verifyAuthResponse r decoded
              else if negb (IsRequest (msg_kind decoded)) then mret tt
              else
                has ← act (fun s => (s_hasHandler s, s));
                if has : bool then callHandler r t decoded else mret tt
          end;
      releaseDispatch r t
  end.

(** ** Local ICE candidates *)

(** [sendICECandidate], for a candidate that is not the end of gathering. *)
Definition sendICECandidate (r : Ref) (c : ICECandidateInit) : P unit :=
  silenced ← act (get_peer r true p_silenced);
  if silenced : bool then mret tt
  else
    dev ← act (get_peer r "" p_DeviceID);
    attempt ← act (get_peer r "" p_attemptID);
    _ ← signaling_Send ((signal "ice_candidate") <| sm_TargetDeviceID := dev |>
      <| sm_AttemptID := attempt |> <| sm_Candidate := ice_Candidate c |>
      <| sm_SDPMid := ice_SDPMid c |> <| sm_SDPMLineIndex := ice_SDPMLineIndex c |>);
    mret tt.

(** ** Closing *)

Definition ClosePeer (deviceID : string) : P unit :=
  r ← act (fun s => (s_peers s !! deviceID,
                     stopTimersLocked deviceID (s <| s_peers ::= delete deviceID |>)));
  match r with
  | Some r => Peer_Close r
  | None => mret tt
  end.

(** A local wait group, or a channel closed when it reaches zero. *)
Definition new_latch (n : nat) (s : Sys) : nat * Sys :=
  (s_next s, s <| s_next ::= Datatypes.S |> <| s_latches ::= <[s_next s := n]> |>).
Definition latch_done (l : nat) : P unit :=
  act (mmod (fun s => s <| s_latches ::= fun m => <[l := Nat.pred (default O (m !! l))]> m |>)).
Definition latch_wait (l : nat) : P unit :=
  wait (fun s => if decide (default O (s_latches s !! l) = O) then Some (tt, s) else None).

(** The goroutine [closeAll] starts for one peer. *)
Definition closeAllOne (notify close : nat) (deviceID : string) (r : Ref) : P unit :=
  _ ← stopDispatch r;
  has ← act (fun s => (s_hasDisconnect s, s));
  _ ← (if has : bool then callDisconnect deviceID r else mret tt);
  _ ← latch_done notify;
  _ ← Peer_Close r;
  latch_done close.

Definition stopAll (ts : list nat) (armed : gmap nat TimerKind) : gmap nat TimerKind :=
  foldr delete armed ts.

(** The first hold of [closeAll]: closed, the map taken, the timers stopped. *)
Definition closeAllSection (s : Sys) : (nat * nat) * Sys * list T :=
  let peers := s_peers s in
  let s := s <| s_closed := true |> <| s_peers := ∅ |>
             <| s_armed ::= stopAll (map snd (map_to_list (s_disconnectTimers s))
                                     ++ map snd (map_to_list (s_iceRestartTimers s))) |>
             <| s_disconnectTimers := ∅ |> <| s_iceRestartTimers := ∅ |> <| s_disconnectTimes := ∅ |> in
  let '(notify, s) := new_latch (size peers) s in
  let '(close, s) := new_latch (size peers) s in
  ((notify, close), s, map (fun '(d, r) => run (closeAllOne notify close d r)) (map_to_list peers)).

Definition closeAll (waitClose : bool) : P unit :=
  latches ← act_go closeAllSection;
  let '(notify, close) := latches in
  _ ← latch_wait notify;
  _ ← wait (fun s => if decide (s_teardownWg s = O) then Some (tt, s) else None);
  if waitClose : bool then
    _ ← latch_wait close;
    wait (fun s => if decide (s_cleanupWg s = O) then Some (tt, s) else None)
  else mret tt.

Definition CloseAll : P unit :=
  _ ← act (mmod (fun s => s <| s_shutDown := true |>));
  closeAll true.

Definition CloseAllAndReopen : P unit :=
  _ ← closeAll false;
  act (mmod (fun s => if s_shutDown s then s else s <| s_closed := false |>)).

Definition DisconnectPeer (deviceID : string) : P bool :=
  act_go (fun s =>
    match s_peers s !! deviceID with
    | Some r => let '(s', new) := scheduleCleanup r s in (true, s', new)
    | None => (false, s, [])
    end).

Definition allow (id : string) (s : Sys) : Sys :=
  s <| s_allowed := id |> <| s_log ::= fun l => l ++ [EAllowed id] |>.
Definition getAllowedDeviceID : M Sys string := fun s => (s_allowed s, s).
Definition AllowedDeviceID : M Sys string := getAllowedDeviceID.
Definition isClosed : M Sys bool := fun s => (s_closed s, s).
Definition SetAllowedDeviceID (id : string) : P unit := act (mmod (allow id)).
Definition PeerCount : P nat := act (fun s => (size (s_peers s), s)).

(** [PeerConnectionState.String()]. *)
Definition pcStateString (state : PCState) : string :=
  match state with
  | PCNew => "new" | PCConnecting => "connecting" | PCConnected => "connected"
  | PCDisconnected => "disconnected" | PCFailed => "failed" | PCClosed => "closed"
  end.

(** Every tracked peer with what its connection answers. *)
Fixpoint statesOf (peers : list string) : M Sys (list (string * string)) :=
  match peers with
  | [] => mret []
  | deviceID :: rest =>
      state ← ask_state;
      states ← statesOf rest;
      mret ((deviceID, pcStateString state) :: states)
  end.

Definition PeerStates : P (gmap string string) :=
  act (fun s => let '(states, s') := statesOf (map_to_list (s_peers s)).*1 s in (list_to_map states, s')).

(** ** Connect requests *)

(** [getSharedSecret]: an error, a timeout and an empty secret all reject. *)
Definition getSharedSecret (deviceID : string) : P (option (list byte)) :=
  act (fun s =>
    if negb (s_hasSecretFn s) then (None, s) else
    let '(secret, s') := ask_secret s in
    (match secret with
     | Some b => if blen b =? 0 then None else Some b
     | None => None
     end, s' <| s_log ::= fun l => l ++ [ESecret deviceID secret] |>)).

Definition reject (reason mobileDeviceID : string) : P unit :=
  _ ← signaling_Send ((signal "connection_rejected") <| sm_Reason := reason |>
                        <| sm_TargetDeviceID := mobileDeviceID |>);
  mret tt.

Definition recordReplacedAttemptLocked (attemptID : string) (l : list string) : list string :=
  if decide (attemptID = "") then l else
  let l := l ++ [attemptID] in
  if (maxReplacedAttempts <? length l)%nat then tail l else l.

(** [turnCacheTTL], in nanoseconds. *)
Definition turnCacheTTL : Z := 600 * 10 ^ 9.

(** [fetchTurnCredentials]; the request itself is the environment's. *)
Definition fetchTurnCredentials : P (option (list ICEServer)) :=
  cached ← act (fun s =>
    let '(now, s') := ask_num s in
    (if (0 <? length (s_turnCache s))%nat && (now - s_turnCacheTime s <? turnCacheTTL)
     then Some (s_turnCache s) else None, s'));
  match cached with
  | Some servers => mret (Some servers)
  | None =>
      reply ← act (reply ← ask_turn; _ ← from_option (effect ∘ ETurn) (mret tt) reply; mret reply);
      act (fun s =>
        match reply with
        | None => (None, s)
        | Some servers =>
            let '(now, s') := ask_num s in
            (Some servers, s' <| s_turnCache := servers |> <| s_turnCacheTime := now |>)
        end)
  end.

(** Without TURN credentials, when they may be done without. *)
Definition stunServers : list ICEServer := [mkICEServer ["stun:stun.cloudflare.com:3478"] "" ""].

(** The ICE servers of a new connection, if there is to be one: a custom API
    has its own, and a forced relay does without none. *)
Definition iceServers (customAPI force : bool) (turn : option (list ICEServer)) : option (list ICEServer) :=
  if customAPI then Some []
  else match turn with
       | Some servers => Some servers
       | None => if force then None else Some stunServers
       end.

(** [NewPeerConnection]. *)
Definition newConnection (relayOnly : bool) (servers : list ICEServer) : M Sys bool :=
  _ ← effect (EConnection relayOnly servers); ask_bool.

(** The lock hold that takes the old peer out of the map, with the teardown
    it starts: the old peer, and the channel to wait on. *)
Definition replaceSection (mobileDeviceID : string) (s : Sys) : option Ref * Sys * list T :=
  match s_peers s !! mobileDeviceID with
  | None => (None, stopTimersLocked mobileDeviceID s, [])
  | Some old =>
      let '(_, s) := on_peer old tt (mmod silence) s in
      let attempt := from_option p_attemptID "" (s_store s !! old) in
      let s := s <| s_peers ::= delete mobileDeviceID |>
                 <| s_replacedAttempts ::= recordReplacedAttemptLocked attempt |> in
      let '(s, new) :=
        if s_hasDisconnect s
        then goTeardownLocked (_ ← stopDispatch old; callDisconnect mobileDeviceID old) s
        else (s, []) in
      (Some old, stopTimersLocked mobileDeviceID s, new)
  end.

(** Why the insertion may be refused under the lock. *)
Inductive InsertResult :=
| Inserted (r : Ref)
| PeersClosed
| NoLongerPaired
| MaxReached.

Definition insertSection (mobileDeviceID attemptID : string) (sharedSecret : list byte)
    : M Sys InsertResult := fun s =>
  if s_closed s then (PeersClosed, s)
  else if decide (s_allowed s <> mobileDeviceID) then (NoLongerPaired, s)
  else if isNone (s_peers s !! mobileDeviceID) && (Z.of_nat (size (s_peers s)) >=? s_MaxPeers s)
  then (MaxReached, s)
  else
    let r := s_next s in
    (Inserted r,
     s <| s_next ::= Datatypes.S |>
       <| s_store ::= <[r := newPeer mobileDeviceID attemptID sharedSecret]> |>
       <| s_peers ::= <[mobileDeviceID := r]> |>
       <| s_log ::= fun l => l ++ [EInserted mobileDeviceID r (s_allowed s)] |>).

(** From the insertion to the offer: every failure closes the device's peer. *)
Definition offerTo (mobileDeviceID attemptID : string) (r : Ref) : P unit :=
  dcOK ← act ask_bool;
  if negb dcOK then ClosePeer mobileDeviceID else
  _ ← act (on_peer r tt (mmod (fun p => p <| p_dc := true |>)));
  offerOK ← act ask_bool;
  if negb offerOK then ClosePeer mobileDeviceID else
  sdp ← act ask_string;
  localOK ← act ask_bool;
  if negb localOK then ClosePeer mobileDeviceID else
  sent ← signaling_Send ((signal "sdp_offer") <| sm_TargetDeviceID := mobileDeviceID |>
           <| sm_AttemptID := attemptID |> <| sm_SDP := sdp |>);
  if negb sent then ClosePeer mobileDeviceID else
  _ ← act (arm (TAnswer mobileDeviceID r));
  mret tt.

Definition handleConnectRequest (mobileDeviceID attemptID : string) : P unit :=
  closed ← act isClosed;
  if closed : bool then mret tt else
  allowedID ← act getAllowedDeviceID;
  if bool_decide (allowedID = "") || negb (bool_decide (mobileDeviceID = allowedID))
  then reject "not_paired" mobileDeviceID else
  secret ← getSharedSecret mobileDeviceID;
  match secret with
  | None => reject "secret_unavailable" mobileDeviceID
  | Some sharedSecret =>
      full ← act (fun s =>
        (isNone (s_peers s !! mobileDeviceID) && (Z.of_nat (size (s_peers s)) >=? s_MaxPeers s), s));
      if full : bool then reject "already_connected" mobileDeviceID else
      old ← act_go (replaceSection mobileDeviceID);
      (* waiting for the old session's teardown may time out at any moment *)
      _ ← match old with
          | None => mret tt
          | Some old => goCleanup (Peer_Close old)
          end;
      customAPI ← act (fun s => (s_customAPI s, s));
      force ← act (fun s => (s_ForceRelay s, s));
      turn ← (if customAPI : bool then mret None else fetchTurnCredentials);
      match iceServers customAPI force turn with
      | None => mret tt
      | Some servers =>
          pcOK ← act (newConnection force servers);
          if negb pcOK then mret tt else
          ins ← act (insertSection mobileDeviceID attemptID sharedSecret);
          match ins with
          | Inserted r => offerTo mobileDeviceID attemptID r
          | _ => mret tt
          end
      end
  end.

(** ** Answers and candidates *)

Definition isOtherAttempt (peerAttempt attemptID : string) : bool :=
  negb (bool_decide (attemptID = "")) && negb (bool_decide (peerAttempt = "")) &&
  negb (bool_decide (attemptID = peerAttempt)).

(** The tracked peer of a device and its attempt. *)
Definition lookupPeer (deviceID : string) : M Sys (option (Ref * string)) := fun s =>
  (match s_peers s !! deviceID with
   | Some r => Some (r, from_option p_attemptID "" (s_store s !! r))
   | None => None
   end, s).

(** Add the buffered candidates; a failure is only logged. *)
Fixpoint addCandidates (r : Ref) (l : list ICECandidateInit) : P unit :=
  match l with
  | [] => mret tt
  | ice :: rest => _ ← act (effect (EAddICE r ice)); addCandidates r rest
  end.

Definition handleSDPAnswer (mobileDeviceID attemptID sdp : string) : P unit :=
  if slen sdp =? 0 then mret tt
  else if slen sdp >? 64 * 1024 then mret tt
  else
    found ← act (lookupPeer mobileDeviceID);
    match found with
    | None => mret tt
    | Some (r, peerAttempt) =>
        if isOtherAttempt peerAttempt attemptID then mret tt else
        stable ← act ask_bool;
        if stable : bool then mret tt else
        applied ← act (ok ← ask_bool; _ ← effect (ESetRemote r sdp); mret ok);
        if negb applied then
          act_go (fun s =>
            if decide (s_peers s !! mobileDeviceID = Some r)
            then let '(s', new) := scheduleCleanup r s in (tt, s', new)
            else (tt, s, []))
        else
          buffered ← act (on_peer r [] (fun p =>
            (p_iceCandidates p, p <| p_remoteDescSet := true |> <| p_iceCandidates := [] |>)));
          addCandidates r buffered
    end.

(** What to do with a remote candidate, under [p.mu]. *)
Inductive ICEAction := ICEDropped | ICEBuffered | ICEApply.

Definition bufferICE (ice : ICECandidateInit) : M Peer ICEAction := fun p =>
  if negb (p_remoteDescSet p) then
    if (maxBufferedICECandidates <=? length (p_iceCandidates p))%nat then (ICEDropped, p)
    else (ICEBuffered, p <| p_iceCandidates ::= fun l => l ++ [ice] |>)
  else (ICEApply, p).

(** The conversion of a media line index to 16 bits. *)
Definition uint16 (n : Z) : Z := n mod 65536.

Definition handleICECandidate (mobileDeviceID attemptID candidate sdpMid : string)
    (sdpMLineIndex : option Z) : P unit :=
  found ← act (lookupPeer mobileDeviceID);
  match found with
  | None => mret tt
  | Some (r, peerAttempt) =>
      if isOtherAttempt peerAttempt attemptID then mret tt else
      let ice := mkICE candidate sdpMid (uint16 <$> sdpMLineIndex) in
      action ← act (on_peer r ICEDropped (bufferICE ice));
      match action with
      | ICEApply => act (effect (EAddICE r ice))
      | _ => mret tt
      end
  end.

Definition handlePeerUnavailable (deviceID attemptID : string) : P unit :=
  found ← act (fun s =>
    (match s_peers s !! deviceID with
     | Some r =>
         let current := from_option p_attemptID "" (s_store s !! r) in
         Some (r, negb (bool_decide (attemptID = current)) &&
                  bool_decide (attemptID ∈ s_replacedAttempts s))
     | None => None
     end, s));
  match found with
  | None => mret tt
  | Some (r, replaced) =>
      if replaced : bool then mret tt else
      dcOpen ← act (open ← ask_bool; has ← get_peer r false p_dc; mret (has && open));
      pcState ← act ask_state;
      if dcOpen || bool_decide (pcState = PCConnecting) || bool_decide (pcState = PCConnected)
      then mret tt
      else goCleanup (ClosePeerIfCurrent deviceID r)
  end.

(** A malformed attempt ID is blanked. *)
Definition HandleSignalingMessage (msg : SignalingMessage) : P unit :=
  let attempt := if negb (bool_decide (sm_AttemptID msg = "")) && negb (attemptIDPattern (sm_AttemptID msg))
                 then "" else sm_AttemptID msg in
  if decide (sm_Type msg = "connect_request") then
    handleConnectRequest (sm_TargetDeviceID msg) attempt
  else if decide (sm_Type msg = "sdp_answer") then
    handleSDPAnswer (sm_TargetDeviceID msg) attempt (sm_SDP msg)
  else if decide (sm_Type msg = "ice_candidate") then
    handleICECandidate (sm_TargetDeviceID msg) attempt (sm_Candidate msg) (sm_SDPMid msg) (sm_SDPMLineIndex msg)
  else if decide (sm_Type msg = "peer_unavailable") then
    handlePeerUnavailable (sm_DeviceID msg) attempt
  else mret tt.

(** ** Connection state changes *)

(** [pcDisconnectedTimeout], in nanoseconds. *)
Definition pcDisconnectedTimeout : Z := 10 * 10 ^ 9.

(** [handlePeerStateChange], one hold of [pm.mu]; [now] is [time.Now]. *)
Definition stateChangeSection (r : Ref) (state : PCState) (now : Z) (s : Sys) : Sys * list T :=
  let deviceID := from_option p_DeviceID "" (s_store s !! r) in
  if negb (bool_decide (s_peers s !! deviceID = Some r)) then (s, []) else
  match state with
  | PCConnected =>
      let s := match s_disconnectTimers s !! deviceID with
               | Some t => (stop t s) <| s_disconnectTimers ::= delete deviceID |>
                             <| s_disconnectTimes ::= delete deviceID |>
               | None => s
               end in
      let s := match s_iceRestartTimers s !! deviceID with
               | Some t => (stop t s) <| s_iceRestartTimers ::= delete deviceID |>
               | None => s
               end in
      (s, [])
  | PCDisconnected =>
      if negb (isNone (s_iceRestartTimers s !! deviceID)) then (s, [])
      else if negb (isNone (s_disconnectTimers s !! deviceID)) then (s, [])
      else
        let '(t, s) := arm (TGrace deviceID) s in
        (s <| s_disconnectTimes ::= <[deviceID := now]> |>
           <| s_disconnectTimers ::= <[deviceID := t]> |>, [])
  | PCFailed | PCClosed => scheduleCleanup r (stopTimersLocked deviceID s)
  | _ => (s, [])
  end.

Definition handlePeerStateChange (r : Ref) (state : PCState) : P unit :=
  act_go (fun s =>
    let '(now, s) := ask_num s in
    let '(s, new) := stateChangeSection r state now s in (tt, s, new)).

(** The last section of [attemptICERestart] arms the answer watchdog. *)
Definition armWatchdog (deviceID : string) (r : Ref) (s : Sys) : Sys :=
  if s_closed s || negb (bool_decide (s_peers s !! deviceID = Some r)) then s else
  let s := stopTimer (s_iceRestartTimers s) deviceID s in
  let '(t, s) := arm (TWatchdog deviceID r) s in
  s <| s_iceRestartTimers ::= <[deviceID := t]> |>.

Definition attemptICERestart (deviceID : string) : P unit :=
  found ← act (lookupPeer deviceID);
  match found with
  | None => mret tt
  | Some (r, attempt) =>
      offerOK ← act ask_bool;
      if negb offerOK then scheduleCleanupProc r else
      sdp ← act ask_string;
      localOK ← act ask_bool;
      if negb localOK then scheduleCleanupProc r else
      _ ← act (on_peer r tt (mmod (fun p => p <| p_remoteDescSet := false |> <| p_iceCandidates := [] |>)));
      sent ← signaling_Send ((signal "sdp_offer") <| sm_TargetDeviceID := deviceID |>
               <| sm_AttemptID := attempt |> <| sm_SDP := sdp |>);
      if negb sent then scheduleCleanupProc r else
      act (mmod (armWatchdog deviceID r))
  end.

Definition onDisconnectTimerFired (deviceID : string) : P unit :=
  found ← act (fun s =>
    ((s_disconnectTimes s !! deviceID, s_peers s !! deviceID),
     s <| s_disconnectTimers ::= delete deviceID |> <| s_disconnectTimes ::= delete deviceID |>));
  match found with
  | (_, None) => mret tt
  | (disconnectTime, Some r) =>
      state ← act ask_state;
      if negb (bool_decide (state = PCDisconnected)) then mret tt else
      now ← act ask_num;
      let elapsed := now - default 0 disconnectTime in
      if negb (isNone disconnectTime) && (elapsed <? pcDisconnectedTimeout / 2) then
        act (t ← arm (TGrace deviceID);
             mmod (fun s => s <| s_disconnectTimes ::= <[deviceID := default 0 disconnectTime]> |>
                              <| s_disconnectTimers ::= <[deviceID := t]> |>))
      else attemptICERestart deviceID
  end.

(** The callback of the ICE restart watchdog [t]. *)
Definition watchdogFired (t : nat) (deviceID : string) (r : Ref) : P unit :=
  act_go (fun s =>
    let s := if decide (s_iceRestartTimers s !! deviceID = Some t)
             then s <| s_iceRestartTimers ::= delete deviceID |> else s in
    if negb (bool_decide (s_peers s !! deviceID = Some r)) then (tt, s, []) else
    let '(state, s) := ask_state s in
    if negb (bool_decide (state = PCConnected))
    then let '(s', new) := scheduleCleanup r s in (tt, s', new)
    else (tt, s, [])).

(** The callback of the answer watchdog; the boolean read is whether
    [CurrentRemoteDescription] is set. *)
Definition answerTimeout (deviceID : string) (r : Ref) : P unit :=
  act_go (fun s =>
    if s_closed s || negb (bool_decide (s_peers s !! deviceID = Some r)) then (tt, s, []) else
    let '(answered, s) := ask_bool s in
    if answered : bool then (tt, s, [])
    else let '(s', new) := scheduleCleanup r s in (tt, s', new)).

(** ** The environment *)

Definition timerCallback (t : nat) (k : TimerKind) : P unit :=
  match k with
  | TGrace deviceID => onDisconnectTimerFired deviceID
  | TWatchdog deviceID r => watchdogFired t deviceID r
  | TAuth r => failAuth r
  | TAnswer deviceID r => answerTimeout deviceID r
  end.

(** What may happen at any time: calls of the manager's API, Pion's callbacks
    and timers. *)
Inductive Event :=
| EvSignal (msg : SignalingMessage)
| EvState (r : Ref) (state : PCState)
| EvOpen (r : Ref)
| EvMessage (r : Ref) (data : list byte)
| EvLocalICE (r : Ref) (c : ICECandidateInit)
| EvSendTo (deviceID : string) (msg : Message)
| EvSendRaw (r : Ref) (data : list byte)
| EvDisconnectPeer (deviceID : string)
| EvSetAllowed (deviceID : string)
| EvCloseAll
| EvReload
| EvTimer (t : nat).

(** Whether the timer's [Stop] has been called: the auth timer is stopped
    through the peer. *)
Definition timerLive (t : nat) (s : Sys) : option TimerKind :=
  match s_armed s !! t with
  | Some (TAuth r) =>
      if decide (s_store s !! r ≫= p_authTimer = Some t) then Some (TAuth r) else None
  | k => k
  end.

Definition unitProc {A} (p : P A) : P unit := _ ← p; mret tt.

(** What Pion calls, of the callbacks that were set up on a connection and on
    its data channel. *)
Definition setupHandlers (r : Ref) (callback : ICECandidateInit + PCState) : P unit :=
  match callback with
  | inl candidate => sendICECandidate r candidate
  | inr state => handlePeerStateChange r state
  end.

Inductive ChannelEvent := OnOpen | OnMessage (data : list byte).

Definition setupDataChannelHandlers (r : Ref) (callback : ChannelEvent) : P unit :=
  match callback with
  | OnOpen => sendAuthChallenge r
  | OnMessage data => handleDataChannelMessage r data
  end.

Definition inject (e : Event) (s : Sys) : Sys * list T :=
  match e with
  | EvSignal msg => (s, [run (HandleSignalingMessage msg)])
  | EvState r state => (s, [run (setupHandlers r (inr state))])
  | EvOpen r => (s, [run (setupDataChannelHandlers r OnOpen)])
  | EvMessage r data => (s, [run (setupDataChannelHandlers r (OnMessage data))])
  | EvLocalICE r c => (s, [run (setupHandlers r (inl c))])
  | EvSendTo deviceID msg =>
      (* the request handler sends no handshake messages *)
      if isAuthHandshakeMessage msg then (s, []) else (s, [run (unitProc (SendTo deviceID msg))])
  | EvSendRaw r data => (s, [run (unitProc (SendRaw r data))])
  | EvDisconnectPeer deviceID => (s, [run (unitProc (DisconnectPeer deviceID))])
  | EvSetAllowed deviceID => (s, [run (SetAllowedDeviceID deviceID)])
  | EvCloseAll => (s, [run CloseAll])
  | EvReload => (s, [run CloseAllAndReopen])
  | EvTimer t =>
      match timerLive t s with
      | Some k => (stop t s, [run (timerCallback t k)])
      | None => (s, [])
      end
  end.

Definition env (s s' : Sys) (new : list T) : Prop := exists e, inject e s = (s', new).

(** Run a schedule of events and goroutine sections. *)
Inductive Sched := SRun (i : nat) | SEvent (e : Event).

Definition drive_one (c : Sys * list T) (x : Sched) : Sys * list T :=
  match x with
  | SRun i => exec_one i c
  | SEvent e => let '(s', new) := inject e (fst c) in (s', snd c ++ new)
  end.

Definition drive (l : list Sched) (c : Sys * list T) : Sys * list T := foldl drive_one c l.

Lemma drive_csteps l c : csteps env c (drive l c).
Proof using Type.
  revert c. induction l as [|x l IH]; intros c; [constructor|]. cbn.
  eapply csteps_trans; [|apply IH]. destruct x as [i|e]; cbn.
  - destruct (exec_one_step env i c) as [-> | H]; [constructor|]. econstructor; [constructor|done].
  - destruct (inject e (fst c)) as [s' new] eqn:He. econstructor; [constructor|].
    destruct c as [s ts]. apply step_env. by exists e.
Qed.
End Manager.
