(* ===== verification/PeerSafety.v ===== *)
(** * What holds of every execution of the peer manager

    The invariant of the manager's state, the preorder along which it moves,
    and, for every goroutine of [PeerManager], that it keeps the one and
    follows the other. The properties at the end are about every reachable
    state: every interleaving of the goroutines, every answer of Pion, the
    signaling server, the keyring and the clock. *)

From S2P Require Import Prelude GoLib Conc Protocol Peer PeerManager.
Open Scope Z_scope.

Section Safety.
Variable hmac_sha256 : list byte -> list byte -> list byte.
Variable unmarshalEnvelope : list byte -> option string.
Variable unmarshalInto : forall k : Kind, list byte -> option (payload k).
Variable marshal : Message -> option (list byte).
(** The allowed device is not to be changed: the goroutines of which this is
    shown are all but a pairing reload. *)
Variable frozen : Prop.

Abbreviation peer_ok := (Peer.peer_ok hmac_sha256).
Abbreviation proof_ok := (Peer.proof_ok hmac_sha256).

(** ** Steps of one peer *)

#[global] Instance peer_le_preorder : PreOrder peer_le.
Proof using Type.
  split.
  - intros p. by split.
  - intros p q r [] []. split; try congruence; try (by auto); try (by etrans).
    + intros Hv. rewrite le_verified0; [auto|]. by rewrite le_verified.
    + intros Hs. destruct (le_stopped Hs) as [? <-]. auto.
Qed.

Definition peer_step (p p' : Peer) : Prop := peer_ok p -> peer_ok p' /\ peer_le p p'.

(** Fields the specification does not speak about. *)
Ltac peer_frame := intros []; split; split; cbn; auto; done.

Lemma step_sendStop p : peer_step p (p <| p_sendStop := true |>).
Proof using Type. peer_frame. Qed.

Lemma step_silence p : peer_step p (silence p).
Proof using Type. peer_frame. Qed.

Lemma step_closePeer p : peer_step p (closePeer p).
Proof using Type. unfold closePeer. destruct (p_closed p) eqn:Hc; [by split|]. peer_frame. Qed.

Lemma step_dc p : peer_step p (p <| p_dc := true |>).
Proof using Type. peer_frame. Qed.

Lemma step_nonce p nonce t : peer_step p (p <| p_authNonce := nonce |> <| p_authTimer := Some t |>).
Proof using Type. peer_frame. Qed.

Lemma step_remoteDesc p b : peer_step p (p <| p_remoteDescSet := b |> <| p_iceCandidates := [] |>).
Proof using Type. intros []. split; split; cbn; auto; try done. unfold maxBufferedICECandidates. lia. Qed.

Lemma step_bufferICE p ice : peer_step p (snd (bufferICE ice p)).
Proof using Type.
  intros Hp. unfold bufferICE. destruct (p_remoteDescSet p); cbn [negb snd]; [by split|].
  destruct (Nat.leb_spec maxBufferedICECandidates (length (p_iceCandidates p))) as [Hl|Hl]; [by split|].
  cbn [snd]. revert Hp. intros []. split; split; cbn; auto; try done. rewrite length_app. cbn. lia.
Qed.

Lemma step_release p t :
  peer_step p (if decide (p_dispatchMu p = Some t) then p <| p_dispatchMu := None |> else p).
Proof using Type. destruct (decide _); [|by split]. peer_frame. Qed.

Lemma step_acquire p t :
  p_dispatchStopped p = false -> peer_step p (p <| p_dispatchMu := Some t |>).
Proof using Type. intros Hs []. split; split; cbn; auto; congruence. Qed.

Lemma step_stop p : p_dispatchMu p = None -> peer_step p (p <| p_dispatchStopped := true |>).
Proof using Type. intros Hm []. split; split; cbn; auto; done. Qed.

Lemma step_revoke p : peer_step p (p <| p_authenticated := false |>).
Proof using Type. peer_frame. Qed.

Lemma step_confirmed p : Exists is_confirm (p_sent p) -> peer_step p (p <| p_authConfirmed := true |>).
Proof using Type. intros He []. split; split; cbn; auto; done. Qed.

Lemma step_resolveFailed p : peer_step p (snd (resolveFailed p)).
Proof using Type.
  unfold resolveFailed. destruct (p_authResolved p) eqn:Hr; [by split|]. cbn [snd].
  intros []. split; split; cbn; auto; try done; try congruence.
  intros t Ht. destruct (ok_verified t Ht). congruence.
Qed.

Lemma step_commitAuth p t : proof_ok p t -> peer_step p (snd (commitAuth t p)).
Proof using Type.
  intros Ht. unfold commitAuth. destruct (p_authResolved p) eqn:Hr; [by split|]. cbn [snd].
  intros []. split; split; cbn; auto; try done; try congruence.
  - by intros t' [= <-].
  - intros [t' Ht']. destruct (ok_verified t' Ht'). congruence.
Qed.

Lemma sent_in_order_snoc l m :
  sent_in_order l -> (isAuthHandshakeMessage m = false -> Exists is_confirm l) ->
  sent_in_order (l ++ [m]).
Proof using Type.
  intros Hl Hm l1 x l2 Heq Hx.
  destruct l2 as [|y l2 _] using rev_ind.
  - apply app_inj_tail in Heq as [<- <-]. auto.
  - rewrite app_comm_cons, app_assoc in Heq. apply app_inj_tail in Heq as [-> <-]. by eapply Hl.
Qed.

Lemma step_sent p m :
  (isAuthHandshakeMessage m = false -> p_authConfirmed p = true) ->
  (is_confirm m -> is_Some (p_verified p)) ->
  peer_step p (p <| p_sent ::= fun l => l ++ [m] |>).
Proof using Type.
  intros Hm Hc []. split; split; cbn; auto; try done.
  - intros H. apply Exists_app. auto.
  - intros [H|H]%Exists_app; [auto|]. apply Hc. by apply Exists_cons in H as [?|?%Exists_nil].
  - apply sent_in_order_snoc; auto.
  - intros H. apply Exists_app. auto.
  - by apply prefix_app_r.
Qed.

Lemma step_sentRaw p data :
  p_authConfirmed p = true -> peer_step p (p <| p_sentRaw ::= fun l => l ++ [data] |>).
Proof using Type. intros Hc []. split; split; cbn; auto; done. Qed.

Lemma step_delivered p t m :
  p_dispatchMu p = Some t -> is_Some (p_verified p) -> IsRequest (msg_kind m) = true ->
  peer_step p (p <| p_delivered ::= fun l => l ++ [m] |>).
Proof using Type.
  intros Hmu Hv Hm []. split; split; cbn; auto; try done.
  - apply Forall_app. split; [done|]. by apply Forall_singleton.
  - intros Hs. rewrite ok_dispatch in Hmu by done. done.
  - by apply prefix_app_r.
Qed.

Lemma newPeer_ok dev attempt secret : secret <> [] -> peer_ok (newPeer dev attempt secret).
Proof using Type.
  intros Hs. split; cbn; try done.
  - unfold maxBufferedICECandidates. lia.
  - by intros H%Exists_nil.
  - intros l1 x l2 Heq. by destruct l1.
Qed.

(** ** The manager's invariant *)

(** The peer exists. *)
Definition known (s : Sys) (r : Ref) : Prop := is_Some (s_store s !! r).

(** Where the disconnect handler has run, the peer's dispatch had stopped; a
    forced relay is asked for, and with servers that the TURN service named. *)
Definition effect_ok (s : Sys) (e : Effect) : Prop :=
  match e with
  | EInserted deviceID r allowed =>
      allowed = deviceID /\ deviceID <> "" /\
      exists p, s_store s !! r = Some p /\ p_DeviceID p = deviceID /\ ESecret deviceID (Some (p_sharedSecret p)) ∈ s_log s
  | EPeerDisconnect deviceID r =>
      exists p, s_store s !! r = Some p /\ p_DeviceID p = deviceID /\ p_dispatchStopped p = true
  | EConnection relayOnly servers =>
      relayOnly = s_ForceRelay s /\ (s_ForceRelay s = true -> s_customAPI s = true \/ ETurn servers ∈ s_log s)
  | _ => True
  end.

(** The allowed device after the log; a new manager allows none. *)
Definition lastAllowed (l : list Effect) : string := foldl (fun a e =>
  match e with EAllowed d => d | _ => a end) "" l.

Definition allows (l : list Effect) (a : string) : Prop := lastAllowed l = a.

(** Every insertion was of the device allowed then. *)
Definition trace_ok (l : list Effect) : Prop :=
  forall l1 d r a l2, l = l1 ++ EInserted d r a :: l2 -> allows l1 a.

(** Neither changes the allowed device nor inserts a peer. *)
Definition plain (e : Effect) : Prop := match e with EAllowed _ | EInserted _ _ _ => False | _ => True end.

Lemma lastAllowed_snoc l e :
  lastAllowed (l ++ [e]) = match e with EAllowed d => d | _ => lastAllowed l end.
Proof. unfold lastAllowed. rewrite foldl_app. by destruct e. Qed.

Lemma allows_snoc l e a : plain e -> allows l a -> allows (l ++ [e]) a.
Proof. unfold allows. rewrite lastAllowed_snoc. by destruct e. Qed.

Lemma trace_ok_snoc l e :
  trace_ok l -> (forall d r a, e = EInserted d r a -> allows l a) -> trace_ok (l ++ [e]).
Proof.
  intros Hl He l1 d r a l2 Heq. destruct l2 as [|e2 l2 _] using rev_ind.
  - apply app_inj_tail in Heq as [-> ->]. by eapply He.
  - rewrite app_comm_cons, app_assoc in Heq. apply app_inj_tail in Heq as [Heq _]. by eapply Hl.
Qed.

Record inv (s : Sys) : Prop := {
  inv_store : forall r p, s_store s !! r = Some p -> peer_ok p /\ (r < s_next s)%nat;
  inv_peers : forall d r, s_peers s !! d = Some r -> exists p, s_store s !! r = Some p /\ p_DeviceID p = d;
  inv_max : Z.of_nat (size (s_peers s)) <= Z.max 0 (s_MaxPeers s);
  inv_closed : s_closed s = true -> s_peers s = ∅;
  inv_replaced : (length (s_replacedAttempts s) <= maxReplacedAttempts)%nat;
  inv_log : Forall (effect_ok s) (s_log s);
  inv_turn : s_turnCache s <> [] -> ETurn (s_turnCache s) ∈ s_log s;
  inv_allowed : allows (s_log s) (s_allowed s);
  inv_trace : trace_ok (s_log s)
}.

Record later (s s' : Sys) : Prop := {
  later_store : forall r p, s_store s !! r = Some p -> exists p', s_store s' !! r = Some p' /\ peer_le p p';
  later_max : s_MaxPeers s' = s_MaxPeers s;
  later_relay : s_ForceRelay s' = s_ForceRelay s;
  later_api : s_customAPI s' = s_customAPI s;
  later_shutDown : s_shutDown s = true -> s_shutDown s' = true;
  later_closed : s_shutDown s = true -> s_closed s = true -> s_closed s' = true;
  later_log : s_log s `prefix_of` s_log s';
  later_next : (s_next s <= s_next s')%nat
}.

#[global] Instance later_preorder : PreOrder later.
Proof using Type.
  split.
  - intros s. split; eauto. intros r p Hp. by exists p.
  - intros s1 s2 s3 [] []. split; try congruence; auto; [|by etrans|lia].
    intros r p Hp. destruct (later_store0 r p Hp) as (p2 & Hp2 & ?).
    destruct (later_store1 r p2 Hp2) as (p3 & ? & ?). exists p3. split; [done|by etrans].
Qed.

Lemma later_known s s' r : later s s' -> known s r -> known s' r.
Proof using Type. intros HR [p Hp]. destruct (later_store _ _ HR r p Hp) as (p' & Hp' & _). by exists p'. Qed.

Lemma effect_ok_later s s' e : later s s' -> effect_ok s e -> effect_ok s' e.
Proof using Type.
  intros HR. destruct e; cbn; try done.
  - intros (Ha & Hne & p & Hp & Hd & Hs). destruct (later_store _ _ HR _ _ Hp) as (p' & Hp' & Hle).
    split_and!; [done..|]. exists p'. split_and!; [done|by rewrite (le_id _ _ Hle)|].
    rewrite (le_secret _ _ Hle). destruct (later_log _ _ HR) as [l ->]. apply elem_of_app. by left.
  - intros (p & Hp & Hd & Hs). destruct (later_store _ _ HR _ _ Hp) as (p' & Hp' & Hle). exists p'.
    split_and!; [done| |by apply (le_stopped _ _ Hle)]. by rewrite (le_id _ _ Hle).
  - rewrite (later_relay _ _ HR), (later_api _ _ HR). intros [-> Ht]. split; [done|]. intros Hf.
    destruct (later_log _ _ HR) as [l ->]. destruct (Ht Hf); [by left|right]. apply elem_of_app. by left.
Qed.

Lemma elem_log_later s s' e : later s s' -> e ∈ s_log s -> e ∈ s_log s'.
Proof using Type. intros HR He. destruct (later_log _ _ HR) as [l ->]. apply elem_of_app. by left. Qed.

(** The devices that were allowed, in order. *)
Definition targets (l : list Effect) : list string :=
  omap (fun e => match e with EAllowed d => Some d | _ => None end) l.

Lemma targets_snoc l e : targets (l ++ [e]) = targets l ++ targets [e].
Proof using Type. apply omap_app. Qed.

(** What a goroutine does: where the allowed device is frozen, it is not among
    it. *)
Record moved (s s' : Sys) : Prop := {
  mv_later :> later s s';
  mv_targets : frozen -> targets (s_log s') = targets (s_log s)
}.

#[global] Instance moved_preorder : PreOrder moved.
Proof using Type.
  split; [by intros s|]. intros s1 s2 s3 [H1 T1] [H2 T2]. split; [by etrans|]. intros Hf. by rewrite T2, T1.
Qed.

#[global] Instance later_moved : RelyGuarantee later moved.
Proof using Type. split; [apply _..|]. by intros s s' []. Qed.

(** One section: it keeps the invariant and moves on. *)
Definition moves (s s' : Sys) : Prop := inv s -> inv s' /\ moved s s'.

#[global] Instance moves_preorder : PreOrder moves.
Proof using Type.
  split; [by intros s|]. intros s1 s2 s3 H1 H2 HI. destruct (H1 HI) as [HI2 HR].
  destruct (H2 HI2) as [HI3 HR2]. split; [done|by etrans].
Qed.

(** What the invariant reads. *)
Definition core (s : Sys) :=
  (s_MaxPeers s, s_peers s, s_closed s, s_shutDown s, s_replacedAttempts s, s_store s, s_next s, s_log s,
   s_allowed s, (s_ForceRelay s, s_customAPI s, s_turnCache s)).

Lemma later_core s s' : core s' = core s -> later s s'.
Proof using Type.
  intros [= Hmax Hpeers Hclosed Hshut Hrep Hstore Hnext Hlog Hallowed Hrelay Hapi Hcache].
  split; rewrite ?Hmax, ?Hclosed, ?Hshut, ?Hlog, ?Hnext, ?Hstore, ?Hrelay, ?Hapi; auto. intros r p Hp. by exists p.
Qed.

Lemma moves_core s s' : core s' = core s -> moves s s'.
Proof using Type.
  intros Hcore. pose proof (later_core _ _ Hcore) as HR. revert Hcore.
  intros [= Hmax Hpeers Hclosed Hshut Hrep Hstore Hnext Hlog Hallowed Hrelay Hapi Hcache] [].
  split; [|split; [done|by rewrite Hlog]].
  split; rewrite ?Hmax, ?Hclosed, ?Hpeers, ?Hrep, ?Hstore, ?Hnext, ?Hlog, ?Hallowed, ?Hcache; auto.
  eapply Forall_impl; [done|]. intros e. by apply effect_ok_later.
Qed.

Lemma moves_next s : moves s (s <| s_next ::= Datatypes.S |>).
Proof using Type.
  intros HI. assert (later s (s <| s_next ::= Datatypes.S |>)) as HR.
  { split; cbn; auto. intros r p Hp. by exists p. }
  split; [|by split]. destruct HI. split; cbn; auto.
  - intros r p Hp. destruct (inv_store0 r p Hp). split; [done|lia].
Qed.

Lemma moves_effect s e : plain e -> effect_ok s e -> moves s (s <| s_log ::= fun l => l ++ [e] |>).
Proof using Type.
  intros Hp He HI. assert (later s (s <| s_log ::= fun l => l ++ [e] |>)) as HR.
  { split; cbn; auto; [intros r p Hr; by exists p|]. by apply prefix_app_r. }
  split; [|split; [done|intros _; cbn; rewrite targets_snoc; destruct e; try done; apply app_nil_r]]. destruct HI. split; cbn; auto.
  - apply Forall_app. split; [|apply Forall_singleton; by eapply effect_ok_later].
    eapply Forall_impl; [done|]. intros e'. by apply effect_ok_later.
  - intros Hc. apply elem_of_app. auto.
  - by apply allows_snoc.
  - apply trace_ok_snoc; [done|]. intros d r a ->. done.
Qed.

Lemma moves_allowed s d : ~ frozen -> moves s (allow d s).
Proof using Type.
  intros Hfz HI. assert (later s (allow d s)) as HR.
  { split; cbn; auto; [intros r p Hr; by exists p|]. by apply prefix_app_r. }
  split; [|by split]. destruct HI. split; cbn; auto.
  - apply Forall_app. split; [|by apply Forall_singleton].
    eapply Forall_impl; [done|]. intros e'. by apply effect_ok_later.
  - intros Hc. apply elem_of_app. auto.
  - unfold allows. by rewrite lastAllowed_snoc.
  - by apply trace_ok_snoc.
Qed.

Lemma moves_peer s r p p' :
  s_store s !! r = Some p -> peer_step p p' -> moves s (s <| s_store ::= <[r := p']> |>).
Proof using Type.
  intros Hp Hstep HI. destruct (inv_store _ HI r p Hp) as [Hok Hr]. destruct (Hstep Hok) as [Hok' Hle].
  assert (later s (s <| s_store ::= <[r := p']> |>)) as HR.
  { split; cbn; auto. intros r' q Hq. destruct (decide (r = r')) as [<-|Hne].
    - rewrite lookup_insert_eq. exists p'. split; [done|]. by simplify_eq.
    - rewrite lookup_insert_ne by done. by exists q. }
  split; [|by split]. destruct HI. split; cbn; auto.
  - intros r' q [[<- <-]|[Hne Hq]]%lookup_insert_Some; auto.
  - intros d r' Hd. destruct (inv_peers0 d r' Hd) as (q & Hq & <-).
    destruct (decide (r = r')) as [<-|Hne].
    + rewrite lookup_insert_eq. exists p'. split; [done|]. simplify_eq. apply (le_id _ _ Hle).
    + rewrite lookup_insert_ne by done. by exists q.
  - eapply Forall_impl; [done|]. intros e. by apply effect_ok_later.
Qed.

(** Dropping tracked peers. *)
Lemma moves_drop s ps :
  ps ⊆ s_peers s -> moves s (s <| s_peers := ps |>).
Proof using Type.
  intros Hps HI. assert (later s (s <| s_peers := ps |>)) as HR.
  { split; cbn; auto. intros r p Hp. by exists p. }
  split; [|done]. pose proof (map_subseteq_size _ _ Hps) as Hsize. destruct HI. split; cbn; auto.
  - intros d r Hd. apply inv_peers0. by eapply lookup_weaken.
  - lia.
  - intros Hc. rewrite (inv_closed0 Hc), map_size_empty in Hsize. apply map_size_empty_inv. lia.
Qed.

Lemma moves_delete s d : moves s (s <| s_peers ::= delete d |>).
Proof using Type. apply (moves_drop s). apply delete_subseteq. Qed.

Lemma moves_replaced s id : moves s (s <| s_replacedAttempts ::= recordReplacedAttemptLocked id |>).
Proof using Type.
  intros HI. assert (later s (s <| s_replacedAttempts ::= recordReplacedAttemptLocked id |>)) as HR.
  { split; cbn; auto. intros r p Hp. by exists p. }
  split; [|by split]. destruct HI. split; cbn; auto.
  - unfold recordReplacedAttemptLocked. destruct (decide _); [done|].
    destruct (Nat.ltb_spec maxReplacedAttempts (length (s_replacedAttempts s ++ [id]))); [|done].
    rewrite length_app in *. destruct (s_replacedAttempts s); cbn in *; [lia|]. rewrite length_app. cbn. lia.
Qed.

(** ** Rules for sections *)

Abbreviation safe := (Conc.safe inv later moved).
Abbreviation safeP := (Conc.safeP inv later moved).

(** The goroutine is safe, whatever it hands over. *)
Definition keeps {A} (s : Sys) (p : Proc Sys A) : Prop := safeP s p (fun _ _ => True).

Lemma ret_rule {A} s (a : A) (Q : Sys -> A -> Prop) : Q s a -> safeP s (mret a) Q.
Proof using Type. intros HQ k Hk. by apply Hk. Qed.

Lemma kept_ret {A} s (a : A) : keeps s (mret a).
Proof using Type. intros k Hk. by apply Hk. Qed.

Lemma kept_bind {A B} s (p : Proc Sys A) (f : A -> Proc Sys B) :
  keeps s p -> (forall s' a, later s s' -> keeps s' (f a)) -> keeps s (p ≫= f).
Proof using Type. intros Hp Hf. eapply safeP_bind; [apply _|exact Hp|]. intros s' a HR _. by apply Hf. Qed.

Lemma act_rule {A} s0 (f : M Sys A) (Q : Sys -> A -> Prop) :
  (forall s, later s0 s -> inv s -> moves s (snd (f s)) /\ Q (snd (f s)) (fst (f s))) ->
  safeP s0 (act f) Q.
Proof using Type.
  intros H. apply safeP_act; [apply _|]. intros s HR HI. destruct (H s HR HI) as [Hm HQ].
  destruct (f s) as [a s']. cbn in *. destruct (Hm HI). by split_and!.
Qed.

Lemma act_keeps {A} s0 (f : M Sys A) :
  (forall s, later s0 s -> inv s -> moves s (snd (f s))) -> keeps s0 (act f).
Proof using Type. intros H. apply act_rule. auto. Qed.

Lemma act_core {A} s0 (f : M Sys A) : (forall s, core (snd (f s)) = core s) -> keeps s0 (act f).
Proof using Type. intros H. apply act_keeps. intros s _ _. by apply moves_core. Qed.

Lemma act_get {A} s0 (f : Sys -> A) :
  safeP s0 (act (fun s => (f s, s))) (fun s a => a = f s /\ inv s).
Proof using Type. apply act_rule. intros s _ HI. cbn. by split. Qed.

Lemma on_peer_moves {A} s r d (f : M Peer A) :
  (forall p, s_store s !! r = Some p -> peer_step p (snd (f p))) -> moves s (snd (on_peer r d f s)).
Proof using Type.
  intros H. unfold on_peer. destruct (s_store s !! r) as [p|] eqn:Hp; [|done].
  specialize (H p eq_refl). destruct (f p) as [a p']. cbn. by eapply moves_peer.
Qed.

(** A hold of one peer's mutex. *)
Lemma act_peer {A} s0 r d (f : M Peer A) :
  (forall s p, later s0 s -> inv s -> s_store s !! r = Some p -> peer_step p (snd (f p))) ->
  safeP s0 (act (on_peer r d f)) (fun s a =>
    a = d \/ exists s1 p, later s0 s1 /\ inv s1 /\ s_store s1 !! r = Some p /\
             a = fst (f p) /\ s_store s !! r = Some (snd (f p))).
Proof using Type.
  intros H. apply act_rule. intros s HR HI. split; [apply on_peer_moves; eauto|].
  unfold on_peer. destruct (s_store s !! r) as [p|] eqn:Hp; [|by left]. right. exists s, p.
  destruct (f p) as [a p'] eqn:Hf. cbn. split_and!; try done. apply lookup_insert_eq.
Qed.

Lemma act_peer_keeps {A} s0 r d (f : M Peer A) :
  (forall p, peer_step p (snd (f p))) -> keeps s0 (act (on_peer r d f)).
Proof using Type. intros H. eapply safeP_weaken; [|apply act_peer; auto]. done. Qed.

Lemma go_keeps s0 p : (forall s, later s0 s -> keeps s p) -> keeps s0 (go p).
Proof using Type. intros H. apply safeP_go; [apply _| |done]. intros s HR. eapply safe_run. by apply H. Qed.

(** A section that starts goroutines. *)
Lemma act_go_keeps {A} s0 (f : Sys -> A * Sys * list (Thread Sys)) :
  (forall s, later s0 s -> inv s ->
    let '(_, s', new) := f s in moves s s' /\ (inv s' -> Forall (safe s') new)) ->
  keeps s0 (act_go f).
Proof using Type.
  intros H. apply safeP_act_go; [apply _|]. intros s HR HI. specialize (H s HR HI).
  destruct (f s) as [[a s'] new]. destruct H as [Hm Hn]. destruct (Hm HI). by auto.
Qed.

(** ** Closing peers *)

(** The tracked peer of a device, as a fact that lasts. *)
Definition owned (s : Sys) (d : string) (r : Ref) : Prop :=
  exists p, s_store s !! r = Some p /\ p_DeviceID p = d.

Lemma later_owned s s' d r : later s s' -> owned s d r -> owned s' d r.
Proof using Type.
  intros HR (p & Hp & <-). destruct (later_store _ _ HR _ _ Hp) as (p' & Hp' & Hle).
  exists p'. split; [done|apply (le_id _ _ Hle)].
Qed.

Lemma owned_known s d r : owned s d r -> known s r.
Proof using Type. intros (p & Hp & _). by exists p. Qed.

Lemma stopTimersLocked_core d s : core (stopTimersLocked d s) = core s.
Proof using Type.
  unfold stopTimersLocked, stopTimer. destruct (s_disconnectTimers s !! d); cbn;
    destruct (s_iceRestartTimers s !! d); reflexivity.
Qed.

Lemma closePeer_keeps s r : keeps s (Peer_Close r).
Proof using Type.
  apply act_keeps. intros s1 _ _. rewrite !mbind_run. cbn [get_peer fst snd].
  etrans; [apply (on_peer_moves s1 r tt (mmod closePeer))|].
  - intros p _. apply step_closePeer.
  - destruct (from_option _ _ _); [done|]. by apply moves_effect.
Qed.

Lemma stopDispatch_safe s r : known s r ->
  safeP s (stopDispatch r) (fun s' _ => exists p, s_store s' !! r = Some p /\ p_dispatchStopped p = true).
Proof using Type.
  intros Hk. eapply safeP_bind; [apply _|apply act_peer_keeps, step_sendStop|].
  intros s1 _ HR1 _. apply safeP_wait; [apply _|]. intros s2 [] s3 HR2 HI2.
  destruct (later_known _ _ _ HR2 (later_known _ _ _ HR1 Hk)) as [p Hp]. rewrite Hp.
  destruct (p_dispatchMu p) as [t|] eqn:Hm; [done|]. intros [= <-].
  destruct (moves_peer s2 r p _ Hp (step_stop p Hm) HI2) as [HI3 HR3]. split_and!; [done..|].
  eexists. split; [apply lookup_insert_eq|done].
Qed.

Lemma callDisconnect_keeps s d r :
  effect_ok s (EPeerDisconnect d r) -> keeps s (callDisconnect d r).
Proof using Type.
  intros He. apply act_keeps. intros s1 HR _. apply moves_effect; [done|]. by eapply effect_ok_later.
Qed.

(** The handler runs once dispatch has stopped. *)
Lemma disconnect_keeps s d r : owned s d r -> keeps s (_ ← stopDispatch r; callDisconnect d r).
Proof using Type.
  intros Ho. eapply safeP_bind; [apply _|apply stopDispatch_safe; by eapply owned_known|].
  intros s1 _ HR1 (p & Hp & Hs). apply callDisconnect_keeps. exists p. split_and!; [done| |done].
  destruct (later_owned _ _ _ _ HR1 Ho) as (p' & Hp' & Hd). by simplify_eq.
Qed.

Lemma removeIfCurrent_moves d r s : moves s (snd (removeIfCurrent d r s)).
Proof using Type.
  unfold removeIfCurrent. destruct (decide _); [|done]. cbn [snd].
  etrans; [apply (moves_delete s d)|]. apply moves_core. apply stopTimersLocked_core.
Qed.

Lemma ClosePeerIfCurrent_keeps s d r : keeps s (ClosePeerIfCurrent d r).
Proof using Type.
  apply kept_bind; [|intros; apply closePeer_keeps].
  apply act_keeps. intros s1 _ _. apply removeIfCurrent_moves.
Qed.

Lemma teardownIfCurrent_keeps s r : known s r -> keeps s (teardownIfCurrent r).
Proof using Type.
  intros Hk. eapply safeP_bind; [apply _|by apply stopDispatch_safe|].
  intros s1 _ HR1 (p & Hp & Hs). eapply safeP_bind; [apply _|apply act_get|].
  intros s2 dev HR2 _. eapply safeP_bind; [apply _|apply act_get|].
  intros s3 call HR3 [-> HI3]. destruct (bool_decide_reflect (s_peers s3 !! dev = Some r)) as [Hd|];
    [|by apply kept_ret]. destruct (s_hasDisconnect s3); [|by apply kept_ret].
  destruct (inv_peers _ HI3 _ _ Hd) as (q & Hq & Hid). apply callDisconnect_keeps. exists q.
  split_and!; [done..|]. assert (later s1 s3) as HR13 by by etrans.
  destruct (later_store _ _ HR13 _ _ Hp) as (q' & Hq' & Hle). simplify_eq. by apply (le_stopped _ _ Hle).
Qed.

Lemma wg_done_cleanup_keeps s : keeps s wg_done_cleanup.
Proof using Type. by apply act_core. Qed.

Lemma wg_done_teardown_keeps s : keeps s wg_done_teardown.
Proof using Type. by apply act_core. Qed.

Lemma get_peer_keeps {A} s r d (f : Peer -> A) : keeps s (act (get_peer r d f)).
Proof using Type. by apply act_core. Qed.

Lemma cleanupGoroutine_keeps s r : known s r -> keeps s (cleanupGoroutine r).
Proof using Type.
  intros Hk. apply kept_bind; [by apply teardownIfCurrent_keeps|intros s1 _ _].
  apply kept_bind; [apply wg_done_teardown_keeps|intros s2 _ _].
  apply kept_bind; [apply get_peer_keeps|intros s3 dev _].
  apply kept_bind; [apply ClosePeerIfCurrent_keeps|intros s4 _ _]. apply wg_done_cleanup_keeps.
Qed.

(** A section, with the goroutines it starts. *)
Definition moves_go (s : Sys) (c : Sys * list (Thread Sys)) : Prop :=
  moves s (fst c) /\ Forall (safe (fst c)) (snd c).

Lemma moves_go_nil s s' : moves s s' -> moves_go s (s', []).
Proof using Type. by split. Qed.

Lemma moves_go_core s s' new : core s' = core s -> Forall (safe s') new -> moves_go s (s', new).
Proof using Type. intros Hc Hn. split; [by apply moves_core|done]. Qed.

Lemma moves_go_trans s s1 c : moves s s1 -> moves_go s1 c -> moves_go s c.
Proof using Type. intros H1 [H2 Hn]. split; [by etrans|done]. Qed.

Lemma act_go_rule {A} s0 (f : Sys -> A * Sys * list (Thread Sys)) :
  (forall s, later s0 s -> inv s -> moves_go s (snd (fst (f s)), snd (f s))) -> keeps s0 (act_go f).
Proof using Type.
  intros H. apply act_go_keeps. intros s HR HI. specialize (H s HR HI).
  destruct (f s) as [[a s'] new]. destruct H. by split.
Qed.

Lemma run_safe s p : keeps s p -> Forall (safe s) [run p].
Proof using Type. intros H. apply Forall_singleton. by eapply safe_run. Qed.

Lemma scheduleCleanup_ok s r : known s r -> moves_go s (scheduleCleanup r s).
Proof using Type.
  intros Hk. unfold scheduleCleanup. destruct (s_closed s); [by apply moves_go_nil|].
  apply moves_go_core; [done|]. by apply run_safe, cleanupGoroutine_keeps.
Qed.

Lemma scheduleCleanupProc_keeps s r : known s r -> keeps s (scheduleCleanupProc r).
Proof using Type.
  intros Hk. apply act_go_rule. intros s1 HR _.
  pose proof (scheduleCleanup_ok s1 r (later_known _ _ _ HR Hk)) as H.
  by destruct (scheduleCleanup r s1).
Qed.

Lemma goCleanup_keeps s fn : (forall s', later s s' -> keeps s' fn) -> keeps s (goCleanup fn).
Proof using Type.
  intros Hfn. apply act_go_rule. intros s1 HR _. cbn [fst snd].
  apply moves_go_core; [by destruct (s_closed s1)|]. apply run_safe, kept_bind.
  - apply Hfn. etrans; [exact HR|]. apply later_core. by destruct (s_closed s1).
  - intros s2 _ _. destruct (negb _); [apply wg_done_cleanup_keeps|apply kept_ret].
Qed.

Lemma goTeardownLocked_ok s fn :
  (forall s', later s s' -> keeps s' fn) -> moves_go s (goTeardownLocked fn s).
Proof using Type.
  intros Hfn. apply moves_go_core; [by destruct (s_closed s)|]. apply run_safe, kept_bind.
  - apply Hfn, later_core. by destruct (s_closed s).
  - intros s2 _ _. destruct (negb _); [|apply kept_ret].
    apply kept_bind; [apply wg_done_teardown_keeps|intros; apply wg_done_cleanup_keeps].
Qed.

Lemma closeViaManager_keeps s r : known s r -> keeps s (closeViaManager r).
Proof using Type.
  intros Hk. apply act_go_rule. intros s1 HR _. destruct (s_closed s1); cbn [fst snd].
  - apply moves_go_core; [done|]. apply run_safe, closePeer_keeps.
  - pose proof (scheduleCleanup_ok s1 r (later_known _ _ _ HR Hk)) as H.
    by destruct (scheduleCleanup r s1).
Qed.

Lemma failAuth_keeps s r : keeps s (failAuth r).
Proof using Type.
  eapply safeP_bind; [apply _|apply act_peer; intros; apply step_resolveFailed|].
  intros s1 failed HR1 [->|(s2 & p & _ & _ & _ & _ & Hp)]; [apply kept_ret|].
  destruct failed; [|apply kept_ret]. apply closeViaManager_keeps. by eexists.
Qed.

(** ** Sending *)

(** The peer may send the message, now and later. *)
Definition may_send (s : Sys) (r : Ref) (msg : Message) : Prop :=
  exists p, s_store s !! r = Some p /\
    (isAuthHandshakeMessage msg = false -> p_authConfirmed p = true) /\
    (is_confirm msg -> is_Some (p_verified p)).

Definition was_sent (s : Sys) (r : Ref) (msg : Message) : Prop :=
  exists p, s_store s !! r = Some p /\ msg ∈ p_sent p.

Definition was_verified (s : Sys) (r : Ref) : Prop :=
  exists p, s_store s !! r = Some p /\ is_Some (p_verified p).

Lemma later_verified s s' r : later s s' -> was_verified s r -> was_verified s' r.
Proof using Type.
  intros HR (p & Hp & Hv). destruct (later_store _ _ HR _ _ Hp) as (p' & Hp' & Hle).
  exists p'. split; [done|]. by rewrite (le_verified _ _ Hle).
Qed.

Lemma later_may_send s s' r msg : later s s' -> may_send s r msg -> may_send s' r msg.
Proof using Type.
  intros HR (p & Hp & Hc & Hv). destruct (later_store _ _ HR _ _ Hp) as (p' & Hp' & Hle).
  exists p'. split_and!; [done| |].
  - intros Hm. by apply (le_confirmed _ _ Hle), Hc.
  - intros Hm. rewrite (le_verified _ _ Hle) by auto. auto.
Qed.

(** A send over the DataChannel: the oracle's answer, then the log. *)
Lemma send_rule s0 r (f : Peer -> Peer) (Q : Sys -> Prop) :
  (forall s p, later s0 s -> inv s -> s_store s !! r = Some p ->
    peer_step p (f p) /\ (forall s', s_store s' !! r = Some (f p) -> Q s')) ->
  known s0 r ->
  safeP s0 (act (sent ← ask_bool;
                 if sent : bool then _ ← on_peer r tt (mmod f); mret (Ok tt) else mret (Err DCSendFailed)))
    (fun s e => is_ok e = true -> Q s).
Proof using Type.
  intros Hf Hk. apply act_rule. intros s HR HI. unfold mbind, M_bind, ask_bool.
  destruct (later_known _ _ _ HR Hk) as [p Hp]. destruct (Hf s p HR HI Hp) as [Hstep HQ].
  assert (moves s (s <| s_bools ::= tail |>)) as Hb by by apply moves_core.
  destruct (default false (head (s_bools s))); [|by split].
  unfold on_peer. cbn. rewrite Hp. cbn. split.
  - etrans; [exact Hb|]. exact (moves_peer (s <| s_bools ::= tail |>) r p (f p) Hp Hstep).
  - intros _. apply HQ. apply lookup_insert_eq.
Qed.

Lemma dc_Send_safe s r msg : may_send s r msg ->
  safeP s (dc_Send r msg) (fun s' e => is_ok e = true -> was_sent s' r msg).
Proof using Type.
  intros Hm. apply send_rule; [|by destruct Hm as (p & Hp & _); eexists].
  intros s1 p HR HI Hp. destruct (later_may_send _ _ _ _ HR Hm) as (q & Hq & Hc & Hv). simplify_eq.
  split; [by apply step_sent|]. intros s' Hs'. eexists. split; [done|]. cbn.
  apply elem_of_app. right. by apply list_elem_of_singleton.
Qed.

Lemma waitForSendReady_keeps s r : keeps s (waitForSendReady r).
Proof using Type.
  apply kept_bind; [by apply act_core|intros s1 buffered _].
  destruct (buffered <=? _); [apply kept_ret|].
  apply kept_bind; [by apply act_core|intros s2 n _].
  apply safeP_wait; [apply _|]. intros s3 o s4 _ HI.
  destruct (s_store s3 !! r); [destruct (waitOutcome n p); [|done]|]; by intros [= <- <-].
Qed.

Lemma SendMessageContext_safe s r msg : (is_confirm msg -> was_verified s r) ->
  safeP s (SendMessageContext marshal r msg) (fun s' e => is_ok e = true -> was_sent s' r msg).
Proof using Type.
  intros Hconf. eapply safeP_bind; [apply _|apply act_get|].
  intros s1 gate HR1 [-> _]. destruct (s_store s1 !! r) as [p|] eqn:Hp; cbn [from_option]; [|by apply ret_rule].
  destruct (sendGate msg p) as [[]|] eqn:Hg; [|by apply ret_rule].
  assert (may_send s1 r msg) as Hm.
  { exists p. split_and!; [done| |].
    - unfold sendGate in Hg. destruct (p_closed p), (p_dc p), (p_authConfirmed p); try done.
      intros Hh. by rewrite Hh in Hg.
    - intros H. destruct (later_verified _ _ _ HR1 (Hconf H)) as (q & Hq & Hv). by simplify_eq. }
  destruct (Encode marshal msg); [|by apply ret_rule]. destruct (isOutput msg).
  - eapply safeP_bind; [apply _|apply waitForSendReady_keeps|]. intros s2 [|] HR2 _; [|by apply ret_rule].
    apply dc_Send_safe. by eapply later_may_send.
  - eapply safeP_bind; [apply _|by apply act_core|]. intros s2 n HR2 _.
    destruct (n >? _); [by apply ret_rule|]. apply dc_Send_safe. by eapply later_may_send.
Qed.

Lemma SendRaw_keeps s r data : keeps s (SendRaw r data).
Proof using Type.
  eapply safeP_bind; [apply _|apply act_get|].
  intros s1 gate HR1 [-> _]. destruct (s_store s1 !! r) as [p|] eqn:Hp; cbn [from_option]; [|by apply ret_rule].
  unfold rawGate. destruct (p_closed p), (p_dc p), (p_authConfirmed p) eqn:Hc; try by apply ret_rule.
  apply kept_bind; [apply waitForSendReady_keeps|]. intros s2 [|] HR2; [|by apply ret_rule].
  eapply safeP_weaken; [|apply (send_rule s2 r (fun p => p <| p_sentRaw ::= fun l => l ++ [data] |>) (fun _ => True))]; [done| |].
  - intros s3 q HR3 _ Hq. split; [|done]. apply step_sentRaw.
    destruct (later_store _ _ (transitivity HR2 HR3) _ _ Hp) as (p' & Hp' & Hle). simplify_eq.
    by apply (le_confirmed _ _ Hle).
  - destruct (later_store _ _ HR2 _ _ Hp) as (p' & Hp' & _). by exists p'.
Qed.

Lemma SendTo_keeps s d msg : ~ is_confirm msg -> keeps s (SendTo marshal d msg).
Proof using Type.
  intros Hm. apply kept_bind; [by apply act_core|]. intros s1 [r|] _; [|by apply kept_ret].
  eapply safeP_weaken; [|by apply SendMessageContext_safe]. done.
Qed.

(** ** The handshake *)

Lemma checkAuthResponse_proof p decoded fps t :
  checkAuthResponse hmac_sha256 (authSnapshot p) decoded fps = VerifyOK t -> proof_ok p t.
Proof using Type.
  unfold checkAuthResponse, authSnapshot. cbn [as_resolved as_hostNonce as_secret].
  destruct (p_authResolved p); [done|]. destruct decoded as [[] resp]; try done.
  destruct (b64_decode (au_Nonce resp)) as [mobileNonce|]; [|done].
  destruct (Z.eqb_spec (blen mobileNonce) (Z.of_nat authNonceSize)) as [Hlen|]; [|done]. cbn [negb].
  destruct (b64_decode (au_Mac resp)) as [mac|]; [|done].
  destruct (Z.eqb_spec (blen (p_authNonce p)) 0) as [|Hn]; [done|].
  destruct fps as [[hostFp mobileFp]|]; [|done].
  destruct (bool_decide_reflect (authMAC hmac_sha256 (p_sharedSecret p) authLabelMobileToHost
    (p_authNonce p) mobileNonce hostFp mobileFp = mac)) as [<-|]; [|done].
  intros [= <-]. split_and!; cbn; [done|unfold blen in Hlen; lia|]. intros He. rewrite He in Hn. done.
Qed.

Lemma proof_ok_later p p' t : peer_le p p' -> proof_ok p t -> proof_ok p' t.
Proof using Type. intros Hle (Hm & ? & ?). split_and!; [|done..]. by rewrite (le_secret _ _ Hle). Qed.

Lemma sendAuthChallenge_keeps s r : keeps s (sendAuthChallenge marshal r).
Proof using Type.
  apply kept_bind; [by apply act_core|]. intros s1 [nonce|] _; [|apply failAuth_keeps].
  apply kept_bind.
  - apply act_keeps. intros s2 _ _. rewrite mbind_run.
    etrans; [|apply on_peer_moves; intros; apply step_nonce].
    etrans; [apply moves_next|]. by apply moves_core.
  - intros s2 _ _. eapply safeP_bind; [apply _|by apply SendMessageContext_safe|].
    intros s3 e _ _. destruct (is_ok e); [apply kept_ret|apply failAuth_keeps].
Qed.

Lemma commitAuth_safe s r t :
  (forall s' p, later s s' -> s_store s' !! r = Some p -> proof_ok p t) ->
  safeP s (act (on_peer r false (commitAuth t))) (fun s' b => b = true -> was_verified s' r).
Proof using Type.
  intros Ht. eapply safeP_weaken; [|apply act_peer].
  - intros s1 b _ [->|(s2 & p & _ & _ & _ & Hb & Hp)]; [done|]. intros ->.
    exists (snd (commitAuth t p)). split; [done|]. unfold commitAuth in *.
    destruct (p_authResolved p); [done|]. by eexists.
  - intros s1 p HR _ Hp. apply step_commitAuth. by eapply Ht.
Qed.

Lemma confirm_keeps s r msg : is_confirm msg -> was_sent s r msg ->
  keeps s (act (on_peer r tt (mmod (fun p => p <| p_authConfirmed := true |>)))).
Proof using Type.
  intros Hc (p & Hp & Hin). eapply safeP_weaken; [|apply act_peer]; [done|].
  intros s1 q HR _ Hq. apply step_confirmed.
  destruct (later_store _ _ HR _ _ Hp) as (q' & Hq' & Hle). simplify_eq.
  destruct (le_sent _ _ Hle) as [l ->]. apply Exists_app. left. apply Exists_exists. by exists msg.
Qed.

Lemma verifyAuthResponse_keeps s r decoded :
  keeps s (verifyAuthResponse hmac_sha256 marshal r decoded).
Proof using Type.
  eapply safeP_bind; [apply _|apply act_get|]. intros s1 snap HR1 [-> _].
  apply kept_bind; [by apply act_core|]. intros s2 fps HR2.
  destruct (s_store s1 !! r) as [p|] eqn:Hp; [|apply kept_ret]. cbn [from_option].
  destruct (checkAuthResponse _ _ _ _) as [| |t] eqn:Ht; [apply kept_ret|apply failAuth_keeps|].
  apply checkAuthResponse_proof in Ht.
  eapply safeP_bind; [apply _|apply (commitAuth_safe _ r t)|].
  { intros s3 q HR3 Hq. destruct (later_store _ _ (transitivity HR2 HR3) _ _ Hp) as (q' & Hq' & Hle).
    simplify_eq. by eapply proof_ok_later. }
  intros s3 committed HR3 Hv. destruct committed; [|apply kept_ret]. specialize (Hv eq_refl).
  eapply safeP_bind; [apply _|by apply SendMessageContext_safe|].
  intros s4 e HR4 He. destruct (is_ok e) eqn:Hok;
    [by eapply confirm_keeps; [|apply He]|].
  apply kept_bind; [apply act_peer_keeps, step_revoke|]. intros s5 _ HR5.
  apply closeViaManager_keeps. destruct (later_verified _ _ _ (transitivity HR4 HR5) Hv) as (q & Hq & _).
  by exists q.
Qed.

(** ** Dispatch *)

Lemma acquireDispatch_keeps s r : keeps s (wait (acquireDispatch r)).
Proof using Type.
  apply safeP_wait; [apply _|]. intros s1 o s2 _ HI. unfold acquireDispatch.
  destruct (s_store s1 !! r) as [p|] eqn:Hp; [|by intros [= <- <-]].
  destruct (isNone (p_dispatchMu p)); [|done]. destruct (p_dispatchStopped p) eqn:Hs; intros [= <- <-]; [done|].
  destruct (moves_next s1 HI) as [HI' HR'].
  pose proof (moves_peer (s1 <| s_next ::= Datatypes.S |>) r p) as Hmove.
  destruct (Hmove _ Hp (step_acquire p (s_next s1) Hs) HI').
  split_and!; [done| |done]. by etrans.
Qed.

Lemma releaseDispatch_keeps s r t : keeps s (releaseDispatch r t).
Proof using Type. apply act_peer_keeps. intros p. apply step_release. Qed.

Lemma callHandler_keeps s r t msg :
  was_verified s r -> IsRequest (msg_kind msg) = true -> keeps s (callHandler r t msg).
Proof using Type.
  intros Hv Hm. apply safeP_wait; [apply _|]. intros s1 [] s2 HR HI.
  destruct (later_verified _ _ _ HR Hv) as (p & Hp & Hpv). rewrite Hp.
  destruct (decide (p_dispatchMu p = Some t)) as [Hmu|]; [|done]. intros [= <-].
  destruct (moves_peer s1 r p _ Hp (step_delivered p t msg Hmu Hpv Hm) HI). done.
Qed.

Lemma handleDataChannelMessage_keeps s r data :
  keeps s (handleDataChannelMessage hmac_sha256 unmarshalEnvelope unmarshalInto marshal r data).
Proof using Type.
  apply kept_bind; [apply acquireDispatch_keeps|]. intros s1 [t|] _; [|apply kept_ret].
  eapply safeP_bind; [apply _|apply act_get|]. intros s2 authed HR2 [-> HI2].
  apply kept_bind; [|intros; apply releaseDispatch_keeps].
  assert (from_option p_authenticated false (s_store s2 !! r) = true -> was_verified s2 r) as Hv.
  { destruct (s_store s2 !! r) as [p|] eqn:Hp; [|done]. intros Ha. exists p. split; [done|].
    by apply (ok_authenticated _ _ (proj1 (inv_store _ HI2 _ _ Hp))). }
  destruct (from_option p_authenticated false (s_store s2 !! r)).
  - destruct (DecodeRequest _ _ _) as [decoded|]; [|apply kept_ret]. cbn [negb].
    destruct (IsRequest (msg_kind decoded)) eqn:Hm; [|apply kept_ret]. cbn [negb].
    apply kept_bind; [by apply act_core|]. intros s3 [] HR3; [|apply kept_ret].
    apply callHandler_keeps; [|done]. eapply later_verified; eauto.
  - destruct (DecodeRequest _ _ _) as [decoded|]; [apply verifyAuthResponse_keeps|apply failAuth_keeps].
Qed.

(** ** Signaling and closing everything *)

Lemma signaling_Send_keeps s m : keeps s (signaling_Send m).
Proof using Type.
  apply act_keeps. intros s1 _ _. unfold mbind, M_bind, ask_bool, effect.
  etrans; [|by apply moves_effect]. by apply moves_core.
Qed.

Lemma effect_keeps s e : plain e -> (forall s', effect_ok s' e) -> keeps s (act (effect e)).
Proof using Type. intros Hp He. apply act_keeps. intros s1 _ _. by apply moves_effect. Qed.

Lemma sendICECandidate_keeps s r c : keeps s (sendICECandidate r c).
Proof using Type.
  apply kept_bind; [apply get_peer_keeps|]. intros s1 [] _; [apply kept_ret|].
  apply kept_bind; [apply get_peer_keeps|]. intros s2 dev _.
  apply kept_bind; [apply get_peer_keeps|]. intros s3 attempt _.
  apply kept_bind; [apply signaling_Send_keeps|]. intros; apply kept_ret.
Qed.

Lemma ClosePeer_keeps s d : keeps s (ClosePeer d).
Proof using Type.
  apply kept_bind.
  - apply act_keeps. intros s1 _ _. cbn [snd]. etrans; [apply (moves_delete s1 d)|].
    apply moves_core, stopTimersLocked_core.
  - intros s1 [r|] _; [apply closePeer_keeps|apply kept_ret].
Qed.

Lemma moves_closeAll s : moves s (s <| s_closed := true |> <| s_peers := ∅ |>).
Proof using Type.
  intros HI. assert (later s (s <| s_closed := true |> <| s_peers := ∅ |>)) as HR.
  { split; cbn; auto. intros r p Hp. by exists p. }
  split; [|by split]. destruct HI. split; cbn; auto.
  - intros d r Hd. by rewrite lookup_empty in Hd.
  - rewrite map_size_empty. lia.
Qed.

Lemma moves_reopen s : s_shutDown s = false -> moves s (s <| s_closed := false |>).
Proof using Type.
  intros Hs HI. assert (later s (s <| s_closed := false |>)) as HR.
  { split; cbn; auto; [intros r p Hp; by exists p|]. congruence. }
  split; [|by split]. destruct HI. by split.
Qed.

Lemma moves_shutDown s : moves s (s <| s_shutDown := true |>).
Proof using Type.
  intros HI. assert (later s (s <| s_shutDown := true |>)) as HR.
  { split; cbn; auto. intros r p Hp. by exists p. }
  split; [|by split]. destruct HI. by split.
Qed.

Lemma moves_latch n s : moves s (snd (new_latch n s)).
Proof using Type. etrans; [apply (moves_next s)|]. by apply moves_core. Qed.

Lemma closeAllOne_keeps s notify close d r : owned s d r -> keeps s (closeAllOne notify close d r).
Proof using Type.
  intros Ho. eapply safeP_bind; [apply _|apply stopDispatch_safe; by eapply owned_known|].
  intros s1 _ HR1 (p & Hp & Hs). apply kept_bind; [by apply act_core|]. intros s2 has HR2.
  apply kept_bind.
  - destruct has; [|apply kept_ret]. apply callDisconnect_keeps.
    destruct (later_owned _ _ _ _ HR1 Ho) as (q & Hq & <-). simplify_eq.
    destruct (later_store _ _ HR2 _ _ Hp) as (p' & Hp' & Hle). exists p'.
    split_and!; [done|apply (le_id _ _ Hle)|by apply (le_stopped _ _ Hle)].
  - intros s3 _ _. apply kept_bind; [by apply act_core|]. intros s4 _ _.
    apply kept_bind; [apply closePeer_keeps|]. intros s5 _ _. by apply act_core.
Qed.

Lemma closeAllSection_ok s :
  inv s -> moves_go s (snd (fst (closeAllSection s)), snd (closeAllSection s)).
Proof using Type.
  intros HI. unfold closeAllSection.
  match goal with |- context [new_latch _ ?s1] => assert (moves s s1) as H1 by
    (etrans; [apply (moves_closeAll s)|by apply moves_core]); revert H1; generalize s1 end.
  intros s1 H1. pose proof (moves_latch (size (s_peers s)) s1) as H2.
  destruct (new_latch (size (s_peers s)) s1) as [notify s2].
  pose proof (moves_latch (size (s_peers s)) s2) as H3.
  destruct (new_latch (size (s_peers s)) s2) as [close s3]. cbn [fst snd] in *.
  assert (moves s s3) as Hm by (etrans; [exact H1|by etrans]). split; [exact Hm|].
  apply Forall_fmap, Forall_forall. intros [d r] Hin. cbn.
  apply elem_of_map_to_list in Hin. eapply safe_run, closeAllOne_keeps, later_owned.
  - by apply Hm.
  - by apply (inv_peers _ HI).
Qed.

(** A wait that only reads. *)
Lemma wait_keeps s (f : Sys -> option (unit * Sys)) :
  (forall s1 s2, f s1 = Some (tt, s2) -> s2 = s1) -> keeps s (wait f).
Proof using Type.
  intros Hf. apply safeP_wait; [apply _|]. intros s1 [] s2 _ HI Heq. apply Hf in Heq as ->. done.
Qed.

Lemma latch_wait_keeps s l : keeps s (latch_wait l).
Proof using Type. apply wait_keeps. intros s1 s2. destruct (decide _); congruence. Qed.

Lemma closeAll_keeps s waitClose : keeps s (closeAll waitClose).
Proof using Type.
  apply kept_bind; [apply act_go_rule; intros; by apply closeAllSection_ok|].
  intros s1 [notify close] _. apply kept_bind; [apply latch_wait_keeps|]. intros s2 _ _.
  apply kept_bind; [apply wait_keeps; intros s3 s4; destruct (decide _); congruence|].
  intros s3 _ _. destruct waitClose; [|apply kept_ret].
  apply kept_bind; [apply latch_wait_keeps|]. intros s4 _ _.
  apply wait_keeps. intros s5 s6. destruct (decide _); congruence.
Qed.

Lemma CloseAll_keeps s : keeps s CloseAll.
Proof using Type.
  apply kept_bind; [|intros; apply closeAll_keeps]. apply act_keeps. intros s1 _ _.
  apply moves_shutDown.
Qed.

Lemma CloseAllAndReopen_keeps s : keeps s CloseAllAndReopen.
Proof using Type.
  apply kept_bind; [apply closeAll_keeps|]. intros s1 _ _. apply act_keeps. intros s2 _ _.
  unfold mmod. cbn [snd]. destruct (s_shutDown s2) eqn:Hs; [done|by apply moves_reopen].
Qed.

Lemma DisconnectPeer_keeps s d : keeps s (DisconnectPeer d).
Proof using Type.
  apply act_go_rule. intros s1 _ HI. destruct (s_peers s1 !! d) as [r|] eqn:Hd; [|by apply moves_go_nil].
  destruct (inv_peers _ HI _ _ Hd) as (p & Hp & _).
  assert (known s1 r) as Hk by by exists p. pose proof (scheduleCleanup_ok s1 r Hk) as H.
  by destruct (scheduleCleanup r s1).
Qed.

(** ** Connect requests *)

Lemma reject_keeps s reason d : keeps s (reject reason d).
Proof using Type. apply kept_bind; [apply signaling_Send_keeps|intros; apply kept_ret]. Qed.

Lemma getSharedSecret_safe s d :
  safeP s (getSharedSecret d) (fun s' o => forall secret, o = Some secret ->
    secret <> [] /\ ESecret d (Some secret) ∈ s_log s').
Proof using Type.
  apply act_rule. intros s1 _ _. destruct (s_hasSecretFn s1); cbn [negb]; [|by split].
  unfold ask_secret. split; cbn [fst snd].
  { etrans; [|by apply moves_effect]. by apply moves_core. }
  destruct (default None (head (s_secrets s1))) as [b|]; [|done].
  destruct (Z.eqb_spec (blen b) 0) as [|Hb]; [done|]. intros secret [= <-]. split; [by intros ->|].
  cbn. apply elem_of_app. right. apply list_elem_of_here.
Qed.

Lemma moves_cache s servers : ETurn servers ∈ s_log s -> moves s (s <| s_turnCache := servers |>).
Proof using Type.
  intros Hs HI. assert (later s (s <| s_turnCache := servers |>)) as HR.
  { split; cbn; auto. intros r p Hp. by exists p. }
  split; [|by split]. destruct HI. by split.
Qed.

(** The credentials were named by the TURN service, now or when they were
    cached. *)
Lemma fetchTurnCredentials_safe s :
  safeP s fetchTurnCredentials (fun s' turn => forall servers, turn = Some servers -> ETurn servers ∈ s_log s').
Proof using Type.
  eapply safeP_bind; [apply _|apply act_rule with (Q := fun s1 cached =>
    forall servers, cached = Some servers -> ETurn servers ∈ s_log s1)|].
  { intros s1 _ HI. unfold ask_num. split; [by apply moves_core|]. cbn [fst snd]. intros servers.
    destruct (_ && _) eqn:Hc; [|done]. intros [= <-]. apply (inv_turn _ HI). intros He. by rewrite He in Hc. }
  intros s1 [servers|] _ Hcached; [by apply ret_rule|].
  eapply safeP_bind; [apply _|apply act_rule with (Q := fun s2 reply =>
    forall servers, reply = Some servers -> ETurn servers ∈ s_log s2)|].
  { intros s2 _ _. unfold ask_turn. rewrite !mbind_run. cbn [fst snd].
    destruct (default None (head (s_turns s2))) as [servers|]; cbn [from_option fst snd compose mret M_ret].
    - split; [|intros l [= <-]; apply elem_of_app; right; by apply list_elem_of_singleton].
      etrans; [by apply (moves_core s2 (s2 <| s_turns ::= tail |>))|by apply moves_effect].
    - split; [by apply moves_core|done]. }
  intros s2 reply _ Hreply. apply act_rule. intros s3 HR _. destruct reply as [servers|]; [|done].
  unfold ask_num. cbn [fst snd]. pose proof (elem_log_later _ _ _ HR (Hreply _ eq_refl)) as Hin. split.
  - etrans; [by apply (moves_core s3 (s3 <| s_nums ::= tail |>))|].
    etrans; [by apply (moves_cache _ servers)|by apply moves_core].
  - by intros l [= <-].
Qed.

Lemma newConnection_keeps s relayOnly servers :
  (forall s1, later s s1 -> relayOnly = s_ForceRelay s1 /\
     (relayOnly = true -> s_customAPI s1 = true \/ ETurn servers ∈ s_log s1)) ->
  keeps s (act (newConnection relayOnly servers)).
Proof using Type.
  intros Hs. apply act_keeps. intros s1 HR _. destruct (Hs s1 HR) as [-> Ht].
  unfold newConnection. rewrite mbind_run.
  etrans; [apply (moves_effect s1 (EConnection (s_ForceRelay s1) servers)); [done|by split]|by apply moves_core].
Qed.

Lemma replaceSection_ok d s :
  inv s -> moves_go s (snd (fst (replaceSection d s)), snd (replaceSection d s)).
Proof using Type.
  intros HI. unfold replaceSection. destruct (s_peers s !! d) as [old|] eqn:Hd; cbn [fst snd].
  2: { apply moves_go_nil, moves_core, stopTimersLocked_core. }
  pose proof (on_peer_moves s old tt (mmod silence) (fun p _ => step_silence p)) as H1.
  destruct (on_peer old tt (mmod silence) s) as [[] s1]. cbn [snd] in H1. cbv zeta.
  match goal with |- context [if s_hasDisconnect ?x then _ else _] => assert (moves s1 x) as H2 by
    (etrans; [apply (moves_delete s1 d)|apply moves_replaced]); revert H2; generalize x end.
  intros s2 H2. assert (owned s2 d old) as Ho.
  { destruct (H1 HI) as [HI1 HR1]. destruct (H2 HI1) as [_ HR2].
    eapply later_owned; [exact HR2|]. eapply later_owned; [exact HR1|]. by apply (inv_peers _ HI). }
  assert (moves_go s2 (if s_hasDisconnect s2
    then goTeardownLocked (_ ← stopDispatch old; callDisconnect d old) s2 else (s2, []))) as H3.
  { destruct (s_hasDisconnect s2); [|by apply moves_go_nil]. apply goTeardownLocked_ok.
    intros s3 HR3. apply disconnect_keeps. by eapply later_owned. }
  destruct (if s_hasDisconnect s2 then _ else _) as [s3 new]. destruct H3 as [H3 Hnew]. cbn [fst snd] in *.
  split.
  - etrans; [exact H1|]. etrans; [exact H2|]. etrans; [exact H3|]. apply moves_core, stopTimersLocked_core.
  - eapply Forall_safe_later; [apply _| |exact Hnew]. apply later_core, stopTimersLocked_core.
Qed.

Lemma insertSection_moves d attempt secret s :
  d <> "" -> secret <> [] -> ESecret d (Some secret) ∈ s_log s -> moves s (snd (insertSection d attempt secret s)).
Proof using Type.
  intros Hd Hsecret Hlog. unfold insertSection. destruct (s_closed s) eqn:Hc; [done|].
  destruct (decide (s_allowed s <> d)) as [|Ha%dec_stable]; [done|].
  destruct (isNone (s_peers s !! d) && (Z.of_nat (size (s_peers s)) >=? s_MaxPeers s)) eqn:Hfull; [done|].
  cbn [snd]. intros HI. destruct HI.
  assert (forall r p, s_store s !! r = Some p -> s_next s <> r) as Hfresh.
  { intros r p Hp%inv_store0 <-. lia. }
  split; [split; cbn|split; [split; cbn|intros _; cbn; by rewrite targets_snoc, app_nil_r]].
  - intros r p [[<- <-]|[Hne Hp]]%lookup_insert_Some; [split; [by apply newPeer_ok|lia]|].
    apply inv_store0 in Hp. split; [easy|lia].
  - intros d' r [[<- <-]|[Hne Hr]]%lookup_insert_Some.
    + rewrite lookup_insert_eq. by eexists.
    + destruct (inv_peers0 _ _ Hr) as (p & Hp & Hid). exists p. split; [|done].
      rewrite lookup_insert_ne; [done|]. by eapply Hfresh.
  - rewrite map_size_insert. destruct (s_peers s !! d) as [r|] eqn:Hr; cbn in Hfull |- *; [done|].
    lia.
  - congruence.
  - done.
  - apply Forall_app. split.
    + eapply Forall_impl; [exact inv_log0|]. intros []; cbn; try done.
      * intros (? & ? & p & Hp & ? & ?). split_and!; [done..|]. exists p.
        split_and!; [|done|apply elem_of_app; by left]. rewrite lookup_insert_ne; [done|]. by eapply Hfresh.
      * intros (p & Hp & ?). exists p. split; [|done]. rewrite lookup_insert_ne; [done|]. by eapply Hfresh.
      * intros [? Ht]. split; [done|]. intros Hf. rewrite elem_of_app. destruct (Ht Hf); auto.
    + apply Forall_singleton. split_and!; [done..|]. eexists. split; [apply lookup_insert_eq|].
      split; [done|]. apply elem_of_app. by left.
  - intros Hcache. apply elem_of_app. auto.
  - unfold allows in *. by rewrite lastAllowed_snoc.
  - apply trace_ok_snoc; [done|]. by intros ? ? ? [= <- <- <-].
  - intros r p Hp. exists p. split; [|done]. rewrite lookup_insert_ne; [done|]. by eapply Hfresh.
  - done.
  - done.
  - done.
  - done.
  - done.
  - by apply prefix_app_r.
  - lia.
Qed.

Lemma arm_moves k s : moves s (snd (arm k s)).
Proof using Type. etrans; [apply (moves_next s)|]. by apply moves_core. Qed.

Lemma offerTo_keeps s d attempt r : keeps s (offerTo d attempt r).
Proof using Type.
  apply kept_bind; [by apply act_core|]. intros s1 [] _; [|apply ClosePeer_keeps].
  apply kept_bind; [apply act_peer_keeps, step_dc|]. intros s2 _ _.
  apply kept_bind; [by apply act_core|]. intros s3 [] _; [|apply ClosePeer_keeps].
  apply kept_bind; [by apply act_core|]. intros s4 sdp _.
  apply kept_bind; [by apply act_core|]. intros s5 [] _; [|apply ClosePeer_keeps].
  apply kept_bind; [apply signaling_Send_keeps|]. intros s6 [] _; [|apply ClosePeer_keeps].
  apply kept_bind; [|intros; apply kept_ret]. apply act_keeps. intros s7 _ _. apply arm_moves.
Qed.

Lemma handleConnectRequest_keeps s d attempt : keeps s (handleConnectRequest d attempt).
Proof using Type.
  apply kept_bind; [by apply act_core|]. intros s1 [] _; [apply kept_ret|].
  apply kept_bind; [by apply act_core|]. intros s2 allowed _.
  destruct (bool_decide_reflect (allowed = "")) as [|Hne]; [apply reject_keeps|].
  destruct (bool_decide_reflect (d = allowed)) as [->|]; [|apply reject_keeps]. cbn [orb negb].
  eapply safeP_bind; [apply _|apply getSharedSecret_safe|].
  intros s3 [secret|] _ Hsecret; [|apply reject_keeps]. destruct (Hsecret _ eq_refl) as [Hne' Hlog].
  apply kept_bind; [by apply act_core|]. intros s4 [] HR4; [apply reject_keeps|].
  apply kept_bind; [apply act_go_rule; intros; by apply replaceSection_ok|]. intros s5 old HR5.
  apply kept_bind.
  { destruct old; [apply goCleanup_keeps; intros; apply closePeer_keeps|apply kept_ret]. }
  intros s6 _ HR6.
  eapply safeP_bind; [apply _|apply (act_get s6 s_customAPI)|]. intros s7 customAPI HR7 [-> _].
  eapply safeP_bind; [apply _|apply (act_get s7 s_ForceRelay)|]. intros s8 force HR8 [-> _].
  eapply safeP_bind with (Q := fun s9 turn => s_customAPI s7 = true \/
    forall servers, turn = Some servers -> ETurn servers ∈ s_log s9); [apply _| |].
  { destruct (s_customAPI s7); [apply ret_rule; by left|].
    eapply safeP_weaken; [|apply fetchTurnCredentials_safe]. by right. }
  intros s9 turn HR9 Hturn. destruct (iceServers (s_customAPI s7) (s_ForceRelay s8) turn) as [servers|] eqn:Hice; [|apply kept_ret].
  apply kept_bind; [|intros s10 [] HR10; [|apply kept_ret]].
  { apply newConnection_keeps. intros s10 HR10.
    rewrite (later_relay _ _ HR10), (later_relay _ _ HR9). split; [done|]. intros Hf.
    rewrite (later_api _ _ HR10), (later_api _ _ HR9), (later_api _ _ HR8).
    destruct (s_customAPI s7); [by left|right]. destruct Hturn as [|Hturn]; [done|]. unfold iceServers in Hice.
    rewrite Hf in Hice. destruct turn; simplify_eq. by eapply elem_log_later, Hturn. }
  apply kept_bind.
  { apply act_keeps. intros s11 HR11 _. apply insertSection_moves; [done..|].
    repeat (eapply elem_log_later; [eassumption|]). exact Hlog. }
  intros s11 [] _; [apply offerTo_keeps|apply kept_ret..].
Qed.

(** ** Answers and candidates *)

Lemma lookupPeer_safe s d :
  safeP s (act (lookupPeer d)) (fun s' o => forall r a, o = Some (r, a) -> known s' r).
Proof using Type.
  apply act_rule. intros s1 _ HI. split; [done|]. unfold lookupPeer. cbn [fst snd].
  destruct (s_peers s1 !! d) as [r'|] eqn:Hd; [|done]. intros r a [= <- _].
  destruct (inv_peers _ HI _ _ Hd) as (p & Hp & _). by exists p.
Qed.

Lemma addCandidates_keeps s r l : keeps s (addCandidates r l).
Proof using Type.
  revert s. induction l as [|ice l IH]; intros s; [apply kept_ret|].
  apply kept_bind; [by apply effect_keeps|intros; apply IH].
Qed.

(** A cleanup that first checks the peer is still the tracked one. *)
Lemma scheduleIfCurrent_ok d r s s1 :
  inv s -> s_peers s !! d = Some r -> core s1 = core s -> moves_go s (scheduleCleanup r s1).
Proof using Type.
  intros HI Hd Hc. eapply moves_go_trans; [by apply moves_core|]. apply scheduleCleanup_ok.
  destruct (inv_peers _ HI _ _ Hd) as (p & Hp & _). eapply later_known; [by apply later_core|]. by exists p.
Qed.

Lemma handleSDPAnswer_keeps s d attempt sdp : keeps s (handleSDPAnswer d attempt sdp).
Proof using Type.
  unfold handleSDPAnswer. destruct (slen sdp =? 0); [apply kept_ret|].
  destruct (slen sdp >? 64 * 1024); [apply kept_ret|].
  apply kept_bind; [by apply act_core|]. intros s1 [[r peerAttempt]|] _; [|apply kept_ret].
  destruct (isOtherAttempt _ _); [apply kept_ret|].
  apply kept_bind; [by apply act_core|]. intros s2 [] _; [apply kept_ret|].
  apply kept_bind.
  { apply act_keeps. intros s3 _ _. unfold mbind, M_bind, ask_bool, effect.
    etrans; [|by apply moves_effect]. by apply moves_core. }
  intros s3 [] _; cbn [negb].
  - apply kept_bind; [apply act_peer_keeps; intros; apply step_remoteDesc|].
    intros s4 buffered _. apply addCandidates_keeps.
  - apply act_go_rule. intros s4 _ HI. destruct (decide _) as [Hd|]; [|by apply moves_go_nil].
    pose proof (scheduleIfCurrent_ok d r s4 s4 HI Hd eq_refl) as H. by destruct (scheduleCleanup r s4).
Qed.

Lemma handleICECandidate_keeps s d attempt c mid idx : keeps s (handleICECandidate d attempt c mid idx).
Proof using Type.
  apply kept_bind; [by apply act_core|]. intros s1 [[r peerAttempt]|] _; [|apply kept_ret].
  destruct (isOtherAttempt _ _); [apply kept_ret|].
  apply kept_bind; [apply act_peer_keeps; intros; apply step_bufferICE|].
  intros s2 [] _; [apply kept_ret..|by apply effect_keeps].
Qed.

Lemma handlePeerUnavailable_keeps s d attempt : keeps s (handlePeerUnavailable d attempt).
Proof using Type.
  apply kept_bind; [by apply act_core|]. intros s1 [[r []]|] _; [apply kept_ret| |apply kept_ret].
  apply kept_bind; [by apply act_core|]. intros s2 dcOpen _.
  apply kept_bind; [by apply act_core|]. intros s3 pcState _.
  destruct (_ || _); [apply kept_ret|]. apply goCleanup_keeps. intros; apply ClosePeerIfCurrent_keeps.
Qed.

Lemma HandleSignalingMessage_keeps s msg : keeps s (HandleSignalingMessage msg).
Proof using Type.
  unfold HandleSignalingMessage. cbv zeta.
  repeat (destruct (decide _); [first [apply handleConnectRequest_keeps|apply handleSDPAnswer_keeps
    |apply handleICECandidate_keeps|apply handlePeerUnavailable_keeps]|]). apply kept_ret.
Qed.

(** ** Connection state changes *)

Lemma stateChangeSection_ok r state now s : inv s -> moves_go s (stateChangeSection r state now s).
Proof using Type.
  intros HI. unfold stateChangeSection. set (d := from_option p_DeviceID "" (s_store s !! r)).
  destruct (bool_decide_reflect (s_peers s !! d = Some r)) as [Hd|]; [|by apply moves_go_nil]. cbn [negb].
  destruct state; try by apply moves_go_nil.
  - apply moves_go_nil, moves_core. unfold stop.
    destruct (s_disconnectTimers s !! d); destruct (s_iceRestartTimers _ !! d); done.
  - destruct (isNone (s_iceRestartTimers s !! d)); [|by apply moves_go_nil].
    destruct (isNone (s_disconnectTimers s !! d)); [|by apply moves_go_nil].
    apply moves_go_nil. etrans; [apply (arm_moves (TGrace d))|]. by apply moves_core.
  - eapply scheduleIfCurrent_ok; [done..|apply stopTimersLocked_core].
  - eapply scheduleIfCurrent_ok; [done..|apply stopTimersLocked_core].
Qed.

Lemma handlePeerStateChange_keeps s r state : keeps s (handlePeerStateChange r state).
Proof using Type.
  apply act_go_rule. intros s1 _ HI. unfold ask_num.
  assert (moves s1 (s1 <| s_nums ::= tail |>)) as Hm by by apply moves_core.
  pose proof (stateChangeSection_ok r state (default 0 (head (s_nums s1))) _ (proj1 (Hm HI))) as H.
  destruct (stateChangeSection _ _ _ _) as [s2 new]. by eapply moves_go_trans.
Qed.

Lemma armWatchdog_moves d r s : moves s (armWatchdog d r s).
Proof using Type.
  unfold armWatchdog. destruct (_ || _); [done|]. unfold stopTimer, arm.
  destruct (s_iceRestartTimers s !! d) as [t|];
    [etrans; [by apply (moves_core s (stop t s))|]|];
    (etrans; [apply moves_next|by apply moves_core]).
Qed.

Lemma attemptICERestart_keeps s d : keeps s (attemptICERestart d).
Proof using Type.
  eapply safeP_bind; [apply _|apply lookupPeer_safe|].
  intros s1 [[r attempt]|] _ Hk; [|apply kept_ret]. specialize (Hk _ _ eq_refl).
  apply kept_bind; [by apply act_core|]. intros s2 [] HR2; cbn [negb];
    [|apply scheduleCleanupProc_keeps; by eapply later_known].
  apply kept_bind; [by apply act_core|]. intros s3 sdp HR3.
  apply kept_bind; [by apply act_core|]. intros s4 [] HR4; cbn [negb];
    [|apply scheduleCleanupProc_keeps; do 3 (eapply later_known; [eassumption|]); done].
  apply kept_bind; [apply act_peer_keeps; intros p; apply (step_remoteDesc p false)|]. intros s5 _ HR5.
  apply kept_bind; [apply signaling_Send_keeps|]. intros s6 [] HR6; cbn [negb];
    [|apply scheduleCleanupProc_keeps; do 5 (eapply later_known; [eassumption|]); done].
  apply act_keeps. intros s7 _ _. apply armWatchdog_moves.
Qed.

Lemma onDisconnectTimerFired_keeps s d : keeps s (onDisconnectTimerFired d).
Proof using Type.
  apply kept_bind; [by apply act_core|]. intros s1 [disconnectTime [r|]] _; [|apply kept_ret].
  apply kept_bind; [by apply act_core|]. intros s2 state _. destruct (negb _); [apply kept_ret|].
  apply kept_bind; [by apply act_core|]. intros s3 now _. cbv zeta.
  destruct (_ && _); [|apply attemptICERestart_keeps].
  apply act_keeps. intros s4 _ _. rewrite mbind_run.
  etrans; [apply (arm_moves (TGrace d))|]. by apply moves_core.
Qed.

Lemma watchdogFired_keeps s t d r : keeps s (watchdogFired t d r).
Proof using Type.
  apply act_go_rule. intros s1 _ HI. cbv zeta.
  match goal with |- context [ask_state ?x] =>
    assert (core x = core s1) as Hc by (by destruct (decide _)); revert Hc; generalize x end.
  intros s2 Hc.
  destruct (bool_decide_reflect (s_peers s2 !! d = Some r)) as [Hd|]; cbn [negb];
    [|by apply moves_go_nil, moves_core].
  unfold ask_state. destruct (negb _); [|by apply moves_go_nil, moves_core].
  assert (s_peers s1 !! d = Some r) as Hd1 by (injection Hc as _ Hp; by rewrite <-Hp).
  pose proof (scheduleIfCurrent_ok d r s1 (s2 <| s_states ::= tail |>) HI Hd1 Hc) as H.
  by destruct (scheduleCleanup r _).
Qed.

Lemma answerTimeout_keeps s d r : keeps s (answerTimeout d r).
Proof using Type.
  apply act_go_rule. intros s1 _ HI.
  destruct (s_closed s1); cbn [orb]; [by apply moves_go_nil|].
  destruct (bool_decide_reflect (s_peers s1 !! d = Some r)) as [Hd|]; cbn [negb]; [|by apply moves_go_nil].
  unfold ask_bool. destruct (default false _); [by apply moves_go_nil, moves_core|].
  pose proof (scheduleIfCurrent_ok d r s1 (s1 <| s_bools ::= tail |>) HI Hd eq_refl) as H.
  by destruct (scheduleCleanup r _).
Qed.

(** ** Every execution *)

Lemma unitProc_keeps {A} s (p : Proc Sys A) : keeps s p -> keeps s (unitProc p).
Proof using Type. intros Hp. apply kept_bind; [done|intros; apply kept_ret]. Qed.

Abbreviation env := (PeerManager.env hmac_sha256 unmarshalEnvelope unmarshalInto marshal).

Lemma inject_ok e s : (forall d, e = EvSetAllowed d -> ~ frozen) -> inv s -> moves_go s (inject hmac_sha256 unmarshalEnvelope unmarshalInto marshal e s).
Proof using Type.
  intros Hfz HI. destruct e; cbn [inject]; try (apply moves_go_core; [done|apply run_safe]).
  - apply HandleSignalingMessage_keeps.
  - apply handlePeerStateChange_keeps.
  - apply sendAuthChallenge_keeps.
  - apply handleDataChannelMessage_keeps.
  - apply sendICECandidate_keeps.
  - destruct (isAuthHandshakeMessage msg) eqn:Hm; [by apply moves_go_nil|].
    apply moves_go_core; [done|]. apply run_safe, unitProc_keeps, SendTo_keeps.
    unfold is_confirm. intros Hc. unfold isAuthHandshakeMessage in Hm. rewrite Hc in Hm. done.
  - apply unitProc_keeps, SendRaw_keeps.
  - apply unitProc_keeps, DisconnectPeer_keeps.
  - apply act_keeps. intros s1 _ _. by eapply moves_allowed, Hfz.
  - apply CloseAll_keeps.
  - apply CloseAllAndReopen_keeps.
  - destruct (timerLive t s) as [k|]; [|by apply moves_go_nil].
    apply moves_go_core; [done|]. apply run_safe. destruct k; cbn [timerCallback].
    + apply onDisconnectTimerFired_keeps.
    + apply watchdogFired_keeps.
    + apply failAuth_keeps.
    + apply answerTimeout_keeps.
Qed.

End Safety.

(** ** What the manager can get to *)

Section Reachable.
Variable hmac_sha256 : list byte -> list byte -> list byte.
Variable unmarshalEnvelope : list byte -> option string.
Variable unmarshalInto : forall k : Kind, list byte -> option (payload k).
Variable marshal : Message -> option (list byte).

Abbreviation env := (PeerManager.env hmac_sha256 unmarshalEnvelope unmarshalInto marshal).
Abbreviation inv := (inv hmac_sha256).
(** Nothing is frozen: a reload may happen. *)
Abbreviation safe := (Conc.safe inv later (moved False)).

(** A new manager: nothing connected, nothing done but naming the device. *)
Record fresh (s : Sys) : Prop := {
  fresh_peers : s_peers s = ∅;
  fresh_store : s_store s = ∅;
  fresh_replaced : s_replacedAttempts s = [];
  fresh_turn : s_turnCache s = [];
  fresh_log : s_log s = [] /\ s_allowed s = "" \/ s_log s = [EAllowed (s_allowed s)]
}.

Lemma fresh_inv s : fresh s -> inv s.
Proof using Type.
  intros [Hp Hs Hr Ht Hl].
  assert (Forall (effect_ok s) (s_log s) /\ allows (s_log s) (s_allowed s) /\ trace_ok (s_log s)) as (? & ? & ?).
  { destruct Hl as [[-> ->]| ->]; split_and!; try done.
    - intros l1 d r a l2 Heq. by destruct l1.
    - by apply Forall_singleton.
    - apply (trace_ok_snoc []); [|done]. intros l1 d r a l2 Heq. by destruct l1. }
  split; rewrite ?Hp, ?Hs, ?Hr, ?Ht; try done.
  - rewrite map_size_empty. lia.
  - cbn. lia.
Qed.

Definition reachable (c : Sys * list (Thread Sys)) : Prop :=
  exists s0, fresh s0 /\ csteps env (s0, []) c.

Lemma steps_from c c' :
  csteps env c c' -> inv (fst c) -> Forall (safe (fst c)) (snd c) ->
  inv (fst c') /\ later (fst c) (fst c') /\ Forall (safe (fst c')) (snd c').
Proof using Type.
  apply pool_safe; [apply _|]. intros s s' new HI [e He]. epose proof (inject_ok _ unmarshalEnvelope unmarshalInto marshal False e s (fun _ _ => id) HI) as H.
  rewrite He in H. destruct H as [Hm Hn]. destruct (Hm HI). by split_and!.
Qed.

Lemma reachable_inv c : reachable c -> inv (fst c) /\ Forall (safe (fst c)) (snd c).
Proof using Type.
  intros (s0 & Hf & Hs). edestruct steps_from as (? & ? & ?); [exact Hs| |done|by split].
  by apply fresh_inv.
Qed.

Lemma reachable_later c c' : reachable c -> csteps env c c' -> inv (fst c') /\ later (fst c) (fst c').
Proof using Type.
  intros [HI Hs]%reachable_inv H. edestruct steps_from as (? & ? & ?); [exact H|done..|]. done.
Qed.
End Reachable.
