(* ===== verification/PeerProps.v ===== *)
(** * What the peer manager guarantees

    The properties of internal/webrtc/peer.go: about every reachable state,
    through [PeerSafety], and about single sections and the handshake's
    computations. A concrete session, from the connect request to a dispatched
    request, shows the states the properties speak of are reached. *)

From S2P Require Import Prelude GoLib Conc Protocol Peer PeerManager PeerSafety.
Open Scope Z_scope.

(** ** A session *)

Module Demo.

Definition secret : list byte := [Byte.x2a].
Definition hmac (key msg : list byte) : list byte := key.
Definition nonce : list byte := repeat Byte.x07 32.
Definition fingerprint : list byte := repeat Byte.x01 32.

(** One byte of data per message. *)
Definition unmarshalEnvelope (data : list byte) : option string :=
  match data with
  | [Byte.x41] => Some "auth_response"
  | [Byte.x50] => Some "ping"
  | _ => None
  end.

Definition unmarshalInto (k : Kind) (data : list byte) : option (payload k) :=
  match k return option (payload k) with
  | KAuthResponse => Some (mkAuthResponse "auth_response" (b64_encode secret) (b64_encode nonce))
  | KPing => Some (mkPing "ping")
  | _ => None
  end.

Definition marshal (m : Message) : option (list byte) := Some [].

(** A paired manager whose environment answers every question favourably. *)
Definition start : Sys :=
  mkSys 1 false true true true true "mobile" ∅ ∅ ∅ ∅ 0 0 false false [] [] 0 ∅ ∅ ∅ 0
    (repeat true 40) [] [] [Some secret] [] [Some nonce] [] [Ok (fingerprint, fingerprint)] [EAllowed "mobile"].

Definition turns (i : nat) : list Sched := repeat (SRun i) 30.

Abbreviation drive := (PeerManager.drive hmac unmarshalEnvelope unmarshalInto marshal).

Definition connect : list Sched :=
  SEvent (EvSignal ((signal "connect_request") <| sm_TargetDeviceID := "mobile" |>)) :: turns 0.

(** Connect, open, authenticate, send a request; then the connection fails and
    its cleanup runs. *)
Definition authenticated : list Sched :=
  connect ++ SEvent (EvOpen 0%nat) :: turns 1 ++ SEvent (EvMessage 0%nat [Byte.x41]) :: turns 2
  ++ SEvent (EvMessage 0%nat [Byte.x50]) :: turns 3.
Definition disconnected : list Sched :=
  authenticated ++ SEvent (EvState 0%nat PCFailed) :: turns 4 ++ turns 5.
(** Connect, and answer the challenge with a message that does not decode. *)
Definition refused : list Sched :=
  connect ++ SEvent (EvOpen 0%nat) :: turns 1 ++ SEvent (EvMessage 0%nat []) :: turns 2.

(** The state after a schedule. *)
Definition after (l : list Sched) : Sys := fst (drive l (start, [])).

End Demo.

(** ** The session is a run of the program *)

Lemma demo_fresh : fresh Demo.start.
Proof. split; try done. by right. Qed.

Lemma demo_steps l c : csteps (env Demo.hmac Demo.unmarshalEnvelope Demo.unmarshalInto Demo.marshal) c
  (Demo.drive l c).
Proof. apply drive_csteps. Qed.

Abbreviation demo_reachable_at :=
  (reachable Demo.hmac Demo.unmarshalEnvelope Demo.unmarshalInto Demo.marshal).

Lemma demo_reachable l : demo_reachable_at (Demo.drive l (Demo.start, [])).
Proof. exists Demo.start. split; [exact demo_fresh|apply demo_steps]. Qed.

Lemma demo_later l l' : csteps (env Demo.hmac Demo.unmarshalEnvelope Demo.unmarshalInto Demo.marshal)
  (Demo.drive l (Demo.start, [])) (Demo.drive (l ++ l') (Demo.start, [])).
Proof. unfold drive. rewrite foldl_app. apply demo_steps. Qed.

(** The peer of the session after a schedule. *)
Definition demo_peer (l : list Sched) : option Peer := s_store (Demo.after l) !! 0%nat.

(** ** Every reachable state *)

Section Props.
Variable hmac_sha256 : list byte -> list byte -> list byte.
Variable unmarshalEnvelope : list byte -> option string.
Variable unmarshalInto : forall k : Kind, list byte -> option (payload k).
Variable marshal : Message -> option (list byte).

Abbreviation reachable := (PeerSafety.reachable hmac_sha256 unmarshalEnvelope unmarshalInto marshal).
Abbreviation csteps := (Conc.csteps (env hmac_sha256 unmarshalEnvelope unmarshalInto marshal)).
Abbreviation proof_ok := (Peer.proof_ok hmac_sha256).

(** The peer behind a reference in a reachable state is well-formed. *)
Lemma reachable_peer c r p :
  reachable c -> s_store (fst c) !! r = Some p -> peer_ok hmac_sha256 p.
Proof using Type. intros Hc Hp. apply reachable_inv in Hc as [HI _]. by apply (inv_store _ _ HI r p). Qed.

(** The same peer, later. *)
Lemma reachable_peer_later c c' r p :
  reachable c -> csteps c c' -> s_store (fst c) !! r = Some p ->
  exists p', s_store (fst c') !! r = Some p' /\ peer_le p p' /\ peer_ok hmac_sha256 p'.
Proof using Type.
  intros Hc Hs Hp. destruct (reachable_later _ _ _ _ _ _ Hc Hs) as [HI HR].
  destruct (later_store _ _ HR r p Hp) as (p' & Hp' & Hle). exists p'. split_and!; [done..|].
  by apply (inv_store _ _ HI r p').
Qed.


(** C7: auth_confirm goes out only after the peer's proof was accepted, and
    until it is out a peer is sent nothing but handshake messages, over the
    message and the raw path alike. *)
Theorem confirm_before_anything_else c r p :
  reachable c -> s_store (fst c) !! r = Some p ->
  (Exists is_confirm (p_sent p) -> is_Some (p_verified p)) /\
  (forall before m after, p_sent p = before ++ m :: after ->
     isAuthHandshakeMessage m = false -> Exists is_confirm before) /\
  (p_sentRaw p <> [] -> Exists is_confirm (p_sent p)).
Proof using Type.
  intros Hc Hp. pose proof (reachable_peer c r p Hc Hp) as Hok. split_and!.
  - apply (ok_confirm_sent _ _ Hok).
  - apply (ok_order _ _ Hok).
  - apply (ok_raw _ _ Hok).
Qed.

(** C5: a handshake that has failed (bad or undecodable response, timeout,
    failed challenge) never succeeds afterwards: no request of that peer is
    ever dispatched, and it is never sent anything but handshake messages. *)
Theorem failed_auth_is_final c c' r p :
  reachable c -> csteps c c' -> s_store (fst c) !! r = Some p ->
  p_authResolved p = true -> p_verified p = None ->
  exists p', s_store (fst c') !! r = Some p' /\ p_delivered p' = [] /\
    Forall (fun m => isAuthHandshakeMessage m = true) (p_sent p') /\ p_sentRaw p' = [].
Proof using Type.
  intros Hc Hs Hp Hr Hv. destruct (reachable_peer_later c c' r p Hc Hs Hp) as (p' & Hp' & Hle & Hok).
  pose proof (le_failed _ _ Hle Hr Hv) as Hv'. exists p'.
  assert (~ Exists is_confirm (p_sent p')) as Hno.
  { intros [t Ht]%(ok_confirm_sent _ _ Hok). congruence. }
  split_and!; [done| | |].
  - destruct (p_delivered p') eqn:Hd; [done|]. destruct (ok_delivered _ _ Hok) as [t Ht]; congruence.
  - apply Forall_forall. intros m Hm. destruct (isAuthHandshakeMessage m) eqn:Hh; [done|].
    apply list_elem_of_split in Hm as (l1 & l2 & Heq). destruct Hno. rewrite Heq. apply Exists_app. left.
    by apply (ok_order _ _ Hok l1 m l2).
  - destruct (p_sentRaw p') eqn:Hraw; [done|]. destruct Hno. apply (ok_raw _ _ Hok). congruence.
Qed.

(** C6: once the disconnect handler has been called for a peer, no further
    request of that peer reaches the request handler: a teardown never races a
    late attach. *)
Theorem nothing_after_disconnect c c' deviceID r :
  reachable c -> csteps c c' -> EPeerDisconnect deviceID r ∈ s_log (fst c) ->
  exists p p', s_store (fst c) !! r = Some p /\ s_store (fst c') !! r = Some p' /\
    p_DeviceID p = deviceID /\ p_delivered p' = p_delivered p.
Proof using Type.
  intros Hc Hs He. pose proof (proj1 (reachable_inv _ _ _ _ _ Hc)) as HI.
  pose proof (proj1 (Forall_forall _ _) (inv_log _ _ HI) _ He) as (p & Hp & Hd & Hstop).
  destruct (reachable_peer_later c c' r p Hc Hs Hp) as (p' & Hp' & Hle & _).
  exists p, p'. split_and!; [done..|]. by apply (le_stopped _ _ Hle).
Qed.

(** C24: the manager never tracks more than MaxPeers peers, tracks each under
    its own device ID, tracks none while it is closed, remembers at most 8
    replaced attempts, and buffers at most 64 remote candidates per peer. *)
Theorem manager_stays_bounded c :
  reachable c ->
  Z.of_nat (size (s_peers (fst c))) <= Z.max 0 (s_MaxPeers (fst c)) /\
  (s_closed (fst c) = true -> s_peers (fst c) = ∅) /\
  (length (s_replacedAttempts (fst c)) <= maxReplacedAttempts)%nat /\
  forall d r, s_peers (fst c) !! d = Some r -> exists p, s_store (fst c) !! r = Some p /\
    p_DeviceID p = d /\ (length (p_iceCandidates p) <= maxBufferedICECandidates)%nat.
Proof using Type.
  intros Hc. pose proof (proj1 (reachable_inv _ _ _ _ _ Hc)) as HI. split_and!.
  - apply (inv_max _ _ HI).
  - apply (inv_closed _ _ HI).
  - apply (inv_replaced _ _ HI).
  - intros d r Hd. destruct (inv_peers _ _ HI d r Hd) as (p & Hp & Hid). exists p.
    split_and!; [done..|]. apply (ok_ice _ _ (proj1 (inv_store _ _ HI r p Hp))).
Qed.

(** Every insertion, with what the log says before it. *)
Lemma inv_inserted (s : Sys) deviceID r allowed before after :
  inv hmac_sha256 s -> s_log s = before ++ EInserted deviceID r allowed :: after ->
  allowed = deviceID /\ deviceID <> "" /\ lastAllowed before = deviceID /\
  exists p, s_store s !! r = Some p /\ p_DeviceID p = deviceID /\
    ESecret deviceID (Some (p_sharedSecret p)) ∈ s_log s.
Proof using Type.
  intros HI Hl.
  destruct (proj1 (Forall_forall _ _) (inv_log _ _ HI) (EInserted deviceID r allowed)) as (-> & Hne & Hp).
  { rewrite Hl. apply elem_of_app. right. apply list_elem_of_here. }
  split_and!; [done..| |exact Hp]. exact (inv_trace _ _ HI before deviceID r deviceID after Hl).
Qed.

(** C4: only the paired device ever gets a peer: at every insertion the
    device was the one last allowed, even if a pairing reload changed it while
    the request was being handled, the peer authenticates with the secret the
    store returned for that device, and an unpaired agent (empty allowed ID)
    inserts nobody. *)
Theorem only_the_paired_device c deviceID r allowed before after :
  reachable c -> s_log (fst c) = before ++ EInserted deviceID r allowed :: after ->
  allowed = deviceID /\ deviceID <> "" /\ lastAllowed before = deviceID /\
  exists p, s_store (fst c) !! r = Some p /\ p_DeviceID p = deviceID /\
    ESecret deviceID (Some (p_sharedSecret p)) ∈ s_log (fst c).
Proof using Type. intros Hc. apply inv_inserted, (reachable_inv _ _ _ _ _ Hc). Qed.

(** C26: a forced relay is kept. Where [ForceRelay] is set (and Pion is not
    replaced), every connection the manager asks Pion for is restricted to
    relays and given servers that the TURN service named before - in an answer
    to this request or the one that was cached -, never the public STUN server
    and never none at all because the service could not be reached. Without
    [ForceRelay] no connection is restricted. *)
Theorem forced_relay_is_kept c relayOnly servers :
  reachable c -> EConnection relayOnly servers ∈ s_log (fst c) ->
  relayOnly = s_ForceRelay (fst c) /\
  (s_ForceRelay (fst c) = true -> s_customAPI (fst c) = false -> ETurn servers ∈ s_log (fst c)).
Proof using Type.
  intros Hc Hin. pose proof (proj1 (reachable_inv _ _ _ _ _ Hc)) as HI.
  destruct (proj1 (Forall_forall _ _) (inv_log _ _ HI) _ Hin) as [-> Ht]. split; [done|].
  intros Hf Ha. destruct (Ht Hf) as [Hapi|]; [congruence|done].
Qed.

(** C25: after CloseAll has marked the manager shut down and closed, it stays
    closed and without peers for ever: an overlapping pairing reload does not
    reopen it, and no connect request in flight inserts a peer. *)
Theorem shut_down_for_good c c' :
  reachable c -> csteps c c' -> s_shutDown (fst c) = true -> s_closed (fst c) = true ->
  s_closed (fst c') = true /\ s_peers (fst c') = ∅.
Proof using Type.
  intros Hc Hs Hd Hcl. destruct (reachable_later _ _ _ _ _ _ Hc Hs) as [HI HR].
  pose proof (later_closed _ _ HR Hd Hcl) as H. split; [done|]. by apply (inv_closed _ _ HI).
Qed.
End Props.

(** ** Witnesses *)


Lemma confirm_before_anything_else_witness :
  exists p, demo_peer Demo.authenticated = Some p /\ Exists is_confirm (p_sent p) /\ is_Some (p_verified p).
Proof.
  eexists. split; [vm_compute; reflexivity|].
  assert (Exists is_confirm (p_sent (default (newPeer "" "" []) (demo_peer Demo.authenticated)))) as H.
  { vm_compute. right. left. reflexivity. }
  split; [exact H|].
  eapply (confirm_before_anything_else _ _ _ _ _ 0%nat _ (demo_reachable Demo.authenticated)); [|exact H].
  vm_compute. reflexivity.
Defined.

Lemma failed_auth_is_final_witness :
  exists p', demo_peer (Demo.refused ++ SEvent (EvMessage 0%nat [Byte.x50]) :: Demo.turns 3) = Some p' /\
    p_delivered p' = [] /\ Forall (fun m => isAuthHandshakeMessage m = true) (p_sent p') /\ p_sentRaw p' = [].
Proof.
  eapply (failed_auth_is_final _ _ _ _ _ _ 0%nat _ (demo_reachable Demo.refused)
    (demo_later Demo.refused (SEvent (EvMessage 0%nat [Byte.x50]) :: Demo.turns 3))).
  - vm_compute. reflexivity.
  - reflexivity.
  - reflexivity.
Defined.

(** A request that arrives after the disconnect. *)
Definition demo_late : list Sched := SEvent (EvMessage 0%nat [Byte.x50]) :: Demo.turns 6.

Lemma nothing_after_disconnect_witness :
  exists p p', demo_peer Demo.disconnected = Some p /\ demo_peer (Demo.disconnected ++ demo_late) = Some p' /\
    p_DeviceID p = "mobile" /\ p_delivered p' = p_delivered p.
Proof.
  eapply (nothing_after_disconnect _ _ _ _ _ _ "mobile" 0%nat (demo_reachable Demo.disconnected)
    (demo_later Demo.disconnected demo_late)).
  vm_compute. do 5 apply list_elem_of_further. apply list_elem_of_here.
Defined.

Lemma manager_stays_bounded_witness :
  size (s_peers (Demo.after Demo.authenticated)) = 1%nat /\
  Z.of_nat (size (s_peers (Demo.after Demo.authenticated))) <= 1.
Proof.
  split; [vm_compute; reflexivity|].
  apply (manager_stays_bounded _ _ _ _ _ (demo_reachable Demo.authenticated)).
Defined.

Lemma only_the_paired_device_witness :
  exists p, demo_peer Demo.authenticated = Some p /\ p_DeviceID p = "mobile" /\
    ESecret "mobile" (Some (p_sharedSecret p)) ∈ s_log (Demo.after Demo.authenticated).
Proof.
  eapply (only_the_paired_device _ _ _ _ _ "mobile" 0%nat "mobile"
    [EAllowed "mobile"; ESecret "mobile" (Some Demo.secret); EConnection false []] _ (demo_reachable Demo.authenticated)).
  vm_compute. reflexivity.
Defined.

(** A manager that must use relays: two requests, the second served from the
    cache; and one whose TURN service does not answer. *)
Definition demo_relay (turns : list (option (list ICEServer))) : Sys :=
  Demo.start <| s_ForceRelay := true |> <| s_customAPI := false |> <| s_turns := turns |>
    <| s_secrets := [Some Demo.secret; Some Demo.secret] |>.
Definition demo_turn : ICEServer := mkICEServer ["turn:relay"] "user" "pass".
Definition demo_twice : list Sched := Demo.connect ++ Demo.connect ++ Demo.turns 1 ++ Demo.turns 2.
Definition demo_relayed (turns : list (option (list ICEServer))) : list Effect :=
  omap (fun e => match e with ETurn _ | EConnection _ _ => Some e | _ => None end)
    (s_log (fst (Demo.drive demo_twice (demo_relay turns, [])))).

Example relay_or_nothing :
  demo_relayed [Some [demo_turn]] = [ETurn [demo_turn]; EConnection true [demo_turn]; EConnection true [demo_turn]]
  /\ demo_relayed [None] = [].
Proof. split; vm_compute; reflexivity. Qed.

Lemma forced_relay_is_kept_witness :
  ETurn [demo_turn] ∈ s_log (fst (Demo.drive demo_twice (demo_relay [Some [demo_turn]], []))).
Proof.
  apply (forced_relay_is_kept Demo.hmac Demo.unmarshalEnvelope Demo.unmarshalInto Demo.marshal
    (Demo.drive demo_twice (demo_relay [Some [demo_turn]], [])) true [demo_turn]).
  - exists (demo_relay [Some [demo_turn]]). split; [split; try done; by right|apply demo_steps].
  - vm_compute. do 3 apply list_elem_of_further. apply list_elem_of_here.
  - by vm_compute.
  - by vm_compute.
Defined.

(** Shutdown in a live session, then a reload and another connect request. *)
Definition demo_shutdown : list Sched := Demo.authenticated ++ SEvent EvCloseAll :: Demo.turns 4.
Definition demo_reload : list Sched :=
  SEvent EvReload :: Demo.turns 5 ++ Demo.turns 6 ++
  SEvent (EvSignal ((signal "connect_request") <| sm_TargetDeviceID := "mobile" |>)) :: Demo.turns 7.

Lemma shut_down_for_good_witness :
  s_closed (Demo.after (demo_shutdown ++ demo_reload)) = true /\
  s_peers (Demo.after (demo_shutdown ++ demo_reload)) = ∅.
Proof.
  eapply (shut_down_for_good _ _ _ _ _ _ (demo_reachable demo_shutdown) (demo_later demo_shutdown demo_reload)).
  - vm_compute. reflexivity.
  - vm_compute. reflexivity.
Defined.

(** ** Single sections *)

Section Sections.
Implicit Types (s : Sys) (d : string) (r : Ref).

(** The timers of a device. *)
Definition timers s d : option nat * option nat := (s_disconnectTimers s !! d, s_iceRestartTimers s !! d).

Lemma stopTimersLocked_timers d d' s :
  timers (stopTimersLocked d s) d' = if decide (d = d') then (None, None) else timers s d'.
Proof using Type.
  unfold timers, stopTimersLocked, stopTimer, stop. destruct (decide (d = d')) as [<-|Hne].
  - destruct (s_disconnectTimers s !! d); cbn; destruct (s_iceRestartTimers s !! d); cbn; by rewrite !lookup_delete_eq.
  - destruct (s_disconnectTimers s !! d); cbn; destruct (s_iceRestartTimers s !! d); cbn; by rewrite !lookup_delete_ne.
Qed.

(** The Connected case: both timers of the device are cancelled. *)
Lemma cancelTimers_spec s d :
  let s1 := match s_disconnectTimers s !! d with
            | Some t => stop t s <| s_disconnectTimers ::= delete d |> <| s_disconnectTimes ::= delete d |>
            | None => s end in
  let s2 := match s_iceRestartTimers s1 !! d with
            | Some t => stop t s1 <| s_iceRestartTimers ::= delete d |>
            | None => s1 end in
  s_peers s2 = s_peers s /\ timers s2 d = (None, None) /\ forall d', d' <> d -> timers s2 d' = timers s d'.
Proof using Type.
  cbv zeta. unfold timers, stop. destruct (s_disconnectTimers s !! d) as [t|] eqn:Hg; cbn;
    destruct (s_iceRestartTimers s !! d) as [w|] eqn:Hw; cbn;
    (split; [done|]; split; [by rewrite ?lookup_delete_eq, ?Hg, ?Hw|]);
    intros d' Hne; by rewrite ?lookup_delete_ne.
Qed.

(** The Disconnected case: a grace timer, unless a timer is running. *)
Lemma armGrace_spec s d now :
  let c := if negb (isNone (s_iceRestartTimers s !! d)) then (s, [])
           else if negb (isNone (s_disconnectTimers s !! d)) then (s, [])
           else let '(t, s) := arm (TGrace d) s in
                (s <| s_disconnectTimes ::= <[d := now]> |> <| s_disconnectTimers ::= <[d := t]> |>, []) in
  s_peers (fst c) = s_peers s /\ (forall d', d' <> d -> timers (fst c) d' = timers s d') /\
  (snd c : list (Thread Sys)) = [] /\
  match timers s d with
  | (None, None) => exists t, timers (fst c) d = (Some t, None) /\ s_armed (fst c) !! t = Some (TGrace d)
  | _ => fst c = s
  end.
Proof using Type.
  cbv zeta. unfold timers, arm. destruct (s_iceRestartTimers s !! d) as [w|] eqn:Hw; cbn.
  { split_and!; [done..|]. by destruct (s_disconnectTimers s !! d). }
  destruct (s_disconnectTimers s !! d) as [t|] eqn:Hg; cbn; [done|].
  split_and!; [done| |done|].
  - intros d' Hne. by rewrite lookup_insert_ne.
  - exists (s_next s). by rewrite !lookup_insert_eq, Hw.
Qed.

(** The Failed and Closed cases: the timers are cancelled, the teardown starts. *)
Lemma failed_spec s d r :
  let c := scheduleCleanup r (stopTimersLocked d s) in
  s_peers (fst c) = s_peers s /\ (forall d', d' <> d -> timers (fst c) d' = timers s d') /\
  timers (fst c) d = (None, None) /\
  if s_closed s then snd c = []
  else snd c = [run (cleanupGoroutine r)] /\ s_teardownWg (fst c) = S (s_teardownWg s) /\
       s_cleanupWg (fst c) = S (s_cleanupWg s).
Proof using Type.
  cbv zeta. unfold scheduleCleanup.
  assert (s_closed (stopTimersLocked d s) = s_closed s /\ s_peers (stopTimersLocked d s) = s_peers s /\
    s_teardownWg (stopTimersLocked d s) = s_teardownWg s /\ s_cleanupWg (stopTimersLocked d s) = s_cleanupWg s)
    as (-> & Hp & Ht & Hc).
  { unfold stopTimersLocked, stopTimer, stop. destruct (s_disconnectTimers s !! d); cbn;
      destruct (s_iceRestartTimers s !! d); done. }
  assert (forall d', timers (fst (if s_closed s then (stopTimersLocked d s, [] : list (Thread Sys))
    else ((stopTimersLocked d s) <| s_teardownWg ::= S |> <| s_cleanupWg ::= S |>, [run (cleanupGoroutine r)]))) d'
    = timers (stopTimersLocked d s) d') as Htimers
    by (intros d'; destruct (s_closed s); reflexivity).
  split_and!.
  - by destruct (s_closed s).
  - intros d' Hne. rewrite Htimers, stopTimersLocked_timers, decide_False by congruence. done.
  - by rewrite Htimers, stopTimersLocked_timers, decide_True.
  - destruct (s_closed s); [done|]. split_and!; [done|exact (f_equal S Ht)|exact (f_equal S Hc)].
Qed.

(** A state callback of a peer that is no longer tracked changes nothing;
    for the tracked peer, Connected cancels its device's timers, Disconnected
    leaves exactly one of grace timer and restart watchdog running and never
    restarts a running one, and Failed or Closed cancels both and starts one
    cleanup, tracked by both wait groups, unless the manager is closed. No
    callback touches the peer map or another device's timers. *)
Theorem state_change_spec r state now s :
  let d := from_option p_DeviceID "" (s_store s !! r) in
  let s' := fst (stateChangeSection r state now s) in
  let new := snd (stateChangeSection r state now s) in
  s_peers s' = s_peers s /\ (forall d', d' <> d -> timers s' d' = timers s d') /\
  (s_peers s !! d <> Some r -> s' = s /\ new = []) /\
  (s_peers s !! d = Some r ->
   match state with
   | PCConnected => timers s' d = (None, None) /\ new = []
   | PCDisconnected =>
       new = [] /\
       match timers s d with
       | (None, None) => exists t, timers s' d = (Some t, None) /\ s_armed s' !! t = Some (TGrace d)
       | _ => s' = s
       end
   | PCFailed | PCClosed =>
       timers s' d = (None, None) /\
       if s_closed s then new = []
       else new = [run (cleanupGoroutine r)] /\ s_teardownWg s' = S (s_teardownWg s) /\
            s_cleanupWg s' = S (s_cleanupWg s)
   | _ => s' = s /\ new = []
   end).
Proof using Type.
  intros d s' new. subst s' new. unfold stateChangeSection. fold d.
  destruct (bool_decide_reflect (s_peers s !! d = Some r)) as [Hcur|Hold]; cbn [negb]; [|done].
  destruct state; try done.
  - destruct (cancelTimers_spec s d) as (Hp & Ht & Hne). split_and!; [done..|]. intros _. by split.
  - destruct (armGrace_spec s d now) as (Hp & Hne & Ht). split_and!; [done..|]. intros _. exact Ht.
  - destruct (failed_spec s d r) as (Hp & Hne & Ht). split_and!; [done..|]. intros _. exact Ht.
  - destruct (failed_spec s d r) as (Hp & Hne & Ht). split_and!; [done..|]. intros _. exact Ht.
Qed.
End Sections.

(** ** The handshake's computations *)

Definition isAuthLabel (label : string) : Prop :=
  label = authLabelMobileToHost \/ label = authLabelHostToMobile.

Lemma authLabel_length label : isAuthLabel label -> length (bytes_of label) = 30%nat.
Proof. by intros [-> | ->]. Qed.

(** A local fingerprint the peer uses has the length of a SHA-256 digest. *)
Lemma localFingerprint_length fps fp : localFingerprint fps = Ok fp -> length fp = 32%nat.
Proof.
  induction fps as [|[alg value] rest IH]; cbn; [done|].
  destruct (negb _); [done|]. destruct (hex_decode _) as [sum|]; [|done].
  destruct (Z.eqb_spec (blen sum) 32) as [Hl|]; [|done]. cbn. intros [= <-].
  unfold blen in Hl. lia.
Qed.

(** C8: the bytes a key-possession MAC covers determine the direction, both
    nonces and both certificate fingerprints: a MAC computed for one direction,
    one connection or one pair of certificates is over different bytes than
    every other, so it cannot be replayed or reflected. Lengths are those the
    handshake enforces. *)
Theorem auth_transcript_binds l l' hn hn' mn mn' hf hf' mf mf' :
  isAuthLabel l -> isAuthLabel l' ->
  length hn = authNonceSize -> length hn' = authNonceSize ->
  length mn = authNonceSize -> length mn' = authNonceSize ->
  length hf = 32%nat -> length hf' = 32%nat ->
  authInput l hn mn hf mf = authInput l' hn' mn' hf' mf' ->
  l = l' /\ hn = hn' /\ mn = mn' /\ hf = hf' /\ mf = mf'.
Proof.
  intros Hl Hl' Hhn Hhn' Hmn Hmn' Hhf Hhf' Heq. unfold authInput in Heq.
  apply app_inj_1 in Heq as [Hlabel Heq]; [|by rewrite !authLabel_length].
  apply app_inj_1 in Heq as [-> Heq]; [|congruence].
  apply app_inj_1 in Heq as [-> Heq]; [|congruence].
  apply app_inj_1 in Heq as [-> ->]; [|congruence].
  split_and!; try done. by destruct Hl as [-> | ->], Hl' as [-> | ->].
Qed.

(** A response proof is no confirm proof, and one nonce is not another. *)
Lemma auth_transcript_binds_witness :
  let n := repeat Byte.x07 32 in
  let m := repeat Byte.x08 32 in
  authInput authLabelMobileToHost n n n n <> authInput authLabelHostToMobile n n n n /\
  authInput authLabelMobileToHost n n n n <> authInput authLabelMobileToHost m n n n.
Proof.
  cbv zeta. split; intros H; apply auth_transcript_binds in H;
    try reflexivity; try (left; reflexivity); try (right; reflexivity).
  - destruct H as [H _]. discriminate H.
  - destruct H as (_ & H & _). discriminate H.
Defined.

(** An auth_response is accepted exactly when the handshake is still open,
    the challenge was issued, its nonce is 32 bytes of base64, the fingerprints
    of this connection's certificates are available, and its MAC is the one
    under the pairing secret over exactly those; the accepted transcript is
    made of them. *)
Theorem auth_response_accepted_exactly hmac snap decoded fps t :
  checkAuthResponse hmac snap decoded fps = VerifyOK t <->
  as_resolved snap = false /\ as_hostNonce snap <> [] /\ tr_hostNonce t = as_hostNonce snap /\
  fps = Ok (tr_hostFp t, tr_mobileFp t) /\ length (tr_mobileNonce t) = authNonceSize /\
  tr_mac t = authMAC hmac (as_secret snap) authLabelMobileToHost
    (tr_hostNonce t) (tr_mobileNonce t) (tr_hostFp t) (tr_mobileFp t) /\
  exists resp, decoded = Msg KAuthResponse resp /\
    b64_decode (au_Nonce resp) = Some (tr_mobileNonce t) /\ b64_decode (au_Mac resp) = Some (tr_mac t).
Proof.
  unfold checkAuthResponse. destruct snap as [resolved nonce secret], t as [hn mn hf mf mac].
  cbn [as_resolved as_hostNonce as_secret tr_hostNonce tr_mobileNonce tr_hostFp tr_mobileFp tr_mac].
  split.
  - destruct resolved; [done|]. destruct decoded as [[] resp]; try done.
    destruct (b64_decode (au_Nonce resp)) as [mn'|] eqn:Hn; [|done].
    destruct (Z.eqb_spec (blen mn') (Z.of_nat authNonceSize)) as [Hlen|]; [|done]. cbn [negb].
    destruct (b64_decode (au_Mac resp)) as [mac'|] eqn:Hm; [|done].
    destruct (Z.eqb_spec (blen nonce) 0) as [|H0]; [done|].
    destruct fps as [[hf' mf']|]; [|done].
    destruct (bool_decide_reflect (authMAC hmac secret authLabelMobileToHost nonce mn' hf' mf' = mac')) as [<-|];
      [|done].
    intros [= <- <- <- <- <-]. split_and!; try done; [by intros ->|unfold blen in Hlen; lia|].
    by exists resp.
  - intros (-> & H0 & -> & -> & Hlen & -> & resp & -> & -> & ->).
    rewrite (proj2 (Z.eqb_eq (blen mn) (Z.of_nat authNonceSize))) by (unfold blen; rewrite Hlen; done). cbn [negb].
    destruct (Z.eqb_spec (blen nonce) 0) as [Hn|]; [unfold blen in Hn; by destruct nonce|].
    by rewrite bool_decide_eq_true_2.
Qed.

(** ** A race the code leaves open *)

(** A grace timer fires while the peer is disconnected and the clock says the
    wait was short; CloseAll runs before the callback takes the lock again. *)
Definition demo_race : list Sched :=
  Demo.connect ++ SEvent (EvState 0%nat PCDisconnected) :: SRun 1 :: SEvent (EvTimer 2) ::
  repeat (SRun 2) 3 ++ SEvent EvCloseAll :: repeat (SRun 3) 2 ++ Demo.turns 4 ++ Demo.turns 3 ++ [SRun 2].

Definition race_end : Sys :=
  fst (Demo.drive demo_race (Demo.start <| s_states := [PCDisconnected] |>, [])).

(** The callback re-arms the grace timer of a device that has no peer, in a
    closed manager: a Disconnected callback of the device's next peer would
    find the entry and start no timer of its own. *)
Example grace_timer_outlives_CloseAll :
  s_closed race_end = true /\ s_peers race_end !! "mobile" = None /\
  is_Some (s_disconnectTimers race_end !! "mobile").
Proof. vm_compute. split_and!; [done..|]. by eexists. Qed.
