(* ===== verification/World.v ===== *)
(** * The operating system and the network, as the agent uses them

    The calls of packages os, crypto/rand, time and net/http that the agent
    makes, over one explicit state. What the environment decides is an oracle
    list consumed call by call: which file operation fails ([w_faults]), the
    random bytes ([w_entropy]), the clock readings ([w_clock]) and the replies
    of the server ([w_replies]). A theorem that quantifies over the [World]
    quantifies over every behaviour of the environment. *)

From S2P Require Import Prelude GoLib.

(** ** State *)

(** A path: a cleaned directory and a base name ([filepath.Join dir name]),
    or the [n]-th temporary file [os.CreateTemp] made in a directory. *)
Inductive Path :=
| Join (dir name : string)
| Temp (dir prefix : string) (n : nat).

#[export] Instance Path_eq_dec : EqDecision Path.
Proof. solve_decision. Defined.

#[export] Instance Path_countable : Countable Path.
Proof.
  apply (inj_countable'
    (fun p => match p with Join d n => inl (d, n) | Temp d p n => inr (d, p, n) end)
    (fun x => match x with inl (d, n) => Join d n | inr (d, p, n) => Temp d p n end)).
  by intros [].
Defined.

(** [filepath.Dir]. *)
Definition Dir (p : Path) : string :=
  match p with
  | Join d _ => d
  | Temp d _ _ => d
  end.

Record File := mkFile { f_data : list byte; f_perm : Z }.

#[export] Instance File_eq_dec : EqDecision File.
Proof. solve_decision. Defined.

Inductive FsError := FsNotExist | FsExist | FsIO.

#[export] Instance FsError_eq_dec : EqDecision FsError.
Proof. solve_decision. Defined.

(** What the system does with one file operation: carries it out, or fails
    after [n] bytes (of a write). *)
Inductive Fault := NoFault | Fails (n : nat).

(** [rq_Follow]: whether the client follows redirects. *)
Record HttpRequest := mkRequest {
  rq_Follow : bool;
  rq_Method : string;
  rq_URL : string;
  rq_Headers : list (string * string);
  rq_Body : list byte
}.

(** [client.Do]: no connection, or a status and a body, which may fail to be
    read. *)
Inductive HttpReply :=
| ConnectionError
| Reply (status : Z) (body : option (list byte)).

Record World := mkWorld {
  w_files : gmap Path File;
  w_dirs : gset string;
  w_faults : list Fault;
  w_entropy : list byte;
  w_clock : list Z;
  w_sent : list HttpRequest;
  w_replies : list HttpReply
}.

Definition set_files (fs : gmap Path File) (w : World) : World :=
  mkWorld fs w.(w_dirs) w.(w_faults) w.(w_entropy) w.(w_clock) w.(w_sent) w.(w_replies).
Definition set_dirs (ds : gset string) (w : World) : World :=
  mkWorld w.(w_files) ds w.(w_faults) w.(w_entropy) w.(w_clock) w.(w_sent) w.(w_replies).
Definition set_faults (f : list Fault) (w : World) : World :=
  mkWorld w.(w_files) w.(w_dirs) f w.(w_entropy) w.(w_clock) w.(w_sent) w.(w_replies).
Definition set_entropy (e : list byte) (w : World) : World :=
  mkWorld w.(w_files) w.(w_dirs) w.(w_faults) e w.(w_clock) w.(w_sent) w.(w_replies).
Definition set_clock (c : list Z) (w : World) : World :=
  mkWorld w.(w_files) w.(w_dirs) w.(w_faults) w.(w_entropy) c w.(w_sent) w.(w_replies).
Definition set_net (sent : list HttpRequest) (rs : list HttpReply) (w : World) : World :=
  mkWorld w.(w_files) w.(w_dirs) w.(w_faults) w.(w_entropy) w.(w_clock) sent rs.

(** A world with nothing in it, where nothing fails. *)
Definition world0 : World := mkWorld ∅ ∅ [] [] [] [] [].

(** ** Package os *)

(** The permission mode 0600. *)
Definition mode0600 : Z := 384.

Definition next_fault : M World Fault := fun w =>
  match w.(w_faults) with
  | [] => (NoFault, w)
  | f :: fs => (f, set_faults fs w)
  end.

(** An operation the system may refuse before doing anything. *)
Definition faulty {A} (op : M World (result FsError A)) : M World (result FsError A) :=
  f ← next_fault;
  match f with
  | NoFault => op
  | Fails _ => fail FsIO
  end.

Definition ReadFile (p : Path) : M World (result FsError (list byte)) :=
  faulty (fun w =>
    match w.(w_files) !! p with
    | Some f => (Ok f.(f_data), w)
    | None => (Err FsNotExist, w)
    end).

Definition put_file (p : Path) (f : File) (w : World) : World :=
  set_files (<[p := f]> w.(w_files)) w.

Definition append_file (p : Path) (data : list byte) (w : World) : World :=
  match w.(w_files) !! p with
  | Some old => put_file p (mkFile (old.(f_data) ++ data) old.(f_perm)) w
  | None => w
  end.

(** Write [data] through an open handle: all of it, or a prefix. *)
Definition write_handle (p : Path) (data : list byte) : M World (result FsError unit) :=
  f ← next_fault;
  match f with
  | NoFault => _ ← mmod (append_file p data); ok tt
  | Fails n => _ ← mmod (append_file p (take n data)); fail FsIO
  end.

(** [os.WriteFile]: open (creating with [perm], or truncating and keeping the
    permissions), then write. *)
Definition WriteFile (p : Path) (data : list byte) (perm : Z) : M World (result FsError unit) :=
  _ ←! faulty (fun w =>
    if decide (Dir p ∈ w.(w_dirs)) then
      let perm' := match w.(w_files) !! p with Some f => f.(f_perm) | None => perm end in
      (Ok tt, put_file p (mkFile [] perm') w)
    else (Err FsNotExist, w));
  write_handle p data.

(** [os.Stat], for the permission bits. *)
Definition Stat (p : Path) : M World (result FsError Z) :=
  faulty (fun w =>
    match w.(w_files) !! p with
    | Some f => (Ok f.(f_perm), w)
    | None => (Err FsNotExist, w)
    end).

Definition Chmod (p : Path) (perm : Z) : M World (result FsError unit) :=
  faulty (fun w =>
    match w.(w_files) !! p with
    | Some f => (Ok tt, put_file p (mkFile f.(f_data) perm) w)
    | None => (Err FsNotExist, w)
    end).

Definition Remove (p : Path) : M World (result FsError unit) :=
  faulty (fun w =>
    match w.(w_files) !! p with
    | Some _ => (Ok tt, set_files (delete p w.(w_files)) w)
    | None => (Err FsNotExist, w)
    end).

(** [os.MkdirAll]: the directory exists afterwards (its parents are created
    with it and hold no file of the agent). *)
Definition MkdirAll (dir : string) : M World (result FsError unit) :=
  faulty (fun w => (Ok tt, set_dirs ({[dir]} ∪ w.(w_dirs)) w)).

(** [os.Remove] of a directory: only when no file is left in it. *)
Definition RemoveDir (dir : string) : M World (result FsError unit) :=
  faulty (fun w =>
    if decide (dir ∈ w.(w_dirs) /\ Forall (fun p => Dir p <> dir) (map_to_list w.(w_files)).*1)
    then (Ok tt, set_dirs (w.(w_dirs) ∖ {[dir]}) w)
    else (Err FsIO, w)).

(** A number no temporary file has. *)
Definition temp_number (p : Path) : nat :=
  match p with
  | Join _ _ => 0
  | Temp _ _ n => n
  end.
Definition next_temp (w : World) : nat :=
  S (foldr Nat.max 0%nat (temp_number <$> (map_to_list w.(w_files)).*1)).

(** [os.CreateTemp]: a new empty file with mode 0600. *)
Definition CreateTemp (dir prefix : string) : M World (result FsError Path) :=
  faulty (fun w =>
    if decide (dir ∈ w.(w_dirs)) then
      let p := Temp dir prefix (next_temp w) in
      (Ok p, put_file p (mkFile [] mode0600) w)
    else (Err FsNotExist, w)).

Definition Close (p : Path) : M World (result FsError unit) := faulty (ok tt).

(** [os.Rename] replaces its target atomically. *)
Definition Rename (src dst : Path) : M World (result FsError unit) :=
  faulty (fun w =>
    match w.(w_files) !! src with
    | Some f => (Ok tt, set_files (<[dst := f]> (delete src w.(w_files))) w)
    | None => (Err FsNotExist, w)
    end).

(** ** crypto/rand, time, net/http *)

(** [rand.Read] into a buffer of [n] bytes. *)
Definition rand_Read (n : nat) : M World (option (list byte)) := fun w =>
  if decide (n <= length w.(w_entropy))%nat then
    (Some (take n w.(w_entropy)), set_entropy (drop n w.(w_entropy)) w)
  else (None, w).

(** [time.Now().Unix()]. *)
Definition time_Now : M World Z := fun w =>
  match w.(w_clock) with
  | [] => (0, w)
  | t :: ts => (t, set_clock ts w)
  end.

Definition http_Do (rq : HttpRequest) : M World HttpReply := fun w =>
  match w.(w_replies) with
  | [] => (ConnectionError, set_net (w.(w_sent) ++ [rq]) [] w)
  | r :: rs => (r, set_net (w.(w_sent) ++ [rq]) rs w)
  end.

(** ** Writing a file atomically

    The temp-file-then-rename sequence the agent uses for its secrets and for
    its pairing record; [CE] names the step that failed. *)

Inductive AtomicError := AtCreateTemp (e : FsError) | AtWrite (e : FsError) | AtChmod (e : FsError)
| AtClose (e : FsError) | AtRename (e : FsError).

(** An error after [os.CreateTemp]: close the handle if [close], remove the
    temporary file, return the error. *)
Definition orRemove {A} (close : bool) (tmp : Path) (f : FsError -> AtomicError)
    (m : M World (result FsError A)) : M World (result AtomicError A) :=
  r ← m;
  match r with
  | Ok a => ok a
  | Err e =>
      _ ← (if close then ignore (Close tmp) else mret tt);
      _ ← ignore (Remove tmp);
      fail (f e)
  end.

Definition writeAtomic (prefix : string) (path : Path) (data : list byte)
    : M World (result AtomicError unit) :=
  tmp ←! wrap AtCreateTemp (CreateTemp (Dir path) prefix);
  _ ←! orRemove true tmp AtWrite (write_handle tmp data);
  _ ←! orRemove true tmp AtChmod (Chmod tmp mode0600);
  _ ←! orRemove false tmp AtClose (Close tmp);
  orRemove false tmp AtRename (Rename tmp path).

(** ** Lemmas *)

Lemma next_temp_fresh w dir prefix : w.(w_files) !! Temp dir prefix (next_temp w) = None.
Proof.
  apply eq_None_not_Some. intros [f Hf]. unfold next_temp in Hf.
  set (l := temp_number <$> (map_to_list w.(w_files)).*1) in Hf.
  assert (S (foldr Nat.max 0%nat l) ∈ l) as Hin.
  { change (S (foldr Nat.max 0%nat l)) with (temp_number (Temp dir prefix (S (foldr Nat.max 0%nat l)))).
    apply list_elem_of_fmap_2.
    change (Temp dir prefix (S (foldr Nat.max 0%nat l)))
      with (fst (Temp dir prefix (S (foldr Nat.max 0%nat l)), f)).
    by apply list_elem_of_fmap_2, elem_of_map_to_list. }
  assert (forall x, x ∈ l -> (x <= foldr Nat.max 0 l)%nat) as Hmax.
  { clear. induction l as [|y l IH]; intros x; [by intros ?%elem_of_nil|].
    intros [->|Hx]%elem_of_cons; simpl; [lia|]. specialize (IH _ Hx). lia. }
  specialize (Hmax _ Hin). lia.
Qed.

(** [agree P w w']: the two worlds hold the same files outside [P]. *)
Definition agree (P : Path -> Prop) (w w' : World) : Prop :=
  forall q, ~ P q -> w'.(w_files) !! q = w.(w_files) !! q.

Lemma agree_refl P w : agree P w w.
Proof. by intros q. Qed.

Lemma agree_trans P w1 w2 w3 : agree P w1 w2 -> agree P w2 w3 -> agree P w1 w3.
Proof. intros H1 H2 q Hq. by rewrite H2, H1. Qed.

(** [m] changes no file outside [P]. *)
Definition touches {A} (P : Path -> Prop) (m : M World A) : Prop :=
  forall w, agree P w (snd (m w)).

Section Touches.
Context (P : Path -> Prop).

Lemma touches_bind {A B} (m : M World A) (k : A -> M World B) :
  touches P m -> (forall a, touches P (k a)) -> touches P (m ≫= k).
Proof. intros Hm Hk w. rewrite mbind_run. eapply agree_trans; [apply Hm|apply Hk]. Qed.

Lemma touches_mbind_err {E A B} (m : M World (result E A)) (k : A -> M World (result E B)) :
  touches P m -> (forall a, touches P (k a)) -> touches P (mbind_err m k).
Proof.
  intros Hm Hk w. unfold mbind_err. specialize (Hm w).
  destruct (m w) as [[a|e] w1]; simpl in *; [|done]. eapply agree_trans; [apply Hm|apply Hk].
Qed.

Lemma touches_wrap {E F A} (f : E -> F) (m : M World (result E A)) :
  touches P m -> touches P (wrap f m).
Proof. intros Hm w. specialize (Hm w). unfold wrap. by destruct (m w). Qed.

Lemma touches_ignore {A} (m : M World A) : touches P m -> touches P (ignore m).
Proof. intros Hm w. apply Hm. Qed.

Lemma touches_next_fault : touches P next_fault.
Proof. intros w q _. unfold next_fault. by destruct (w_faults w). Qed.

Lemma touches_ret {A} (a : A) : touches P (fun w => (a, w)).
Proof. intros w. apply agree_refl. Qed.

Lemma touches_faulty {A} (op : M World (result FsError A)) :
  touches P op -> touches P (faulty op).
Proof.
  intros Hop. apply touches_bind; [apply touches_next_fault|].
  intros []; [done|]. apply touches_ret.
Qed.

Lemma touches_put p f : P p -> forall w, agree P w (put_file p f w).
Proof. intros Hp w q Hq. simpl. rewrite lookup_insert_ne; [done|]. by intros ->. Qed.

Lemma touches_append p data : P p -> touches P (mmod (append_file p data)).
Proof.
  intros Hp w. simpl. unfold append_file.
  destruct (w_files w !! p); [|apply agree_refl]. by apply touches_put.
Qed.

Lemma touches_write_handle p data : P p -> touches P (write_handle p data).
Proof.
  intros Hp. apply touches_bind; [apply touches_next_fault|].
  intros []; (apply touches_bind; [by apply touches_append|intros; apply touches_ret]).
Qed.

Lemma touches_WriteFile p data perm : P p -> touches P (WriteFile p data perm).
Proof.
  intros Hp. apply touches_mbind_err; [|intros; by apply touches_write_handle].
  apply touches_faulty. intros w. case_decide; [by apply touches_put|apply agree_refl].
Qed.

Lemma touches_ReadFile p : touches P (ReadFile p).
Proof. apply touches_faulty. intros w. destruct (w_files w !! p); apply agree_refl. Qed.

Lemma touches_Stat p : touches P (Stat p).
Proof. apply touches_faulty. intros w. destruct (w_files w !! p); apply agree_refl. Qed.

Lemma touches_MkdirAll d : touches P (MkdirAll d).
Proof. apply touches_faulty. by intros w q. Qed.

Lemma touches_RemoveDir d : touches P (RemoveDir d).
Proof. apply touches_faulty. intros w q _. by case_decide. Qed.

Lemma touches_rand_Read n : touches P (rand_Read n).
Proof. intros w q _. unfold rand_Read. by case_decide. Qed.

Lemma touches_Chmod p perm : P p -> touches P (Chmod p perm).
Proof.
  intros Hp. apply touches_faulty. intros w.
  destruct (w_files w !! p); [by apply touches_put|apply agree_refl].
Qed.

Lemma touches_Remove p : P p -> touches P (Remove p).
Proof.
  intros Hp. apply touches_faulty. intros w q Hq. destruct (w_files w !! p); [|done].
  simpl. rewrite lookup_delete_ne; [done|]. by intros ->.
Qed.

Lemma touches_Close q : touches P (Close q).
Proof. apply touches_faulty, touches_ret. Qed.

Lemma touches_orRemove {A} close p f (m : M World (result FsError A)) :
  P p -> touches P m -> touches P (orRemove close p f m).
Proof.
  intros Hp Hm. apply touches_bind; [done|]. intros [a|e]; [apply touches_ret|].
  apply touches_bind; [destruct close; [apply touches_ignore, touches_Close|apply touches_ret]|].
  intros _. apply touches_bind; [by apply touches_ignore, touches_Remove|intros; apply touches_ret].
Qed.

Lemma touches_Rename src dst : P src -> P dst -> touches P (Rename src dst).
Proof.
  intros Hs Hd. apply touches_faulty. intros w q Hq. destruct (w_files w !! src); [|done].
  simpl. rewrite lookup_insert_ne by (by intros ->). rewrite lookup_delete_ne; [done|]. by intros ->.
Qed.

Lemma touches_CreateTemp dir prefix : (forall k, P (Temp dir prefix k)) -> touches P (CreateTemp dir prefix).
Proof.
  intros Ht. apply touches_faulty. intros w. case_decide; [by apply touches_put|apply agree_refl].
Qed.

Lemma touches_lift {E A} (r : result E A) : touches P (lift r).
Proof. apply touches_ret. Qed.
End Touches.

#[export] Hint Resolve touches_ret touches_write_handle touches_Chmod touches_Remove
  touches_WriteFile touches_ReadFile touches_Stat touches_MkdirAll touches_RemoveDir touches_rand_Read
  touches_Close touches_ignore touches_wrap touches_lift agree_refl : pmux.

Lemma orRemove_Ok {A} close p f (m : M World (result FsError A)) w a w' :
  orRemove close p f m w = (Ok a, w') -> m w = (Ok a, w').
Proof.
  unfold orRemove. rewrite mbind_run. destruct (m w) as [[b|e] w1]; simpl; [by intros [= <- <-]|].
  by destruct close.
Qed.

Lemma faulty_Ok {A} (op : M World (result FsError A)) w a w' :
  faulty op w = (Ok a, w') -> exists w1, w1.(w_files) = w.(w_files) /\ w1.(w_dirs) = w.(w_dirs) /\
    op w1 = (Ok a, w').
Proof.
  unfold faulty. rewrite mbind_run.
  assert (w_files (snd (next_fault w)) = w_files w /\ w_dirs (snd (next_fault w)) = w_dirs w) as [Hf Hd].
  { unfold next_fault. by destruct (w_faults w). }
  destruct (next_fault w) as [[|n] w1]; simpl in *; [|done]. eauto.
Qed.

Lemma CreateTemp_Ok dir prefix w p w' :
  CreateTemp dir prefix w = (Ok p, w') ->
  exists n, p = Temp dir prefix n /\ w.(w_files) !! p = None /\
    w'.(w_files) = <[p := mkFile [] mode0600]> w.(w_files).
Proof.
  intros (w1 & Hf & _ & H)%faulty_Ok. revert H. case_decide; [|done].
  intros [= <- <-]. exists (next_temp w1). split; [done|].
  rewrite <-Hf. split; [apply next_temp_fresh|done].
Qed.

Lemma write_handle_Ok p data w w' f :
  write_handle p data w = (Ok tt, w') -> w.(w_files) !! p = Some f ->
  w'.(w_files) !! p = Some (mkFile (f.(f_data) ++ data) f.(f_perm)).
Proof.
  unfold write_handle. rewrite mbind_run. intros H Hf.
  assert (w_files (snd (next_fault w)) = w_files w) as Hfs by (unfold next_fault; by destruct (w_faults w)).
  destruct (next_fault w) as [[|n] w1]; [|done]. simpl in *. injection H as <-.
  unfold append_file. rewrite Hfs, Hf. simpl. by rewrite lookup_insert_eq.
Qed.

Lemma Chmod_Ok p perm w w' f :
  Chmod p perm w = (Ok tt, w') -> w.(w_files) !! p = Some f ->
  w'.(w_files) !! p = Some (mkFile f.(f_data) perm).
Proof.
  intros (w1 & Hfs & _ & H)%faulty_Ok Hf. rewrite Hfs, Hf in H.
  injection H as <-. simpl. by rewrite lookup_insert_eq.
Qed.

Lemma Rename_Ok src dst w w' f :
  Rename src dst w = (Ok tt, w') -> w.(w_files) !! src = Some f ->
  w'.(w_files) = <[dst := f]> (delete src w.(w_files)).
Proof.
  intros (w1 & Hfs & _ & H)%faulty_Ok Hf. rewrite Hfs, Hf in H. by injection H as <-.
Qed.

Lemma Rename_Err src dst w e w' : Rename src dst w = (Err e, w') -> w'.(w_files) = w.(w_files).
Proof.
  unfold Rename, faulty. rewrite mbind_run. unfold next_fault.
  destruct (w_faults w) as [|[|n] fs]; simpl.
  - destruct (w_files w !! src) eqn:Hf; simpl; rewrite ?Hf; [done|by intros [= _ <-]].
  - destruct (w_files w !! src) eqn:Hf; simpl; rewrite ?Hf; [done|by intros [= _ <-]].
  - by intros [= _ <-].
Qed.

(** What the steps before the rename leave: an error only ever leaves the
    temporary file behind; success replaces the target in one step. *)
Lemma writeAtomic_Ok prefix d n data w w' :
  writeAtomic prefix (Join d n) data w = (Ok tt, w') ->
  w'.(w_files) = <[Join d n := mkFile data mode0600]> w.(w_files).
Proof.
  unfold writeAtomic. intros H.
  apply mbind_err_Ok in H as (tmp & w1 & (k & -> & Hfresh & H1)%wrap_Ok%CreateTemp_Ok & H).
  set (tmp := Temp _ _ _) in *.
  apply mbind_err_Ok in H as ([] & w2 & H2%orRemove_Ok & H).
  apply mbind_err_Ok in H as ([] & w3 & H3%orRemove_Ok & H).
  apply mbind_err_Ok in H as ([] & w4 & H4%orRemove_Ok & H5%orRemove_Ok).
  assert (w_files w1 !! tmp = Some (mkFile [] mode0600)) as F1 by by rewrite H1, lookup_insert_eq.
  pose proof (write_handle_Ok _ _ _ _ _ H2 F1) as F2.
  pose proof (Chmod_Ok _ _ _ _ _ H3 F2) as F3. simpl in F3.
  apply faulty_Ok in H4 as (w3' & F4 & _ & [= <-]). rewrite <-F4 in F3.
  rewrite (Rename_Ok _ _ _ _ _ H5 F3).
  apply map_eq. intros q. destruct (decide (q = Join d n)) as [->|Hq];
    [by rewrite !lookup_insert_eq|rewrite !(lookup_insert_ne _ (Join d n)) by done].
  destruct (decide (q = tmp)) as [->|Ht]; [by rewrite lookup_delete_eq|].
  rewrite lookup_delete_ne by done. rewrite F4.
  pose proof (touches_write_handle (eq tmp) tmp data eq_refl w1 q ltac:(congruence)) as A2. rewrite H2 in A2.
  pose proof (touches_Chmod (eq tmp) tmp mode0600 eq_refl w2 q ltac:(congruence)) as A3. rewrite H3 in A3.
  simpl in A2, A3. by rewrite A3, A2, H1, lookup_insert_ne.
Qed.

Lemma writeAtomic_Err prefix d n data w e w' :
  writeAtomic prefix (Join d n) data w = (Err e, w') ->
  exists k, agree (eq (Temp d prefix k)) w w'.
Proof.
  unfold writeAtomic, mbind_err at 1. intros H.
  destruct (wrap AtCreateTemp _ w) as [[tmp|e1] w1] eqn:H1; cycle 1.
  { injection H as <- <-. unfold wrap in H1. cbn [Dir] in H1.
    destruct (CreateTemp d prefix w) as [[p|e2] w2] eqn:H2; cbn [map_err] in H1; [done|].
    injection H1 as <- <-. exists 0%nat.
    unfold CreateTemp, faulty in H2. rewrite mbind_run in H2. unfold next_fault in H2.
    destruct (w_faults w) as [|[|m] fs]; simpl in H2.
    - case_decide; [done|]. by injection H2 as _ <-.
    - case_decide; [done|]. by injection H2 as _ <-.
    - by injection H2 as _ <-. }
  apply wrap_Ok, CreateTemp_Ok in H1 as (k & -> & Hfresh & Hw1). set (tmp := Temp _ _ _) in *.
  exists k. fold tmp.
  assert (agree (eq tmp) w w1) as Ha by (intros q Hq; by rewrite Hw1, lookup_insert_ne).
  (* every later step touches only [tmp], and a rename that fails nothing *)
  assert (forall (A : Type) (m : M World (result AtomicError A)) (k : A -> M World (result AtomicError unit)) v,
    touches (eq tmp) m -> agree (eq tmp) w v ->
    (forall a v', agree (eq tmp) w v' -> k a v' = (Err e, w') -> agree (eq tmp) w w') ->
    mbind_err m k v = (Err e, w') -> agree (eq tmp) w w') as Hstep.
  { intros A m kk v Hm Hv Hk Hr. unfold mbind_err in Hr. specialize (Hm v).
    destruct (m v) as [[a|e'] v'].
    - eapply Hk, Hr. by eapply agree_trans.
    - injection Hr as -> ->. by eapply agree_trans. }
  revert H. apply Hstep; [apply touches_orRemove; auto with pmux|done|]. intros _ v Hv.
  apply Hstep; [apply touches_orRemove; auto with pmux|done|]. intros _ v2 Hv2.
  apply Hstep; [apply touches_orRemove; auto with pmux|done|]. intros _ v3 Hv3.
  unfold orRemove. rewrite mbind_run.
  destruct (Rename tmp (Join d n) v3) as [[[]|e3] v4] eqn:Hr; simpl; [done|].
  apply Rename_Err in Hr. rewrite mbind_run. simpl. intros H%(f_equal snd). simpl in H. subst.
  eapply agree_trans; [apply Hv3|]. intros q Hq.
  rewrite (touches_Remove (eq tmp) tmp eq_refl v4 q Hq). by rewrite Hr.
Qed.

Lemma writeAtomic_spec prefix d n data w :
  let '(r, w') := writeAtomic prefix (Join d n) data w in
  forall d' n', w'.(w_files) !! Join d' n' =
    if decide (is_ok r = true /\ d' = d /\ n' = n) then Some (mkFile data mode0600)
    else w.(w_files) !! Join d' n'.
Proof.
  destruct (writeAtomic prefix (Join d n) data w) as [[[]|e] w'] eqn:H; intros d' n'.
  - rewrite (writeAtomic_Ok _ _ _ _ _ _ H). case_decide as Hc.
    + destruct Hc as (_ & -> & ->). by rewrite lookup_insert_eq.
    + rewrite lookup_insert_ne; [done|]. intros [= -> ->]. by apply Hc.
  - destruct (writeAtomic_Err _ _ _ _ _ _ _ H) as (k & Ha).
    rewrite decide_False by naive_solver. by apply Ha.
Qed.

Lemma touches_writeAtomic (P : Path -> Prop) prefix path data :
  P path -> (forall k, P (Temp (Dir path) prefix k)) -> touches P (writeAtomic prefix path data).
Proof.
  intros Hp Ht w. unfold writeAtomic.
  (* the temporary file is one of those [P] allows *)
  unfold mbind_err at 1, wrap.
  pose proof (touches_CreateTemp P _ _ Ht w) as H1.
  destruct (CreateTemp (Dir path) prefix w) as [[tmp|e] w1] eqn:Hc; cbn [map_err]; [|done].
  apply CreateTemp_Ok in Hc as (k & -> & _). specialize (Ht k).
  eapply agree_trans; [apply H1|].
  apply touches_mbind_err; [by apply touches_orRemove; auto with pmux|]. intros _.
  apply touches_mbind_err; [by apply touches_orRemove; auto with pmux|]. intros _.
  apply touches_mbind_err; [by apply touches_orRemove; auto with pmux|]. intros _.
  apply touches_orRemove; [done|]. by apply touches_Rename.
Qed.

(** ** Worlds where nothing fails *)

Definition nofault (w : World) : Prop := w.(w_faults) = [].

Lemma faulty_nofault {A} (op : M World (result FsError A)) w : nofault w -> faulty op w = op w.
Proof. intros H. unfold faulty. rewrite mbind_run. unfold next_fault. by rewrite H. Qed.

Lemma ReadFile_nofault p w : nofault w ->
  ReadFile p w = (of_option FsNotExist (f_data <$> w.(w_files) !! p), w).
Proof. intros H. unfold ReadFile. rewrite faulty_nofault by done. by destruct (w_files w !! p). Qed.

Lemma write_handle_nofault p data w : nofault w ->
  write_handle p data w = (Ok tt, append_file p data w).
Proof. intros H. unfold write_handle. rewrite mbind_run. unfold next_fault. by rewrite H. Qed.

Lemma WriteFile_nofault p data perm w : nofault w -> w.(w_files) !! p = None ->
  WriteFile p data perm w =
    if decide (Dir p ∈ w.(w_dirs)) then (Ok tt, put_file p (mkFile data perm) w)
    else (Err FsNotExist, w).
Proof.
  intros H Hp. unfold WriteFile, mbind_err. rewrite faulty_nofault by done.
  case_decide; [|done]. rewrite Hp, write_handle_nofault by done.
  unfold append_file. simpl. rewrite lookup_insert_eq. unfold put_file. simpl.
  by rewrite insert_insert_eq.
Qed.

Lemma nofault_put p f w : nofault w -> nofault (put_file p f w).
Proof. done. Qed.

Lemma rand_Read_Some n w b w' :
  rand_Read n w = (Some b, w') -> length b = n /\ w'.(w_files) = w.(w_files) /\ (nofault w -> nofault w').
Proof.
  unfold rand_Read. case_decide; [|done]. intros [= <- <-].
  rewrite length_take. split_and!; [lia|done..].
Qed.

(** A step that consumes no fault it was not given. *)
Definition keeps_nofault {A} (m : M World A) : Prop := forall w, nofault w -> nofault (snd (m w)).

Lemma keeps_bind {A B} (m : M World A) (k : A -> M World B) :
  keeps_nofault m -> (forall a, keeps_nofault (k a)) -> keeps_nofault (m ≫= k).
Proof. intros Hm Hk w Hw. rewrite mbind_run. apply Hk, Hm, Hw. Qed.

Lemma keeps_mbind_err {E A B} (m : M World (result E A)) (k : A -> M World (result E B)) :
  keeps_nofault m -> (forall a, keeps_nofault (k a)) -> keeps_nofault (mbind_err m k).
Proof.
  intros Hm Hk w Hw. specialize (Hm w Hw). unfold mbind_err.
  destruct (m w) as [[a|e] w1]; [by apply Hk|done].
Qed.

Lemma keeps_wrap {E F A} (f : E -> F) (m : M World (result E A)) :
  keeps_nofault m -> keeps_nofault (wrap f m).
Proof. intros Hm w Hw. specialize (Hm w Hw). unfold wrap. by destruct (m w). Qed.

Lemma keeps_faulty {A} (op : M World (result FsError A)) :
  keeps_nofault op -> keeps_nofault (faulty op).
Proof. intros Hm w Hw. rewrite faulty_nofault by done. by apply Hm. Qed.

Lemma keeps_ret {A} (a : A) : keeps_nofault (fun w => (a, w)).
Proof. by intros w Hw. Qed.

Lemma keeps_ignore {A} (m : M World A) : keeps_nofault m -> keeps_nofault (ignore m).
Proof. intros Hm w Hw. by apply Hm. Qed.

Lemma keeps_write_handle p data : keeps_nofault (write_handle p data).
Proof.
  intros w Hw. rewrite write_handle_nofault by done. unfold append_file. simpl.
  by destruct (w_files w !! p).
Qed.

Lemma keeps_orRemove {A} close p f (m : M World (result FsError A)) :
  keeps_nofault m -> keeps_nofault (orRemove close p f m).
Proof.
  intros Hm. apply keeps_bind; [done|]. intros [a|e]; [apply keeps_ret|].
  apply keeps_bind; [destruct close; [apply keeps_ignore, keeps_faulty|]; apply keeps_ret|].
  intros _. apply keeps_bind; [|intros; apply keeps_ret].
  apply keeps_ignore, keeps_faulty. intros w Hw. by destruct (w_files w !! p).
Qed.

Lemma keeps_writeAtomic prefix path data : keeps_nofault (writeAtomic prefix path data).
Proof.
  apply keeps_mbind_err.
  { apply keeps_wrap, keeps_faulty. intros w Hw. by case_decide. }
  intros tmp. repeat (apply keeps_mbind_err; [apply keeps_orRemove|intros _]);
    [apply keeps_write_handle|apply keeps_faulty|apply keeps_faulty, keeps_ret|
     apply keeps_orRemove, keeps_faulty].
  - intros w Hw. by destruct (w_files w !! tmp).
  - intros w Hw. by destruct (w_files w !! tmp).
Qed.
