(* ===== verification/Config.v ===== *)
(** * internal/config/config.go: configuration

    Defaults, the overlays of the file and of the environment with and without
    the record of where a value came from, validation, the accessors that
    guard what they return, and the paths. TOML is a third-party library:
    parsing it into [fileConfig] is a parameter. The commented template that
    [pmux init] writes is not modelled. *)

From S2P Require Import Prelude GoLib GoText World.
From Stdlib Require Import Ascii.
Open Scope Z_scope.

(** ** Types *)

Record PowerConfig := mkPower { pc_KeepAwake : bool }.
Record UpdateConfig := mkUpdate { uc_Enabled : bool; uc_CheckInterval : string }.
Record ServerConfig := mkServer { sc_URL : string; sc_APIVersion : string }.
Record IdentityConfig := mkIdentityConfig { ic_KeyPath : string; ic_SecretBackend : string }.
Record ConnectionConfig := mkConnection {
  cc_ReconnectInterval : string; cc_KeepaliveInterval : string;
  cc_MaxMobileConnections : Z; cc_ForceRelay : bool
}.
Record TmuxConfig := mkTmux { tc_SocketName : string; tc_TmuxPath : string }.

Record Config := mkConfig {
  c_Name : string; c_LogLevel : string; c_Server : ServerConfig; c_Identity : IdentityConfig;
  c_Connection : ConnectionConfig; c_Tmux : TmuxConfig; c_Update : UpdateConfig; c_Power : PowerConfig
}.

#[export] Instance ServerConfig_eta : Eta ServerConfig := fun r => mkServer (sc_URL r) (sc_APIVersion r).
#[export] Instance IdentityConfig_eta : Eta IdentityConfig := fun r => mkIdentityConfig (ic_KeyPath r) (ic_SecretBackend r).
#[export] Instance ConnectionConfig_eta : Eta ConnectionConfig := fun r =>
  mkConnection (cc_ReconnectInterval r) (cc_KeepaliveInterval r) (cc_MaxMobileConnections r) (cc_ForceRelay r).
#[export] Instance TmuxConfig_eta : Eta TmuxConfig := fun r => mkTmux (tc_SocketName r) (tc_TmuxPath r).
#[export] Instance UpdateConfig_eta : Eta UpdateConfig := fun r => mkUpdate (uc_Enabled r) (uc_CheckInterval r).
#[export] Instance PowerConfig_eta : Eta PowerConfig := fun r => mkPower (pc_KeepAwake r).
#[export] Instance Config_eta : Eta Config := fun r =>
  mkConfig (c_Name r) (c_LogLevel r) (c_Server r) (c_Identity r) (c_Connection r) (c_Tmux r) (c_Update r) (c_Power r).

(** What the file says: an absent flag or version is [None]. *)
Record filePowerConfig := mkFilePower { fp_KeepAwake : option bool }.
Record fileUpdateConfig := mkFileUpdate { fu_Enabled : option bool; fu_CheckInterval : string }.
Record fileServerConfig := mkFileServer { fsv_URL : string; fsv_APIVersion : option string }.
Record fileConnectionConfig := mkFileConnection {
  fc_ReconnectInterval : string; fc_KeepaliveInterval : string;
  fc_MaxMobileConnections : Z; fc_ForceRelay : option bool
}.
Record fileConfig := mkFileConfig {
  f_Name : string; f_LogLevel : string; f_Server : fileServerConfig; f_Identity : IdentityConfig;
  f_Connection : fileConnectionConfig; f_Tmux : TmuxConfig; f_Update : fileUpdateConfig; f_Power : filePowerConfig
}.

Inductive configSource := sourceDefault | sourceFile | sourceEnv.

#[export] Instance configSource_eq_dec : EqDecision configSource.
Proof. solve_decision. Defined.

(** [configSource.String]. *)
Definition sourceName (s : configSource) : string :=
  match s with sourceFile => "file" | sourceEnv => "env" | sourceDefault => "default" end.

Record ConfigSources := mkSources {
  s_ServerURL : configSource; s_APIVersion : configSource; s_KeyPath : configSource;
  s_SecretBackend : configSource; s_ReconnectInterval : configSource; s_KeepaliveInterval : configSource;
  s_MaxMobileConnections : configSource; s_ForceRelay : configSource; s_SocketName : configSource;
  s_TmuxPath : configSource; s_Name : configSource; s_LogLevel : configSource;
  s_UpdateEnabled : configSource; s_UpdateCheckInterval : configSource; s_KeepAwake : configSource
}.
#[export] Instance ConfigSources_eta : Eta ConfigSources := fun r =>
  mkSources (s_ServerURL r) (s_APIVersion r) (s_KeyPath r) (s_SecretBackend r) (s_ReconnectInterval r)
    (s_KeepaliveInterval r) (s_MaxMobileConnections r) (s_ForceRelay r) (s_SocketName r) (s_TmuxPath r)
    (s_Name r) (s_LogLevel r) (s_UpdateEnabled r) (s_UpdateCheckInterval r) (s_KeepAwake r).

(** [ConfigSources{}]. *)
Definition noSources : ConfigSources :=
  mkSources sourceDefault sourceDefault sourceDefault sourceDefault sourceDefault sourceDefault sourceDefault
    sourceDefault sourceDefault sourceDefault sourceDefault sourceDefault sourceDefault sourceDefault sourceDefault.

(** [Config{}]. *)
Definition zeroConfig : Config :=
  mkConfig "" "" (mkServer "" "") (mkIdentityConfig "" "") (mkConnection "" "" 0 false) (mkTmux "" "")
    (mkUpdate false "") (mkPower false).

Definition DefaultServerURL : string := "https://signal.pmux.io".

Definition Defaults : Config :=
  mkConfig "" "info" (mkServer DefaultServerURL "v1") (mkIdentityConfig "~/.config/pmux/keys/" "auto")
    (mkConnection "5s" "30s" 1 false) (mkTmux "pmux" "") (mkUpdate true "24h") (mkPower false).

(** ** The environment *)

Definition Environ := gmap string string.

Definition EnvServerURL : string := "PMUX_AGENT_SIGNAL_URL".
Definition EnvNewServerURL : string := "PMUX_SERVER_URL".
Definition EnvAPIVersion : string := "PMUX_API_VERSION".
Definition EnvKeyPath : string := "PMUX_KEY_PATH".
Definition EnvSocketName : string := "PMUX_SOCKET_NAME".
Definition EnvMaxConnections : string := "PMUX_MAX_CONNECTIONS".
Definition EnvSecretBackend : string := "PMUX_SECRET_BACKEND".
Definition EnvTmuxPath : string := "PMUX_TMUX_PATH".
Definition EnvLogLevel : string := "PMUX_LOG_LEVEL".
Definition EnvUpdateEnabled : string := "PMUX_UPDATE_ENABLED".
Definition EnvUpdateInterval : string := "PMUX_UPDATE_INTERVAL".
Definition EnvForceRelay : string := "PMUX_FORCE_RELAY".
Definition EnvKeepAwake : string := "PMUX_KEEP_AWAKE".

(** [os.Getenv]; [os.LookupEnv] is the lookup itself. *)
Definition Getenv (env : Environ) (k : string) : string := default "" (env !! k).

Definition nonEmpty (v : string) : bool := negb (bool_decide (v = "")).
Definition truthy (v : string) : bool :=
  bool_decide (v = "true") || bool_decide (v = "1") || bool_decide (v = "yes").

(** ** Overlays

    Sequences of conditional assignments to a pointer's fields. *)

(** An assignment under a condition, and one of the value of a pointer that
    is not nil. *)
Definition assign {R} (b : bool) (g : R -> R) (r : R) : R := if b then g r else r.
Definition assignOpt {R A} (o : option A) (g : A -> R -> R) (r : R) : R :=
  match o with Some v => g v r | None => r end.

(** Two assignments under one condition: the value and its annotation. *)
Definition assign2 {R S} (b : bool) (g : R -> R) (h : S -> S) (p : R * S) : R * S :=
  if b then (g (fst p), h (snd p)) else p.
Definition assignOpt2 {R S A} (o : option A) (g : A -> R -> R) (h : S -> S) (p : R * S) : R * S :=
  match o with Some v => (g v (fst p), h (snd p)) | None => p end.

(** A number in the environment, if it is set and parses. *)
Definition parsedInt (v : string) : option Z :=
  if nonEmpty v then match Atoi v with (n, None) => Some n | _ => None end else None.

Definition overlayFile (cfg : Config) (f : fileConfig) : Config :=
  let cfg := assign (nonEmpty (f_Name f)) (fun c => c <| c_Name := f_Name f |>) cfg in
  let cfg := assign (nonEmpty (f_LogLevel f)) (fun c => c <| c_LogLevel := f_LogLevel f |>) cfg in
  let cfg := assign (nonEmpty (fsv_URL (f_Server f)))
    (fun c => c <| c_Server ::= (fun r => r <| sc_URL := fsv_URL (f_Server f) |>) |>) cfg in
  let cfg := assignOpt (fsv_APIVersion (f_Server f))
    (fun v c => c <| c_Server ::= (fun r => r <| sc_APIVersion := v |>) |>) cfg in
  let cfg := assign (nonEmpty (ic_KeyPath (f_Identity f)))
    (fun c => c <| c_Identity ::= (fun r => r <| ic_KeyPath := ic_KeyPath (f_Identity f) |>) |>) cfg in
  let cfg := assign (nonEmpty (ic_SecretBackend (f_Identity f)))
    (fun c => c <| c_Identity ::= (fun r => r <| ic_SecretBackend := ic_SecretBackend (f_Identity f) |>) |>) cfg in
  let cfg := assign (nonEmpty (fc_ReconnectInterval (f_Connection f)))
    (fun c => c <| c_Connection ::= (fun r => r <| cc_ReconnectInterval := fc_ReconnectInterval (f_Connection f) |>) |>) cfg in
  let cfg := assign (nonEmpty (fc_KeepaliveInterval (f_Connection f)))
    (fun c => c <| c_Connection ::= (fun r => r <| cc_KeepaliveInterval := fc_KeepaliveInterval (f_Connection f) |>) |>) cfg in
  let cfg := assign (negb (fc_MaxMobileConnections (f_Connection f) =? 0))
    (fun c => c <| c_Connection ::= (fun r => r <| cc_MaxMobileConnections := fc_MaxMobileConnections (f_Connection f) |>) |>) cfg in
  let cfg := assignOpt (fc_ForceRelay (f_Connection f))
    (fun v c => c <| c_Connection ::= (fun r => r <| cc_ForceRelay := v |>) |>) cfg in
  let cfg := assign (nonEmpty (tc_SocketName (f_Tmux f)))
    (fun c => c <| c_Tmux ::= (fun r => r <| tc_SocketName := tc_SocketName (f_Tmux f) |>) |>) cfg in
  let cfg := assign (nonEmpty (tc_TmuxPath (f_Tmux f)))
    (fun c => c <| c_Tmux ::= (fun r => r <| tc_TmuxPath := tc_TmuxPath (f_Tmux f) |>) |>) cfg in
  let cfg := assign (nonEmpty (fu_CheckInterval (f_Update f)))
    (fun c => c <| c_Update ::= (fun r => r <| uc_CheckInterval := fu_CheckInterval (f_Update f) |>) |>) cfg in
  let cfg := assignOpt (fu_Enabled (f_Update f))
    (fun v c => c <| c_Update ::= (fun r => r <| uc_Enabled := v |>) |>) cfg in
  assignOpt (fp_KeepAwake (f_Power f)) (fun v c => c <| c_Power ::= (fun r => r <| pc_KeepAwake := v |>) |>) cfg.

(** The same, with the sources. *)
Definition overlayFileTracked (cfg : Config) (f : fileConfig) (s : ConfigSources) : Config * ConfigSources :=
  let p := (cfg, s) in
  let p := assign2 (nonEmpty (f_Name f)) (fun c => c <| c_Name := f_Name f |>)
    (fun s => s <| s_Name := sourceFile |>) p in
  let p := assign2 (nonEmpty (f_LogLevel f)) (fun c => c <| c_LogLevel := f_LogLevel f |>)
    (fun s => s <| s_LogLevel := sourceFile |>) p in
  let p := assign2 (nonEmpty (fsv_URL (f_Server f)))
    (fun c => c <| c_Server ::= (fun r => r <| sc_URL := fsv_URL (f_Server f) |>) |>)
    (fun s => s <| s_ServerURL := sourceFile |>) p in
  let p := assignOpt2 (fsv_APIVersion (f_Server f))
    (fun v c => c <| c_Server ::= (fun r => r <| sc_APIVersion := v |>) |>)
    (fun s => s <| s_APIVersion := sourceFile |>) p in
  let p := assign2 (nonEmpty (ic_KeyPath (f_Identity f)))
    (fun c => c <| c_Identity ::= (fun r => r <| ic_KeyPath := ic_KeyPath (f_Identity f) |>) |>)
    (fun s => s <| s_KeyPath := sourceFile |>) p in
  let p := assign2 (nonEmpty (ic_SecretBackend (f_Identity f)))
    (fun c => c <| c_Identity ::= (fun r => r <| ic_SecretBackend := ic_SecretBackend (f_Identity f) |>) |>)
    (fun s => s <| s_SecretBackend := sourceFile |>) p in
  let p := assign2 (nonEmpty (fc_ReconnectInterval (f_Connection f)))
    (fun c => c <| c_Connection ::= (fun r => r <| cc_ReconnectInterval := fc_ReconnectInterval (f_Connection f) |>) |>)
    (fun s => s <| s_ReconnectInterval := sourceFile |>) p in
  let p := assign2 (nonEmpty (fc_KeepaliveInterval (f_Connection f)))
    (fun c => c <| c_Connection ::= (fun r => r <| cc_KeepaliveInterval := fc_KeepaliveInterval (f_Connection f) |>) |>)
    (fun s => s <| s_KeepaliveInterval := sourceFile |>) p in
  let p := assign2 (negb (fc_MaxMobileConnections (f_Connection f) =? 0))
    (fun c => c <| c_Connection ::= (fun r => r <| cc_MaxMobileConnections := fc_MaxMobileConnections (f_Connection f) |>) |>)
    (fun s => s <| s_MaxMobileConnections := sourceFile |>) p in
  let p := assignOpt2 (fc_ForceRelay (f_Connection f))
    (fun v c => c <| c_Connection ::= (fun r => r <| cc_ForceRelay := v |>) |>)
    (fun s => s <| s_ForceRelay := sourceFile |>) p in
  let p := assign2 (nonEmpty (tc_SocketName (f_Tmux f)))
    (fun c => c <| c_Tmux ::= (fun r => r <| tc_SocketName := tc_SocketName (f_Tmux f) |>) |>)
    (fun s => s <| s_SocketName := sourceFile |>) p in
  let p := assign2 (nonEmpty (tc_TmuxPath (f_Tmux f)))
    (fun c => c <| c_Tmux ::= (fun r => r <| tc_TmuxPath := tc_TmuxPath (f_Tmux f) |>) |>)
    (fun s => s <| s_TmuxPath := sourceFile |>) p in
  let p := assign2 (nonEmpty (fu_CheckInterval (f_Update f)))
    (fun c => c <| c_Update ::= (fun r => r <| uc_CheckInterval := fu_CheckInterval (f_Update f) |>) |>)
    (fun s => s <| s_UpdateCheckInterval := sourceFile |>) p in
  let p := assignOpt2 (fu_Enabled (f_Update f)) (fun v c => c <| c_Update ::= (fun r => r <| uc_Enabled := v |>) |>)
    (fun s => s <| s_UpdateEnabled := sourceFile |>) p in
  assignOpt2 (fp_KeepAwake (f_Power f)) (fun v c => c <| c_Power ::= (fun r => r <| pc_KeepAwake := v |>) |>)
    (fun s => s <| s_KeepAwake := sourceFile |>) p.

Definition applyEnvOverrides (env : Environ) (cfg : Config) : Config :=
  let get := Getenv env in
  let cfg := assign (nonEmpty (get EnvNewServerURL))
    (fun c => c <| c_Server ::= (fun r => r <| sc_URL := get EnvNewServerURL |>) |>) cfg in
  let cfg := assign (negb (nonEmpty (get EnvNewServerURL)) && nonEmpty (get EnvServerURL))
    (fun c => c <| c_Server ::= (fun r => r <| sc_URL := get EnvServerURL |>) |>) cfg in
  let cfg := assignOpt (env !! EnvAPIVersion)
    (fun v c => c <| c_Server ::= (fun r => r <| sc_APIVersion := v |>) |>) cfg in
  let cfg := assign (nonEmpty (get EnvKeyPath))
    (fun c => c <| c_Identity ::= (fun r => r <| ic_KeyPath := get EnvKeyPath |>) |>) cfg in
  let cfg := assign (nonEmpty (get EnvSocketName))
    (fun c => c <| c_Tmux ::= (fun r => r <| tc_SocketName := get EnvSocketName |>) |>) cfg in
  let cfg := assign (nonEmpty (get EnvTmuxPath))
    (fun c => c <| c_Tmux ::= (fun r => r <| tc_TmuxPath := get EnvTmuxPath |>) |>) cfg in
  let cfg := assign (nonEmpty (get EnvSecretBackend))
    (fun c => c <| c_Identity ::= (fun r => r <| ic_SecretBackend := get EnvSecretBackend |>) |>) cfg in
  let cfg := assignOpt (parsedInt (get EnvMaxConnections))
    (fun v c => c <| c_Connection ::= (fun r => r <| cc_MaxMobileConnections := v |>) |>) cfg in
  let cfg := assign (nonEmpty (get EnvLogLevel)) (fun c => c <| c_LogLevel := get EnvLogLevel |>) cfg in
  let cfg := assign (nonEmpty (get EnvUpdateEnabled))
    (fun c => c <| c_Update ::= (fun r => r <| uc_Enabled := truthy (get EnvUpdateEnabled) |>) |>) cfg in
  let cfg := assign (nonEmpty (get EnvUpdateInterval))
    (fun c => c <| c_Update ::= (fun r => r <| uc_CheckInterval := get EnvUpdateInterval |>) |>) cfg in
  let cfg := assign (nonEmpty (get EnvForceRelay))
    (fun c => c <| c_Connection ::= (fun r => r <| cc_ForceRelay := truthy (get EnvForceRelay) |>) |>) cfg in
  assign (nonEmpty (get EnvKeepAwake))
    (fun c => c <| c_Power ::= (fun r => r <| pc_KeepAwake := truthy (get EnvKeepAwake) |>) |>) cfg.

Definition applyEnvOverridesTracked (env : Environ) (cfg : Config) (s : ConfigSources) : Config * ConfigSources :=
  let get := Getenv env in
  let p := (cfg, s) in
  let p := assign2 (nonEmpty (get EnvNewServerURL))
    (fun c => c <| c_Server ::= (fun r => r <| sc_URL := get EnvNewServerURL |>) |>)
    (fun s => s <| s_ServerURL := sourceEnv |>) p in
  let p := assign2 (negb (nonEmpty (get EnvNewServerURL)) && nonEmpty (get EnvServerURL))
    (fun c => c <| c_Server ::= (fun r => r <| sc_URL := get EnvServerURL |>) |>)
    (fun s => s <| s_ServerURL := sourceEnv |>) p in
  let p := assignOpt2 (env !! EnvAPIVersion) (fun v c => c <| c_Server ::= (fun r => r <| sc_APIVersion := v |>) |>)
    (fun s => s <| s_APIVersion := sourceEnv |>) p in
  let p := assign2 (nonEmpty (get EnvKeyPath))
    (fun c => c <| c_Identity ::= (fun r => r <| ic_KeyPath := get EnvKeyPath |>) |>)
    (fun s => s <| s_KeyPath := sourceEnv |>) p in
  let p := assign2 (nonEmpty (get EnvSocketName))
    (fun c => c <| c_Tmux ::= (fun r => r <| tc_SocketName := get EnvSocketName |>) |>)
    (fun s => s <| s_SocketName := sourceEnv |>) p in
  let p := assign2 (nonEmpty (get EnvTmuxPath))
    (fun c => c <| c_Tmux ::= (fun r => r <| tc_TmuxPath := get EnvTmuxPath |>) |>)
    (fun s => s <| s_TmuxPath := sourceEnv |>) p in
  let p := assign2 (nonEmpty (get EnvSecretBackend))
    (fun c => c <| c_Identity ::= (fun r => r <| ic_SecretBackend := get EnvSecretBackend |>) |>)
    (fun s => s <| s_SecretBackend := sourceEnv |>) p in
  let p := assignOpt2 (parsedInt (get EnvMaxConnections))
    (fun v c => c <| c_Connection ::= (fun r => r <| cc_MaxMobileConnections := v |>) |>)
    (fun s => s <| s_MaxMobileConnections := sourceEnv |>) p in
  let p := assign2 (nonEmpty (get EnvLogLevel)) (fun c => c <| c_LogLevel := get EnvLogLevel |>)
    (fun s => s <| s_LogLevel := sourceEnv |>) p in
  let p := assign2 (nonEmpty (get EnvUpdateEnabled))
    (fun c => c <| c_Update ::= (fun r => r <| uc_Enabled := truthy (get EnvUpdateEnabled) |>) |>)
    (fun s => s <| s_UpdateEnabled := sourceEnv |>) p in
  let p := assign2 (nonEmpty (get EnvUpdateInterval))
    (fun c => c <| c_Update ::= (fun r => r <| uc_CheckInterval := get EnvUpdateInterval |>) |>)
    (fun s => s <| s_UpdateCheckInterval := sourceEnv |>) p in
  let p := assign2 (nonEmpty (get EnvForceRelay))
    (fun c => c <| c_Connection ::= (fun r => r <| cc_ForceRelay := truthy (get EnvForceRelay) |>) |>)
    (fun s => s <| s_ForceRelay := sourceEnv |>) p in
  assign2 (nonEmpty (get EnvKeepAwake))
    (fun c => c <| c_Power ::= (fun r => r <| pc_KeepAwake := truthy (get EnvKeepAwake) |>) |>)
    (fun s => s <| s_KeepAwake := sourceEnv |>) p.

(** ** Validation *)

Inductive ConfigError :=
| EmptyServerURL
| BadServerScheme (url : string)
| BadAPIVersion (v : string)
| BadSecretBackend (v : string)
| BadReconnectInterval (e : Time.DurationError)
| BadKeepaliveInterval (e : Time.DurationError)
| KeepaliveNotPositive (v : string)
| NotSinglePairing
| EmptySocketName
| BadCheckInterval (e : Time.DurationError)
| CheckIntervalNotPositive (v : string)
| BadLogLevel (v : string).

Definition validScheme (url : string) : bool :=
  HasPrefix url "ws://" || HasPrefix url "wss://" || HasPrefix url "http://" || HasPrefix url "https://".

Definition oneOf (v : string) (l : list string) : bool := bool_decide (v ∈ l).

Definition knownLogLevel (v : string) : bool :=
  EqualsLower v "debug" || EqualsLower v "info" || EqualsLower v "warn" || EqualsLower v "error".

Definition Validate (c : Config) : result ConfigError unit :=
  _ ← check (nonEmpty (sc_URL (c_Server c))) EmptyServerURL;
  _ ← check (validScheme (sc_URL (c_Server c))) (BadServerScheme (sc_URL (c_Server c)));
  _ ← check (oneOf (sc_APIVersion (c_Server c)) [""; "v1"]) (BadAPIVersion (sc_APIVersion (c_Server c)));
  _ ← check (oneOf (ic_SecretBackend (c_Identity c)) ["auto"; "keyring"; "file"])
        (BadSecretBackend (ic_SecretBackend (c_Identity c)));
  _ ← map_err BadReconnectInterval (Time.ParseDuration (cc_ReconnectInterval (c_Connection c)));
  d ← map_err BadKeepaliveInterval (Time.ParseDuration (cc_KeepaliveInterval (c_Connection c)));
  _ ← check (negb (d <=? 0)) (KeepaliveNotPositive (cc_KeepaliveInterval (c_Connection c)));
  _ ← check (cc_MaxMobileConnections (c_Connection c) =? 1) NotSinglePairing;
  _ ← check (nonEmpty (tc_SocketName (c_Tmux c))) EmptySocketName;
  _ ← (if nonEmpty (uc_CheckInterval (c_Update c)) then
         d ← map_err BadCheckInterval (Time.ParseDuration (uc_CheckInterval (c_Update c)));
         check (negb (d <=? 0)) (CheckIntervalNotPositive (uc_CheckInterval (c_Update c)))
       else Ok tt);
  check (knownLogLevel (c_LogLevel c)) (BadLogLevel (c_LogLevel c)).

(** ** Accessors *)

Definition ReconnectInterval (c : Config) : Z :=
  match Time.ParseDuration (cc_ReconnectInterval (c_Connection c)) with
  | Ok d => d
  | Err _ => 5 * Time.Second
  end.

Definition MaxKeepaliveInterval : Z := 45 * Time.Second.

Definition parsedKeepalive (c : Config) : Z * bool :=
  match Time.ParseDuration (cc_KeepaliveInterval (c_Connection c)) with
  | Ok d => (d, d >? 0)
  | Err _ => (0, false)
  end.

Definition KeepaliveInterval (c : Config) : Z :=
  let '(d, valid) := parsedKeepalive c in
  if negb valid then 30 * Time.Second
  else if d >? MaxKeepaliveInterval then MaxKeepaliveInterval
  else d.

Definition KeepaliveClamped (c : Config) : bool :=
  let '(d, valid) := parsedKeepalive c in valid && (d >? MaxKeepaliveInterval).

Definition UpdateCheckInterval (c : Config) : Z :=
  match Time.ParseDuration (uc_CheckInterval (c_Update c)) with
  | Ok d => if d <=? 0 then 24 * Time.Hour else d
  | Err _ => 24 * Time.Hour
  end.

Definition ServerURL (c : Config) : string := sc_URL (c_Server c).

Definition APIBaseURL (c : Config) : string :=
  let base := TrimRight (sc_URL (c_Server c)) "/" in
  if decide (sc_APIVersion (c_Server c) = "") then base
  else base +:+ "/" +:+ sc_APIVersion (c_Server c).

(** The values of [slog.Level]. *)
Definition LevelDebug : Z := -4.
Definition LevelInfo : Z := 0.
Definition LevelWarn : Z := 4.
Definition LevelError : Z := 8.

Definition ParseLogLevel (c : Config) : Z :=
  if EqualsLower (c_LogLevel c) "debug" then LevelDebug
  else if EqualsLower (c_LogLevel c) "info" then LevelInfo
  else if EqualsLower (c_LogLevel c) "warn" then LevelWarn
  else if EqualsLower (c_LogLevel c) "error" then LevelError
  else LevelInfo.

(** ** Loading and saving *)

Inductive LoadError := ReadConfig (e : FsError) | ParseConfig.
Inductive SaveError := MarshalConfig | WriteConfig (e : FsError).

Section Load.
Variable toml_Unmarshal : list byte -> option fileConfig.
Variable toml_Marshal : Config -> option (list byte).
Variable env : Environ.

Definition LoadConfig (path : Path) : M World (result LoadError Config) :=
  data ← ReadFile path;
  match data with
  | Err FsNotExist => ok (applyEnvOverrides env Defaults)
  | Err e => fail (ReadConfig e)
  | Ok data =>
      match toml_Unmarshal data with
      | None => fail ParseConfig
      | Some f => ok (applyEnvOverrides env (overlayFile Defaults f))
      end
  end.

Definition LoadConfigWithSources (path : Path) : M World (result LoadError (Config * ConfigSources)) :=
  data ← ReadFile path;
  match data with
  | Err FsNotExist => ok (applyEnvOverridesTracked env Defaults noSources)
  | Err e => fail (ReadConfig e)
  | Ok data =>
      match toml_Unmarshal data with
      | None => fail ParseConfig
      | Some f =>
          let '(cfg, sources) := overlayFileTracked Defaults f noSources in
          ok (applyEnvOverridesTracked env cfg sources)
      end
  end.

Definition saveConfig (path : Path) (cfg : Config) : M World (result SaveError unit) :=
  match toml_Marshal cfg with
  | None => fail MarshalConfig
  | Some data => wrap WriteConfig (WriteFile path data mode0600)
  end.
End Load.

(** [loadConfig] of agent.go: an unreadable file means the defaults; what
    does not validate is used all the same. *)
Definition agentConfig (toml_Unmarshal : list byte -> option fileConfig) (env : Environ) (path : Path) : M World Config :=
  r ← LoadConfig toml_Unmarshal env path;
  match r with
  | Ok cfg => mret cfg
  | Err _ => mret Defaults
  end.

Section Format.
(** [strconv.IsPrint], for [%q]. *)
Variable IsPrint : Z -> bool.

Definition boolText (b : bool) : string := if b then "true" else "false".

Definition line (name value note : string) (s : configSource) : string :=
  name +:+ " = " +:+ value +:+ note +:+ "  (" +:+ sourceName s +:+ ")" +:+ String newline "".

Definition FormatEffective (cfg : Config) (s : ConfigSources) : string :=
  let q := Quote IsPrint in
  let note := if KeepaliveClamped cfg then " [clamped to 45s]" else "" in
  line "name" (q (c_Name cfg)) "" (s_Name s) +:+
  line "log_level" (q (c_LogLevel cfg)) "" (s_LogLevel s) +:+
  line "server.url" (q (sc_URL (c_Server cfg))) "" (s_ServerURL s) +:+
  line "server.api_version" (q (sc_APIVersion (c_Server cfg))) "" (s_APIVersion s) +:+
  line "identity.key_path" (q (ic_KeyPath (c_Identity cfg))) "" (s_KeyPath s) +:+
  line "identity.secret_backend" (q (ic_SecretBackend (c_Identity cfg))) "" (s_SecretBackend s) +:+
  line "connection.reconnect_interval" (q (cc_ReconnectInterval (c_Connection cfg))) "" (s_ReconnectInterval s) +:+
  line "connection.keepalive_interval" (q (cc_KeepaliveInterval (c_Connection cfg))) note (s_KeepaliveInterval s) +:+
  line "connection.max_mobile_connections" (Itoa (cc_MaxMobileConnections (c_Connection cfg))) "" (s_MaxMobileConnections s) +:+
  line "connection.force_relay" (boolText (cc_ForceRelay (c_Connection cfg))) "" (s_ForceRelay s) +:+
  line "tmux.socket_name" (q (tc_SocketName (c_Tmux cfg))) "" (s_SocketName s) +:+
  line "tmux.tmux_path" (q (tc_TmuxPath (c_Tmux cfg))) "" (s_TmuxPath s) +:+
  line "update.enabled" (boolText (uc_Enabled (c_Update cfg))) "" (s_UpdateEnabled s) +:+
  line "update.check_interval" (q (uc_CheckInterval (c_Update cfg))) "" (s_UpdateCheckInterval s) +:+
  line "power.keep_awake" (boolText (pc_KeepAwake (c_Power cfg))) "" (s_KeepAwake s).
End Format.

(** ** Paths *)

Record Paths := mkPaths {
  p_ConfigDir : string; p_KeysDir : string; p_PairedDevices : Path; p_ConfigFile : Path
}.
#[export] Instance Paths_eta : Eta Paths := fun p =>
  mkPaths (p_ConfigDir p) (p_KeysDir p) (p_PairedDevices p) (p_ConfigFile p).

Definition appDir : string := "pmux".
Definition keysDir : string := "keys".
Definition pairedDevicesFile : string := "paired_devices.json".
Definition configFile : string := "config.toml".

(** [os.UserHomeDir]: HOME, which must not be empty. *)
Definition UserHomeDir (env : Environ) : option string :=
  if nonEmpty (Getenv env "HOME") then Some (Getenv env "HOME") else None.

Definition DefaultPaths (env : Environ) : option Paths :=
  home ← UserHomeDir env;
  let configDir := JoinPath (JoinPath home ".config") appDir in
  Some (mkPaths configDir (JoinPath configDir keysDir)
          (World.Join configDir pairedDevicesFile) (World.Join configDir configFile)).

Definition WithKeyPath (env : Environ) (p : Paths) (keyPath : string) : option Paths :=
  if decide (keyPath = "") then Some p else
  keyPath ← (if bool_decide (keyPath = "~") || HasPrefix keyPath "~/"
             then home ← UserHomeDir env; Some (JoinPath home (sdrop 1 keyPath))
             else Some keyPath);
  let keyPath := if negb (IsAbs keyPath) then JoinPath (p_ConfigDir p) keyPath else keyPath in
  Some (p <| p_KeysDir := Clean keyPath |>).

Inductive DirError := CreateConfigDir (e : FsError) | CreateKeysDir (e : FsError).

Definition EnsureDirs (p : Paths) : M World (result DirError unit) :=
  _ ←! wrap CreateConfigDir (MkdirAll (p_ConfigDir p));
  wrap CreateKeysDir (MkdirAll (p_KeysDir p)).

(** [os.Hostname]. *)
Definition DefaultHostName (hostname : option string) : string := default "my-host" hostname.
