(* ===== verification/ConfigProps.v ===== *)
(** * What the configuration guarantees

    Where an effective value comes from, what [Validate] accepts, and the
    bounds of the intervals that drive tickers. *)

From S2P Require Import Prelude GoLib GoText World Config.
Open Scope Z_scope.

(** ** Sequences of assignments *)

Section Assign.
Context {R S A B : Type}.

Lemma assign_skip (p : R -> A) b g r : (forall x, p (g x) = p x) -> p (assign b g r) = p r.
Proof. intros H. destruct b; simpl; auto. Qed.

Lemma assign_hit (p : R -> A) b g r v : (forall x, p (g x) = v) -> p (assign b g r) = if b then v else p r.
Proof. intros H. destruct b; simpl; auto. Qed.

Lemma assignOpt_skip (p : R -> A) (o : option B) g r :
  (forall v x, p (g v x) = p x) -> p (assignOpt o g r) = p r.
Proof. intros H. destruct o; simpl; auto. Qed.

Lemma assignOpt_hit (p : R -> A) (o : option A) g r :
  (forall v x, p (g v x) = v) -> p (assignOpt o g r) = default (p r) o.
Proof. intros H. destruct o; simpl; auto. Qed.

Lemma fst_assign2 b (g : R -> R) (h : S -> S) p : fst (assign2 b g h p) = assign b g (fst p).
Proof. by destruct b, p. Qed.
Lemma snd_assign2 b (g : R -> R) (h : S -> S) p : snd (assign2 b g h p) = assign b h (snd p).
Proof. by destruct b, p. Qed.
Lemma fst_assignOpt2 (o : option A) (g : A -> R -> R) (h : S -> S) p :
  fst (assignOpt2 o g h p) = assignOpt o g (fst p).
Proof. by destruct o, p. Qed.
Lemma snd_assignOpt2 (o : option A) (g : A -> R -> R) (h : S -> S) p :
  snd (assignOpt2 o g h p) = assignOpt o (fun _ => h) (snd p).
Proof. by destruct o, p. Qed.

Lemma assignOpt_const (p : R -> A) (o : option B) h r v :
  (forall x, p (h x) = v) -> p (assignOpt o (fun _ => h) r) = match o with Some _ => v | None => p r end.
Proof. intros H. destruct o; simpl; auto. Qed.
End Assign.

Create Rewrite HintDb sources.
#[export] Hint Rewrite @fst_assign2 @snd_assign2 @fst_assignOpt2 @snd_assignOpt2 : sources.

(** Reads the projection [p] off a sequence of assignments: those that do not
    touch it are dropped, the case of one that does is split. *)
Ltac read_field p :=
  repeat first
    [ etransitivity; [eapply (assign_skip p); reflexivity|]
    | etransitivity; [eapply (assignOpt_skip p); reflexivity|]
    | etransitivity; [eapply (assign_hit p); intros; cbn; reflexivity|];
      match goal with |- (if ?b then _ else _) = _ => destruct b eqn:?; [try reflexivity|] end
    | etransitivity; [eapply (assignOpt_hit p); intros; reflexivity|];
      match goal with |- default _ ?o = _ => destruct o; [try reflexivity|]; cbn [default] end
    | etransitivity; [eapply (assignOpt_const p); intros; cbn; reflexivity|];
      match goal with |- match ?o with _ => _ end = _ => destruct o; [try reflexivity|] end ].

(** The tracked overlays compute the same configuration. *)
Lemma overlayFileTracked_fst cfg f s : fst (overlayFileTracked cfg f s) = overlayFile cfg f.
Proof. unfold overlayFileTracked, overlayFile. cbv zeta. by autorewrite with sources. Qed.

Lemma applyEnvOverridesTracked_fst env cfg s :
  fst (applyEnvOverridesTracked env cfg s) = applyEnvOverrides env cfg.
Proof. unfold applyEnvOverridesTracked, applyEnvOverrides. cbv zeta. by autorewrite with sources. Qed.

(** ** Fields *)

(** A field of the configuration: where it is, where its source is recorded,
    and what the file and the environment say about it, if they do. *)
Record Field := mkField {
  fl_type : Type;
  fl_get : Config -> fl_type;
  fl_source : ConfigSources -> configSource;
  fl_file : fileConfig -> option fl_type;
  fl_env : Environ -> option fl_type
}.

Definition text (v : string) : option string := if nonEmpty v then Some v else None.
Definition number (n : Z) : option Z := if negb (n =? 0) then Some n else None.
Definition var (k : string) (env : Environ) : option string := text (Getenv env k).
Definition switch (k : string) (env : Environ) : option bool := truthy <$> var k env.

(** The first that says something. *)
Definition orElse {A} (o1 o2 : option A) : option A := match o1 with Some v => Some v | None => o2 end.

Definition fields : list Field := [
  mkField string c_Name s_Name (fun f => text (f_Name f)) (fun _ => None);
  mkField string c_LogLevel s_LogLevel (fun f => text (f_LogLevel f)) (var EnvLogLevel);
  mkField string (fun c => sc_URL (c_Server c)) s_ServerURL (fun f => text (fsv_URL (f_Server f)))
    (fun env => orElse (var EnvNewServerURL env) (var EnvServerURL env));
  mkField string (fun c => sc_APIVersion (c_Server c)) s_APIVersion (fun f => fsv_APIVersion (f_Server f))
    (fun env => env !! EnvAPIVersion);
  mkField string (fun c => ic_KeyPath (c_Identity c)) s_KeyPath (fun f => text (ic_KeyPath (f_Identity f)))
    (var EnvKeyPath);
  mkField string (fun c => ic_SecretBackend (c_Identity c)) s_SecretBackend
    (fun f => text (ic_SecretBackend (f_Identity f))) (var EnvSecretBackend);
  mkField string (fun c => cc_ReconnectInterval (c_Connection c)) s_ReconnectInterval
    (fun f => text (fc_ReconnectInterval (f_Connection f))) (fun _ => None);
  mkField string (fun c => cc_KeepaliveInterval (c_Connection c)) s_KeepaliveInterval
    (fun f => text (fc_KeepaliveInterval (f_Connection f))) (fun _ => None);
  mkField Z (fun c => cc_MaxMobileConnections (c_Connection c)) s_MaxMobileConnections
    (fun f => number (fc_MaxMobileConnections (f_Connection f))) (fun env => parsedInt (Getenv env EnvMaxConnections));
  mkField bool (fun c => cc_ForceRelay (c_Connection c)) s_ForceRelay
    (fun f => fc_ForceRelay (f_Connection f)) (switch EnvForceRelay);
  mkField string (fun c => tc_SocketName (c_Tmux c)) s_SocketName (fun f => text (tc_SocketName (f_Tmux f)))
    (var EnvSocketName);
  mkField string (fun c => tc_TmuxPath (c_Tmux c)) s_TmuxPath (fun f => text (tc_TmuxPath (f_Tmux f)))
    (var EnvTmuxPath);
  mkField bool (fun c => uc_Enabled (c_Update c)) s_UpdateEnabled (fun f => fu_Enabled (f_Update f))
    (switch EnvUpdateEnabled);
  mkField string (fun c => uc_CheckInterval (c_Update c)) s_UpdateCheckInterval
    (fun f => text (fu_CheckInterval (f_Update f))) (var EnvUpdateInterval);
  mkField bool (fun c => pc_KeepAwake (c_Power c)) s_KeepAwake (fun f => fp_KeepAwake (f_Power f))
    (switch EnvKeepAwake)
].

(** The value of a field and its source: the environment, else the file, else
    the default. *)
Definition effective (fl : Field) (env : Environ) (file : option fileConfig) : fl_type fl * configSource :=
  match fl_env fl env, file ≫= fl_file fl with
  | Some v, _ => (v, sourceEnv)
  | None, Some v => (v, sourceFile)
  | None, None => (fl_get fl Defaults, sourceDefault)
  end.

(** What one overlay does to one field and its source. *)
Definition overlays (fl : Field) (said : option (fl_type fl)) (src : configSource)
    (before after : Config * ConfigSources) : Prop :=
  fl_get fl (fst after) = default (fl_get fl (fst before)) said /\
  fl_source fl (snd after) = (match said with Some _ => src | None => fl_source fl (snd before) end).

Ltac said := unfold text, number, switch, var, text, parsedInt, orElse; cbn [fl_file fl_env].

Ltac read_all :=
  repeat constructor; autorewrite with sources; cbn [fst snd]; said;
  match goal with
  | |- fl_get ?fl _ = _ => read_field (fl_get fl)
  | |- fl_source ?fl _ = _ => read_field (fl_source fl)
  end; try reflexivity.

Lemma overlayFileTracked_fields cfg f s :
  Forall (fun fl => overlays fl (fl_file fl f) sourceFile (cfg, s) (overlayFileTracked cfg f s)) fields.
Proof.
  unfold fields, overlayFileTracked. cbv zeta.
  read_all.
Qed.

Lemma applyEnvOverridesTracked_fields env cfg s :
  Forall (fun fl => overlays fl (fl_env fl env) sourceEnv (cfg, s) (applyEnvOverridesTracked env cfg s)) fields.
Proof.
  unfold fields, applyEnvOverridesTracked. cbv zeta.
  read_all.
  all: cbn; destruct (nonEmpty (Getenv env EnvNewServerURL)), (nonEmpty (Getenv env EnvServerURL)); simplify_eq/=;
    try reflexivity.
Qed.

Lemma orElse_default {A} (o1 o2 : option A) d : default (default d o2) o1 = default d (orElse o1 o2).
Proof. by destruct o1. Qed.

Lemma noSources_default : Forall (fun fl => fl_source fl noSources = sourceDefault) fields.
Proof. by repeat constructor. Qed.

(** The environment over the file over the defaults. *)
Lemma overlays_effective env f :
  let p := overlayFileTracked Defaults f noSources in
  let '(cfg, sources) := applyEnvOverridesTracked env (fst p) (snd p) in
  Forall (fun fl => (fl_get fl cfg, fl_source fl sources) = effective fl env (Some f)) fields.
Proof.
  cbv zeta. pose proof (overlayFileTracked_fields Defaults f noSources) as Hf.
  set (p := overlayFileTracked Defaults f noSources) in *.
  pose proof (applyEnvOverridesTracked_fields env (fst p) (snd p)) as He.
  destruct (applyEnvOverridesTracked env (fst p) (snd p)) as [cfg sources].
  pose proof noSources_default as H0. rewrite Forall_forall in *.
  intros fl Hin. destruct (Hf fl Hin) as [Hf1 Hf2], (He fl Hin) as [He1 He2]. specialize (H0 fl Hin).
  unfold effective. cbn in *. rewrite He1, He2, Hf1, Hf2, H0.
  by destruct (fl_env fl env), (fl_file fl f).
Qed.

Lemma overlays_effective_none env :
  let '(cfg, sources) := applyEnvOverridesTracked env Defaults noSources in
  Forall (fun fl => (fl_get fl cfg, fl_source fl sources) = effective fl env None) fields.
Proof.
  pose proof (applyEnvOverridesTracked_fields env Defaults noSources) as He.
  destruct (applyEnvOverridesTracked env Defaults noSources) as [cfg sources].
  pose proof noSources_default as H0. rewrite Forall_forall in *.
  intros fl Hin. destruct (He fl Hin) as [He1 He2]. specialize (H0 fl Hin).
  unfold effective. cbn in *. rewrite He1, He2, H0. by destruct (fl_env fl env).
Qed.

(** ** Loading *)

Section Load.
Variable toml_Unmarshal : list byte -> option fileConfig.
Variable env : Environ.

(** What the file said: nothing if there is none, and no configuration at all
    if it cannot be read or parsed. *)
Definition fileSays (r : result FsError (list byte)) : result LoadError (option fileConfig) :=
  match r with
  | Ok data => match toml_Unmarshal data with Some f => Ok (Some f) | None => Err ParseConfig end
  | Err FsNotExist => Ok None
  | Err e => Err (ReadConfig e)
  end.

End Load.

(** ** Validation *)

Definition positiveDuration (v : string) : Prop := exists d, Time.ParseDuration v = Ok d /\ 0 < d.

(** What a configuration must satisfy. *)
Record wellFormed (c : Config) : Prop := {
  wf_URL : sc_URL (c_Server c) <> "" /\ validScheme (sc_URL (c_Server c)) = true;
  wf_Version : sc_APIVersion (c_Server c) ∈ [""; "v1"];
  wf_Backend : ic_SecretBackend (c_Identity c) ∈ ["auto"; "keyring"; "file"];
  wf_Reconnect : exists d, Time.ParseDuration (cc_ReconnectInterval (c_Connection c)) = Ok d;
  wf_Keepalive : positiveDuration (cc_KeepaliveInterval (c_Connection c));
  wf_Peers : cc_MaxMobileConnections (c_Connection c) = 1;
  wf_Socket : tc_SocketName (c_Tmux c) <> "";
  wf_Check : uc_CheckInterval (c_Update c) <> "" -> positiveDuration (uc_CheckInterval (c_Update c));
  wf_Level : knownLogLevel (c_LogLevel c) = true
}.

(** What an error of [Validate] says about the configuration. *)
Definition blames (e : ConfigError) (c : Config) : Prop :=
  match e with
  | EmptyServerURL => sc_URL (c_Server c) = ""
  | BadServerScheme url => url = sc_URL (c_Server c) /\ validScheme url = false
  | BadAPIVersion v => v = sc_APIVersion (c_Server c) /\ v ∉ [""; "v1"]
  | BadSecretBackend v => v = ic_SecretBackend (c_Identity c) /\ v ∉ ["auto"; "keyring"; "file"]
  | BadReconnectInterval e => Time.ParseDuration (cc_ReconnectInterval (c_Connection c)) = Err e
  | BadKeepaliveInterval e => Time.ParseDuration (cc_KeepaliveInterval (c_Connection c)) = Err e
  | KeepaliveNotPositive v => v = cc_KeepaliveInterval (c_Connection c) /\ ~ positiveDuration v
  | NotSinglePairing => cc_MaxMobileConnections (c_Connection c) <> 1
  | EmptySocketName => tc_SocketName (c_Tmux c) = ""
  | BadCheckInterval e => uc_CheckInterval (c_Update c) <> "" /\ Time.ParseDuration (uc_CheckInterval (c_Update c)) = Err e
  | CheckIntervalNotPositive v => v = uc_CheckInterval (c_Update c) /\ v <> "" /\ ~ positiveDuration v
  | BadLogLevel v => v = c_LogLevel c /\ knownLogLevel v = false
  end.

Lemma nonEmpty_spec v : nonEmpty v = true <-> v <> "".
Proof. unfold nonEmpty. rewrite negb_true_iff, bool_decide_eq_false. done. Qed.
Lemma nonEmpty_false v : nonEmpty v = false <-> v = "".
Proof. unfold nonEmpty. rewrite negb_false_iff, bool_decide_eq_true. done. Qed.

Lemma not_positive v d : Time.ParseDuration v = Ok d -> d <= 0 -> ~ positiveDuration v.
Proof. intros Hv Hd (d' & Hv' & Hpos). rewrite Hv in Hv'. simplify_eq. lia. Qed.

Lemma Validate_cases c :
  match Validate c with Ok _ => wellFormed c | Err e => blames e c end.
Proof.
  unfold Validate.
  destruct (nonEmpty (sc_URL (c_Server c))) eqn:Hu; cbn; [apply nonEmpty_spec in Hu|by apply nonEmpty_false].
  destruct (validScheme (sc_URL (c_Server c))) eqn:Hs; cbn; [|done].
  unfold oneOf.
  destruct (decide (sc_APIVersion (c_Server c) ∈ [""; "v1"])) as [Hv|Hv];
    [rewrite (bool_decide_eq_true_2 _ Hv)|rewrite (bool_decide_eq_false_2 _ Hv)]; cbn; [|by split].
  destruct (decide (ic_SecretBackend (c_Identity c) ∈ ["auto"; "keyring"; "file"])) as [Hb|Hb];
    [rewrite (bool_decide_eq_true_2 _ Hb)|rewrite (bool_decide_eq_false_2 _ Hb)]; cbn; [|by split].
  destruct (Time.ParseDuration (cc_ReconnectInterval (c_Connection c))) as [dr|] eqn:Hr; cbn; [|done].
  destruct (Time.ParseDuration (cc_KeepaliveInterval (c_Connection c))) as [dk|] eqn:Hk; cbn; [|done].
  destruct (dk <=? 0) eqn:Hkp; bool_to_prop; cbn; [split; [done|]; by eapply not_positive|].
  destruct (cc_MaxMobileConnections (c_Connection c) =? 1) eqn:Hm; bool_to_prop; cbn; [|done].
  destruct (nonEmpty (tc_SocketName (c_Tmux c))) eqn:Hn; cbn; [apply nonEmpty_spec in Hn|by apply nonEmpty_false].
  assert (positiveDuration (cc_KeepaliveInterval (c_Connection c))) by (exists dk; auto).
  destruct (nonEmpty (uc_CheckInterval (c_Update c))) eqn:Hc; cbn.
  - apply nonEmpty_spec in Hc.
    destruct (Time.ParseDuration (uc_CheckInterval (c_Update c))) as [dc|] eqn:Hd; cbn; [|done].
    destruct (dc <=? 0) eqn:Hdp; bool_to_prop; cbn; [split_and!; [done..|]; by eapply not_positive|].
    destruct (knownLogLevel (c_LogLevel c)) eqn:Hl; cbn; [|done]. split; try done; [by exists dr|]. intros _. by exists dc.
  - apply nonEmpty_false in Hc.
    destruct (knownLogLevel (c_LogLevel c)) eqn:Hl; cbn; [|done]. split; try done. by exists dr.
Qed.

Lemma blames_not e c : blames e c -> ~ wellFormed c.
Proof.
  intros He [[Hu1 Hu2] Hv Hb [d Hr] Hk Hp Hs Hc Hl]. destruct e; cbn in He; try done;
    repeat match goal with H : _ /\ _ |- _ => destruct H end; subst; try congruence; auto.
  - destruct Hk as (? & ? & ?). congruence.
  - destruct (Hc ltac:(done)) as (? & ? & ?). congruence.
Qed.


(** ** Intervals *)

Lemma components_range fuel d s r : 0 <= d -> Time.components fuel d s = Ok r -> 0 <= d <= Time.two63 -> 0 <= r <= Time.two63.
Proof.
  revert d s. induction fuel as [|fuel IH]; intros d [|c s] H0 H Hd; cbn [Time.components] in H;
    simplify_eq; try done.
  destruct (Time.component (String c s)) as [[v rest]|]; cbn in H; [|done].
  destruct (_ >? _) eqn:Hgt; [done|]. rewrite Z.gtb_ltb in Hgt. apply Z.ltb_ge in Hgt.
  assert (0 <= (d + v) mod 18446744073709551616) by (apply Z.mod_pos_bound; lia). eapply IH; [|exact H|]; lia.
Qed.

Lemma ParseDuration_range s d : Time.ParseDuration s = Ok d -> minInt64 <= d <= maxInt64.
Proof.
  unfold Time.ParseDuration. set (p := match s with EmptyString => _ | _ => _ end). destruct p as [neg s'].
  destruct (decide _); [intros [= <-]; done|]. destruct (decide _); [done|].
  destruct (Time.components _ 0 s') as [total|] eqn:Hn; cbn; [|done].
  apply components_range in Hn; [|lia|unfold Time.two63; lia]. unfold Time.two63, minInt64, maxInt64 in *.
  destruct neg; [intros [= <-]; lia|]. destruct (total >? _) eqn:Hgt; [done|].
  rewrite Z.gtb_ltb in Hgt. apply Z.ltb_ge in Hgt. intros [= <-]. unfold Time.two63 in *. lia.
Qed.

(** No configuration stops a ticker or loses a live host. Whatever the
    file and the environment say, the presence interval is positive and at
    most 45 s, so two heartbeats fit in the 90 s after which the server takes
    the host for gone; the interval of update checks is positive; both are the
    configured value whenever that is a positive duration, the presence one
    capped, and the cap is reported exactly when it applies. *)
Theorem intervals_bounded c :
  let d := Time.ParseDuration (cc_KeepaliveInterval (c_Connection c)) in
  let u := Time.ParseDuration (uc_CheckInterval (c_Update c)) in
  0 < KeepaliveInterval c <= 45 * Time.Second /\ 2 * KeepaliveInterval c <= 90 * Time.Second /\
  0 < UpdateCheckInterval c <= maxInt64 /\
  (forall v, d = Ok v -> 0 < v -> KeepaliveInterval c = Z.min v (45 * Time.Second)) /\
  (forall v, u = Ok v -> 0 < v -> UpdateCheckInterval c = v) /\
  (KeepaliveClamped c = true <-> exists v, d = Ok v /\ 45 * Time.Second < v).
Proof.
  cbv zeta. unfold KeepaliveInterval, KeepaliveClamped, UpdateCheckInterval, parsedKeepalive, MaxKeepaliveInterval.
  pose proof (ParseDuration_range (uc_CheckInterval (c_Update c))) as Hu.
  destruct (Time.ParseDuration (uc_CheckInterval (c_Update c))) as [u|];
    [specialize (Hu u eq_refl); destruct (u <=? 0) eqn:Hu0; bool_to_prop|].
  all: destruct (Time.ParseDuration (cc_KeepaliveInterval (c_Connection c))) as [d|];
    [destruct (d >? 0) eqn:Hd; [destruct (d >? 45 * Time.Second) eqn:Hd'|]|];
    rewrite ?Z.gtb_ltb, ?Z.ltb_lt, ?Z.ltb_ge in *; cbn [negb andb];
    unfold Time.Hour, Time.Minute, Time.Second, maxInt64 in *;
    split_and!; try lia; try (intros; simplify_eq; lia); try done; try naive_solver lia.
Qed.

(** A file, an environment, and the configuration they make. *)
Definition demoFile : fileConfig :=
  mkFileConfig "box" "" (mkFileServer "https://a.example" (Some "")) (mkIdentityConfig "" "")
    (mkFileConnection "" "90s" 0 None) (mkTmux "" "") (mkFileUpdate (Some false) "") (mkFilePower None).

Example demoConfig :
  let env : Environ := {[ EnvUpdateEnabled := "yes"; EnvKeepAwake := "no" ]} in
  let cfg := applyEnvOverrides env (overlayFile Defaults demoFile) in
  Validate cfg = Ok tt /\ APIBaseURL cfg = "https://a.example" /\ KeepaliveInterval cfg = 45 * Time.Second /\
  uc_Enabled (c_Update cfg) = true /\ pc_KeepAwake (c_Power cfg) = false /\ tc_SocketName (c_Tmux cfg) = "pmux".
Proof. vm_compute. split_and!; reflexivity. Qed.

Example defaults_valid : Validate Defaults = Ok tt.
Proof. by vm_compute. Qed.

Definition slow : Config :=
  Defaults <| c_Connection ::= (fun r => r <| cc_KeepaliveInterval := "2m" |>) |>.

Lemma intervals_bounded_witness :
  Time.ParseDuration "2m" = Ok (120 * Time.Second) /\ KeepaliveInterval slow = 45 * Time.Second /\
  2 * KeepaliveInterval slow <= 90 * Time.Second /\ KeepaliveClamped slow = true.
Proof.
  pose proof (intervals_bounded slow) as (_ & Htwo & _ & Hv & _ & Hc).
  assert (H : Time.ParseDuration "2m" = Ok (120 * Time.Second)) by (by vm_compute).
  split_and!; [exact H| |exact Htwo|].
  - exact (Hv (120 * Time.Second) H ltac:(by vm_compute)).
  - apply Hc. exists (120 * Time.Second). split; [exact H|by vm_compute].
Defined.

