(* ===== verification/SecretStore.v ===== *)
(** * internal/auth/secretstore*.go: where the agent keeps its secrets

    [SecretStore] is the interface the rest of the agent uses, with its
    documented contract as the class [SecretStoreLaws]. The three
    implementations of the source are instances: the in-memory store, the
    encrypted file and the system keyring. The ciphers, JSON and the keyring
    library are parameters. *)

From S2P Require Import Prelude GoLib World.
From Stdlib Require Import Ascii.
Open Scope Z_scope.

Definition ServiceName : string := "pocketmux".
Definition SecretKeyEd25519Private : string := "ed25519-private-key".
Definition SecretKeySharedSecretPrefix : string := "shared-secret-".

Definition SharedSecretKey (deviceID : string) : string :=
  SecretKeySharedSecretPrefix +:+ deviceID.

(** ** The interface *)

Abbreviation Secrets := (gmap string (list byte)).

Inductive DecryptError :=
| FileTooSmall (n : Z)
| UnsupportedVersion (v : byte)
| DecMachineID
| DecCipher
| OpenFailed
| ParseSecrets.

Inductive EncryptError :=
| MarshalSecrets
| GenerateSalt
| EncMachineID
| EncCipher
| GenerateNonce.

Inductive StoreFailure :=
| ReadSecretsFile (e : FsError)
| DecryptSecrets (e : DecryptError)
| EncryptSecrets (e : EncryptError)
| CreateKeysDir (e : FsError)
| WriteSecrets (e : AtomicError)
| KeyringError
| KeyringPanic
| KeyringDecode.

Inductive SecretError := ErrSecretNotFound | StoreFailed (f : StoreFailure).

(** The operations, over the store's own state [T] and the system. *)
Class SecretStore (T : Type) := {
  Get : string -> M (T * World) (result SecretError (list byte));
  SetSecret : string -> list byte -> M (T * World) (result SecretError unit);
  DeleteSecret : string -> M (T * World) (result SecretError unit);
  Backend : string
}.

(** The documented contract. [view s m]: the secrets a reader of the store
    finds are [m]. [owns t p]: the file [p] belongs to the store, which
    touches no other. *)
Class SecretStoreLaws (T : Type) `{SecretStore T} := {
  view : T * World -> Secrets -> Prop;
  owns : T -> Path -> Prop;
  Get_law k s m : view s m ->
    let '(r, s') := Get k s in
    view s' m /\
    match r with
    | Ok v => m !! k = Some v
    | Err ErrSecretNotFound => m !! k = None
    | Err (StoreFailed _) => True
    end;
  Set_law k v s m : view s m ->
    let '(r, s') := SetSecret k v s in
    match r with
    | Ok _ => view s' (<[k := v]> m)
    | Err ErrSecretNotFound => False
    | Err (StoreFailed _) => view s' m \/ view s' (<[k := v]> m)
    end;
  Delete_law k s m : view s m ->
    let '(r, s') := DeleteSecret k s in
    match r with
    | Ok _ => view s' (delete k m)
    | Err ErrSecretNotFound => False
    | Err (StoreFailed _) => view s' m \/ view s' (delete k m)
    end;
  view_frame t w w' m :
    (forall p, owns t p -> w'.(w_files) !! p = w.(w_files) !! p) ->
    view (t, w) m -> view (t, w') m;
  Get_frame k s d n : ~ owns (fst s) (Join d n) ->
    w_files (snd (snd (Get k s))) !! Join d n = w_files (snd s) !! Join d n;
  Set_frame k v s d n : ~ owns (fst s) (Join d n) ->
    w_files (snd (snd (SetSecret k v s))) !! Join d n = w_files (snd s) !! Join d n;
  Delete_frame k s d n : ~ owns (fst s) (Join d n) ->
    w_files (snd (snd (DeleteSecret k s))) !! Join d n = w_files (snd s) !! Join d n;
  Get_owns k s p : owns (fst (snd (Get k s))) p <-> owns (fst s) p;
  Set_owns k v s p : owns (fst (snd (SetSecret k v s))) p <-> owns (fst s) p;
  Delete_owns k s p : owns (fst (snd (DeleteSecret k s))) p <-> owns (fst s) p
}.

(** ** MemorySecretStore *)

Record MemorySecretStore := mkMemory { mem_secrets : Secrets }.

Definition NewMemorySecretStore : MemorySecretStore := mkMemory ∅.

Definition Memory_Get (key : string) : M (MemorySecretStore * World) (result SecretError (list byte)) :=
  fun s => (of_option ErrSecretNotFound (mem_secrets (fst s) !! key), s).

Definition Memory_Set (key : string) (data : list byte)
    : M (MemorySecretStore * World) (result SecretError unit) :=
  fun '(t, w) => (Ok tt, (mkMemory (<[key := data]> t.(mem_secrets)), w)).

Definition Memory_Delete (key : string) : M (MemorySecretStore * World) (result SecretError unit) :=
  fun '(t, w) => (Ok tt, (mkMemory (delete key t.(mem_secrets)), w)).

#[export] Instance MemoryStore : SecretStore MemorySecretStore := {|
  Get := Memory_Get; SetSecret := Memory_Set; DeleteSecret := Memory_Delete; Backend := "memory"
|}.

#[export, refine] Instance MemoryStoreLaws : SecretStoreLaws MemorySecretStore := {|
  view s m := mem_secrets (fst s) = m;
  owns _ _ := False
|}.
Proof.
  - intros k [t w] m <-. cbn. destruct (mem_secrets t !! k) eqn:Hk; cbn; auto.
  - intros k v [t w] m <-. done.
  - intros k [t w] m <-. done.
  - done.
  - done.
  - by intros k v [t w].
  - by intros k [t w].
  - done.
  - done.
  - done.
Defined.

(** ** FileSecretStore *)

Definition secretsFileName : string := "secrets.enc".
Definition fileVersion : byte := x01.
Definition saltSize : nat := 16.
Definition nonceSize : nat := 24.
(** [chacha20poly1305.Overhead]. *)
Definition Overhead : nat := 16.
Definition machineIDApp : string := "pocketmux-agent-v1".
Definition fallbackKeyFileName : string := "machine-id.key".
Definition fallbackKeySize : nat := 32.

Record FileSecretStore := mkFileStore {
  fs_dir : string;
  fs_secrets : Secrets;
  fs_loaded : bool
}.

Definition NewFileSecretStore (keysDir : string) : FileSecretStore :=
  mkFileStore keysDir ∅ false.

Definition filePath (f : FileSecretStore) : Path := Join f.(fs_dir) secretsFileName.

Section FileStore.
(** crypto/hmac with SHA-256, x/crypto's argon2id and XChaCha20-Poly1305, the
    JSON encoding of the map, [runtime.GOOS] and the output of ioreg. *)
Variable hmac_sha256 : list byte -> list byte -> list byte.
Variable argon2_IDKey : list byte -> list byte -> list byte.
Variable aead_Seal : list byte -> list byte -> list byte -> list byte.
Variable aead_Open : list byte -> list byte -> list byte -> option (list byte).
Variable json_Marshal : Secrets -> option (list byte).
Variable json_Unmarshal : list byte -> option Secrets.
Variable GOOS : string.
Variable ioreg : option string.

Definition hmacSHA256 (data : list byte) (key : string) : list byte :=
  hmac_sha256 (bytes_of key) data.

Definition deriveKey (machineID salt : list byte) : list byte := argon2_IDKey machineID salt.

(** [chacha20poly1305.NewX] checks the key length. *)
Definition NewX (key : list byte) : bool := bool_decide (length key = 32%nat).

Definition machineIDPaths : list Path :=
  [Join "/etc" "machine-id"; Join "/var/lib/dbus" "machine-id"].

Fixpoint readMachineIDFrom (paths : list Path) : M World (option (list byte)) :=
  match paths with
  | [] => mret None
  | p :: ps =>
      r ← ReadFile p;
      match r with
      | Err _ => readMachineIDFrom ps
      | Ok data =>
          let id := TrimSpace (string_of data) in
          if slen id >? 0 then mret (Some (bytes_of id)) else readMachineIDFrom ps
      end
  end.

Definition readLinuxMachineID : M World (option (list byte)) := readMachineIDFrom machineIDPaths.

Definition dquote : string := String "034"%char "".

(** The first line of ioreg's output that names the UUID and parses. *)
Fixpoint findUUID (lines : list string) : option (list byte) :=
  match lines with
  | [] => None
  | line :: rest =>
      if Contains line "IOPlatformUUID" then
        match SplitN line "="%char 2 with
        | [_; v] =>
            let uuid := Trim (TrimSpace v) dquote in
            if slen uuid >? 0 then Some (bytes_of uuid) else findUUID rest
        | _ => findUUID rest
        end
      else findUUID rest
  end.

Definition readMacOSMachineID : option (list byte) :=
  match ioreg with
  | None => None
  | Some out => findUUID (Split out "010"%char)
  end.

Definition readMachineID : M World (option (list byte)) :=
  if decide (GOOS = "darwin") then mret readMacOSMachineID else readLinuxMachineID.

Inductive MachineIDError :=
| CorruptFallbackKey (n : nat)
| ReadFallbackKey
| GenerateFallbackKey
| FallbackKeyDir
| WriteFallbackKey.

Definition fallbackMachineID (keysDir : string) : M World (result MachineIDError (list byte)) :=
  let keyPath := Join keysDir fallbackKeyFileName in
  r ← ReadFile keyPath;
  match r with
  | Ok data =>
      if decide (length data = fallbackKeySize) then ok (hmacSHA256 data machineIDApp)
      else fail (CorruptFallbackKey (length data))
  | Err FsNotExist =>
      k ← rand_Read fallbackKeySize;
      match k with
      | None => fail GenerateFallbackKey
      | Some key =>
          _ ←! wrap (fun _ => FallbackKeyDir) (MkdirAll keysDir);
          _ ←! wrap (fun _ => WriteFallbackKey) (WriteFile keyPath key mode0600);
          ok (hmacSHA256 key machineIDApp)
      end
  | Err _ => fail ReadFallbackKey
  end.

Definition getMachineID (keysDir : string) : M World (result MachineIDError (list byte)) :=
  id ← readMachineID;
  match id with
  | Some id =>
      if blen id >? 0 then ok (hmacSHA256 id machineIDApp) else fallbackMachineID keysDir
  | None => fallbackMachineID keysDir
  end.

(** ** The encrypted file *)

Definition encryptWith (machineID salt nonce : list byte) (plaintext : list byte) : list byte :=
  [fileVersion] ++ salt ++ nonce ++ aead_Seal (deriveKey machineID salt) nonce plaintext.

Definition encrypt (f : FileSecretStore) : M World (result EncryptError (list byte)) :=
  match json_Marshal f.(fs_secrets) with
  | None => fail MarshalSecrets
  | Some plaintext =>
      s ← rand_Read saltSize;
      match s with
      | None => fail GenerateSalt
      | Some salt =>
          machineID ←! wrap (fun _ => EncMachineID) (getMachineID f.(fs_dir));
          if NewX (deriveKey machineID salt) then
            n ← rand_Read nonceSize;
            match n with
            | None => fail GenerateNonce
            | Some nonce => ok (encryptWith machineID salt nonce plaintext)
            end
          else fail EncCipher
      end
  end.

(** The part of [decrypt] after the machine ID is known. *)
Definition decryptWith (machineID data : list byte) : result DecryptError Secrets :=
  let salt := take saltSize (drop 1 data) in
  let nonce := take nonceSize (drop (1 + saltSize) data) in
  let ciphertext := drop (1 + saltSize + nonceSize) data in
  if NewX (deriveKey machineID salt) then
    match aead_Open (deriveKey machineID salt) nonce ciphertext with
    | None => Err OpenFailed
    | Some plaintext => of_option ParseSecrets (json_Unmarshal plaintext)
    end
  else Err DecCipher.

Definition decrypt (f : FileSecretStore) (data : list byte)
    : M World (result DecryptError FileSecretStore) :=
  if decide (length data < 1 + saltSize + nonceSize + Overhead)%nat
  then fail (FileTooSmall (blen data)) else
  let version := default x00 (head data) in
  if decide (version <> fileVersion) then fail (UnsupportedVersion version) else
  machineID ←! wrap (fun _ => DecMachineID) (getMachineID f.(fs_dir));
  secrets ←! lift (decryptWith machineID data);
  ok (mkFileStore f.(fs_dir) secrets f.(fs_loaded)).

Definition ensureLoaded (f : FileSecretStore) : M World (result StoreFailure FileSecretStore) :=
  if f.(fs_loaded) then ok f else
  r ← ReadFile (filePath f);
  match r with
  | Err FsNotExist => ok (mkFileStore f.(fs_dir) ∅ true)
  | Err e => fail (ReadSecretsFile e)
  | Ok data =>
      f' ←! wrap DecryptSecrets (decrypt f data);
      ok (mkFileStore f'.(fs_dir) f'.(fs_secrets) true)
  end.

Definition flush (f : FileSecretStore) : M World (result StoreFailure unit) :=
  data ←! wrap EncryptSecrets (encrypt f);
  _ ←! wrap CreateKeysDir (MkdirAll (Dir (filePath f)));
  wrap WriteSecrets (writeAtomic ".secrets-" (filePath f) data).

(** The methods run [ensureLoaded] on the receiver and go on with the loaded
    store; an error leaves the receiver as it was. *)
Definition whenLoaded {A} (k : FileSecretStore -> M World (result SecretError A * FileSecretStore))
    : M (FileSecretStore * World) (result SecretError A) :=
  fun '(f, w) =>
    match ensureLoaded f w with
    | (Err e, w1) => (Err (StoreFailed e), (f, w1))
    | (Ok f1, w1) => let '(r, f2, w2) := k f1 w1 in (r, (f2, w2))
    end.

Definition File_Get (key : string) : M (FileSecretStore * World) (result SecretError (list byte)) :=
  whenLoaded (fun f w => (of_option ErrSecretNotFound (f.(fs_secrets) !! key), f, w)).

(** Change the map in memory, then write it out; a failed write does not undo
    the change. *)
Definition updateAndFlush (g : Secrets -> Secrets) (f : FileSecretStore)
    : M World (result SecretError unit * FileSecretStore) :=
  fun w =>
    let f' := mkFileStore f.(fs_dir) (g f.(fs_secrets)) f.(fs_loaded) in
    let '(r, w') := flush f' w in (map_err StoreFailed r, f', w').

Definition File_Set (key : string) (data : list byte)
    : M (FileSecretStore * World) (result SecretError unit) :=
  whenLoaded (updateAndFlush (<[key := data]>)).

Definition File_Delete (key : string) : M (FileSecretStore * World) (result SecretError unit) :=
  whenLoaded (updateAndFlush (delete key)).

#[local] Instance FileStore : SecretStore FileSecretStore := {|
  Get := File_Get; SetSecret := File_Set; DeleteSecret := File_Delete; Backend := "encrypted-file"
|}.

(** *** What the file store touches *)

Definition storeFile (dir : string) (p : Path) : Prop :=
  p = Join dir secretsFileName \/ p = Join dir fallbackKeyFileName.

(** The store's files and temporary files. *)
Definition storeOrTemp (dir : string) (p : Path) : Prop :=
  match p with
  | Join _ _ => storeFile dir p
  | Temp _ _ _ => True
  end.

Lemma storeOrTemp_fallback dir : storeOrTemp dir (Join dir fallbackKeyFileName).
Proof. by right. Qed.

Lemma storeOrTemp_secrets dir : storeOrTemp dir (Join dir secretsFileName).
Proof. by left. Qed.
#[local] Hint Resolve storeOrTemp_fallback storeOrTemp_secrets : pmux.

Lemma touches_getMachineID P dir :
  P (Join dir fallbackKeyFileName) -> touches P (getMachineID dir).
Proof.
  intros HP.
  assert (touches P readMachineID) as Hr.
  { unfold readMachineID. case_decide; [apply touches_ret|].
    unfold readLinuxMachineID. generalize machineIDPaths. intros l.
    induction l as [|p l IH]; simpl; [apply touches_ret|].
    apply touches_bind; [auto with pmux|]. intros [data|]; [|done].
    destruct (_ >? 0); [apply touches_ret|done]. }
  assert (touches P (fallbackMachineID dir)) as Hf.
  { apply touches_bind; [auto with pmux|]. intros [data|[]]; try apply touches_ret.
    - case_decide; apply touches_ret.
    - apply touches_bind; [auto with pmux|]. intros [key|]; [|apply touches_ret].
      apply touches_mbind_err; [auto with pmux|]. intros _.
      apply touches_mbind_err; [auto with pmux|]. intros _. apply touches_ret. }
  apply touches_bind; [done|]. intros [id|]; [|done]. destruct (_ >? 0); [apply touches_ret|done].
Qed.

Lemma touches_encrypt P f :
  P (Join f.(fs_dir) fallbackKeyFileName) -> touches P (encrypt f).
Proof.
  intros HP.
  unfold encrypt. destruct (json_Marshal _) as [plain|]; [|apply touches_ret].
  apply touches_bind; [auto with pmux|]. intros [salt|]; [|apply touches_ret].
  apply touches_mbind_err; [apply touches_wrap; by apply touches_getMachineID|]. intros mid.
  destruct (NewX _); [|apply touches_ret].
  apply touches_bind; [auto with pmux|]. intros [nonce|]; apply touches_ret.
Qed.

Lemma touches_decrypt P f data :
  P (Join f.(fs_dir) fallbackKeyFileName) -> touches P (decrypt f data).
Proof.
  intros HP.
  unfold decrypt. case_decide; [apply touches_ret|].
  cbv zeta. case_decide; [apply touches_ret|].
  apply touches_mbind_err; [apply touches_wrap; by apply touches_getMachineID|]. intros mid.
  apply touches_mbind_err; [apply touches_lift|]. intros ?. apply touches_ret.
Qed.

Lemma touches_ensureLoaded P f :
  P (Join f.(fs_dir) fallbackKeyFileName) -> touches P (ensureLoaded f).
Proof.
  intros HP.
  unfold ensureLoaded. destruct (fs_loaded f); [apply touches_ret|].
  apply touches_bind; [auto with pmux|]. intros [data|[]]; try apply touches_ret.
  apply touches_mbind_err; [apply touches_wrap; by apply touches_decrypt|]. intros ?. apply touches_ret.
Qed.

Lemma touches_flush f : touches (storeOrTemp f.(fs_dir)) (flush f).
Proof.
  apply touches_mbind_err; [apply touches_wrap, touches_encrypt, storeOrTemp_fallback|]. intros data.
  apply touches_mbind_err; [auto with pmux|]. intros _.
  apply touches_wrap, touches_writeAtomic; [apply storeOrTemp_secrets|done].
Qed.

(** *** The contract *)

(** What a reader finds: the loaded map; before loading, whatever the file
    decrypts to. *)
Definition fileView (s : FileSecretStore * World) (m : Secrets) : Prop :=
  let '(f, w) := s in
  if f.(fs_loaded) then f.(fs_secrets) = m else
  match w.(w_files) !! filePath f with
  | None => m = ∅
  | Some fl => forall mid m', decryptWith mid fl.(f_data) = Ok m' -> m' = m
  end.

Lemma ReadFile_spec p w :
  let '(r, w') := ReadFile p w in
  w'.(w_files) = w.(w_files) /\
  match r with
  | Ok data => exists fl, w.(w_files) !! p = Some fl /\ fl.(f_data) = data
  | Err FsNotExist => w.(w_files) !! p = None
  | Err _ => True
  end.
Proof.
  unfold ReadFile, faulty. rewrite mbind_run. unfold next_fault.
  destruct (w_faults w) as [|[|n] fs]; simpl;
    try (destruct (w_files w !! p) as [fl|] eqn:Hp; simpl; rewrite ?Hp; naive_solver).
Qed.

Lemma decrypt_Ok f data w f' w' :
  decrypt f data w = (Ok f', w') ->
  exists mid m, decryptWith mid data = Ok m /\ f' = mkFileStore f.(fs_dir) m f.(fs_loaded).
Proof.
  unfold decrypt. case_decide; [done|]. cbv zeta. case_decide; [done|].
  intros (mid & w1 & _ & (m & w2 & Hm & [= <- <-])%mbind_err_Ok)%mbind_err_Ok.
  exists mid, m. split; [|done]. unfold lift in Hm. congruence.
Qed.

Lemma ensureLoaded_view f w m :
  fileView (f, w) m ->
  let '(r, w') := ensureLoaded f w in
  match r with
  | Ok f1 => f1.(fs_dir) = f.(fs_dir) /\ f1.(fs_loaded) = true /\ f1.(fs_secrets) = m
  | Err _ => fileView (f, w') m
  end.
Proof.
  intros Hv. destruct (ensureLoaded f w) as [r w'] eqn:He.
  assert (w_files w' !! filePath f = w_files w !! filePath f) as Hsame.
  { pose proof (touches_ensureLoaded (eq (Join f.(fs_dir) fallbackKeyFileName)) f eq_refl w (filePath f)) as Ht.
    rewrite He in Ht. by apply Ht. }
  destruct r as [f1|e]; [|by unfold fileView in *; rewrite Hsame].
  unfold fileView in Hv. unfold ensureLoaded in He. destruct (fs_loaded f) eqn:Hl.
  { unfold ok in He. simplify_eq. auto. }
  rewrite mbind_run in He. pose proof (ReadFile_spec (filePath f) w) as Hr.
  destruct (ReadFile (filePath f) w) as [[data|[]] w1]; simpl in He; destruct Hr as [_ Hr]; try done.
  - destruct Hr as (fl & Hfl & <-). rewrite Hfl in Hv.
    apply mbind_err_Ok in He as (f2 & w2 & (mid & m' & Hd & ->)%wrap_Ok%decrypt_Ok & [= <- <-]).
    simpl. split_and!; [done..|]. by eapply Hv.
  - rewrite Hr in Hv. unfold ok in He. by simplify_eq.
Qed.

Lemma whenLoaded_view {A} (k : FileSecretStore -> M World (result SecretError A * FileSecretStore))
    (Q : result SecretError A -> FileSecretStore * World -> Prop) f w m :
  fileView (f, w) m ->
  (forall e w', fileView (f, w') m -> Q (Err (StoreFailed e)) (f, w')) ->
  (forall f1 w1, f1.(fs_dir) = f.(fs_dir) -> f1.(fs_loaded) = true -> f1.(fs_secrets) = m ->
    let '(r, f2, w2) := k f1 w1 in Q r (f2, w2)) ->
  let '(r, s') := whenLoaded k (f, w) in Q r s'.
Proof.
  intros Hv Herr Hk. unfold whenLoaded. pose proof (ensureLoaded_view f w m Hv) as He.
  destruct (ensureLoaded f w) as [[f1|e] w1]; [|auto].
  destruct He as (Hd & Hl & Hs). specialize (Hk f1 w1 Hd Hl Hs).
  by destruct (k f1 w1) as [[r f2] w2].
Qed.

Lemma updateAndFlush_view g f w m :
  f.(fs_loaded) = true -> f.(fs_secrets) = m ->
  let '(r, f2, w2) := updateAndFlush g f w in
  fileView (f2, w2) (g m) /\ f2.(fs_dir) = f.(fs_dir) /\ r <> Err ErrSecretNotFound.
Proof.
  intros Hl <-. unfold updateAndFlush. destruct (flush _ _) as [r w'].
  unfold fileView. simpl. rewrite Hl. split_and!; [done..|]. by destruct r.
Qed.

Lemma whenLoaded_frame {A} (k : FileSecretStore -> M World (result SecretError A * FileSecretStore)) f w :
  (forall f1 w1, f1.(fs_dir) = f.(fs_dir) ->
    (fst (k f1 w1)).2.(fs_dir) = f.(fs_dir) /\ agree (storeOrTemp f.(fs_dir)) w1 (snd (k f1 w1))) ->
  let s' := snd (whenLoaded k (f, w)) in
  (fst s').(fs_dir) = f.(fs_dir) /\ agree (storeOrTemp f.(fs_dir)) w (snd s').
Proof.
  intros Hk. cbv zeta. unfold whenLoaded.
  pose proof (touches_ensureLoaded _ f (storeOrTemp_fallback f.(fs_dir)) w) as Ht.
  destruct (ensureLoaded f w) as [[f1|e] w1] eqn:He; simpl in Ht; [|done].
  assert (f1.(fs_dir) = f.(fs_dir)) as Hd.
  { unfold ensureLoaded in He. destruct (fs_loaded f); [unfold ok in He; by simplify_eq|].
    rewrite mbind_run in He. destruct (ReadFile _ w) as [[data|[]] w0]; simpl in He; try done.
    - by apply mbind_err_Ok in He as (f2 & w2 & (mid & m' & Hm & ->)%wrap_Ok%decrypt_Ok & [= <- <-]).
    - unfold ok in He. by simplify_eq. }
  destruct (Hk f1 w1 Hd) as [Hd2 Ha2]. destruct (k f1 w1) as [[r f2] w2]. simpl in *.
  split; [done|]. by eapply agree_trans.
Qed.

Lemma updateAndFlush_frame g f1 w1 dir :
  f1.(fs_dir) = dir ->
  (fst (updateAndFlush g f1 w1)).2.(fs_dir) = dir /\
  agree (storeOrTemp dir) w1 (snd (updateAndFlush g f1 w1)).
Proof.
  intros <-. unfold updateAndFlush.
  pose proof (touches_flush (mkFileStore f1.(fs_dir) (g f1.(fs_secrets)) f1.(fs_loaded)) w1) as Ht.
  destruct (flush _ w1) as [r w']. done.
Qed.

Lemma File_Get_frame key f w :
  let s' := snd (File_Get key (f, w)) in
  (fst s').(fs_dir) = f.(fs_dir) /\ agree (storeOrTemp f.(fs_dir)) w (snd s').
Proof. apply whenLoaded_frame. intros f1 w1 Hd. split; [done|apply agree_refl]. Qed.

Lemma File_update_frame g f w :
  let s' := snd (whenLoaded (updateAndFlush g) (f, w)) in
  (fst s').(fs_dir) = f.(fs_dir) /\ agree (storeOrTemp f.(fs_dir)) w (snd s').
Proof. apply whenLoaded_frame. intros f1 w1 Hd. by apply updateAndFlush_frame. Qed.

Lemma storeOrTemp_Join dir d n : ~ storeFile dir (Join d n) -> ~ storeOrTemp dir (Join d n).
Proof. done. Qed.

#[local, refine] Instance FileStoreLaws : SecretStoreLaws FileSecretStore := {|
  view := fileView;
  owns f := storeFile f.(fs_dir)
|}.
Proof.
  - intros k [f w] m Hv. apply (whenLoaded_view _ (fun r s' => fileView s' m /\ _) _ _ _ Hv); [auto|].
    intros f1 w1 _ Hl <-. unfold fileView. rewrite Hl. split; [done|].
    by destruct (fs_secrets f1 !! k) eqn:Hk.
  - intros k v [f w] m Hv. cbn. unfold File_Set.
    apply (whenLoaded_view _ (fun r s' => match r with Ok _ => fileView s' (<[k := v]> m)
      | Err ErrSecretNotFound => False | Err _ => fileView s' m \/ fileView s' (<[k := v]> m) end) _ _ _ Hv); [auto|].
    intros f1 w1 _ Hl Hs. pose proof (updateAndFlush_view (<[k := v]>) f1 w1 m Hl Hs) as Hu.
    destruct (updateAndFlush _ f1 w1) as [[[[]|[]] f2] w2]; naive_solver.
  - intros k [f w] m Hv. cbn. unfold File_Delete.
    apply (whenLoaded_view _ (fun r s' => match r with Ok _ => fileView s' (delete k m)
      | Err ErrSecretNotFound => False | Err _ => fileView s' m \/ fileView s' (delete k m) end) _ _ _ Hv); [auto|].
    intros f1 w1 _ Hl Hs. pose proof (updateAndFlush_view (delete k) f1 w1 m Hl Hs) as Hu.
    destruct (updateAndFlush _ f1 w1) as [[[[]|[]] f2] w2]; naive_solver.
  - intros f w w' m Ho Hv. unfold fileView in *. destruct (fs_loaded f); [done|].
    rewrite Ho; [done|]. by left.
  - intros k [f w] d n Ho. by apply (File_Get_frame k f w).
  - intros k v [f w] d n Ho. by apply (File_update_frame (<[k := v]>) f w).
  - intros k [f w] d n Ho. by apply (File_update_frame (delete k) f w).
  - intros k [f w] p. cbn -[File_Get]. by rewrite (proj1 (File_Get_frame k f w)).
  - intros k v [f w] p. cbn -[File_Set]. unfold File_Set. by rewrite (proj1 (File_update_frame (<[k := v]>) f w)).
  - intros k [f w] p. cbn -[File_Delete]. unfold File_Delete. by rewrite (proj1 (File_update_frame (delete k) f w)).
Defined.

(** *** Reading the file back *)

(** The machine ID as a function of the files, when nothing fails. *)
Definition platformID (w : World) : option (list byte) := fst (readMachineID w).

Definition idFiles (dir : string) : list Path :=
  Join dir fallbackKeyFileName :: machineIDPaths.

Lemma readMachineID_nofault w : nofault w -> readMachineID w = (platformID w, w).
Proof.
  intros Hw. unfold platformID, readMachineID. case_decide; [done|].
  unfold readLinuxMachineID. generalize machineIDPaths. intros l.
  induction l as [|p l IH]; [done|]. cbn [readMachineIDFrom].
  rewrite !mbind_run, !ReadFile_nofault by done. cbn [fst snd].
  destruct (f_data <$> w_files w !! p); cbn [of_option]; [|done]. cbv zeta. by destruct (_ >? 0).
Qed.

Lemma platformID_files w w' : nofault w -> nofault w' ->
  (forall p, p ∈ machineIDPaths -> w'.(w_files) !! p = w.(w_files) !! p) ->
  platformID w' = platformID w.
Proof.
  intros Hw Hw'. unfold platformID, readMachineID. case_decide; [done|].
  unfold readLinuxMachineID. generalize machineIDPaths. intros l Hp.
  induction l as [|p l IH]; [done|]. cbn [readMachineIDFrom].
  rewrite !mbind_run, !ReadFile_nofault by done. cbn [fst snd].
  rewrite Hp by apply list_elem_of_here.
  assert (forall q, q ∈ l -> w_files w' !! q = w_files w !! q) as Hp'.
  { intros q Hq. apply Hp. by apply list_elem_of_further. }
  destruct (f_data <$> w_files w !! p); cbn [of_option]; [|by apply IH].
  cbv zeta. destruct (_ >? 0); [done|by apply IH].
Qed.

(** Once the fallback key has been used, using it again, in any world that
    kept its file, gives the same bytes. *)
Lemma fallbackMachineID_stable dir w mid w1 :
  nofault w -> fallbackMachineID dir w = (Ok mid, w1) ->
  nofault w1 /\
  (forall q, q <> Join dir fallbackKeyFileName -> w_files w1 !! q = w_files w !! q) /\
  forall w2, nofault w2 ->
    w_files w2 !! Join dir fallbackKeyFileName = w_files w1 !! Join dir fallbackKeyFileName ->
    fallbackMachineID dir w2 = (Ok mid, w2).
Proof.
  intros Hw. unfold fallbackMachineID. rewrite mbind_run, ReadFile_nofault by done. cbn [fst snd].
  destruct (w_files w !! Join dir fallbackKeyFileName) as [fl|] eqn:Hf;
    cbn [fmap option_fmap option_map of_option].
  - case_decide as Hlen'; [|done]. unfold ok. intros [= <- <-]. split_and!; [done..|].
    intros w2 Hw2 Hf2. rewrite mbind_run, ReadFile_nofault by done. cbn [fst snd].
    rewrite Hf2, Hf. cbn. by rewrite decide_True.
  - rewrite mbind_run. unfold rand_Read. case_decide as Hn; cbn [fst snd]; [|done].
    set (key := take _ _). set (w' := set_entropy _ _).
    intros ([] & wa & Ha%wrap_Ok & ([] & wb & Hb%wrap_Ok & Hok)%mbind_err_Ok)%mbind_err_Ok.
    unfold ok in Hok. simplify_eq.
    unfold MkdirAll in Ha. rewrite faulty_nofault in Ha by done. simplify_eq.
    rewrite WriteFile_nofault in Hb by done. case_decide; [|done]. simplify_eq.
    assert (length key = fallbackKeySize) as Hkey by (unfold key; rewrite length_take; lia).
    split_and!; [done| |].
    + intros q Hq. simpl. by rewrite lookup_insert_ne.
    + intros w2 Hw2 Hf2. rewrite mbind_run, ReadFile_nofault by done. cbn [fst snd].
      rewrite Hf2. simpl. rewrite lookup_insert_eq. cbn. by rewrite decide_True.
Qed.

Lemma fallback_not_platform dir p : p ∈ machineIDPaths -> p <> Join dir fallbackKeyFileName.
Proof.
  unfold machineIDPaths. intros Hin ->.
  repeat (apply elem_of_cons in Hin as [Hin|Hin]; [by inversion Hin|]). by apply elem_of_nil in Hin.
Qed.

(** Once the machine ID has been produced, producing it again, in any world
    that kept the three files it may come from, gives the same bytes. *)
Lemma getMachineID_stable dir w mid w1 :
  nofault w -> getMachineID dir w = (Ok mid, w1) ->
  nofault w1 /\
  forall w2, nofault w2 ->
    (forall p, p ∈ idFiles dir -> w2.(w_files) !! p = w1.(w_files) !! p) ->
    getMachineID dir w2 = (Ok mid, w2).
Proof.
  intros Hw H. unfold getMachineID in *. rewrite mbind_run, readMachineID_nofault in H by done.
  cbn [fst snd] in H.
  assert (forall w2, nofault w2 -> (forall p, p ∈ machineIDPaths -> w_files w2 !! p = w_files w !! p) ->
    readMachineID w2 = (platformID w, w2)) as Hplat.
  { intros w2 Hw2 Hp. rewrite readMachineID_nofault by done. by rewrite (platformID_files w w2). }
  assert (forall w2, nofault w2 -> fallbackMachineID dir w = (Ok mid, w1) ->
    (forall p, p ∈ idFiles dir -> w2.(w_files) !! p = w1.(w_files) !! p) ->
    nofault w1 /\ readMachineID w2 = (platformID w, w2) /\ fallbackMachineID dir w2 = (Ok mid, w2)) as Hfb.
  { intros w2 Hw2 Hf Hp. destruct (fallbackMachineID_stable dir w mid w1 Hw Hf) as (Hw1 & Hsame & Hagain).
    split; [done|]. split; [|apply Hagain, Hp, list_elem_of_here; done].
    apply Hplat; [done|]. intros p Hin. rewrite Hp by by apply list_elem_of_further.
    by apply Hsame, fallback_not_platform. }
  destruct (platformID w) as [id|] eqn:Hid; [destruct (blen id >? 0) eqn:Hlen|].
  - unfold ok in H. simplify_eq. split; [done|]. intros w2 Hw2 Hp.
    rewrite mbind_run, Hplat; [cbn [fst snd]; by rewrite Hlen|done|].
    intros p Hin. apply Hp. by apply list_elem_of_further.
  - split; [by eapply fallbackMachineID_stable|]. intros w2 Hw2 Hp. destruct (Hfb w2 Hw2 H Hp) as (_ & Hr & Hf).
    rewrite mbind_run, Hr. cbn [fst snd]. by rewrite Hlen.
  - split; [by eapply fallbackMachineID_stable|]. intros w2 Hw2 Hp.
    destruct (Hfb w2 Hw2 H Hp) as (_ & Hr & Hf). by rewrite mbind_run, Hr.
Qed.

Lemma keeps_getMachineID dir : keeps_nofault (getMachineID dir).
Proof.
  intros w Hw. unfold getMachineID. rewrite mbind_run, readMachineID_nofault by done.
  cbn [fst snd].
  assert (nofault (snd (fallbackMachineID dir w))) as Hf.
  { unfold fallbackMachineID. rewrite mbind_run, ReadFile_nofault by done. cbn [fst snd].
    destruct (f_data <$> _); cbn [of_option]; [by case_decide|].
    rewrite mbind_run. unfold rand_Read. case_decide; cbn [fst snd]; [|done].
    apply keeps_mbind_err; [apply keeps_wrap, keeps_faulty; by intros ? ?|intros []|done].
    apply keeps_mbind_err; [|intros []; apply keeps_ret].
    apply keeps_wrap, keeps_mbind_err; [|intros []; apply keeps_write_handle].
    apply keeps_faulty. intros w2 Hw2. by case_decide. }
  destruct (platformID w) as [id|]; [by destruct (blen id >? 0)|done].
Qed.

Hypothesis aead_Open_Seal : forall key nonce p, aead_Open key nonce (aead_Seal key nonce p) = Some p.
Hypothesis aead_Seal_length : forall key nonce p, length (aead_Seal key nonce p) = (length p + Overhead)%nat.
Hypothesis json_roundtrip : forall m p, json_Marshal m = Some p -> json_Unmarshal p = Some m.

(** The file [encrypt] builds is one [decryptWith] opens. *)
Lemma decryptWith_encryptWith mid salt nonce m plain :
  length salt = saltSize -> length nonce = nonceSize ->
  NewX (deriveKey mid salt) = true -> json_Marshal m = Some plain ->
  let data := encryptWith mid salt nonce plain in
  decryptWith mid data = Ok m /\ (1 + saltSize + nonceSize + Overhead <= length data)%nat /\
  head data = Some fileVersion.
Proof using aead_Open_Seal aead_Seal_length json_roundtrip.
  intros Hs Hn Hk Hm. unfold encryptWith, decryptWith. cbv zeta.
  change (drop 1 ([fileVersion] ++ salt ++ nonce ++ ?c)) with (salt ++ nonce ++ c).
  cbn [app drop Nat.add]. change (S (length [] + ?x)) with (S x).
  rewrite <-Hs, take_app_length, drop_app_length.
  rewrite <-Hn, take_app_length, Hk, <-drop_drop, !drop_app_length, aead_Open_Seal, (json_roundtrip _ _ Hm).
  split; [done|]. split; [|done].
  rewrite length_cons, !length_app, aead_Seal_length. lia.
Qed.

Lemma encrypt_Ok f w data w' :
  nofault w -> encrypt f w = (Ok data, w') ->
  exists mid w1, nofault w' /\ decryptWith mid data = Ok f.(fs_secrets) /\
    (1 + saltSize + nonceSize + Overhead <= length data)%nat /\ head data = Some fileVersion /\
    nofault w1 /\ w_files w' = w_files w1 /\
    forall w2, nofault w2 -> (forall p, p ∈ idFiles f.(fs_dir) -> w_files w2 !! p = w_files w1 !! p) ->
      getMachineID f.(fs_dir) w2 = (Ok mid, w2).
Proof using aead_Open_Seal aead_Seal_length json_roundtrip.
  intros Hw. unfold encrypt. destruct (json_Marshal _) as [plain|] eqn:Hm; [|done].
  rewrite mbind_run. destruct (rand_Read saltSize w) as [[salt|] wa] eqn:Hsalt; cbn [fst snd]; [|done].
  apply rand_Read_Some in Hsalt as (Hsl & _ & Hwa). specialize (Hwa Hw).
  intros (mid & w1 & Hmid%wrap_Ok & H)%mbind_err_Ok.
  destruct (getMachineID_stable _ _ _ _ Hwa Hmid) as [Hw1 Hagain].
  destruct (NewX _) eqn:Hk; [|done].
  rewrite mbind_run in H. destruct (rand_Read nonceSize w1) as [[nonce|] w2] eqn:Hnonce; cbn [fst snd] in H; [|done].
  apply rand_Read_Some in Hnonce as (Hnl & Hf2 & Hw2). specialize (Hw2 Hw1).
  unfold ok in H. injection H as <- <-.
  exists mid, w1.
  destruct (decryptWith_encryptWith mid salt nonce f.(fs_secrets) plain) as (? & ? & ?); [done..|].
  by split_and!.
Qed.

Lemma keeps_ensureLoaded f : keeps_nofault (ensureLoaded f).
Proof.
  intros w Hw. unfold ensureLoaded. destruct (fs_loaded f); [done|].
  rewrite mbind_run, ReadFile_nofault by done. cbn [fst snd].
  destruct (f_data <$> w_files w !! filePath f) as [data|]; cbn [of_option]; [|done].
  apply keeps_mbind_err; [|intros ?; apply keeps_ret|done]. apply keeps_wrap.
  intros w1 Hw1. unfold decrypt. case_decide; [done|]. cbv zeta. case_decide; [done|].
  apply keeps_mbind_err; [|intros mid|done].
  - apply keeps_wrap, keeps_getMachineID.
  - apply keeps_mbind_err; [apply keeps_ret|intros ?; apply keeps_ret].
Qed.

Lemma flush_readable f w w' :
  nofault w -> flush f w = (Ok tt, w') ->
  forall k' w2, nofault w2 ->
    (forall p, p ∈ Join f.(fs_dir) secretsFileName :: idFiles f.(fs_dir) ->
      w_files w2 !! p = w_files w' !! p) ->
    File_Get k' (NewFileSecretStore f.(fs_dir), w2) =
      (of_option ErrSecretNotFound (f.(fs_secrets) !! k'),
       (mkFileStore f.(fs_dir) f.(fs_secrets) true, w2)).
Proof using aead_Open_Seal aead_Seal_length json_roundtrip.
  intros Hw. unfold flush.
  intros (data & w1 & Henc%wrap_Ok & ([] & wm & Hmk%wrap_Ok & Hat%wrap_Ok)%mbind_err_Ok)%mbind_err_Ok.
  destruct (encrypt_Ok _ _ _ _ Hw Henc) as (mid & w0 & Hw1 & Hdec & Hlen & Hhead & Hw0 & Hf01 & Hid).
  unfold MkdirAll in Hmk. rewrite faulty_nofault in Hmk by done. injection Hmk as <-.
  apply writeAtomic_Ok in Hat. intros k' w2 Hw2 Hfiles.
  assert (w_files w2 !! Join f.(fs_dir) secretsFileName = Some (mkFile data mode0600)) as Hfile.
  { rewrite Hfiles by apply list_elem_of_here. by rewrite Hat, lookup_insert_eq. }
  assert (getMachineID f.(fs_dir) w2 = (Ok mid, w2)) as Hmid.
  { apply Hid; [done|]. intros p Hp. rewrite Hfiles by by apply list_elem_of_further.
    rewrite Hat, lookup_insert_ne; [by rewrite <-Hf01|].
    intros <-. unfold idFiles, machineIDPaths in Hp.
    repeat (apply elem_of_cons in Hp as [Hp|Hp]; [by inversion Hp|]). by apply elem_of_nil in Hp. }
  unfold File_Get, whenLoaded, ensureLoaded. cbn [NewFileSecretStore fs_loaded fs_dir].
  rewrite mbind_run, ReadFile_nofault by done.
  change (filePath (NewFileSecretStore f.(fs_dir))) with (Join f.(fs_dir) secretsFileName).
  cbn [fst snd]. rewrite Hfile. cbn [fmap option_fmap option_map of_option f_data].
  unfold mbind_err at 1, wrap, decrypt. rewrite decide_False by lia. cbv zeta.
  rewrite Hhead. cbn [default from_option]. rewrite decide_False by auto. cbn [fs_dir].
  unfold mbind_err, wrap, lift. change (fs_dir (NewFileSecretStore ?d)) with d. rewrite Hmid. cbn [map_err]. by rewrite Hdec.
Qed.

End FileStore.

(** ** A concrete store: no platform machine ID, so the fallback key is made *)

Module StoreExample.
Definition hmac (k d : list byte) : list byte := d.
Definition argon (id salt : list byte) : list byte := id.
Definition seal (key nonce p : list byte) : list byte := p ++ replicate 16 x00.
Definition open (key nonce c : list byte) : option (list byte) := Some (take (length c - 16) c).
Definition secrets1 : Secrets := {[ "k" := [x01] ]}.
Definition marshal (m : Secrets) : option (list byte) :=
  if decide (m = secrets1) then Some [x07] else None.
Definition unmarshal (p : list byte) : option Secrets :=
  if decide (p = [x07]) then Some secrets1 else None.
Definition w0 : World := set_entropy (replicate 80 x2a) world0.
Definition saved :=
  File_Set hmac argon seal open marshal unmarshal "linux" None "k" [x01]
    (NewFileSecretStore "keys", w0).
End StoreExample.


(** ** KeyringSecretStore *)

(** How a call of the go-keyring library ends; the D-Bus backend may panic. *)
Inductive KrResult (A : Type) :=
| KrOk (a : A)
| KrNotFound
| KrError
| KrPanic.
Arguments KrOk {A}.
Arguments KrNotFound {A}.
Arguments KrError {A}.
Arguments KrPanic {A}.

Section Keyring.
(** The library's state and its calls (service, key, value), [runtime.GOOS]
    and [os.UserHomeDir]. *)
Context {K : Type}.
Variable keyring_Get : string -> string -> M K (KrResult string).
Variable keyring_Set : string -> string -> string -> M K (KrResult unit).
Variable keyring_Delete : string -> string -> M K (KrResult unit).
Variable GOOS : string.
Variable UserHomeDir : option string.

Definition Keyring_Get (key : string) : M (K * World) (result SecretError (list byte)) :=
  r ← on_fst (keyring_Get ServiceName key);
  match r with
  | KrPanic => fail (StoreFailed KeyringPanic)
  | KrNotFound => fail ErrSecretNotFound
  | KrError => fail (StoreFailed KeyringError)
  | KrOk encoded => lift (of_option (StoreFailed KeyringDecode) (b64_decode encoded))
  end.

Definition Keyring_Set (key : string) (data : list byte) : M (K * World) (result SecretError unit) :=
  r ← on_fst (keyring_Set ServiceName key (b64_encode data));
  match r with
  | KrOk _ => ok tt
  | KrPanic => fail (StoreFailed KeyringPanic)
  | _ => fail (StoreFailed KeyringError)
  end.

Definition Keyring_Delete (key : string) : M (K * World) (result SecretError unit) :=
  r ← on_fst (keyring_Delete ServiceName key);
  match r with
  | KrOk _ | KrNotFound => ok tt
  | KrError => fail (StoreFailed KeyringError)
  | KrPanic => fail (StoreFailed KeyringPanic)
  end.

(** [os.Stat] of a directory. *)
Definition StatDir (dir : string) : M World (result FsError unit) :=
  faulty (fun w => (if decide (dir ∈ w.(w_dirs)) then Ok tt else Err FsNotExist, w)).

Inductive ProbeError := ProbeHome | ProbeNoKeychainDir | ProbeFailed | ProbePanic.

Definition checkKeychainDir : M World (result ProbeError unit) :=
  match UserHomeDir with
  | None => fail ProbeHome
  | Some home => wrap (fun _ => ProbeNoKeychainDir) (StatDir (home +:+ "/Library/Keychains"))
  end.

Definition probeKey : string := "__probe__".

Definition ProbeKeyring : M (K * World) (result ProbeError unit) :=
  _ ←! (if decide (GOOS = "darwin") then on_snd checkKeychainDir else ok tt);
  r ← on_fst (keyring_Set ServiceName probeKey "test");
  match r with
  | KrOk _ =>
      d ← on_fst (keyring_Delete ServiceName probeKey);
      match d with
      | KrPanic => fail ProbePanic
      | _ => ok tt
      end
  | KrPanic => fail ProbePanic
  | _ => fail ProbeFailed
  end.

(** [NewSecretStore]: which backend it hands back. *)
Inductive StoreChoice := ChooseKeyring | ChooseFile (f : FileSecretStore).
Inductive NewStoreError := KeyringUnavailable (e : ProbeError) | UnknownBackend (pref : string).

Definition BackendAuto : string := "auto".
Definition BackendKeyring : string := "keyring".
Definition BackendFile : string := "file".

Definition NewSecretStore (keysDir backendPref : string)
    : M (K * World) (result NewStoreError StoreChoice) :=
  if decide (backendPref = BackendKeyring) then
    _ ←! wrap KeyringUnavailable ProbeKeyring;
    ok ChooseKeyring
  else if decide (backendPref = BackendFile) then
    ok (ChooseFile (NewFileSecretStore keysDir))
  else if decide (backendPref = BackendAuto \/ backendPref = "") then
    p ← ProbeKeyring;
    match p with
    | Ok _ => ok ChooseKeyring
    | Err _ => ok (ChooseFile (NewFileSecretStore keysDir))
    end
  else fail (UnknownBackend backendPref).

#[local] Instance KeyringStore : SecretStore K := {|
  Get := Keyring_Get; SetSecret := Keyring_Set; DeleteSecret := Keyring_Delete; Backend := "keyring"
|}.

(** The library's documented behaviour over the entries it keeps. *)
Variable entries : K -> gmap (string * string) string.
Hypothesis keyring_Get_law : forall s k t,
  let '(r, t') := keyring_Get s k t in
  entries t' = entries t /\
  match r with
  | KrOk v => entries t !! (s, k) = Some v
  | KrNotFound => entries t !! (s, k) = None
  | _ => True
  end.
Hypothesis keyring_Set_law : forall s k v t,
  let '(r, t') := keyring_Set s k v t in
  match r with
  | KrOk _ => entries t' = <[(s, k) := v]> (entries t)
  | _ => entries t' = entries t \/ entries t' = <[(s, k) := v]> (entries t)
  end.
Hypothesis keyring_Delete_law : forall s k t,
  let '(r, t') := keyring_Delete s k t in
  match r with
  | KrOk _ | KrNotFound => entries t' = delete (s, k) (entries t)
  | _ => entries t' = entries t \/ entries t' = delete (s, k) (entries t)
  end.

(** The secrets are the service's entries that decode. *)
Definition keyringView (s : K * World) (m : Secrets) : Prop :=
  forall k, m !! k = entries (fst s) !! (ServiceName, k) ≫= b64_decode.

Lemma keyringView_eq t t' (w w' : World) m :
  entries t' = entries t -> keyringView (t, w) m -> keyringView (t', w') m.
Proof. intros He Hv k. cbn. rewrite He. apply Hv. Qed.

Lemma keyringView_insert t t' (w w' : World) m k v :
  entries t' = <[(ServiceName, k) := b64_encode v]> (entries t) ->
  keyringView (t, w) m -> keyringView (t', w') (<[k := v]> m).
Proof.
  intros He Hv j. cbn. rewrite He. destruct (decide (j = k)) as [->|Hne].
  - rewrite !lookup_insert_eq. cbn. by rewrite b64_decode_encode.
  - rewrite !lookup_insert_ne by congruence. apply Hv.
Qed.

Lemma keyringView_delete t t' (w w' : World) m k :
  entries t' = delete (ServiceName, k) (entries t) ->
  keyringView (t, w) m -> keyringView (t', w') (delete k m).
Proof.
  intros He Hv j. cbn. rewrite He. destruct (decide (j = k)) as [->|Hne].
  - by rewrite !lookup_delete_eq.
  - rewrite !lookup_delete_ne by congruence. apply Hv.
Qed.

#[local, refine] Instance KeyringStoreLaws : SecretStoreLaws K := {|
  view := keyringView;
  owns _ _ := False
|}.
Proof using keyring_Get_law keyring_Set_law keyring_Delete_law.
  - intros k [t w] m Hv. cbn. unfold Keyring_Get. rewrite mbind_run. cbn.
    pose proof (keyring_Get_law ServiceName k t) as Hl.
    destruct (keyring_Get ServiceName k t) as [[v| | |] t']; destruct Hl as [He Hl]; cbn;
      (split; [by eapply keyringView_eq|]); try done.
    + destruct (b64_decode v) eqn:Hd; cbn; [|done]. rewrite Hv. cbn. by rewrite Hl.
    + rewrite Hv. cbn. by rewrite Hl.
  - intros k v [t w] m Hv. cbn. unfold Keyring_Set. rewrite mbind_run. cbn.
    pose proof (keyring_Set_law ServiceName k (b64_encode v) t) as Hl.
    destruct (keyring_Set _ _ _ t) as [[| | |] t']; cbn;
      [by eapply keyringView_insert|..];
      (destruct Hl; [left; by eapply keyringView_eq|right; by eapply keyringView_insert]).
  - intros k [t w] m Hv. cbn. unfold Keyring_Delete. rewrite mbind_run. cbn.
    pose proof (keyring_Delete_law ServiceName k t) as Hl.
    destruct (keyring_Delete _ _ t) as [[| | |] t']; cbn;
      [by eapply keyringView_delete|by eapply keyringView_delete|..];
      (destruct Hl; [left; by eapply keyringView_eq|right; by eapply keyringView_delete]).
  - intros t w w' m _ Hv. exact Hv.
  - intros k [t w] d n _. cbn. unfold Keyring_Get. rewrite mbind_run. cbn.
    destruct (keyring_Get _ _ t) as [[| | |] t']; done.
  - intros k v [t w] d n _. cbn. unfold Keyring_Set. rewrite mbind_run. cbn.
    destruct (keyring_Set _ _ _ t) as [[| | |] t']; done.
  - intros k [t w] d n _. cbn. unfold Keyring_Delete. rewrite mbind_run. cbn.
    destruct (keyring_Delete _ _ t) as [[| | |] t']; done.
  - done.
  - done.
  - done.
Defined.
End Keyring.
