(* ===== verification/Identity.v ===== *)
(** * internal/auth/identity.go: the host's Ed25519 identity

    The keypair and its device ID, the files and secrets that hold it, and the
    origin-bound challenge signature. The signature scheme, SHA-256, URL and
    IP parsing and IDNA are parameters. *)

From S2P Require Import Prelude GoLib World SecretStore.
From Stdlib Require Import Ascii.
Open Scope Z_scope.

Definition publicKeyFile : string := "ed25519.pub".
Definition keyFilePerms : Z := mode0600.

Record Identity := mkIdentity {
  id_PrivateKey : list byte;
  id_PublicKey : list byte;
  id_DeviceID : string
}.

(** ** Device IDs *)

Inductive DeviceIDError := BadLength (n : Z) | NonHex.

(** The pattern [^[0-9a-f]{32}$]. *)
Definition deviceIDPattern (id : string) : bool :=
  (slen id =? 32) && sforall is_lower_hex id.

Definition ValidateDeviceID (id : string) : result DeviceIDError unit :=
  if negb (slen id =? 32) then Err (BadLength (slen id))
  else if negb (deviceIDPattern id) then Err NonHex
  else Ok tt.

(** ** Canonical origins *)

(** What the source reads of a [url.URL]. *)
Record URL := mkURL {
  u_Scheme : string;
  u_HasUser : bool;
  u_Hostname : string;
  u_Port : string;
  u_Path : string
}.

(** What the source reads of a [netip.Addr]. *)
Record Addr := mkAddr {
  ad_Zone : string;
  ad_Is4In6 : bool;
  ad_As16 : list byte;
  ad_String : string
}.

Inductive OriginError :=
| ParseURL
| NoScheme
| HasUserinfo
| NoHost
| InvalidIPv6 (host : string)
| ConvertHost
| InvalidPort (port : string) (e : NumError).

(** [fmt.Sprintf("%x", n)] for a 16-bit value: no leading zeros. *)
Definition hex16 (n : Z) : string :=
  let s := String (hex_digit (n / 4096)) (String (hex_digit (n / 256 mod 16))
           (String (hex_digit (n / 16 mod 16)) (String (hex_digit (n mod 16)) ""))) in
  let t := TrimLeft s "0" in
  if decide (t = "") then "0" else t.

(** [uint16(b[i])<<8 | uint16(b[i+1])]. *)
Definition group16 (b : list byte) (i : nat) : Z :=
  Z.lor (Z.shiftl (byteZ (default x00 (b !! i))) 8) (byteZ (default x00 (b !! S i))).

Definition canonicalPort (scheme port : string) : result OriginError string :=
  if decide (port = "") then Ok "" else
  match ParseUint port 65535 with
  | (_, Some e) => Err (InvalidPort port e)
  | (n, None) =>
      if (bool_decide (scheme = "https") && (n =? 443)) || (bool_decide (scheme = "http") && (n =? 80))
      then Ok "" else Ok (FormatUint n)
  end.

(** ** Challenge signatures *)

Definition challengeMessagePrefix : string := "pocketmux-auth-v1".

Definition challengeMessage (origin deviceID nonce : string) : string :=
  challengeMessagePrefix +:+ "|" +:+ origin +:+ "|" +:+ deviceID +:+ "|" +:+ nonce.

Section Auth.
(** crypto/sha256, crypto/ed25519, net/url, net/netip and x/net/idna. *)
Variable sha256 : list byte -> list byte.
Variable ed25519_NewKey : list byte -> list byte * list byte.
Variable ed25519_Sign : list byte -> list byte -> list byte.
Variable url_Parse : string -> option URL.
Variable netip_ParseAddr : string -> option Addr.
Variable idna_ToASCII : string -> option string.

Definition deriveDeviceID (pub : list byte) : string := hex_encode (take 16 (sha256 pub)).

Definition canonicalHost (host : string) : result OriginError string :=
  if mem_char ":" host then
    match netip_ParseAddr host with
    | None => Err (InvalidIPv6 host)
    | Some addr =>
        if decide (ad_Zone addr <> "") then Err (InvalidIPv6 host)
        else if ad_Is4In6 addr then
          Ok ("[::ffff:" +:+ hex16 (group16 (ad_As16 addr) 12) +:+ ":"
                +:+ hex16 (group16 (ad_As16 addr) 14) +:+ "]")
        else Ok ("[" +:+ ad_String addr +:+ "]")
    end
  else if is_ascii host then Ok (lower_ascii host)
  else of_option ConvertHost (idna_ToASCII host).

Definition canonicalOrigin (serverURL : string) : result OriginError string :=
  u ← of_option ParseURL (url_Parse serverURL);
  if decide (u_Scheme u = "") then Err NoScheme
  else if u_HasUser u then Err HasUserinfo
  else if decide (u_Hostname u = "") then Err NoHost
  else
    host ← canonicalHost (u_Hostname u);
    let scheme := lower_ascii (u_Scheme u) in
    port ← canonicalPort scheme (u_Port u);
    if decide (port <> "") then Ok (scheme +:+ "://" +:+ host +:+ ":" +:+ port)
    else Ok (scheme +:+ "://" +:+ host).

Definition SignChallenge (id : Identity) (origin deviceID nonce : string) : string :=
  b64_encode (ed25519_Sign (id_PrivateKey id) (bytes_of (challengeMessage origin deviceID nonce))).

Definition Ed25519PublicKeyBase64 (id : Identity) : string := b64_encode (id_PublicKey id).

(** ** Files and secrets *)

Inductive IdentityError :=
| GenerateKeypair
| StorePrivateKey (e : SecretError)
| WritePublicKey (e : FsError)
| EnforcePerms (e : FsError)
| LoadPrivateKey (e : SecretError)
| ReadPublicKey (e : FsError)
| InvalidPrivateKeySize (n : Z)
| InvalidPublicKeySize (n : Z)
| RemoveKeyFile (name : string) (e : FsError)
| ErrNoIdentity
| ReadIdentity (e : SecretError).

Context {T : Type} `{SecretStore T}.

Definition GenerateIdentity (keysDir : string) : M (T * World) (result IdentityError Identity) :=
  seed ← on_snd (rand_Read 32);
  match seed with
  | None => fail GenerateKeypair
  | Some seed =>
      let '(pub, priv) := ed25519_NewKey seed in
      let id := mkIdentity priv pub (deriveDeviceID pub) in
      _ ←! wrap StorePrivateKey (SetSecret SecretKeyEd25519Private priv);
      _ ←! wrap WritePublicKey (on_snd (WriteFile (Join keysDir publicKeyFile) pub keyFilePerms));
      ok id
  end.

Definition enforceKeyFilePerms (path : Path) : M World (result FsError unit) :=
  perm ←! Stat path;
  if decide (perm <> keyFilePerms) then Chmod path keyFilePerms else ok tt.

Definition LoadIdentity (keysDir : string) : M (T * World) (result IdentityError Identity) :=
  let pubPath := Join keysDir publicKeyFile in
  _ ←! wrap EnforcePerms (on_snd (enforceKeyFilePerms pubPath));
  privBytes ←! wrap LoadPrivateKey (Get SecretKeyEd25519Private);
  pubBytes ←! wrap ReadPublicKey (on_snd (ReadFile pubPath));
  if negb (blen privBytes =? 64) then fail (InvalidPrivateKeySize (blen privBytes))
  else if negb (blen pubBytes =? 32) then fail (InvalidPublicKeySize (blen pubBytes))
  else ok (mkIdentity privBytes pubBytes (deriveDeviceID pubBytes)).

Fixpoint removeAll (keysDir : string) (names : list string) : M World (result IdentityError unit) :=
  match names with
  | [] => ok tt
  | name :: rest =>
      r ← Remove (Join keysDir name);
      match r with
      | Ok _ | Err FsNotExist => removeAll keysDir rest
      | Err e => fail (RemoveKeyFile name e)
      end
  end.

Definition keyFiles : list string := [publicKeyFile; secretsFileName; fallbackKeyFileName].

Definition RemoveKeyFiles (keysDir : string) : M World (result IdentityError unit) :=
  _ ←! removeAll keysDir keyFiles;
  _ ← ignore (RemoveDir keysDir);
  ok tt.

Definition CheckIdentity (keysDir : string) : M (T * World) (result IdentityError unit) :=
  st ← on_snd (Stat (Join keysDir publicKeyFile));
  match st with
  | Err _ => fail ErrNoIdentity
  | Ok _ =>
      g ← Get SecretKeyEd25519Private;
      match g with
      | Ok _ => ok tt
      | Err ErrSecretNotFound => fail ErrNoIdentity
      | Err e => fail (ReadIdentity e)
      end
  end.

Definition HasIdentity (keysDir : string) : M (T * World) bool :=
  r ← CheckIdentity keysDir;
  mret (is_ok r).
End Auth.

(** ** Lemmas *)

Lemma ValidateDeviceID_Ok id :
  ValidateDeviceID id = Ok tt <-> slen id = 32 /\ sforall is_lower_hex id = true.
Proof.
  unfold ValidateDeviceID, deviceIDPattern.
  destruct (slen id =? 32) eqn:Hl, (sforall is_lower_hex id); simpl; bool_to_prop; naive_solver.
Qed.

Lemma valid_no_char c id : ValidateDeviceID id = Ok tt -> is_lower_hex c = false -> mem_char c id = false.
Proof. intros [_ Hh]%ValidateDeviceID_Ok Hc. by eapply sforall_not_mem. Qed.

Lemma deriveDeviceID_Ok sha256 pub :
  length (sha256 pub) = 32%nat -> ValidateDeviceID (deriveDeviceID sha256 pub) = Ok tt.
Proof.
  intros Hlen. apply ValidateDeviceID_Ok. unfold deriveDeviceID.
  rewrite slen_hex_encode, hex_encode_lower. unfold blen. rewrite length_take, Hlen. done.
Qed.

(** ** Properties *)

(** A challenge signature is bound to one origin, one device and one
    nonce: two challenge messages are equal only if all three fields are,
    for origins without a "|" and the agent's own well-formed device IDs. *)
Theorem challengeMessage_binds origin origin' id id' nonce nonce' :
  mem_char "|" origin = false -> mem_char "|" origin' = false ->
  ValidateDeviceID id = Ok tt -> ValidateDeviceID id' = Ok tt ->
  challengeMessage origin id nonce = challengeMessage origin' id' nonce' ->
  origin = origin' /\ id = id' /\ nonce = nonce'.
Proof.
  unfold challengeMessage. intros Ho Ho' Hi Hi' H%append_inj_l. cbn in H. injection H as H.
  apply append_sep_inj in H as [-> H]; [|done..].
  apply append_sep_inj in H as [-> H]; [done|by apply valid_no_char..].
Qed.

Lemma challengeMessage_binds_witness :
  challengeMessage "https://signal.pmux.io" "0123456789abcdef0123456789abcdef" "n1" <>
  challengeMessage "https://evil.example" "0123456789abcdef0123456789abcdef" "n1".
Proof.
  intros H. apply challengeMessage_binds in H as [H _]; [discriminate H|reflexivity..].
Defined.

(** The port of a canonical origin is in normal form: empty, or the
    decimal digits of a 16-bit number that is not the scheme's default, so
    normalizing it again changes nothing, and two spellings of one port
    ("0443", "443") agree. *)
Theorem canonicalPort_normal scheme port :
  match canonicalPort scheme port with
  | Err _ => True
  | Ok p =>
      canonicalPort scheme p = Ok p /\
      (p = "" \/ exists n, 0 <= n <= 65535 /\ p = FormatUint n /\
        ~ (scheme = "https" /\ n = 443) /\ ~ (scheme = "http" /\ n = 80))
  end.
Proof.
  unfold canonicalPort at 1. case_decide as Hp; [by split; [|left]|].
  destruct (ParseUint port 65535) as [n [e|]] eqn:Hn; [done|].
  apply ParseUint_range in Hn; [|lia].
  destruct ((_ && _) || _) eqn:Hdef; [by split; [|left]|].
  assert (~ (scheme = "https" /\ n = 443) /\ ~ (scheme = "http" /\ n = 80)) as [H1 H2].
  { apply orb_false_iff in Hdef as [Ha Hb].
    split; intros [-> ->]; [by rewrite bool_decide_true in Ha|by rewrite bool_decide_true in Hb]. }
  split; [|right; by exists n].
  unfold canonicalPort. rewrite decide_False by (by apply digits_of_nonempty; left).
  rewrite ParseUint_FormatUint by lia. by rewrite Hdef.
Qed.

(** ** Storing and loading the identity *)

Section Roundtrip.
Context (sha256 : list byte -> list byte) (ed25519_NewKey : list byte -> list byte * list byte).
Context {T : Type} `{SecretStoreLaws T}.

Lemma on_snd_touches {A} P (m : M World A) (s : T * World) :
  touches P m -> agree P (snd s) (snd (snd (on_snd m s))) /\ fst (snd (on_snd m s)) = fst s.
Proof.
  intros Ht. destruct s as [t w]. specialize (Ht w). unfold on_snd. by destruct (m w).
Qed.

Lemma view_touches {A} (m : M World A) P s sec :
  touches P m -> (forall p, owns (fst s) p -> ~ P p) -> view s sec -> view (snd (on_snd m s)) sec.
Proof.
  intros Ht Hown Hv. destruct s as [t w]. unfold on_snd. specialize (Ht w).
  destruct (m w) as [a w']. simpl in *. eapply view_frame; [|done]. intros p Hp. by apply Ht, Hown.
Qed.

Lemma WriteFile_Ok p data perm w w' :
  WriteFile p data perm w = (Ok tt, w') -> exists perm', w_files w' !! p = Some (mkFile data perm').
Proof.
  unfold WriteFile. intros ([] & w1 & (w0 & _ & _ & H1)%faulty_Ok & H2)%mbind_err_Ok.
  revert H1. case_decide; [|done]. cbv zeta. intros [= <-].
  eexists. rewrite (write_handle_Ok _ _ _ _ _ H2 ltac:(apply lookup_insert_eq)). done.
Qed.

Lemma enforceKeyFilePerms_file p w f :
  w_files w !! p = Some f ->
  exists f', w_files (snd (enforceKeyFilePerms p w)) !! p = Some f' /\ f_data f' = f_data f.
Proof.
  intros Hf. unfold enforceKeyFilePerms, mbind_err.
  assert (w_files (snd (Stat p w)) !! p = Some f) as Hs.
  { rewrite <-Hf. apply (touches_Stat (fun _ => False) p w p). tauto. }
  destruct (Stat p w) as [[perm|e] w1]; [|by exists f]. simpl in Hs.
  case_decide; [|by exists f]. unfold Chmod, faulty. rewrite mbind_run.
  assert (w_files (snd (next_fault w1)) = w_files w1) as Hn by (unfold next_fault; by destruct (w_faults w1)).
  destruct (next_fault w1) as [[|n] w2]; cbn [fst snd] in *; [|exists f; simpl; by rewrite Hn].
  rewrite Hn, Hs. simpl. rewrite lookup_insert_eq. eauto.
Qed.

Lemma touches_enforce P p : P p -> touches P (enforceKeyFilePerms p).
Proof.
  intros Hp. apply touches_mbind_err; [auto with pmux|]. intros perm.
  case_decide; [by apply touches_Chmod|apply touches_ret].
Qed.

Lemma on_snd_run {S U A} (m : M U A) (s : S * U) :
  on_snd m s = (fst (m (snd s)), (fst s, snd (m (snd s)))).
Proof. destruct s as [t w]. unfold on_snd. simpl. by destruct (m w). Qed.

(** The state [GenerateIdentity] leaves: the public key on disk, the private
    key in the store. *)
Lemma GenerateIdentity_Ok keysDir s sec id s' :
  view s sec -> ~ owns (fst s) (Join keysDir publicKeyFile) ->
  GenerateIdentity sha256 ed25519_NewKey keysDir s = (Ok id, s') ->
  (exists sec', view s' sec' /\ sec' !! SecretKeyEd25519Private = Some (id_PrivateKey id)) /\
  (exists perm, w_files (snd s') !! Join keysDir publicKeyFile = Some (mkFile (id_PublicKey id) perm)) /\
  id_DeviceID id = deriveDeviceID sha256 (id_PublicKey id) /\
  ~ owns (fst s') (Join keysDir publicKeyFile).
Proof.
  intros Hv Hown. unfold GenerateIdentity. rewrite mbind_run.
  set (s1 := snd (on_snd (rand_Read 32) s)).
  assert (view s1 sec) as Hv1.
  { eapply (view_touches _ (fun _ => False)); [apply touches_rand_Read|tauto|done]. }
  assert (fst s1 = fst s) as Ho1.
  { by apply (on_snd_touches (fun _ => False) (rand_Read 32) s), touches_rand_Read. }
  destruct (fst (on_snd (rand_Read 32) s)) as [seed|]; [|done].
  destruct (ed25519_NewKey seed) as [pub priv].
  intros ([] & s2 & Hset%wrap_Ok & ([] & s3 & Hwr%wrap_Ok & [= <- <-])%mbind_err_Ok)%mbind_err_Ok.
  pose proof (Set_law SecretKeyEd25519Private priv s1 sec Hv1) as Hl. rewrite Hset in Hl.
  pose proof (Set_owns SecretKeyEd25519Private priv s1) as Ho2. rewrite Hset in Ho2. cbn [fst snd] in Ho2.
  assert (~ owns (fst s2) (Join keysDir publicKeyFile)) as Hown2 by (rewrite Ho2, Ho1; done).
  pose proof (view_touches (WriteFile (Join keysDir publicKeyFile) pub keyFilePerms)
    (eq (Join keysDir publicKeyFile)) s2 (<[SecretKeyEd25519Private:=priv]> sec)
    (touches_WriteFile _ _ _ _ eq_refl)) as Hv3.
  ospecialize (Hv3 _ Hl); [by intros p Hp <-|].
  rewrite on_snd_run in Hwr, Hv3. injection Hwr as Hwr <-. cbn [fst snd] in *.
  split_and!.
  - eexists. split; [exact Hv3|]. by apply lookup_insert_eq.
  - apply (WriteFile_Ok _ _ keyFilePerms (snd s2)).
    cbn [id_PublicKey]. rewrite <-Hwr. apply surjective_pairing.
  - done.
  - done.
Qed.

End Roundtrip.

(** ** A concrete identity, in the in-memory store *)

Module IdentityExample.
Definition sha (b : list byte) : list byte := take 32 b.
Definition newKey (seed : list byte) : list byte * list byte := (seed, (seed ++ seed)%list).
Definition s0 : MemorySecretStore * World :=
  (NewMemorySecretStore, set_dirs {["keys"]} (set_entropy (replicate 32 x2a) world0)).
Definition id0 : Identity :=
  mkIdentity (replicate 64 x2a) (replicate 32 x2a) "2a2a2a2a2a2a2a2a2a2a2a2a2a2a2a2a".
Definition s1 := snd (GenerateIdentity sha newKey "keys" s0).
End IdentityExample.


Example LoadIdentity_example :
  fst (LoadIdentity IdentityExample.sha "keys" IdentityExample.s1) = Ok IdentityExample.id0.
Proof. vm_compute. reflexivity. Qed.

(** A [Stat] the system refuses is reported as a missing identity, though the
    key is there. *)
Example CheckIdentity_stat_fault :
  fst (CheckIdentity "keys" (fst IdentityExample.s1, set_faults [Fails 0] (snd IdentityExample.s1))) =
  Err ErrNoIdentity.
Proof. vm_compute. reflexivity. Qed.
