(* ===== verification/Pairing.v ===== *)
(** * internal/auth/pairing.go: pairing secrets, MACs and the paired device

    The QR-only pairing secret, the bytes the pairing MAC and the key
    derivation bind, the QR payload and the manual code, and the record of the
    one paired device, its metadata in a JSON file and its shared secret in
    the [SecretStore]. HMAC, HKDF, X25519, [unicode.IsPrint] and JSON are
    parameters. *)

From S2P Require Import Prelude GoLib World SecretStore Identity.
From Stdlib Require Import Ascii.
Open Scope Z_scope.

(** ** Display names *)

Definition MaxMobileNameLen : nat := 64.

Definition TruncateMobileName (name : string) : string :=
  let rs := runes name in
  if (MaxMobileNameLen <? length rs)%nat then string_of_runes (take MaxMobileNameLen rs)
  else string_of_runes rs.

(** ** The pairing secret *)

Definition PairingSecretLen : nat := 16.
Definition pairingSecretAlphabet : string := "ABCDEFGHJKLMNPQRSTUVWXYZ23456789".
Definition pairMACLabel : string := "pocketmux-pair-mac-v2".
Definition pairingHKDFLabel : string := "pocketmux-pairing-v2".

(** [pairingSecretAlphabet[b&31]]. *)
Definition alphabetChar (b : byte) : ascii :=
  default "000"%char (String.get (Z.to_nat (Z.land (byteZ b) 31)) pairingSecretAlphabet).

Fixpoint secretOf (buf : list byte) : string :=
  match buf with
  | [] => ""
  | b :: buf' => String (alphabetChar b) (secretOf buf')
  end.

Inductive PairingError :=
| GenerateKeypairFailed
| GenerateSecretFailed
| HostKeyLength (n : Z)
| MobileKeyLength (n : Z)
| HostID (e : DeviceIDError)
| MobileID (e : DeviceIDError)
| EmptySecret
| NoPairMac
| DecodePairMac
| PairMacLength (n : Z)
| DecodeMobileKey
| MacMismatch
| DecodePeerKey
| ParsePeerKey
| Bind (e : PairingError)
| ECDHFailed
| HKDFFailed.

Definition GeneratePairingSecret : M World (result PairingError string) :=
  buf ← rand_Read PairingSecretLen;
  match buf with
  | None => fail GenerateSecretFailed
  | Some buf => ok (secretOf buf)
  end.

(** The loop of [FormatManualCode]: groups of four, each after a dash. *)
Fixpoint codeGroups (fuel : nat) (secret : string) : string :=
  match fuel, secret with
  | S fuel', String _ _ => "-" +:+ stake 4 secret +:+ codeGroups fuel' (sdrop 4 secret)
  | _, _ => ""
  end.

Definition FormatManualCode (pairingCode pairingSecret : string) : string :=
  pairingCode +:+ codeGroups (String.length pairingSecret) pairingSecret.

(** ** What a pairing binds *)

Definition pairBind (hostPub mobilePub : list byte) (hostDeviceID mobileDeviceID : string)
    : result PairingError (list byte) :=
  if negb (blen hostPub =? 32) then Err (HostKeyLength (blen hostPub)) else
  if negb (blen mobilePub =? 32) then Err (MobileKeyLength (blen mobilePub)) else
  _ ← map_err HostID (ValidateDeviceID hostDeviceID);
  _ ← map_err MobileID (ValidateDeviceID mobileDeviceID);
  Ok (hostPub ++ mobilePub ++ bytes_of hostDeviceID ++ bytes_of mobileDeviceID).

(** The bytes the pairing MAC is computed over. *)
Definition pairMACInput (mobilePub : list byte) (mobileDeviceID : string) : list byte :=
  bytes_of pairMACLabel ++ mobilePub ++ bytes_of mobileDeviceID.

Record X25519Keypair := mkKeypair { kp_PrivateKey : list byte; kp_PublicKey : list byte }.

Definition PublicKeyBase64 (kp : X25519Keypair) : string := b64_encode (kp_PublicKey kp).

Definition DefaultServerURL : string := "https://signal.pmux.io".

Definition BuildQRPayload (pairingCode x25519PubKeyBase64 hostDeviceID serverURL pairingSecret : string)
    : string :=
  let serverURL := if decide (serverURL = DefaultServerURL) then "" else serverURL in
  GoLib.Join [pairingCode; x25519PubKeyBase64; hostDeviceID; serverURL; pairingSecret] "|".

Section Pairing.
(** crypto/hmac over SHA-256, x/crypto/hkdf, crypto/ecdh on X25519 and
    [unicode.IsPrint]. *)
Variable hmac_sha256 : list byte -> list byte -> list byte.
Variable hkdf_read : list byte -> list byte -> list byte -> option (list byte).
Variable x25519_base : list byte -> list byte.
Variable x25519 : list byte -> list byte -> list byte.
Variable IsPrint : Z -> bool.

Definition SanitizeDisplayString (s : string) : string := filter_runes IsPrint s.

Definition GenerateX25519Keypair : M World (result PairingError X25519Keypair) :=
  priv ← rand_Read 32;
  match priv with
  | None => fail GenerateKeypairFailed
  | Some priv => ok (mkKeypair priv (x25519_base priv))
  end.

Definition VerifyPairMAC (pairingSecret mobilePubB64 mobileDeviceID pairMacB64 : string)
    : result PairingError unit :=
  if decide (pairingSecret = "") then Err EmptySecret else
  if decide (pairMacB64 = "") then Err NoPairMac else
  mac ← of_option DecodePairMac (b64_decode pairMacB64);
  if negb (blen mac =? 32) then Err (PairMacLength (blen mac)) else
  mobilePub ← of_option DecodeMobileKey (b64_decode mobilePubB64);
  if negb (blen mobilePub =? 32) then Err (MobileKeyLength (blen mobilePub)) else
  _ ← map_err MobileID (ValidateDeviceID mobileDeviceID);
  if bool_decide (hmac_sha256 (bytes_of pairingSecret) (pairMACInput mobilePub mobileDeviceID) = mac)
  then Ok tt else Err MacMismatch.

(** [curve.NewPublicKey] checks the length, [ECDH] rejects an all-zero
    result. *)
Definition NewPublicKey (b : list byte) : option (list byte) :=
  if blen b =? 32 then Some b else None.
Definition ECDH (priv pub : list byte) : option (list byte) :=
  let s := x25519 priv pub in
  if forallb (fun b => bool_decide (b = x00)) s then None else Some s.

Definition ComputeSharedSecret (kp : X25519Keypair)
    (peerPubKeyBase64 pairingSecret hostDeviceID mobileDeviceID : string)
    : result PairingError string :=
  if decide (pairingSecret = "") then Err EmptySecret else
  peerBytes ← of_option DecodePeerKey (b64_decode peerPubKeyBase64);
  peerPub ← of_option ParsePeerKey (NewPublicKey peerBytes);
  bind ← map_err Bind (pairBind (kp_PublicKey kp) peerBytes hostDeviceID mobileDeviceID);
  raw ← of_option ECDHFailed (ECDH (kp_PrivateKey kp) peerPub);
  derived ← of_option HKDFFailed
    (hkdf_read raw (bytes_of pairingSecret) (bytes_of pairingHKDFLabel ++ bind));
  Ok (b64_encode derived).
End Pairing.

(** ** The paired device *)

Record PairedDevice := mkDevice {
  pd_DeviceID : string;
  pd_Name : string;
  pd_SharedSecret : string;
  pd_PairedAt : Z;
  pd_LastSeen : Z
}.

#[export] Instance PairedDevice_eq_dec : EqDecision PairedDevice.
Proof. solve_decision. Defined.

(** The tag [json:"-"] on the shared secret. *)
Definition withoutSecret (d : PairedDevice) : PairedDevice :=
  mkDevice (pd_DeviceID d) (pd_Name d) "" (pd_PairedAt d) (pd_LastSeen d).
Definition withSecret (secret : string) (d : PairedDevice) : PairedDevice :=
  mkDevice (pd_DeviceID d) (pd_Name d) secret (pd_PairedAt d) (pd_LastSeen d).
Definition withName (name : string) (d : PairedDevice) : PairedDevice :=
  mkDevice (pd_DeviceID d) name (pd_SharedSecret d) (pd_PairedAt d) (pd_LastSeen d).

Inductive DevicesError :=
| ReadDevices (e : FsError)
| ParseDevices
| LoadSecret (deviceID : string) (e : SecretError)
| MarshalDevices
| SaveDevices (e : AtomicError)
| DeleteSecretFailed (deviceID : string) (e : SecretError)
| LoadDevice (e : DevicesError)
| SaveDevice (e : DevicesError)
| AddInvalidID (e : DeviceIDError)
| DecodeSharedSecret
| StoreSharedSecret (e : SecretError).

Section Devices.
(** encoding/json over the list of devices. *)
Variable json_Marshal : list PairedDevice -> option (list byte).
Variable json_Unmarshal : list byte -> option (list PairedDevice).

Context {T : Type} `{SecretStore T}.

Fixpoint loadSecrets (devices : list PairedDevice)
    : M (T * World) (result DevicesError (list PairedDevice)) :=
  match devices with
  | [] => ok []
  | d :: rest =>
      g ← Get (SharedSecretKey (pd_DeviceID d));
      match g with
      | Err ErrSecretNotFound => ds ←! loadSecrets rest; ok (d :: ds)
      | Err e => fail (LoadSecret (pd_DeviceID d) e)
      | Ok secretBytes => ds ←! loadSecrets rest; ok (withSecret (b64_encode secretBytes) d :: ds)
      end
  end.

Definition LoadPairedDevices (path : Path) : M (T * World) (result DevicesError (list PairedDevice)) :=
  r ← on_snd (ReadFile path);
  match r with
  | Err FsNotExist => ok []
  | Err e => fail (ReadDevices e)
  | Ok data =>
      match json_Unmarshal data with
      | None => fail ParseDevices
      | Some devices => loadSecrets devices
      end
  end.

Definition SavePairedDevices (path : Path) (devices : list PairedDevice)
    : M World (result DevicesError unit) :=
  match json_Marshal (map withoutSecret devices) with
  | None => fail MarshalDevices
  | Some data => wrap SaveDevices (writeAtomic ".paired-" path data)
  end.

Definition RemovePairedDevice (path : Path) (deviceID : string)
    : M (T * World) (result DevicesError unit) :=
  devices ←! LoadPairedDevices path;
  let filtered := base.filter (fun d => pd_DeviceID d <> deviceID) devices in
  _ ←! wrap (DeleteSecretFailed deviceID) (DeleteSecret (SharedSecretKey deviceID));
  on_snd (SavePairedDevices path filtered).

Definition LoadPairedDevice (path : Path) : M (T * World) (result DevicesError (option PairedDevice)) :=
  devices ←! LoadPairedDevices path;
  ok (head devices).

Definition UpdatePairedDeviceName (path : Path) (deviceID name : string)
    : M (T * World) (result DevicesError bool) :=
  device ←! wrap LoadDevice (LoadPairedDevice path);
  match device with
  | None => ok false
  | Some device =>
      if decide (pd_DeviceID device <> deviceID) then ok false
      else if decide (pd_Name device = name) then ok false
      else
        _ ←! wrap SaveDevice (on_snd (SavePairedDevices path [withName name device]));
        ok true
  end.

Definition AddPairedDevice (path : Path) (device : PairedDevice) : M (T * World) (result DevicesError unit) :=
  _ ←! lift (map_err AddInvalidID (ValidateDeviceID (pd_DeviceID device)));
  _ ←! (if decide (pd_SharedSecret device <> "") then
          match b64_decode (pd_SharedSecret device) with
          | None => fail DecodeSharedSecret
          | Some secretBytes =>
              wrap StoreSharedSecret (SetSecret (SharedSecretKey (pd_DeviceID device)) secretBytes)
          end
        else ok tt);
  on_snd (SavePairedDevices path [device]).
End Devices.

(** ** Lemmas *)

Lemma pairBind_Ok hp mp hid mid b :
  pairBind hp mp hid mid = Ok b <->
  length hp = 32%nat /\ length mp = 32%nat /\ ValidateDeviceID hid = Ok tt /\
  ValidateDeviceID mid = Ok tt /\ b = hp ++ mp ++ bytes_of hid ++ bytes_of mid.
Proof.
  unfold pairBind, blen.
  destruct (Z.of_nat (length hp) =? 32) eqn:H1, (Z.of_nat (length mp) =? 32) eqn:H2; cbn [negb]; bool_to_prop;
    try (split; [done|lia]).
  destruct (ValidateDeviceID hid) as [[]|], (ValidateDeviceID mid) as [[]|]; cbn; split; intros;
    destruct_and?; simplify_eq; try done. split_and!; (done || lia).
Qed.

Lemma length_valid id : ValidateDeviceID id = Ok tt -> length (bytes_of id) = 32%nat.
Proof. intros [Hl _]%ValidateDeviceID_Ok. rewrite length_bytes_of. unfold slen in Hl. lia. Qed.

Lemma app_inj_length {A} (a a' b b' : list A) :
  length a = length a' -> a ++ b = a' ++ b' -> a = a' /\ b = b'.
Proof. intros Hl H. by apply app_inj_1 in H. Qed.

Lemma pairMACInput_inj mp mp' mid mid' :
  length mp = length mp' -> pairMACInput mp mid = pairMACInput mp' mid' -> mp = mp' /\ mid = mid'.
Proof.
  intros Hl H. apply app_inv_head in H. apply app_inj_length in H as [-> H]; [|done].
  by apply bytes_of_inj in H as ->.
Qed.

(** ** Properties *)

(** The key derivation's BIND is unambiguous: two pairings whose
    [pairBind] succeeds with the same bytes have the same two public keys and
    the same two device IDs. *)
Theorem pairBind_injective hp mp hid mid hp' mp' hid' mid' b :
  pairBind hp mp hid mid = Ok b -> pairBind hp' mp' hid' mid' = Ok b ->
  hp = hp' /\ mp = mp' /\ hid = hid' /\ mid = mid'.
Proof.
  intros (H1 & H2 & H3 & H4 & ->)%pairBind_Ok (H1' & H2' & H3' & H4' & H)%pairBind_Ok.
  apply app_inj_length in H as [-> H]; [|congruence].
  apply app_inj_length in H as [-> H]; [|congruence].
  apply app_inj_length in H as [Hh Hm]; [|by rewrite !length_valid].
  by apply bytes_of_inj in Hh as ->; apply bytes_of_inj in Hm as ->.
Qed.

Lemma pairBind_injective_witness :
  replicate 32 x01 = replicate 32 x01 /\ replicate 32 x02 = replicate 32 x02 /\
  "0123456789abcdef0123456789abcdef" = "0123456789abcdef0123456789abcdef" /\
  "fedcba9876543210fedcba9876543210" = "fedcba9876543210fedcba9876543210".
Proof.
  apply (pairBind_injective (replicate 32 x01) (replicate 32 x02)
    "0123456789abcdef0123456789abcdef" "fedcba9876543210fedcba9876543210"
    (replicate 32 x01) (replicate 32 x02)
    "0123456789abcdef0123456789abcdef" "fedcba9876543210fedcba9876543210"
    (replicate 32 x01 ++ replicate 32 x02 ++ bytes_of "0123456789abcdef0123456789abcdef"
      ++ bytes_of "fedcba9876543210fedcba9876543210")); vm_compute; reflexivity.
Defined.

(** [VerifyPairMAC] accepts exactly when the secret is not empty and the
    MAC field decodes to the HMAC, under that secret, of the label, the
    mobile's 32-byte public key and its well-formed device ID: a missing MAC,
    a wrong length, an undecodable field and a malformed ID are all refused. *)
Theorem VerifyPairMAC_exact hmac secret pubB64 mid macB64 :
  (forall k d, length (hmac k d) = 32%nat) ->
  VerifyPairMAC hmac secret pubB64 mid macB64 = Ok tt <->
  secret <> "" /\
  exists pub, b64_decode pubB64 = Some pub /\ length pub = 32%nat /\
    ValidateDeviceID mid = Ok tt /\
    b64_decode macB64 = Some (hmac (bytes_of secret) (bytes_of pairMACLabel ++ pub ++ bytes_of mid)).
Proof.
  intros Hlen. unfold VerifyPairMAC.
  case_decide as Hs; [split; [done|by intros [? _]]|].
  case_decide as Hm.
  { subst. split; [done|]. intros (_ & pub & _ & _ & _ & Hd).
    apply (f_equal (fmap length)) in Hd. change (b64_decode "") with (Some (@nil byte)) in Hd.
    cbn [fmap option_fmap option_map] in Hd. by rewrite Hlen in Hd. }
  destruct (b64_decode macB64) as [mac|]; cbn; [|naive_solver].
  unfold blen. destruct (Z.of_nat (length mac) =? 32) eqn:Hl; cbn; bool_to_prop; cycle 1.
  { split; [done|]. intros (_ & pub & _ & _ & _ & [= ->]). rewrite Hlen in Hl. lia. }
  destruct (b64_decode pubB64) as [pub|]; cbn; [|naive_solver].
  destruct (Z.of_nat (length pub) =? 32) eqn:Hp; cbn; bool_to_prop; cycle 1.
  { split; [done|]. intros (_ & pub' & [= <-] & Hl' & _). lia. }
  destruct (ValidateDeviceID mid) as [[]|] eqn:Hv; cbn; [|naive_solver].
  case_bool_decide as Hmac.
  - split; [|done]. intros _. split; [done|]. exists pub. split_and!; [done|lia|done|]. by rewrite <-Hmac.
  - split; [done|]. intros (_ & pub' & [= <-] & _ & _ & [= ->]). done.
Qed.

Lemma VerifyPairMAC_exact_witness :
  VerifyPairMAC (fun _ _ => replicate 32 x05) "K" (b64_encode (replicate 32 x01))
    "0123456789abcdef0123456789abcdef" (b64_encode (replicate 32 x05)) = Ok tt.
Proof.
  apply (VerifyPairMAC_exact (fun _ _ => replicate 32 x05)); [reflexivity|].
  split; [discriminate|]. exists (replicate 32 x01).
  split; [vm_compute; reflexivity|]. split; [reflexivity|]. split; vm_compute; reflexivity.
Defined.

Definition all_bytes : list byte := map Zbyte (seqZ 0 256).

Lemma secretOf_length buf : String.length (secretOf buf) = length buf.
Proof. induction buf; cbn; congruence. Qed.

Lemma alphabetChar_mem b : mem_char (alphabetChar b) pairingSecretAlphabet = true.
Proof.
  assert (forallb (fun z => mem_char (alphabetChar (Zbyte z)) pairingSecretAlphabet) (seqZ 0 256) = true)
    as Hall by (vm_compute; reflexivity).
  rewrite forallb_forall in Hall. pose proof (byteZ_range b). rewrite <-(Zbyte_byteZ b).
  apply Hall, list_elem_of_In, elem_of_seqZ. lia.
Qed.

Lemma secretOf_alphabet buf : sforall (fun c => mem_char c pairingSecretAlphabet) (secretOf buf) = true.
Proof. induction buf as [|b buf IH]; cbn -[pairingSecretAlphabet]; [done|]. by rewrite alphabetChar_mem, IH. Qed.

(** A generated pairing secret has 16 characters of the 32-character
    alphabet and uses each random byte without bias: every character of the
    alphabet is produced by exactly 8 of the 256 byte values. The manual code
    shows it in four groups of four after the pairing code, and nothing of it
    is lost. *)
Theorem pairing_secret_sound code w :
  match GeneratePairingSecret w with
  | (Err _, w') => w' = w /\ (length w.(w_entropy) < PairingSecretLen)%nat
  | (Ok s, _) =>
      slen s = 16 /\
      sforall (fun c => mem_char c pairingSecretAlphabet) s = true /\
      (exists a b c d, slen a = 4 /\ slen b = 4 /\ slen c = 4 /\ slen d = 4 /\
        s = a +:+ b +:+ c +:+ d /\
        FormatManualCode code s = code +:+ "-" +:+ a +:+ "-" +:+ b +:+ "-" +:+ c +:+ "-" +:+ d)
  end /\
  (forall ch, mem_char ch pairingSecretAlphabet = true ->
    length (base.filter (fun b => alphabetChar b = ch) all_bytes) = 8%nat).
Proof.
  split.
  - unfold GeneratePairingSecret. rewrite mbind_run. unfold rand_Read.
    case_decide as Hn; cbn [fst snd]; [|unfold fail; split; [done|lia]]. unfold ok.
    assert (length (take PairingSecretLen (w_entropy w)) = 16%nat) as Hlen.
    { rewrite length_take. unfold PairingSecretLen in *. lia. }
    destruct (take PairingSecretLen (w_entropy w)) as
      [|b1 [|b2 [|b3 [|b4 [|b5 [|b6 [|b7 [|b8 [|b9 [|b10 [|b11 [|b12 [|b13 [|b14 [|b15 [|b16 [|? ?]]]]]]]]]]]]]]]]];
      cbn in Hlen; try lia.
    split_and!; [done|apply secretOf_alphabet|].
    exists (secretOf [b1; b2; b3; b4]), (secretOf [b5; b6; b7; b8]),
      (secretOf [b9; b10; b11; b12]), (secretOf [b13; b14; b15; b16]). done.
  - intros ch Hch.
    assert (forall cs, sforall (fun ch => bool_decide
        (length (base.filter (fun b => alphabetChar b = ch) all_bytes) = 8%nat)) cs = true ->
        mem_char ch cs = true -> length (base.filter (fun b => alphabetChar b = ch) all_bytes) = 8%nat) as Hall.
    { intros cs Hcs Hm. pose proof (sforall_mem _ _ _ Hcs Hm) as H. cbn beta in H.
      by apply bool_decide_eq_true in H. }
    apply (Hall pairingSecretAlphabet); [vm_compute; reflexivity|done].
Qed.

(** The QR payload has the same five fields whatever they hold, as long
    as none contains the delimiter: splitting it at "|" gives back the pairing
    code, the public key, the host ID, the server URL (empty for the
    production default) and the pairing secret. *)
Theorem BuildQRPayload_fields code pub host url secret :
  Forall (fun a => mem_char "|" a = false) [code; pub; host; url; secret] ->
  Split (BuildQRPayload code pub host url secret) "|" =
  [code; pub; host; if decide (url = DefaultServerURL) then "" else url; secret].
Proof.
  intros Hf. unfold BuildQRPayload. apply Split_Join; [done|].
  repeat (apply Forall_cons in Hf as [? Hf]). repeat (apply Forall_cons; split); try done.
  by case_decide.
Qed.

Lemma BuildQRPayload_fields_witness :
  Split (BuildQRPayload "ABC123" "cHVi" "0123" "http://localhost:8787" "K2K2") "|" =
  ["ABC123"; "cHVi"; "0123"; "http://localhost:8787"; "K2K2"].
Proof.
  apply (BuildQRPayload_fields "ABC123" "cHVi" "0123" "http://localhost:8787" "K2K2").
  repeat (apply Forall_cons; split); try reflexivity. apply Forall_nil_2.
Defined.

(** ** The paired device, against the store's contract *)

(** What is shown of foreign text are printable characters only. *)
Lemma SanitizeDisplayString_printable IsPrint s : Forall (fun r => IsPrint r = true) (runes (SanitizeDisplayString IsPrint s)).
Proof.
  unfold SanitizeDisplayString, filter_runes. rewrite runes_string_of_runes.
  - apply Forall_forall. by intros r [Hr _]%list_elem_of_filter.
  - apply Forall_forall. intros r [_ Hr]%list_elem_of_filter. revert r Hr. apply Forall_forall, runes_of_scalar.
Qed.

Section DeviceProperties.
Context (json_Marshal : list PairedDevice -> option (list byte)).
Context (json_Unmarshal : list byte -> option (list PairedDevice)).
Context {T : Type} `{SecretStoreLaws T}.
Context (dir name : string).

(** [path] is the pairing record; it is no file of the store. *)
Let path : Path := Join dir name.

Definition secretIn (m : gmap string (list byte)) (d : PairedDevice) : PairedDevice :=
  match m !! SharedSecretKey (pd_DeviceID d) with
  | Some v => withSecret (b64_encode v) d
  | None => d
  end.

Lemma secretIn_ID m d : pd_DeviceID (secretIn m d) = pd_DeviceID d.
Proof. unfold secretIn. by destruct (m !! _). Qed.

Lemma withoutSecret_secretIn m d : withoutSecret (secretIn m d) = withoutSecret d.
Proof. unfold secretIn. by destruct (m !! _). Qed.

Lemma loadSecrets_Ok devices s m ds s' :
  view s m -> ~ owns (fst s) path -> loadSecrets devices s = (Ok ds, s') ->
  view s' m /\ ~ owns (fst s') path /\ ds = map (secretIn m) devices.
Proof.
  revert s ds s'. induction devices as [|d rest IH]; intros s ds s' Hv Ho; cbn [loadSecrets map].
  { unfold ok. intros [= <- <-]. done. }
  rewrite mbind_run.
  pose proof (Get_law (SharedSecretKey (pd_DeviceID d)) s m Hv) as Hl.
  pose proof (Get_owns (SharedSecretKey (pd_DeviceID d)) s path) as Hown.
  destruct (Get _ s) as [r s1]. cbn [fst snd] in *. destruct Hl as [Hv1 Hl].
  assert (~ owns (fst s1) path) as Ho1 by by rewrite Hown.
  unfold secretIn at 1.
  destruct r as [v|[]]; [| |done]; rewrite Hl;
    intros (ds' & s2 & (Hv2 & Ho2 & ->)%IH & [= <- <-])%mbind_err_Ok; done.
Qed.

Lemma LoadPairedDevices_Ok s m ds s' :
  view s m -> ~ owns (fst s) path -> LoadPairedDevices json_Unmarshal path s = (Ok ds, s') ->
  view s' m /\ ~ owns (fst s') path /\
  ds = match w_files (snd s) !! path with
       | None => []
       | Some f => map (secretIn m) (default [] (json_Unmarshal (f_data f)))
       end.
Proof.
  clear json_Marshal. intros Hv Ho. unfold LoadPairedDevices. rewrite mbind_run.
  pose proof (view_touches (ReadFile path) (fun _ => False) s m (touches_ReadFile _ _)) as Hv1.
  ospecialize (Hv1 _ Hv); [tauto|]. rewrite on_snd_run in *. cbn [fst snd] in *.
  pose proof (ReadFile_spec path (snd s)) as Hr.
  destruct (ReadFile path (snd s)) as [[data|[]] w1]; cbn [fst snd] in *; destruct Hr as [_ Hr]; try done.
  - destruct Hr as (fl & -> & <-). destruct (json_Unmarshal (f_data fl)) as [devices|]; [|done].
    intros (Hv2 & Ho2 & ->)%(loadSecrets_Ok _ _ m); done.
  - rewrite Hr. unfold ok. intros [= <- <-]. done.
Qed.

Lemma SavePairedDevices_Ok devices (s s' : T * World) :
  on_snd (SavePairedDevices json_Marshal path devices) s = (Ok tt, s') ->
  exists data, json_Marshal (map withoutSecret devices) = Some data /\
    fst s' = fst s /\ w_files (snd s') = <[path := mkFile data mode0600]> (w_files (snd s)).
Proof.
  rewrite on_snd_run. unfold SavePairedDevices. destruct (json_Marshal _) as [data|]; [|done].
  intros [= Hw <-]. exists data. split_and!; [done..|]. cbn [snd].
  apply writeAtomic_Ok with (prefix := ".paired-").
  destruct (wrap SaveDevices (writeAtomic ".paired-" path data) (snd s)) as [r w'] eqn:Hr.
  cbn [fst] in Hw. subst r. by apply wrap_Ok in Hr.
Qed.

Lemma view_save (s s' : T * World) m data :
  view s m -> ~ owns (fst s) path -> fst s' = fst s ->
  w_files (snd s') = <[path := mkFile data mode0600]> (w_files (snd s)) -> view s' m.
Proof.
  intros Hv Ho Hf Hw. destruct s as [t w], s' as [t' w']. cbn in *. subst t'.
  apply (view_frame t w); [|done]. intros p Hp. rewrite Hw, lookup_insert_ne; [done|]. by intros <-.
Qed.

Lemma AddPairedDevice_Ok dev sec s m s' :
  view s m -> ~ owns (fst s) path -> pd_SharedSecret dev = b64_encode sec -> sec <> [] ->
  AddPairedDevice json_Marshal path dev s = (Ok tt, s') ->
  ValidateDeviceID (pd_DeviceID dev) = Ok tt /\
  view s' (<[SharedSecretKey (pd_DeviceID dev) := sec]> m) /\ ~ owns (fst s') path /\
  exists data, json_Marshal [withoutSecret dev] = Some data /\
    w_files (snd s') !! path = Some (mkFile data mode0600).
Proof.
  intros Hv Ho Hsec Hne. unfold AddPairedDevice. rewrite Hsec, b64_decode_encode.
  rewrite decide_True by (destruct sec as [|? [|? [|]]]; cbn; congruence).
  intros ([] & s1 & Hval & ([] & s2 & Hset%wrap_Ok & Hsave)%mbind_err_Ok)%mbind_err_Ok.
  unfold lift in Hval. injection Hval as Hval <-. apply map_err_Ok in Hval.
  pose proof (Set_law (SharedSecretKey (pd_DeviceID dev)) sec s m Hv) as Hl. rewrite Hset in Hl.
  pose proof (Set_owns (SharedSecretKey (pd_DeviceID dev)) sec s path) as Hown. rewrite Hset in Hown.
  cbn [fst snd] in Hown. assert (~ owns (fst s2) path) as Ho2 by by rewrite Hown.
  apply SavePairedDevices_Ok in Hsave as (data & Hj & Hfst & Hfiles).
  split_and!; [done|by eapply view_save|by rewrite Hfst|].
  exists data. split; [done|]. by rewrite Hfiles, lookup_insert_eq.
Qed.

(** What is paired is what is loaded. After [AddPairedDevice] succeeded,
    a [LoadPairedDevices] that succeeds returns exactly the one device, with
    its shared secret, whatever was paired before, whichever store the
    interface hides and whatever fails in between. *)
Theorem paired_device_roundtrip dev sec s m s' :
  (forall data, json_Marshal [withoutSecret dev] = Some data ->
    json_Unmarshal data = Some [withoutSecret dev]) ->
  view s m -> ~ owns (fst s) (Join dir name) -> pd_SharedSecret dev = b64_encode sec -> sec <> [] ->
  AddPairedDevice json_Marshal (Join dir name) dev s = (Ok tt, s') ->
  match fst (LoadPairedDevices json_Unmarshal (Join dir name) s') with
  | Ok ds => ds = [dev]
  | Err _ => True
  end.
Proof.
  intros Hj Hv Ho Hsec Hne Hadd.
  destruct (AddPairedDevice_Ok _ _ _ _ _ Hv Ho Hsec Hne Hadd) as (_ & Hv' & Ho' & data & Hd & Hfile).
  destruct (LoadPairedDevices json_Unmarshal (Join dir name) s') as [[ds|e] s2] eqn:Hl; [|done]. cbn.
  apply (LoadPairedDevices_Ok _ _ _ _ Hv' Ho') in Hl as (_ & _ & ->).
  rewrite Hfile. cbn [f_data]. rewrite (Hj _ Hd). cbn [default from_option id map].
  unfold secretIn. change (pd_DeviceID (withoutSecret dev)) with (pd_DeviceID dev).
  rewrite lookup_insert_eq. destruct dev; cbn in *. by subst.
Qed.

(** Unpairing forgets the device: when [RemovePairedDevice] succeeds, the
    store no longer holds the device's shared secret and the record on disk,
    written whole and readable by the owner only, lists no device with that
    ID and no other device was dropped. *)
Theorem RemovePairedDevice_forgets deviceID s m s' :
  view s m -> ~ owns (fst s) (Join dir name) ->
  RemovePairedDevice json_Marshal json_Unmarshal (Join dir name) deviceID s = (Ok tt, s') ->
  (exists m', view s' m' /\ m' !! SharedSecretKey deviceID = None) /\
  exists data before, w_files (snd s') !! Join dir name = Some (mkFile data mode0600) /\
    before = match w_files (snd s) !! Join dir name with
             | None => []
             | Some f => default [] (json_Unmarshal (f_data f))
             end /\
    json_Marshal (map withoutSecret (base.filter (fun d => pd_DeviceID d <> deviceID) before)) = Some data.
Proof.
  intros Hv Ho. unfold RemovePairedDevice.
  intros (ds & s1 & (Hv1 & Ho1 & Hds)%(LoadPairedDevices_Ok _ _ _ _ Hv Ho) &
    ([] & s2 & Hdel%wrap_Ok & Hsave)%mbind_err_Ok)%mbind_err_Ok.
  pose proof (Delete_law (SharedSecretKey deviceID) s1 m Hv1) as Hl. rewrite Hdel in Hl.
  pose proof (Delete_owns (SharedSecretKey deviceID) s1 (Join dir name)) as Hown. rewrite Hdel in Hown.
  cbn [fst snd] in Hown. assert (~ owns (fst s2) (Join dir name)) as Ho2 by by rewrite Hown.
  apply SavePairedDevices_Ok in Hsave as (data & Hj & Hfst & Hfiles).
  split.
  - exists (delete (SharedSecretKey deviceID) m). split; [by eapply view_save|]. apply lookup_delete_eq.
  - exists data. eexists. split; [by rewrite Hfiles, lookup_insert_eq|]. split; [reflexivity|].
    rewrite <-Hj. f_equal. subst ds. change path with (Join dir name).
    destruct (w_files (snd s) !! Join dir name) as [f|]; [|done].
    induction (default [] (json_Unmarshal (f_data f))) as [|d l IH]; [done|].
    cbn [map]. rewrite !filter_cons.
    rewrite secretIn_ID. case_decide; [|done]. cbn [map]. by rewrite IH, withoutSecret_secretIn.
Qed.
End DeviceProperties.

(** ** A concrete device *)

Module DeviceExample.
Definition dev : PairedDevice :=
  mkDevice "0123456789abcdef0123456789abcdef" "phone" (b64_encode [x01; x02]) 100 0.
Definition marshal (l : list PairedDevice) : option (list byte) :=
  if decide (l = [withoutSecret dev]) then Some [x07] else Some [].
Definition unmarshal (b : list byte) : option (list PairedDevice) :=
  if decide (b = [x07]) then Some [withoutSecret dev] else Some [].
Definition s0 : MemorySecretStore * World := (NewMemorySecretStore, set_dirs {["cfg"]} world0).
Definition s1 := snd (AddPairedDevice marshal (Join "cfg" "paired.json") dev s0).
End DeviceExample.

Lemma paired_device_roundtrip_witness :
  match fst (LoadPairedDevices DeviceExample.unmarshal (Join "cfg" "paired.json") DeviceExample.s1) with
  | Ok ds => ds = [DeviceExample.dev]
  | Err _ => True
  end.
Proof.
  apply (paired_device_roundtrip DeviceExample.marshal DeviceExample.unmarshal "cfg" "paired.json"
    DeviceExample.dev [x01; x02] DeviceExample.s0 ∅).
  - intros data. vm_compute. intros [= <-]. reflexivity.
  - reflexivity.
  - intros [].
  - reflexivity.
  - discriminate.
  - vm_compute. reflexivity.
Defined.

Lemma RemovePairedDevice_forgets_witness :
  let s2 := snd (RemovePairedDevice DeviceExample.marshal DeviceExample.unmarshal
    (Join "cfg" "paired.json") (pd_DeviceID DeviceExample.dev) DeviceExample.s1) in
  (exists m', view s2 m' /\ m' !! SharedSecretKey (pd_DeviceID DeviceExample.dev) = None) /\
  exists data before, w_files (snd s2) !! Join "cfg" "paired.json" = Some (mkFile data mode0600) /\
    before = match w_files (snd DeviceExample.s1) !! Join "cfg" "paired.json" with
             | None => []
             | Some f => default [] (DeviceExample.unmarshal (f_data f))
             end /\
    DeviceExample.marshal (map withoutSecret
      (base.filter (fun d => pd_DeviceID d <> pd_DeviceID DeviceExample.dev) before)) = Some data.
Proof.
  cbv zeta.
  apply (RemovePairedDevice_forgets DeviceExample.marshal DeviceExample.unmarshal "cfg" "paired.json"
    (pd_DeviceID DeviceExample.dev) DeviceExample.s1 {["shared-secret-0123456789abcdef0123456789abcdef" := [x01; x02]]}).
  - vm_compute. reflexivity.
  - intros [].
  - vm_compute. reflexivity.
Defined.

Example LoadPairedDevices_example :
  fst (LoadPairedDevices DeviceExample.unmarshal (Join "cfg" "paired.json") DeviceExample.s1) =
  Ok [DeviceExample.dev].
Proof. vm_compute. reflexivity. Qed.
