(* ===== verification/Token.v ===== *)
(** * internal/auth/hmac.go, errors.go, jwt.go, unpair.go: talking to the server

    HMAC-signed HTTP requests, the detection of a permanent HMAC rejection,
    and the challenge/token exchange that turns the host's identity into a
    JWT. JSON, HMAC, the signature scheme and URL parsing are parameters. *)

From S2P Require Import Prelude GoLib GoText World SecretStore Identity Pairing.
From Stdlib Require Import Ascii.
Open Scope Z_scope.

Definition hmacNonceSize : nat := 16.

Definition StatusOK : Z := 200.
Definition StatusUnauthorized : Z := 401.

(** The bytes the request signature covers. *)
Definition hmacMessage (timestamp nonce path : string) : string :=
  timestamp +:+ ":" +:+ nonce +:+ ":" +:+ path.

(** ** errors.go *)

Definition permanentHMACErrors (msg : string) : bool :=
  bool_decide (msg = "missing client signature") ||
  bool_decide (msg = "invalid client signature") ||
  bool_decide (msg = "invalid timestamp").

Definition IsHMACRejection (statusCode : Z) (errorMsg : string) : bool :=
  (statusCode =? StatusUnauthorized) && permanentHMACErrors errorMsg.

Record HMACRejectedError := mkRejected { hr_ServerURL : string; hr_ServerMsg : string }.

(** JSON values the requests are built of. *)
Inductive JSON :=
| JString (s : string)
| JBool (b : bool)
| JObject (fields : list (string * JSON)).

Inductive TokenError :=
| CanonicalOrigin (e : OriginError)
| MarshalRequest
| CreateRequest
| NoncePanic
| ConnError
| ReadResponse
| HMACRejected (e : HMACRejectedError)
| ServerError (status : Z) (msg : string) (hint : bool)
| ParseResponse
| EmptyNonce
| EmptyToken
| TokenExchange (e : TokenError)
| InvalidPairingCode.

(** The 64 KiB read limit on response bodies. *)
Definition limitBody (b : list byte) : list byte := take (N.to_nat (64 * 1024)) b.
Arguments limitBody : simpl never.

Section Client.
Variable hmac_sha256 : list byte -> list byte -> list byte.
Variable ed25519_Sign : list byte -> list byte -> list byte.
Variable url_Parse : string -> option URL.
Variable netip_ParseAddr : string -> option Addr.
Variable idna_ToASCII : string -> option string.
Variable IsPrint : Z -> bool.
(** [json.Marshal], and [json.Unmarshal] into a struct with one string
    field of that name (empty when absent). *)
Variable json_Marshal : JSON -> option (list byte).
Variable json_Field : string -> list byte -> option string.

Definition CheckHMACRejection (statusCode : Z) (body : list byte) (serverURL : string)
    : option HMACRejectedError :=
  if negb (statusCode =? StatusUnauthorized) then None else
  match json_Field "error" body with
  | None => None
  | Some err =>
      if decide (err = "") then None
      else if negb (permanentHMACErrors err) then None
      else Some (mkRejected serverURL err)
  end.

(** ** hmac.go *)

Definition computeHMAC (secret timestamp nonce path : string) : string :=
  hex_encode (hmac_sha256 (bytes_of secret) (bytes_of (hmacMessage timestamp nonce path))).

(** The panic on a failing random source is the error [NoncePanic]. *)
Definition generateNonce : M World (result TokenError string) :=
  b ← rand_Read hmacNonceSize;
  match b with
  | None => fail NoncePanic
  | Some b => ok (hex_encode b)
  end.

(** The three headers, over the path that was parsed from the URL. *)
Definition signatureHeaders (path secret : string) : M World (result TokenError (list (string * string))) :=
  t ← time_Now;
  let timestamp := Itoa t in
  nonce ←! generateNonce;
  ok [("pmux-timestamp", timestamp); ("pmux-nonce", nonce);
      ("pmux-signature", computeHMAC secret timestamp nonce path)].

Definition SignRequest (u : URL) (req : HttpRequest) (secret : string)
    : M World (result TokenError HttpRequest) :=
  if decide (secret = "") then ok req else
  hs ←! signatureHeaders (u_Path u) secret;
  ok (mkRequest (rq_Follow req) (rq_Method req) (rq_URL req) (rq_Headers req ++ hs) (rq_Body req)).

Definition SignWebSocketHeaders (wsURL secret : string)
    : M World (result TokenError (option (list (string * string)))) :=
  if decide (secret = "") then ok None else
  match url_Parse wsURL with
  | None => ok None
  | Some parsed => hs ←! signatureHeaders (u_Path parsed) secret; ok (Some hs)
  end.

(** ** Error messages *)

(** An error of the network stack, by what [errors.As] finds in its chain. *)
Inductive NetError :=
| DNSError (name : string)
| OpError (timeout : bool) (err : string)
| OtherError (text : string).

(** The message of a failed connection, for a terminal. *)
Definition connError (err : NetError) : string :=
  match err with
  | DNSError name => SanitizeDisplayString IsPrint ("cannot resolve server hostname " +:+ Quote IsPrint name)
  | OpError true _ => "server connection timed out"
  | OpError false e => SanitizeDisplayString IsPrint ("server unreachable (" +:+ e +:+ ")")
  | OtherError text => SanitizeDisplayString IsPrint text
  end.

Definition serverError (body : list byte) : string :=
  match json_Field "error" body with
  | Some err =>
      if decide (err = "") then
        let msg := TrimSpace (string_of body) in
        SanitizeDisplayString IsPrint (if slen msg >? 200 then stake 200 msg +:+ "..." else msg)
      else SanitizeDisplayString IsPrint err
  | None =>
      let msg := TrimSpace (string_of body) in
      SanitizeDisplayString IsPrint (if slen msg >? 200 then stake 200 msg +:+ "..." else msg)
  end.

Definition signatureFailedMsg : string := "Signature verification failed".

Definition isRedirect (status : Z) : bool := (status >=? 300) && (status <? 400).

(** The error of a refused signed request, and whether it names the signed
    origin. *)
Definition signedRequestError (statusCode : Z) (body : list byte) : TokenError :=
  let hint := ((statusCode =? StatusUnauthorized) &&
               bool_decide (default "" (json_Field "error" body) = signatureFailedMsg))
              || isRedirect statusCode in
  ServerError statusCode (serverError body) hint.

(** ** jwt.go *)

(** One signed POST of a JSON body: the reply's status and body. *)
Definition postJSON (follow : bool) (url : string) (body : JSON) (hmacSecret : string)
    : M World (result TokenError (Z * list byte)) :=
  match json_Marshal body with
  | None => fail MarshalRequest
  | Some data =>
      match url_Parse url with
      | None => fail CreateRequest
      | Some u =>
          req ←! SignRequest u (mkRequest follow "POST" url [("Content-Type", "application/json")] data) hmacSecret;
          resp ← http_Do req;
          match resp with
          | ConnectionError => fail ConnError
          | Reply status None => fail ReadResponse
          | Reply status (Some b) => ok (status, limitBody b)
          end
      end
  end.

(** The request goes through the redirect-free client of the callers. *)
Definition fetchChallenge (deviceID serverURL hmacSecret : string) : M World (result TokenError string) :=
  resp ←! postJSON false (TrimRight serverURL "/" +:+ "/auth/challenge")
    (JObject [("deviceId", JString deviceID)]) hmacSecret;
  let '(status, body) := resp in
  if negb (status =? StatusOK) then
    match CheckHMACRejection status body serverURL with
    | Some e => fail (HMACRejected e)
    | None => fail (ServerError status (serverError body) (isRedirect status))
    end
  else
    match json_Field "nonce" body with
    | None => fail ParseResponse
    | Some nonce => if decide (nonce = "") then fail EmptyNonce else ok nonce
    end.

Definition tokenRequest (id : Identity) (origin nonce : string) : JSON :=
  JObject [("deviceId", JString (id_DeviceID id)); ("nonce", JString nonce);
           ("signature", JString (SignChallenge ed25519_Sign id origin (id_DeviceID id) nonce))].

Definition ExchangeToken (id : Identity) (serverURL hmacSecret : string)
    : M World (result TokenError string) :=
  origin ←! lift (map_err CanonicalOrigin
    (canonicalOrigin url_Parse netip_ParseAddr idna_ToASCII serverURL));
  nonce ←! fetchChallenge (id_DeviceID id) serverURL hmacSecret;
  resp ←! postJSON false (TrimRight serverURL "/" +:+ "/auth/token") (tokenRequest id origin nonce) hmacSecret;
  let '(status, body) := resp in
  if negb (status =? StatusOK) then
    match CheckHMACRejection status body serverURL with
    | Some e => fail (HMACRejected e)
    | None => fail (signedRequestError status body)
    end
  else
    match json_Field "token" body with
    | None => fail ParseResponse
    | Some token => if decide (token = "") then fail EmptyToken else ok token
    end.

(** ** unpair.go *)

Definition deleteFromServer (id : Identity) (serverURL path hmacSecret : string)
    : M World (result TokenError unit) :=
  token ←! wrap TokenExchange (ExchangeToken id serverURL hmacSecret);
  let url := TrimRight serverURL "/" +:+ path in
  match url_Parse url with
  | None => fail CreateRequest
  | Some u =>
      req ←! SignRequest u (mkRequest true "DELETE" url [("Authorization", "Bearer " +:+ token)] []) hmacSecret;
      resp ← http_Do req;
      match resp with
      | ConnectionError => fail ConnError
      | Reply status body =>
          if negb (status =? StatusOK)
          then fail (ServerError status (serverError (limitBody (default [] body))) false)
          else ok tt
      end
  end.

Definition DeletePairing (id : Identity) (serverURL hmacSecret : string) :=
  deleteFromServer id serverURL "/auth/pairing" hmacSecret.
Definition DeleteDevice (id : Identity) (serverURL hmacSecret : string) :=
  deleteFromServer id serverURL "/auth/device" hmacSecret.

(** ** InitiatePairing (pair_session.go) *)

Record PairInitiateResponse := mkInitiate { pi_PairingCode : string; pi_PairConfirm : bool }.

Variable json_Initiate : list byte -> option PairInitiateResponse.

Definition initiateRequest (id : Identity) (x25519PubKey name origin nonce : string) : JSON :=
  JObject ([("deviceId", JString (id_DeviceID id));
            ("ed25519PublicKey", JString (Ed25519PublicKeyBase64 id));
            ("x25519PublicKey", JString x25519PubKey)] ++
           (if decide (name = "") then [] else [("name", JString name)]) ++
           [("nonce", JString nonce);
            ("signature", JString (SignChallenge ed25519_Sign id origin (id_DeviceID id) nonce));
            ("pairConfirm", JBool true)]).

Definition InitiatePairing (id : Identity) (x25519PubKeyBase64 serverURL name hmacSecret : string)
    : M World (result TokenError PairInitiateResponse) :=
  origin ←! lift (map_err CanonicalOrigin
    (canonicalOrigin url_Parse netip_ParseAddr idna_ToASCII serverURL));
  nonce ←! fetchChallenge (id_DeviceID id) serverURL hmacSecret;
  resp ←! postJSON false (TrimRight serverURL "/" +:+ "/auth/pair/initiate")
    (initiateRequest id x25519PubKeyBase64 name origin nonce) hmacSecret;
  let '(status, body) := resp in
  if negb (status =? StatusOK) then
    match CheckHMACRejection status body serverURL with
    | Some e => fail (HMACRejected e)
    | None => fail (signedRequestError status body)
    end
  else
    match json_Initiate body with
    | None => fail ParseResponse
    | Some result =>
        if negb (slen (pi_PairingCode result) =? 6)
           || negb (bool_decide (Trim (pi_PairingCode result) pairingSecretAlphabet = ""))
        then fail InvalidPairingCode else ok result
    end.
End Client.

(** ** Lemmas *)

Section ClientLemmas.
Context (hmac : list byte -> list byte -> list byte) (sign : list byte -> list byte -> list byte).
Context (url_Parse : string -> option URL) (ParseAddr : string -> option Addr).
Context (ToASCII : string -> option string) (IsPrint : Z -> bool).
Context (marshal : JSON -> option (list byte)) (field : string -> list byte -> option string).

(** Requests sent and replies consumed are all a step does to the network. *)
Definition same_net (w w' : World) : Prop :=
  w_sent w' = w_sent w /\ w_replies w' = w_replies w.

Lemma signatureHeaders_net path secret w :
  same_net w (snd (signatureHeaders hmac path secret w)).
Proof.
  unfold signatureHeaders. rewrite mbind_run. cbv zeta. unfold mbind_err, generateNonce.
  rewrite mbind_run. unfold time_Now, rand_Read.
  destruct (w_clock w); cbn [fst snd]; case_decide; done.
Qed.

Lemma SignRequest_net u req secret w :
  let '(r, w') := SignRequest hmac u req secret w in
  same_net w w' /\
  match r with
  | Ok req' => rq_Follow req' = rq_Follow req /\ rq_URL req' = rq_URL req /\
      rq_Body req' = rq_Body req /\ rq_Method req' = rq_Method req
  | Err _ => True
  end.
Proof.
  unfold SignRequest. case_decide; [done|]. unfold mbind_err.
  pose proof (signatureHeaders_net (u_Path u) secret w) as Hn.
  destruct (signatureHeaders _ _ _ w) as [[hs|e] w1]; done.
Qed.

(** A request of a signed POST. *)
Definition posted (url : string) (body : JSON) (rq : HttpRequest) : Prop :=
  rq_Follow rq = false /\ rq_Method rq = "POST" /\ rq_URL rq = url /\ marshal body = Some (rq_Body rq).

Lemma postJSON_net url body secret w :
  let '(r, w') := postJSON hmac url_Parse marshal false url body secret w in
  match r with
  | Ok (status, b) =>
      exists rq raw, posted url body rq /\ w_sent w' = w_sent w ++ [rq] /\
        w_replies w = Reply status (Some raw) :: w_replies w' /\ b = limitBody raw
  | Err _ => w_sent w' = w_sent w \/ exists rq, posted url body rq /\ w_sent w' = w_sent w ++ [rq]
  end.
Proof.
  unfold postJSON. destruct (marshal body) as [data|] eqn:Hm; [|by left].
  destruct (url_Parse url) as [u|]; [|by left].
  unfold mbind_err at 1. set (req0 := mkRequest _ _ _ _ _).
  pose proof (SignRequest_net u req0 secret w) as Hs.
  destruct (SignRequest hmac u req0 secret w) as [[req|e] w1]; destruct Hs as [[Hs1 Hs2] Hreq];
    [|by left].
  destruct Hreq as (Hf & Hu & Hb & Hmeth).
  assert (posted url body req) as Hp by (repeat split; [by rewrite Hf|by rewrite Hmeth|by rewrite Hu|by rewrite Hb]).
  rewrite mbind_run. unfold http_Do. rewrite Hs2.
  destruct (w_replies w) as [|[|status [raw|]] rs]; cbn [fst snd]; unfold fail, ok; cbn;
    rewrite Hs1; eauto. exists req, raw. done.
Qed.

Lemma fetchChallenge_net deviceID serverURL secret w :
  let '(r, w') := fetchChallenge hmac url_Parse IsPrint marshal field deviceID serverURL secret w in
  let url := TrimRight serverURL "/" +:+ "/auth/challenge" in
  let body := JObject [("deviceId", JString deviceID)] in
  match r with
  | Ok nonce =>
      exists rq raw, posted url body rq /\ w_sent w' = w_sent w ++ [rq] /\
        w_replies w = Reply 200 (Some raw) :: w_replies w' /\
        field "nonce" (limitBody raw) = Some nonce /\ nonce <> ""
  | Err _ => w_sent w' = w_sent w \/ exists rq, posted url body rq /\ w_sent w' = w_sent w ++ [rq]
  end.
Proof.
  unfold fetchChallenge, mbind_err.
  pose proof (postJSON_net (TrimRight serverURL "/" +:+ "/auth/challenge")
    (JObject [("deviceId", JString deviceID)]) secret w) as Hp.
  destruct (postJSON _ _ _ _ _ _ _ w) as [[[status body]|e] w1]; [|done].
  destruct Hp as (rq & raw & Hrq & Hsent & Hrep & ->).
  destruct (status =? StatusOK) eqn:Hst; cbn [negb]; bool_to_prop.
  - destruct (field "nonce" (limitBody raw)) as [nonce|] eqn:Hn; [|right; eauto].
    case_decide; [right; eauto|]. unfold ok. exists rq, raw. by subst status.
  - destruct (CheckHMACRejection _ _ _ _); right; eauto.
Qed.

(** *** Token exchange *)

(** C19: the challenge/token protocol as the server sees it. A token is
    returned only if exactly two POSTs were sent, neither following
    redirects: the challenge request for this device, answered 200 with a
    nonce, then the token request carrying that nonce and the signature over
    the canonical origin of the configured URL, answered 200 with the token.
    On an error the requests sent are a prefix of those two, and none is sent
    when the URL has no canonical origin: no signature is ever made for
    another origin or without the server's nonce. *)
Theorem ExchangeToken_protocol id serverURL secret w :
  let '(r, w') := ExchangeToken hmac sign url_Parse ParseAddr ToASCII IsPrint marshal field
                    id serverURL secret w in
  let base := TrimRight serverURL "/" in
  let challenge := posted (base +:+ "/auth/challenge") (JObject [("deviceId", JString (id_DeviceID id))]) in
  let exchange origin nonce := posted (base +:+ "/auth/token") (tokenRequest sign id origin nonce) in
  match canonicalOrigin url_Parse ParseAddr ToASCII serverURL with
  | Err _ => is_ok r = false /\ w_sent w' = w_sent w
  | Ok origin =>
      match r with
      | Ok token =>
          token <> "" /\
          exists rq1 rq2 raw1 raw2 nonce,
            challenge rq1 /\ exchange origin nonce rq2 /\ w_sent w' = w_sent w ++ [rq1; rq2] /\
            w_replies w = Reply 200 (Some raw1) :: Reply 200 (Some raw2) :: w_replies w' /\
            nonce <> "" /\ field "nonce" (limitBody raw1) = Some nonce /\
            field "token" (limitBody raw2) = Some token
      | Err _ =>
          w_sent w' = w_sent w \/
          exists rq1, challenge rq1 /\
            (w_sent w' = w_sent w ++ [rq1] \/
             exists rq2 raw1 nonce, exchange origin nonce rq2 /\ w_sent w' = w_sent w ++ [rq1; rq2] /\
               head (w_replies w) = Some (Reply 200 (Some raw1)) /\
               field "nonce" (limitBody raw1) = Some nonce)
      end
  end.
Proof.
  cbv zeta. unfold ExchangeToken, lift.
  destruct (canonicalOrigin _ _ _ serverURL) as [origin|e]; cbn [map_err mbind_err]; [|done].
  unfold mbind_err.
  pose proof (fetchChallenge_net (id_DeviceID id) serverURL secret w) as Hc. cbv zeta in Hc.
  destruct (fetchChallenge _ _ _ _ _ _ _ _ w) as [[nonce|e] w1]; [|naive_solver].
  destruct Hc as (rq1 & raw1 & Hrq1 & Hs1 & Hr1 & Hnonce & Hne).
  pose proof (postJSON_net (TrimRight serverURL "/" +:+ "/auth/token") (tokenRequest sign id origin nonce) secret w1) as Hp.
  destruct (postJSON _ _ _ _ _ _ _ w1) as [[[status body]|e] w2].
  - destruct Hp as (rq2 & raw2 & Hrq2 & Hs2 & Hr2 & ->).
    rewrite Hs1, <-app_assoc in Hs2. cbn [app] in Hs2. rewrite Hr2 in Hr1.
    assert (w_sent w2 = w_sent w \/ exists rq, posted (TrimRight serverURL "/" +:+ "/auth/challenge")
        (JObject [("deviceId", JString (id_DeviceID id))]) rq /\
        (w_sent w2 = w_sent w ++ [rq] \/
         exists rq2 raw1 nonce, posted (TrimRight serverURL "/" +:+ "/auth/token") (tokenRequest sign id origin nonce) rq2 /\
           w_sent w2 = w_sent w ++ [rq; rq2] /\
           head (w_replies w) = Some (Reply 200 (Some raw1)) /\ field "nonce" (limitBody raw1) = Some nonce)) as Herr.
    { right. exists rq1. split; [done|]. right. exists rq2, raw1, nonce. by rewrite Hr1. }
    destruct (status =? StatusOK) eqn:Hst; cbn [negb]; bool_to_prop.
    + destruct (field "token" (limitBody raw2)) as [token|] eqn:Ht; [|done].
      case_decide; [done|]. unfold ok. split; [done|]. subst status.
      exists rq1, rq2, raw1, raw2, nonce. by split_and!.
    + by destruct (CheckHMACRejection _ _ _ _).
  - right. exists rq1. split; [done|]. destruct Hp as [Hs2 | (rq2 & Hrq2 & Hs2)].
    + left. by rewrite Hs2, Hs1.
    + right. exists rq2, raw1, nonce. rewrite Hs2, Hs1, <-app_assoc, Hr1. done.
Qed.
End ClientLemmas.

(** ** What a terminal shows *)

(** The network's and the server's words reach a terminal without control
    characters: whatever host name, certificate text or reply body an error
    was made of, its message has printable characters only. *)
Theorem shown_errors_printable (IsPrint : Z -> bool) (json_Field : string -> list byte -> option string) err body :
  (forall r, 32 <= r < 127 -> IsPrint r = true) ->
  Forall (fun r => IsPrint r = true) (runes (connError IsPrint err)) /\
  Forall (fun r => IsPrint r = true) (runes (serverError IsPrint json_Field body)).
Proof.
  intros Hascii. split.
  - destruct err as [name|[] e|text]; try apply SanitizeDisplayString_printable.
    apply Forall_forall. intros r Hr. apply Hascii.
    assert (Forall (fun r => 32 <= r < 127) (runes "server connection timed out")) as Ht.
    { apply Forall_forall. intros r' Hr'. vm_compute in Hr'.
      repeat (apply elem_of_cons in Hr' as [->|Hr']; [lia|]). by apply elem_of_nil in Hr'. }
    by apply (proj1 (Forall_forall _ _) Ht).
  - unfold serverError. repeat case_match; apply SanitizeDisplayString_printable.
Qed.

(** ** Request signatures *)

(** A request signature is bound to its time, nonce and path: the signed
    strings of two requests are equal only if all three are, the timestamp
    being decimal digits and the nonce hexadecimal. *)
Theorem hmacMessage_binds t t' nonce nonce' path path' :
  0 <= t < 10 ^ 20 -> 0 <= t' < 10 ^ 20 ->
  hmacMessage (Itoa t) (hex_encode nonce) path = hmacMessage (Itoa t') (hex_encode nonce') path' ->
  t = t' /\ nonce = nonce' /\ path = path'.
Proof.
  unfold hmacMessage. intros Ht Ht' H.
  apply append_sep_inj in H as [Htime H]; [|apply Itoa_digits; [lia|done]..].
  apply append_sep_inj in H as [Hn ->];
    [|by eapply sforall_not_mem; [apply hex_encode_lower|]..].
  split; [|split; [|done]].
  - by apply Itoa_inj in Htime.
  - apply (f_equal hex_decode) in Hn. rewrite !hex_decode_encode in Hn. by injection Hn.
Qed.

Lemma hmacMessage_binds_witness :
  hmacMessage (Itoa 1700000000) (hex_encode [x01; xff]) "/auth/token" <>
  hmacMessage (Itoa 1700000001) (hex_encode [x01; xff]) "/auth/token".
Proof. intros H. apply hmacMessage_binds in H as [H _]; [discriminate H|lia|lia]. Defined.
