(* ===== verification/PairSession.v ===== *)
(** * internal/auth/pair_session.go: the host's side of a confirmed pairing

    A pairing WebSocket on which the host waits for the mobile's
    pair_complete and answers it once. The connection is a script of inbound
    frames and write outcomes, chosen by the environment, with a log of what
    was sent; the select between the reader and the context is the argument
    [ctx] of [WaitForPairComplete]. *)

From S2P Require Import Prelude GoLib World SecretStore Identity Pairing Token.
From Stdlib Require Import Ascii.
Open Scope Z_scope.

Record PairCompleteMessage := mkPairComplete {
  pm_Type : string;
  pm_MobileDeviceID : string;
  pm_MobileX25519PublicKey : string;
  pm_MobileName : string;
  pm_PairMac : string
}.

Record PairResultMessage := mkPairResult {
  pr_ResultType : string;
  pr_MobileDeviceID : string;
  pr_OK : bool;
  pr_Error : string
}.

(** ** The connection *)

Inductive Decision := PairAccept | PairReject.

#[export] Instance Decision_eq_dec : EqDecision Decision.
Proof. solve_decision. Defined.

(** What the session writes. *)
Inductive OutFrame :=
| AuthFrame (jwt : string)
| Presence
| DecisionFrame (d : Decision) (mobileDeviceID : string)
| CloseFrame.

(** One [ReadMessage]: a frame, or an error (which ends the connection). An
    exhausted script reads as an error. *)
Inductive Inbound := Frame (data : list byte) | ReadFailed.

Record Conn := mkConn {
  cn_in : list Inbound;         (** what the next reads return; an error when exhausted *)
  cn_writes : list bool;        (** whether the next writes succeed *)
  cn_out : list (OutFrame * bool);  (** what was written, and whether it was sent *)
  cn_open : bool
}.

Definition conn_write (f : OutFrame) (c : Conn) : bool * Conn :=
  let ok := default true (head (cn_writes c)) in
  (ok, mkConn (cn_in c) (tail (cn_writes c)) (cn_out c ++ [(f, ok)]) (cn_open c)).

Definition conn_close (c : Conn) : Conn := mkConn (cn_in c) (cn_writes c) (cn_out c) false.

(** ** The session *)

Record PairSession := mkSession {
  ss_conn : Conn;
  ss_confirm : bool;
  ss_received : option PairCompleteMessage;
  ss_waited : bool;
  ss_decided : bool
}.

Definition with_conn (c : Conn) (s : PairSession) : PairSession :=
  mkSession c (ss_confirm s) (ss_received s) (ss_waited s) (ss_decided s).
Definition with_received (r : option PairCompleteMessage) (s : PairSession) : PairSession :=
  mkSession (ss_conn s) (ss_confirm s) r (ss_waited s) (ss_decided s).
Definition set_waited (s : PairSession) : PairSession :=
  mkSession (ss_conn s) (ss_confirm s) (ss_received s) true (ss_decided s).
Definition set_decided (s : PairSession) : PairSession :=
  mkSession (ss_conn s) (ss_confirm s) (ss_received s) (ss_waited s) true.

Inductive SessionError :=
| SendAuth
| ReadAuthResponse
| AuthFailed (msg : string)
| AlreadyWaited
| ReadMessageFailed
| PairingTimedOut
| InvalidMobileID (e : DeviceIDError)
| NotConfirmed
| NoPairComplete
| MarshalDecision (d : Decision)
| SendDecision (d : Decision)
| NoPairResult
| ServerDidNotConfirm
| ServerRefused (msg : string).

Abbreviation Session A := (M PairSession (result SessionError A)).

(** The frames a loop left unread. *)
Definition with_in (ins : list Inbound) (s : PairSession) : PairSession :=
  with_conn (mkConn ins (cn_writes (ss_conn s)) (cn_out (ss_conn s)) (cn_open (ss_conn s))) s.

Definition write (f : OutFrame) : M PairSession bool := fun s =>
  let '(ok, c) := conn_write f (ss_conn s) in (ok, with_conn c s).

(** The WebSocket address of the server. *)
Definition pairWsURL (serverURL : string) : string :=
  let wsURL := TrimRight serverURL "/" +:+ "/ws" in
  let wsURL := Replace1 wsURL "https://" "wss://" in
  Replace1 wsURL "http://" "ws://".

Section PairSession.
(** encoding/json on the messages read, whether it encodes a decision, and
    [unicode.IsPrint]. *)
Variable json_TypeError : list byte -> option (string * string).
Variable json_PairComplete : list byte -> option PairCompleteMessage.
Variable json_PairResult : list byte -> option PairResultMessage.
Variable json_Decision : Decision -> string -> bool.
Variable IsPrint : Z -> bool.

(** A pair_complete that arrives before the auth reply: the first is kept. *)
Definition keepFirst (data : list byte) (received : option PairCompleteMessage)
    : option PairCompleteMessage :=
  match received with
  | None => json_PairComplete data
  | Some _ => received
  end.

(** The read loop of [authenticate], over the frames to come: the result, the
    pair_complete kept and the frames left. *)
Fixpoint readAuth (ins : list Inbound) (received : option PairCompleteMessage)
    : result SessionError unit * option PairCompleteMessage * list Inbound :=
  match ins with
  | [] => (Err ReadAuthResponse, received, [])
  | ReadFailed :: rest => (Err ReadAuthResponse, received, rest)
  | Frame data :: rest =>
      match json_TypeError data with
      | None => readAuth rest received
      | Some (typ, err) =>
          if decide (typ = "auth") then (Ok tt, received, rest)
          else if decide (typ = "error")
          then (Err (AuthFailed (SanitizeDisplayString IsPrint err)), received, rest)
          else if decide (typ = "pair_complete") then readAuth rest (keepFirst data received)
          else readAuth rest received
      end
  end.

Definition authRead : Session unit := fun s =>
  let '(r, received, rest) := readAuth (cn_in (ss_conn s)) (ss_received s) in
  (r, with_received received (with_in rest s)).

Definition authenticate (jwt : string) : Session unit :=
  sent ← write (AuthFrame jwt);
  if sent : bool then authRead else fail SendAuth.

(** [DialPairSession] once the dialer has returned a connection. *)
Definition DialPairSession (c : Conn) (jwt : string) (confirm : bool) : result SessionError PairSession * PairSession :=
  let s := mkSession c confirm None false false in
  match authenticate jwt s with
  | (Ok _, s') => (Ok s', s')
  | (Err e, s') => (Err e, with_conn (conn_close (ss_conn s')) s')
  end.

(** The reader goroutine: the first pair_complete, or nothing. *)
Fixpoint readUntilComplete (ins : list Inbound) : option PairCompleteMessage * list Inbound :=
  match ins with
  | [] => (None, [])
  | ReadFailed :: rest => (None, rest)
  | Frame data :: rest =>
      match json_PairComplete data with
      | Some msg =>
          if decide (pm_Type msg = "pair_complete") then (Some msg, rest) else readUntilComplete rest
      | None => readUntilComplete rest
      end
  end.

(** The keepalive goroutine, for [ticks] ticks of its ticker. *)
Fixpoint keepalive (ticks : nat) (c : Conn) : Conn :=
  match ticks with
  | O => c
  | S ticks' => let '(sent, c') := conn_write Presence c in if sent : bool then keepalive ticks' c' else c'
  end.

(** [ctx = None]: the reader's result is taken first. [ctx = Some k]: the
    context ends first; the read deadline then lets the reader see at most
    [k] more frames. *)
Definition readPairComplete (ctx : option nat) (ticks : nat) : Session unit := fun s =>
  let c := keepalive ticks (ss_conn s) in
  let '(msg, rest) :=
    match ctx with
    | None => readUntilComplete (cn_in c)
    | Some k => let '(m, _) := readUntilComplete (take k (cn_in c)) in (m, drop k (cn_in c))
    end in
  let s' := with_received msg (with_in rest (with_conn c s)) in
  match ctx, msg with
  | Some _, _ => (Err PairingTimedOut, s')
  | None, Some _ => (Ok tt, s')
  | None, None => (Err ReadMessageFailed, s')
  end.

(** The message is returned with every error that follows a pair_complete. *)
Definition WaitForPairComplete (ctx : option nat) (ticks : nat)
    : M PairSession (option PairCompleteMessage * option SessionError) := fun s =>
  if ss_waited s then ((None, Some AlreadyWaited), s) else
  let s := set_waited s in
  let '(r, s) := match ss_received s with
                 | None => readPairComplete ctx ticks s
                 | Some _ => (Ok tt, s)
                 end in
  match r, ss_received s with
  | Err e, m => ((m, Some e), s)
  | Ok _, None => ((None, Some NoPairComplete), s)
  | Ok _, Some m =>
      match ValidateDeviceID (pm_MobileDeviceID m) with
      | Err e => ((Some m, Some (InvalidMobileID e)), s)
      | Ok _ => ((Some m, None), s)
      end
  end.

Definition checkDecidable : Session PairCompleteMessage := fun s =>
  if negb (ss_confirm s) then (Err NotConfirmed, s)
  else match ss_received s with
       | None => (Err NoPairComplete, s)
       | Some m => (Ok m, s)
       end.

Definition sendDecision (d : Decision) (mobileDeviceID : string) : Session unit :=
  _ ← mmod set_decided;
  if json_Decision d mobileDeviceID then
    sent ← write (DecisionFrame d mobileDeviceID);
    if sent : bool then ok tt else fail (SendDecision d)
  else fail (MarshalDecision d).

Definition Reject : Session unit :=
  m ←! checkDecidable;
  sendDecision PairReject (pm_MobileDeviceID m).

(** The read loop of [Accept]; a read error includes its timeout. *)
Fixpoint awaitResult (ins : list Inbound) (mobileDeviceID : string)
    : result SessionError unit * list Inbound :=
  match ins with
  | [] => (Err NoPairResult, [])
  | ReadFailed :: rest => (Err NoPairResult, rest)
  | Frame data :: rest =>
      match json_PairResult data with
      | None => awaitResult rest mobileDeviceID
      | Some msg =>
          if decide (pr_ResultType msg = "pair_result") then
            if decide (pr_MobileDeviceID msg <> mobileDeviceID) then awaitResult rest mobileDeviceID
            else if negb (pr_OK msg) then (Err ServerDidNotConfirm, rest)
            else (Ok tt, rest)
          else if decide (pr_ResultType msg = "error") then
            (Err (ServerRefused (SanitizeDisplayString IsPrint (pr_Error msg))), rest)
          else awaitResult rest mobileDeviceID
      end
  end.

Definition resultRead (mobileDeviceID : string) : Session unit := fun s =>
  let '(r, rest) := awaitResult (cn_in (ss_conn s)) mobileDeviceID in
  (r, with_in rest s).

Definition Accept : Session unit :=
  m ←! checkDecidable;
  _ ←! sendDecision PairAccept (pm_MobileDeviceID m);
  resultRead (pm_MobileDeviceID m).

Definition SessionClose : M PairSession (option SessionError) := fun s =>
  let '(err, s) :=
    if ss_confirm s && bool_decide (is_Some (ss_received s)) && negb (ss_decided s) then
      match Reject s with
      | (Ok _, s') => (None, s')
      | (Err e, s') => (Some e, s')
      end
    else (None, s) in
  let '(_, s) := write CloseFrame s in
  (err, with_conn (conn_close (ss_conn s)) s).
End PairSession.

(** ** Specification *)

(** The decisions attempted, in order. *)
Definition frame_decision (f : OutFrame * bool) : option (Decision * string) :=
  match fst f with
  | DecisionFrame d id => Some (d, id)
  | _ => None
  end.
Definition conn_decisions (c : Conn) : list (Decision * string) := omap frame_decision (cn_out c).
Definition decisions (s : PairSession) : list (Decision * string) := conn_decisions (ss_conn s).

Section SessionSpec.
Context (json_TypeError : list byte -> option (string * string)).
Context (json_PairComplete : list byte -> option PairCompleteMessage).
Context (json_PairResult : list byte -> option PairResultMessage).
Context (json_Decision : Decision -> string -> bool).
Context (IsPrint : Z -> bool).

(** The calls a caller may make on a dialed session, in any order. *)
Inductive SessionOp :=
| OpWait (ctx : option nat) (ticks : nat)
| OpAccept
| OpReject
| OpClose.

Definition run_op (op : SessionOp) (s : PairSession) : PairSession :=
  match op with
  | OpWait ctx ticks => snd (WaitForPairComplete json_PairComplete ctx ticks s)
  | OpAccept => snd (Accept json_PairResult json_Decision IsPrint s)
  | OpReject => snd (Reject json_Decision s)
  | OpClose => snd (SessionClose json_Decision s)
  end.

(** What holds of a session at any time. *)
Record session_inv (s : PairSession) : Prop := {
  inv_confirm : ss_confirm s = false -> decisions s = [] /\ ss_decided s = false;
  inv_received : ss_received s = None -> decisions s = [] /\ ss_decided s = false;
  inv_target : Forall (fun '(_, id) => (pm_MobileDeviceID <$> ss_received s) = Some id) (decisions s);
  inv_decided : ss_decided s = false -> decisions s = []
}.

Lemma conn_decisions_write f c :
  conn_decisions (snd (conn_write f c)) =
  conn_decisions c ++ match f with DecisionFrame d id => [(d, id)] | _ => [] end.
Proof. unfold conn_decisions, conn_write. cbn. rewrite omap_app. by destruct f. Qed.

Lemma decisions_write f s :
  decisions (snd (write f s)) =
  decisions s ++ match f with DecisionFrame d id => [(d, id)] | _ => [] end.
Proof. apply conn_decisions_write. Qed.

Lemma keepalive_decisions ticks c : conn_decisions (keepalive ticks c) = conn_decisions c.
Proof.
  revert c. induction ticks as [|ticks IH]; intros c; [done|]. cbn [keepalive].
  pose proof (conn_decisions_write Presence c) as Hw. rewrite app_nil_r in Hw.
  destruct (conn_write Presence c) as [[] c']; cbn in Hw; [by rewrite IH|done].
Qed.

Lemma sendDecision_spec d id s :
  let '(r, s') := sendDecision json_Decision d id s in
  ss_decided s' = true /\ ss_received s' = ss_received s /\ ss_confirm s' = ss_confirm s /\
  ss_waited s' = ss_waited s /\ cn_in (ss_conn s') = cn_in (ss_conn s) /\
  (decisions s' = decisions s \/ decisions s' = decisions s ++ [(d, id)]) /\
  (r = Ok tt -> exists pre, cn_out (ss_conn s') = pre ++ [(DecisionFrame d id, true)]).
Proof.
  unfold sendDecision. rewrite mbind_run. cbn [fst snd mmod].
  destruct (json_Decision d id); [|split_and!; [done..|by left|done]].
  rewrite mbind_run.
  pose proof (decisions_write (DecisionFrame d id) (set_decided s)) as Hw.
  unfold write, conn_write in *. cbn [fst snd] in *.
  destruct (default true (head (cn_writes (ss_conn (set_decided s))))); cbn;
    (split_and!; [done..|right; exact Hw|]); [eauto|done].
Qed.

Lemma Reject_spec s :
  let '(r, s') := Reject json_Decision s in
  match ss_confirm s, ss_received s with
  | true, Some m =>
      ss_decided s' = true /\ ss_received s' = Some m /\ ss_confirm s' = true /\
      (decisions s' = decisions s \/ decisions s' = decisions s ++ [(PairReject, pm_MobileDeviceID m)])
  | _, _ => s' = s /\ is_ok r = false
  end.
Proof.
  unfold Reject, checkDecidable, mbind_err. destruct (ss_confirm s) eqn:Hc, (ss_received s) as [m|] eqn:Hm;
    cbn [negb]; rewrite ?Hm; try done.
  pose proof (sendDecision_spec PairReject (pm_MobileDeviceID m) s) as Hs.
  destruct (sendDecision json_Decision PairReject (pm_MobileDeviceID m) s) as [r s'].
  destruct Hs as (? & ? & ? & ? & ? & ? & ?). split_and!; congruence || done.
Qed.

Lemma Accept_spec s :
  let '(r, s') := Accept json_PairResult json_Decision IsPrint s in
  match ss_confirm s, ss_received s with
  | true, Some m =>
      ss_decided s' = true /\ ss_received s' = Some m /\ ss_confirm s' = true /\
      (decisions s' = decisions s \/ decisions s' = decisions s ++ [(PairAccept, pm_MobileDeviceID m)])
  | _, _ => s' = s /\ is_ok r = false
  end.
Proof.
  unfold Accept, checkDecidable, mbind_err. destruct (ss_confirm s) eqn:Hc, (ss_received s) as [m|] eqn:Hm;
    cbn [negb]; rewrite ?Hm; try done.
  pose proof (sendDecision_spec PairAccept (pm_MobileDeviceID m) s) as Hs.
  destruct (sendDecision json_Decision PairAccept (pm_MobileDeviceID m) s) as [[u|e] s1];
    destruct Hs as (? & ? & ? & ? & ? & ? & ?); [|split_and!; congruence || done].
  unfold resultRead. destruct (awaitResult _ _ _ _) as [r rest]. cbn.
  split_and!; congruence || done.
Qed.

Lemma Wait_spec ctx ticks s :
  let '((m, e), s') := WaitForPairComplete json_PairComplete ctx ticks s in
  ss_confirm s' = ss_confirm s /\ ss_decided s' = ss_decided s /\ decisions s' = decisions s /\
  (is_Some (ss_received s) -> ss_received s' = ss_received s) /\
  (ss_waited s = true -> m = None /\ e = Some AlreadyWaited /\ s' = s) /\
  (ss_waited s = false -> m = ss_received s' /\ ss_waited s' = true /\
    (e = None -> exists pc, m = Some pc /\ ValidateDeviceID (pm_MobileDeviceID pc) = Ok tt)).
Proof.
  unfold WaitForPairComplete. destruct (ss_waited s) eqn:Hw; [by split_and!|].
  cbn [ss_received set_waited].
  destruct (ss_received s) as [m|] eqn:Hm.
  - cbn. rewrite Hm. destruct (ValidateDeviceID (pm_MobileDeviceID m)) as [[]|e] eqn:Hv;
      cbn; rewrite ?Hm; split_and!; try done; eauto.
  - unfold readPairComplete.
    set (c := keepalive ticks (ss_conn (set_waited s))).
    assert (conn_decisions c = decisions s) as Hc by apply keepalive_decisions.
    assert (forall msg rest, decisions (with_received msg (with_in rest (with_conn c (set_waited s)))) = decisions s)
      as Hd by done.
    destruct ctx as [k|].
    + destruct (readUntilComplete _ (take k (cn_in c))) as [msg rest]. cbn.
      split_and!; try done; by intros [? [=]].
    + destruct (readUntilComplete _ (cn_in c)) as [[msg|] rest]; cbn;
        [destruct (ValidateDeviceID (pm_MobileDeviceID msg)) as [[]|e] eqn:Hv|]; cbn;
        split_and!; try done; try (by intros [? [=]]); eauto.
Qed.

Lemma Close_spec s :
  let s' := snd (SessionClose json_Decision s) in
  ss_received s' = ss_received s /\ ss_confirm s' = ss_confirm s /\ cn_open (ss_conn s') = false /\
  match ss_confirm s, ss_received s with
  | true, Some m =>
      ss_decided s' = true /\
      (decisions s' = decisions s \/
       ss_decided s = false /\ decisions s' = decisions s ++ [(PairReject, pm_MobileDeviceID m)])
  | _, _ => decisions s' = decisions s /\ ss_decided s' = ss_decided s
  end.
Proof.
  unfold SessionClose.
  assert (forall s1, decisions (with_conn (conn_close (ss_conn (snd (write CloseFrame s1)))) (snd (write CloseFrame s1)))
    = decisions s1) as Hclose.
  { intros s1. pose proof (decisions_write CloseFrame s1) as Hw. rewrite app_nil_r in Hw. exact Hw. }
  pose proof (Reject_spec s) as Hr.
  destruct (ss_confirm s) eqn:Hc, (ss_received s) as [m|] eqn:Hm; cbn;
    try (rewrite Hm, Hc; split_and!; try done; apply (Hclose s)).
  destruct (ss_decided s) eqn:Hd; cbn.
  - rewrite Hm, Hc, Hd. split_and!; try done. left. apply (Hclose s).
  - destruct (Reject json_Decision s) as [r s1]. destruct Hr as (Hd1 & Hm1 & Hc1 & Hdec).
    pose proof (Hclose s1) as Hcl. unfold write in Hcl.
    destruct r; cbn in *; rewrite Hm1, Hc1, Hd1; (split_and!; [done..|]);
      (destruct Hdec as [Hdec|Hdec]; [left|right; split; [done|]]); by rewrite <-Hdec, <-Hcl.
Qed.

(** Answering keeps the invariant: the decision names the received mobile. *)
Lemma answer_inv s s' m d :
  session_inv s -> ss_received s = Some m -> ss_confirm s' = true -> ss_received s' = Some m ->
  ss_decided s' = true ->
  (decisions s' = decisions s \/ decisions s' = decisions s ++ [(d, pm_MobileDeviceID m)]) ->
  session_inv s'.
Proof.
  intros [Ic Ir It Id] Hm Hc' Hm' Hd Hdec. rewrite Hm in It.
  split; rewrite ?Hc', ?Hm', ?Hd; try done.
  destruct Hdec as [-> | ->]; [done|]. apply Forall_app. split; [done|]. by apply Forall_singleton.
Qed.

Lemma run_op_inv op s : session_inv s -> session_inv (run_op op s).
Proof.
  intros I. pose proof I as [Ic Ir It Id]. destruct op as [ctx ticks| | |]; cbn [run_op].
  - pose proof (Wait_spec ctx ticks s) as Hw.
    destruct (WaitForPairComplete _ ctx ticks s) as [[m e] s']. cbn.
    destruct Hw as (Hc & Hd & Hdec & Hkeep & _).
    destruct (ss_received s) as [pc|] eqn:Hm.
    + specialize (Hkeep (mk_is_Some _ _ eq_refl)).
      split; rewrite ?Hc, ?Hd, ?Hdec, ?Hkeep; done.
    + destruct (Ir eq_refl) as [Hnil Hdf].
      split; rewrite ?Hc, ?Hd, ?Hdec, ?Hnil; done.
  - pose proof (Accept_spec s) as Ha. destruct (Accept _ _ _ s) as [r s']. cbn.
    destruct (ss_confirm s) eqn:Hc, (ss_received s) as [m|] eqn:Hm; try by destruct Ha as [-> _].
    destruct Ha as (Hd & Hm' & Hc' & Hdec). by eapply answer_inv.
  - pose proof (Reject_spec s) as Ha. destruct (Reject _ s) as [r s']. cbn.
    destruct (ss_confirm s) eqn:Hc, (ss_received s) as [m|] eqn:Hm; try by destruct Ha as [-> _].
    destruct Ha as (Hd & Hm' & Hc' & Hdec). by eapply answer_inv.
  - pose proof (Close_spec s) as Ha. cbv zeta in Ha. destruct Ha as (Hm' & Hc' & _ & Ha).
    destruct (ss_confirm s) eqn:Hc, (ss_received s) as [m|] eqn:Hm;
      try (destruct Ha as [Hdec Hd]; split; rewrite ?Hc', ?Hm', ?Hd, ?Hdec; done).
    destruct Ha as (Hd & Hdec). eapply answer_inv; eauto. naive_solver.
Qed.

Lemma run_op_confirm op s : ss_confirm (run_op op s) = ss_confirm s.
Proof.
  destruct op as [ctx ticks| | |]; cbn [run_op].
  - pose proof (Wait_spec ctx ticks s) as Hw. destruct (WaitForPairComplete _ ctx ticks s) as [[m e] s'].
    apply Hw.
  - pose proof (Accept_spec s) as Ha. destruct (Accept _ _ _ s) as [r s']. cbn.
    destruct (ss_confirm s) eqn:Hc, (ss_received s); destruct_and?; congruence.
  - pose proof (Reject_spec s) as Ha. destruct (Reject _ s) as [r s']. cbn.
    destruct (ss_confirm s) eqn:Hc, (ss_received s); destruct_and?; congruence.
  - apply (Close_spec s).
Qed.

Definition run_ops (ops : list SessionOp) (s : PairSession) : PairSession :=
  foldl (fun s op => run_op op s) s ops.

Lemma run_ops_inv ops s :
  session_inv s -> session_inv (run_ops ops s) /\ ss_confirm (run_ops ops s) = ss_confirm s.
Proof.
  revert s. induction ops as [|op ops IH]; intros s I; [done|]. cbn.
  destruct (IH (run_op op s)) as [I' Hc]; [by apply run_op_inv|].
  split; [exact I'|]. etrans; [exact Hc|apply run_op_confirm].
Qed.

Lemma Dial_inv c jwt confirm s :
  cn_out c = [] ->
  fst (DialPairSession json_TypeError json_PairComplete IsPrint c jwt confirm) = Ok s ->
  session_inv s /\ ss_confirm s = confirm.
Proof.
  unfold DialPairSession, authenticate. intros Ho. rewrite mbind_run.
  set (s0 := mkSession _ _ _ _ _).
  pose proof (decisions_write (AuthFrame jwt) s0) as Hw.
  assert (decisions s0 = []) as Hs0 by (unfold decisions, conn_decisions; cbn; by rewrite Ho).
  rewrite Hs0 in Hw. cbn [app] in Hw.
  assert (ss_confirm (snd (write (AuthFrame jwt) s0)) = confirm /\
    ss_decided (snd (write (AuthFrame jwt) s0)) = false) as [Hc Hd] by done.
  destruct (write (AuthFrame jwt) s0) as [sent s1]. cbn [fst snd] in *.
  destruct sent; cbn [fst]; [|done]. unfold authRead.
  destruct (readAuth _ _ _ _ _) as [[[u|e] received] rest]; cbn [fst]; [|done].
  intros [= <-]. split; [|done].
  split; try done. change (decisions _) with (decisions s1). by rewrite Hw.
Qed.

(** *** Properties *)

(** C18: the host's answer is never sent to the wrong mobile, nor where the
    server does not expect one, nor twice by [Close]. On a dialed session,
    after any sequence of waits, accepts, rejects and closes: without the
    server's confirmation mode no decision was ever written; every decision
    names the mobile of the one pair_complete received; and closing a
    confirmed session that received one leaves it answered, writing a
    rejection only if no answer was attempted before. *)
Theorem pair_session_answers c jwt confirm s ops :
  cn_out c = [] ->
  fst (DialPairSession json_TypeError json_PairComplete IsPrint c jwt confirm) = Ok s ->
  let s1 := run_ops ops s in
  let s2 := run_op OpClose s1 in
  (confirm = false -> decisions s1 = []) /\
  Forall (fun '(_, id) => (pm_MobileDeviceID <$> ss_received s1) = Some id) (decisions s1) /\
  cn_open (ss_conn s2) = false /\
  (confirm = true -> forall m, ss_received s1 = Some m ->
    ss_decided s2 = true /\
    (ss_decided s1 = true -> decisions s2 = decisions s1) /\
    (decisions s2 = decisions s1 \/ decisions s2 = [(PairReject, pm_MobileDeviceID m)])).
Proof.
  intros Ho Hd s1 s2. destruct (Dial_inv _ _ _ _ Ho Hd) as [I Hc].
  destruct (run_ops_inv ops s I) as [[Ic Ir It Id] Hc1]. fold s1 in Ic, Ir, It, Id, Hc1.
  pose proof (Close_spec s1) as Hcl. cbv zeta in Hcl. destruct Hcl as (_ & _ & Hopen & Hcl).
  split_and!; [|done|done|].
  - intros ->. apply Ic. congruence.
  - intros -> m Hm. rewrite Hc1, Hc, Hm in Hcl. destruct Hcl as [Hdec Hcl].
    unfold s2, run_op. split_and!; [done|by destruct Hcl as [?|[? _]]; congruence|].
    destruct Hcl as [?|[Hf Hcl]]; [by left|right]. by rewrite (Id Hf) in Hcl.
Qed.

Lemma awaitResult_Ok ins id rest :
  awaitResult json_PairResult IsPrint ins id = (Ok tt, rest) ->
  exists pre data msg, ins = pre ++ Frame data :: rest /\
    json_PairResult data = Some msg /\ pr_ResultType msg = "pair_result" /\
    pr_MobileDeviceID msg = id /\ pr_OK msg = true /\
    Forall (fun f => match f with
      | ReadFailed => False
      | Frame d => match json_PairResult d with
                   | Some m => pr_ResultType m <> "error" /\
                       (pr_ResultType m = "pair_result" -> pr_MobileDeviceID m <> id)
                   | None => True
                   end
      end) pre.
Proof.
  induction ins as [|[data|] ins IH]; [done| |done]. cbn [awaitResult].
  destruct (json_PairResult data) as [msg|] eqn:Hj; cycle 1.
  { intros (pre & d & m & -> & H)%IH. exists (Frame data :: pre), d, m.
    split; [done|]. destruct_and!. split_and!; try done. constructor; [by rewrite Hj|done]. }
  case_decide as Ht; [case_decide as Hid|case_decide as He; [done|]].
  - intros (pre & d & m & -> & H)%IH. exists (Frame data :: pre), d, m. split; [done|].
    destruct_and!. split_and!; try done. constructor; [|done]. rewrite Hj. split; [by rewrite Ht|done].
  - destruct (pr_OK msg) eqn:Hok; cbn; [|done]. intros [= <-]. exists [], data, msg.
    by split_and!.
  - intros (pre & d & m & -> & H)%IH. exists (Frame data :: pre), d, m. split; [done|].
    destruct_and!. split_and!; try done. constructor; [by rewrite Hj|done].
Qed.

Lemma Accept_Ok s s' :
  Accept json_PairResult json_Decision IsPrint s = (Ok tt, s') ->
  ss_confirm s = true /\
  exists m sent pre data msg, ss_received s = Some m /\
    cn_out (ss_conn s') = sent ++ [(DecisionFrame PairAccept (pm_MobileDeviceID m), true)] /\
    cn_in (ss_conn s) = pre ++ Frame data :: cn_in (ss_conn s') /\
    json_PairResult data = Some msg /\ pr_ResultType msg = "pair_result" /\
    pr_MobileDeviceID msg = pm_MobileDeviceID m /\ pr_OK msg = true /\
    Forall (fun f => match f with
      | ReadFailed => False
      | Frame d => match json_PairResult d with
                   | Some r => pr_ResultType r <> "error" /\
                       (pr_ResultType r = "pair_result" -> pr_MobileDeviceID r <> pm_MobileDeviceID m)
                   | None => True
                   end
      end) pre.
Proof.
  unfold Accept, mbind_err, checkDecidable.
  destruct (ss_confirm s) eqn:Hc; cbn [negb]; [|done].
  destruct (ss_received s) as [m|] eqn:Hm; [|done].
  pose proof (sendDecision_spec PairAccept (pm_MobileDeviceID m) s) as Hs.
  destruct (sendDecision json_Decision PairAccept (pm_MobileDeviceID m) s) as [[[]|e] s1]; [|done].
  destruct Hs as (_ & _ & _ & _ & Hin & _ & Hsent). destruct (Hsent eq_refl) as [sent Hout].
  unfold resultRead. rewrite Hin.
  destruct (awaitResult _ _ (cn_in (ss_conn s)) _) as [[[]|e] rest] eqn:Ha; [|done].
  apply awaitResult_Ok in Ha as (pre & data & msg & -> & Hj & Ht & Hid & Hok & Hpre).
  intros [= <-]. split; [done|]. exists m, sent, pre, data, msg. by split_and!.
Qed.

(** The host believes a pairing is committed only on the server's word:
    [Accept] returns no error only if the session is in confirmed mode, has a
    pair_complete, its pair_accept for that mobile was actually sent, and the
    first pair_result for that mobile, read before any error, says OK. *)
Theorem Accept_committed s :
  match Accept json_PairResult json_Decision IsPrint s with
  | (Err _, _) => True
  | (Ok _, s') =>
      ss_confirm s = true /\
      exists m sent pre data msg, ss_received s = Some m /\
        cn_out (ss_conn s') = sent ++ [(DecisionFrame PairAccept (pm_MobileDeviceID m), true)] /\
        cn_in (ss_conn s) = pre ++ Frame data :: cn_in (ss_conn s') /\
        json_PairResult data = Some msg /\ pr_ResultType msg = "pair_result" /\
        pr_MobileDeviceID msg = pm_MobileDeviceID m /\ pr_OK msg = true /\
        Forall (fun f => match f with
          | ReadFailed => False
          | Frame d => match json_PairResult d with
                       | Some r => pr_ResultType r <> "error" /\
                           (pr_ResultType r = "pair_result" -> pr_MobileDeviceID r <> pm_MobileDeviceID m)
                       | None => True
                       end
          end) pre
  end.
Proof.
  destruct (Accept json_PairResult json_Decision IsPrint s) as [[[]|e] s'] eqn:Ha; [|done].
  by apply Accept_Ok.
Qed.

(** *** What is left to read *)

Lemma readAuth_suffix ins received :
  snd (readAuth json_TypeError json_PairComplete IsPrint ins received) `suffix_of` ins.
Proof.
  revert received. induction ins as [|[data|] ins IH]; intros received; cbn [readAuth]; [done| |by apply suffix_cons_r].
  destruct (json_TypeError data) as [[typ err]|]; [|by apply suffix_cons_r].
  repeat case_decide; by apply suffix_cons_r.
Qed.

Lemma readUntilComplete_suffix ins : snd (readUntilComplete json_PairComplete ins) `suffix_of` ins.
Proof.
  induction ins as [|[data|] ins IH]; cbn [readUntilComplete]; [done| |by apply suffix_cons_r].
  destruct (json_PairComplete data); [case_decide|]; by apply suffix_cons_r.
Qed.

Lemma keepalive_in ticks c : cn_in (keepalive ticks c) = cn_in c.
Proof.
  revert c. induction ticks as [|ticks IH]; intros c; [done|]. cbn [keepalive].
  destruct (conn_write Presence c) as [[] c'] eqn:Hw; injection Hw as _ <-; [by rewrite IH|done].
Qed.

Lemma Dial_in c jwt confirm s :
  fst (DialPairSession json_TypeError json_PairComplete IsPrint c jwt confirm) = Ok s ->
  cn_in (ss_conn s) `suffix_of` cn_in c /\ ss_decided s = false /\ ss_waited s = false.
Proof.
  unfold DialPairSession, authenticate. rewrite mbind_run. unfold write, conn_write. cbn [fst snd ss_conn].
  destruct (default true _); [|done]. unfold authRead. cbn [ss_conn with_conn cn_in ss_received].
  pose proof (readAuth_suffix (cn_in c) None) as Hs.
  destruct (readAuth _ _ _ _ _) as [[[u|e] received] rest]; cbn; [|done]. by intros [= <-].
Qed.

Lemma Wait_in ctx ticks s :
  cn_in (ss_conn (snd (WaitForPairComplete json_PairComplete ctx ticks s))) `suffix_of` cn_in (ss_conn s).
Proof.
  unfold WaitForPairComplete. destruct (ss_waited s); [done|].
  cbn [ss_received set_waited]. destruct (ss_received s) as [m|] eqn:Hm.
  { cbn. rewrite Hm. by destruct (ValidateDeviceID _). }
  unfold readPairComplete. cbn [ss_conn set_waited].
  pose proof (readUntilComplete_suffix (cn_in (keepalive ticks (ss_conn s)))) as Hs. rewrite keepalive_in in *.
  destruct ctx as [k|].
  - destruct (readUntilComplete json_PairComplete (take k (cn_in (ss_conn s)))) as [msg rest]. cbn.
    exists (take k (cn_in (ss_conn s))). by rewrite take_drop.
  - destruct (readUntilComplete _ _) as [[msg|] rest]; cbn; [|done]. by destruct (ValidateDeviceID _).
Qed.

(** The caller always learns that a mobile completed pairing: the first
    [WaitForPairComplete] returns exactly the pair_complete the session
    recorded, with or without an error, returns no error only for a
    well-formed mobile device ID, never writes a decision, and any later call
    fails without touching the session. *)
Theorem Wait_reports ctx ticks s :
  let '((m, e), s') := WaitForPairComplete json_PairComplete ctx ticks s in
  decisions s' = decisions s /\
  if ss_waited s then m = None /\ e = Some AlreadyWaited /\ s' = s
  else m = ss_received s' /\ ss_waited s' = true /\
    match e with
    | None => exists pc, m = Some pc /\ ValidateDeviceID (pm_MobileDeviceID pc) = Ok tt
    | Some _ => True
    end.
Proof.
  pose proof (Wait_spec ctx ticks s) as Hw.
  destruct (WaitForPairComplete _ ctx ticks s) as [[m e] s']. destruct Hw as (_ & _ & Hd & _ & H1 & H2).
  split; [done|]. destruct (ss_waited s); [auto|]. destruct (H2 eq_refl) as (? & ? & H3).
  split_and!; [done..|]. destruct e; auto.
Qed.
End SessionSpec.

(** ** A concrete session: a pair_complete, an accept, and the close *)

Module SessionExample.
Definition mobile : string := "0123456789abcdef0123456789abcdef".
Definition typeError (d : list byte) : option (string * string) :=
  if decide (d = [x01]) then Some ("auth", "") else None.
Definition complete (d : list byte) : option PairCompleteMessage :=
  if decide (d = [x02]) then Some (mkPairComplete "pair_complete" mobile "" "" "") else None.
Definition pairResult (d : list byte) : option PairResultMessage :=
  if decide (d = [x03]) then Some (mkPairResult "pair_result" mobile true "") else None.
Definition conn0 : Conn := mkConn [Frame [x01]; Frame [x02]; Frame [x03]] [] [] true.
Definition dialed : PairSession :=
  snd (DialPairSession typeError complete (fun _ => true) conn0 "jwt" true).
End SessionExample.

Lemma pair_session_answers_witness :
  let s1 := run_ops SessionExample.complete SessionExample.pairResult (fun _ _ => true) (fun _ => true)
              [OpWait None 2; OpAccept] SessionExample.dialed in
  let s2 := run_op SessionExample.complete SessionExample.pairResult (fun _ _ => true) (fun _ => true)
              OpClose s1 in
  (true = false -> decisions s1 = []) /\
  Forall (fun '(_, id) => (pm_MobileDeviceID <$> ss_received s1) = Some id) (decisions s1) /\
  cn_open (ss_conn s2) = false /\
  (true = true -> forall m, ss_received s1 = Some m ->
    ss_decided s2 = true /\
    (ss_decided s1 = true -> decisions s2 = decisions s1) /\
    (decisions s2 = decisions s1 \/ decisions s2 = [(PairReject, pm_MobileDeviceID m)])).
Proof.
  apply (pair_session_answers SessionExample.typeError SessionExample.complete SessionExample.pairResult
    (fun _ _ => true) (fun _ => true) SessionExample.conn0 "jwt" true SessionExample.dialed
    [OpWait None 2; OpAccept]); vm_compute; reflexivity.
Defined.

(** The mobile is accepted exactly once. *)
Example accepted_once :
  decisions (run_ops SessionExample.complete SessionExample.pairResult (fun _ _ => true) (fun _ => true)
    [OpWait None 2; OpAccept; OpClose] SessionExample.dialed) = [(PairAccept, SessionExample.mobile)].
Proof. vm_compute. reflexivity. Qed.
