(* ===== verification/Supervisor.v ===== *)
(** * internal/agent: controlling the agent process

    The PID file (pidfile.go), the supervisor (supervisor.go), the reading of
    another process's arguments (procargs_linux.go, procargs_darwin.go) and the
    agent commands (agent_start.go, agent_stop.go, agent_restart.go), over the
    secret store, the [World] and a table of processes. Before every system
    call that looks at a process or at the PID file the other processes may do
    anything: exit, start, take over a PID, rewrite the file. The exclusive
    lock on the PID file is only a call that may fail. *)

From S2P Require Import Prelude GoLib GoText World SecretStore Identity Config.
From Stdlib Require Import Ascii.
Open Scope Z_scope.

(** ** Processes *)

(** [pr_Args]: the arguments as the system shows them, if it does. [pr_Mine]:
    whether this user may signal it. *)
Record Proc := mkProc { pr_Args : option string; pr_Mine : bool }.

Inductive Signal := SIGTERM | SIGKILL | SIGUSR1 | SIGUSR2.

#[export] Instance Signal_eq_dec : EqDecision Signal.
Proof. solve_decision. Defined.

(** The system calls on processes, with their results, as a tracer would show
    them. *)
Inductive Syscall :=
| Probe (pid : Z) (alive : bool)
| ReadArgs (pid : Z) (args : option string)
| Kill (pid : Z) (sig : Signal) (delivered : bool)
| Fork (child : option Z).

Inductive Event :=
| Exits (pid : Z)
| Starts (pid : Z) (p : Proc)
| FileBecomes (path : Path) (f : option File).

(** [ps_events]: what the others do before each call. [ps_forks]: the PIDs of
    the processes to be started, if they can be. [ps_ticks]: how many ticks of
    the poll timer come before the deadline of each wait. *)
Record Procs := mkProcs {
  ps_table : gmap Z Proc;
  ps_events : list (list Event);
  ps_forks : list (option Z);
  ps_ticks : list nat;
  ps_trace : list Syscall
}.
#[export] Instance Procs_eta : Eta Procs := fun p =>
  mkProcs (ps_table p) (ps_events p) (ps_forks p) (ps_ticks p) (ps_trace p).

(** How a platform shows the arguments of a process, and how the agent reads
    them. *)
Class ProcArgs := {
  showArgs : list string -> string;
  readProcArgs : string -> option (list string)
}.

Definition NUL : ascii := "000"%char.

(** /proc/<pid>/cmdline: every argument is followed by a NUL. *)
Definition linuxArgs : ProcArgs := {|
  showArgs argv := foldr (fun a rest => a +:+ String NUL "" +:+ rest) "" argv;
  readProcArgs data :=
    let trimmed := TrimSuffix data (String NUL "") in
    if decide (trimmed = "") then None else Some (Split trimmed NUL)
|}.

(** [ps -o args=]: the arguments separated by blanks. *)
Definition darwinArgs : ProcArgs := {|
  showArgs argv := GoLib.Join argv " " +:+ String newline "";
  readProcArgs out :=
    let trimmed := TrimSpace out in
    if decide (trimmed = "") then None else Some (Fields trimmed)
|}.

(** [<...>/pmux agent run]: [IsAgentProcess] on the arguments. *)
Definition agentArgv (argv : list string) : bool :=
  match rev argv with
  | run :: agent :: e :: exe =>
      bool_decide (run = "run") && bool_decide (agent = "agent") &&
      bool_decide (Base (GoLib.Join (rev (e :: exe)) " ") = "pmux")
  | _ => false
  end.

(** ** Errors *)

Inductive PIDError :=
| ReadPID (e : FsError)
| ParsePID (e : NumError)
| InvalidPID (pid : Z).

Inductive AgentError :=
| IdentityCheck (e : IdentityError)
| OpenPIDFile (e : FsError)
| LockPIDFile
| FindExecutable
| StartAgent
| WritePID (e : FsError)
| RenamePID (e : FsError)
| SendSIGTERM (pid : Z)
| SendSIGKILL (pid : Z)
| StillRunning (pid : Z)
| ErrAgentNotRunning.

Definition pidFilePerms : Z := mode0600.

Definition PIDFilePath (p : Paths) : Path := World.Join (p_ConfigDir p) "agent.pid".
Definition pidTmpPath (p : Paths) : Path := World.Join (p_ConfigDir p) "agent.pid.tmp".
Definition agentLogPath (p : Paths) : Path := World.Join (p_ConfigDir p) "agent.log".

(** [os.OpenFile] with [O_CREATE]: the file exists afterwards. *)
Definition openCreate (p : Path) (perm : Z) : M World (result FsError unit) :=
  faulty (fun w =>
    match w.(w_files) !! p with
    | Some _ => (Ok tt, w)
    | None =>
        if decide (Dir p ∈ w.(w_dirs)) then (Ok tt, put_file p (mkFile [] perm) w) else (Err FsNotExist, w)
    end).

Section Supervisor.
Context {T : Type} `{SecretStore T} `{ProcArgs}.
(** [os.Executable()]. *)
Variable executable : option string.

(** The store, the system, the processes. *)
Abbreviation Box := ((T * World) * Procs)%type.

Definition on_store {A} (m : M (T * World) A) : M Box A := on_fst m.
Definition on_files {A} (m : M World A) : M Box A := on_fst (on_snd m).
Definition on_procs {A} (m : M Procs A) : M Box A := on_snd m.

(** ** The other processes *)

Definition happens (ev : Event) (s : Box) : Box :=
  let '(t, w, ps) := s in
  match ev with
  | Exits pid => (t, w, ps <| ps_table ::= delete pid |>)
  | Starts pid p => (t, w, ps <| ps_table ::= <[pid := p]> |>)
  | FileBecomes path (Some f) => (t, put_file path f w, ps)
  | FileBecomes path None => (t, set_files (delete path (w_files w)) w, ps)
  end.

Definition others : M Box unit := fun s =>
  let '(tw, ps) := s in
  (tt, foldl (fun s ev => happens ev s) (tw, ps <| ps_events ::= tail |>) (default [] (head (ps_events ps)))).

(** ** System calls *)

Definition traced (c : Syscall) : M Box unit := on_procs (mmod (fun ps => ps <| ps_trace ::= fun l => l ++ [c] |>)).

(** [process.Signal(0) == nil]. *)
Definition alive (ps : Procs) (pid : Z) : bool :=
  match ps_table ps !! pid with Some p => pr_Mine p | None => false end.

(** [process.Signal(sig) == nil]. What the signal does to the process is up to
    the others. *)
Definition kill (pid : Z) (sig : Signal) : M Box bool :=
  _ ← others;
  delivered ← on_procs (fun ps => (alive ps pid, ps));
  _ ← traced (Kill pid sig delivered);
  mret delivered.

Definition IsProcessRunning (pid : Z) : M Box bool :=
  _ ← others;
  running ← on_procs (fun ps => (alive ps pid, ps));
  _ ← traced (Probe pid running);
  mret running.

Definition procArgs (pid : Z) : M Box (option (list string)) :=
  _ ← others;
  args ← on_procs (fun ps => (ps_table ps !! pid ≫= pr_Args, ps));
  _ ← traced (ReadArgs pid args);
  mret (args ≫= readProcArgs).

(** [cmd.Start()] of [exe agent run]. *)
Definition startProcess (exe : string) : M Box (option Z) :=
  _ ← others;
  child ← on_procs (fun ps => (default None (head (ps_forks ps)), ps <| ps_forks ::= tail |>));
  _ ← traced (Fork child);
  match child with
  | None => mret None
  | Some pid =>
      _ ← on_procs (mmod (fun ps =>
            ps <| ps_table ::= <[pid := mkProc (Some (showArgs [exe; "agent"; "run"])) true]> |>));
      mret (Some pid)
  end.

Definition signalActivity (pid : Z) : M Box unit := _ ← kill pid SIGUSR1; mret tt.
Definition signalReloadPairing (pid : Z) : M Box unit := _ ← kill pid SIGUSR2; mret tt.

(** ** pidfile.go *)

Definition parsePID (data : list byte) : result PIDError Z :=
  match Atoi (TrimSpace (string_of data)) with
  | (_, Some e) => Err (ParsePID e)
  | (pid, None) => if pid <=? 0 then Err (InvalidPID pid) else Ok pid
  end.

Definition ReadPIDFile (path : Path) : M Box (result PIDError Z) :=
  _ ← others;
  data ←! wrap ReadPID (on_files (ReadFile path));
  lift (parsePID data).

Definition IsAgentProcess (pid : Z) : M Box bool :=
  running ← IsProcessRunning pid;
  if negb running then mret false else
  argv ← procArgs pid;
  mret (match argv with Some argv => agentArgv argv | None => false end).

Definition RemovePIDFile (path : Path) : M Box unit := ignore (on_files (Remove path)).

(** [pid] is this process. *)
Definition WritePIDFile (p : Paths) (pid : Z) : M Box (result AgentError unit) :=
  let tmp := pidTmpPath p in
  _ ←! wrap WritePID (on_files (WriteFile tmp (bytes_of (Itoa pid)) pidFilePerms));
  r ← on_files (Rename tmp (PIDFilePath p));
  match r with
  | Ok _ => ok tt
  | Err e => _ ← ignore (on_files (Remove tmp)); fail (RenamePID e)
  end.

Definition CleanStalePIDFile (path : Path) : M Box (result AgentError unit) :=
  r ← ReadPIDFile path;
  match r with
  | Err (ReadPID FsNotExist) => ok tt
  | Err _ => _ ← RemovePIDFile path; ok tt
  | Ok pid =>
      running ← IsProcessRunning pid;
      if running : bool then fail (StillRunning pid)
      else _ ← RemovePIDFile path; ok tt
  end.

(** The PID file names an agent: the check the commands share. *)
Definition runningAgent (path : Path) : M Box (option Z) :=
  r ← ReadPIDFile path;
  match r with
  | Err _ => mret None
  | Ok pid => agent ← IsAgentProcess pid; mret (if agent : bool then Some pid else None)
  end.

(** ** supervisor.go *)

Definition spawn (p : Paths) : M Box (result AgentError unit) :=
  match executable with
  | None => fail FindExecutable
  | Some exe =>
      _ ← ignore (on_files (openCreate (agentLogPath p) mode0600));
      child ← startProcess exe;
      match child with
      | None => fail StartAgent
      | Some pid => wrap WritePID (on_files (WriteFile (PIDFilePath p) (bytes_of (Itoa pid)) pidFilePerms))
      end
  end.

Definition EnsureRunning (p : Paths) : M Box (result AgentError unit) :=
  _ ←! wrap IdentityCheck (on_store (CheckIdentity (p_KeysDir p)));
  let pidFile := PIDFilePath p in
  _ ←! wrap OpenPIDFile (on_files (openCreate pidFile pidFilePerms));
  _ ←! wrap (fun _ => LockPIDFile) (on_files (faulty (ok tt)));
  running ← runningAgent pidFile;
  r ← match running with
      | Some pid => _ ← signalActivity pid; ok tt
      | None => spawn p
      end;
  _ ← ignore (on_files (Close pidFile));
  lift r.

(** The ticks of one wait. *)
Definition next_ticks : M Box nat := on_procs (fun ps =>
  (default 0%nat (head (ps_ticks ps)), ps <| ps_ticks ::= tail |>)).

(** Polls until the process is gone or the deadline comes. *)
Fixpoint pollExit (ticks : nat) (pid : Z) : M Box bool :=
  match ticks with
  | O => mret false
  | S ticks' =>
      running ← IsProcessRunning pid;
      if negb running then mret true else pollExit ticks' pid
  end.

Definition StopRunning (p : Paths) : M Box (result AgentError unit) :=
  let pidFile := PIDFilePath p in
  r ← ReadPIDFile pidFile;
  match r with
  | Err _ => ok tt
  | Ok pid =>
      agent ← IsAgentProcess pid;
      if negb agent then _ ← RemovePIDFile pidFile; ok tt else
      sent ← kill pid SIGTERM;
      if negb sent then
        running ← IsProcessRunning pid;
        if negb running then _ ← RemovePIDFile pidFile; ok tt
        else fail (SendSIGTERM pid)
      else
        ticks ← next_ticks;
        gone ← pollExit ticks pid;
        _ ← (if gone : bool then mret tt else (_ ← kill pid SIGKILL; mret tt));
        _ ← RemovePIDFile pidFile;
        ok tt
  end.

(** ** agent_stop.go, agent_start.go, agent_restart.go *)

Definition RunAgentStop (p : Paths) : M Box (result AgentError unit) :=
  let pidFile := PIDFilePath p in
  r ← ReadPIDFile pidFile;
  match r with
  | Err _ => fail ErrAgentNotRunning
  | Ok pid =>
      agent ← IsAgentProcess pid;
      if negb agent then _ ← RemovePIDFile pidFile; ok tt else
      sent ← kill pid SIGTERM;
      if negb sent then fail (SendSIGTERM pid) else
      ticks ← next_ticks;
      gone ← pollExit ticks pid;
      if gone : bool then _ ← RemovePIDFile pidFile; ok tt else
      killed ← kill pid SIGKILL;
      if killed : bool then _ ← RemovePIDFile pidFile; ok tt else
      running ← IsProcessRunning pid;
      if negb running then _ ← RemovePIDFile pidFile; ok tt
      else fail (SendSIGKILL pid)
  end.

Definition RunAgentStart (p : Paths) : M Box (result AgentError unit) :=
  running ← runningAgent (PIDFilePath p);
  match running with
  | Some _ => ok tt
  | None => EnsureRunning p
  end.

Definition RunAgentRestart (p : Paths) : M Box (result AgentError unit) :=
  _ ←! wrap IdentityCheck (on_store (CheckIdentity (p_KeysDir p)));
  r ← RunAgentStop p;
  match r with
  | Ok _ | Err ErrAgentNotRunning => RunAgentStart p
  | Err e => fail e
  end.
End Supervisor.
