(* ===== verification/SupervisorProps.v ===== *)
(** * What the agent commands guarantee

    The discipline every command follows towards other processes, whatever
    those do meanwhile; that a stop ends; and that an agent the supervisor
    started is found again. *)

From S2P Require Import Prelude GoLib GoText World SecretStore Identity Config Supervisor.
From Stdlib Require Import Ascii.
Open Scope Z_scope.

(** ** The discipline

    An automaton over the traced calls. A process is signalled only right
    after its arguments were read and were those of an agent; SIGKILL comes
    only after a SIGTERM that was delivered, to the same process, seen alive
    ever since; and a process is started only when the last look found no
    agent, and then nothing else is done. *)

Inductive Stance := Idle | Sees (pid : Z) | Stopping (pid : Z) | Started.

Section Discipline.
Context `{ProcArgs}.

Definition agentText (args : option string) : bool :=
  match args ≫= readProcArgs with Some argv => agentArgv argv | None => false end.

Definition step (st : Stance) (c : Syscall) : option Stance :=
  match st, c with
  | Stopping p, Probe q alive => if decide (p = q) then Some (if alive : bool then Stopping p else Idle) else None
  | Stopping p, Kill q SIGKILL _ => if decide (p = q) then Some Idle else None
  | Stopping _, _ | Started, _ => None
  | _, Probe _ _ => Some Idle
  | _, ReadArgs p args => Some (if agentText args then Sees p else Idle)
  | Sees p, Kill q SIGTERM delivered =>
      if decide (p = q) then Some (if delivered : bool then Stopping p else Idle) else None
  | Sees p, Kill q SIGUSR1 _ | Sees p, Kill q SIGUSR2 _ => if decide (p = q) then Some Idle else None
  | Idle, Fork _ => Some Started
  | _, _ => None
  end.

Definition follow (st : Stance) (trace : list Syscall) : option Stance :=
  foldl (fun o c => o ≫= fun st => step st c) (Some st) trace.

Lemma foldl_none (tr : list Syscall) : foldl (fun o c => o ≫= fun st => step st c) None tr = None.
Proof. by induction tr. Qed.

Lemma follow_app st t1 t2 : follow st (t1 ++ t2) = follow st t1 ≫= fun st' => follow st' t2.
Proof.
  unfold follow. rewrite foldl_app. destruct (foldl _ (Some st) t1); [done|]. apply foldl_none.
Qed.
End Discipline.

(** Not in the middle of a stop. *)
Definition resting (st : Stance) : Prop := match st with Stopping _ => False | _ => True end.

Definition looking (st : Stance) : Prop := match st with Idle | Sees _ => True | _ => False end.

Section Triples.
Context {T : Type} `{SecretStore T} `{ProcArgs}.
Variable executable : option string.

Abbreviation Box := ((T * World) * Procs)%type.

(** No wait has more than [b] ticks. *)
Definition waits (b : nat) (s : Box) : Prop := Forall (fun n => (n <= b)%nat) (ps_ticks (snd s)).

(** From the stance [st], [m] follows the discipline and makes calls that take
    the stance and their number to [Q]. *)
Definition runs {A} (b : nat) (st : Stance) (m : M Box A) (Q : A -> Stance -> nat -> Prop) : Prop :=
  forall s, waits b s ->
    waits b (snd (m s)) /\
    exists tr st',
      ps_trace (snd (snd (m s))) = (ps_trace (snd s) ++ tr)%list /\
      follow st tr = Some st' /\ Q (fst (m s)) st' (length tr).

(** [m] makes no traced call and starts no wait. *)
Definition silent {A} (m : M Box A) : Prop :=
  forall s, ps_trace (snd (snd (m s))) = ps_trace (snd s) /\ ps_ticks (snd (snd (m s))) = ps_ticks (snd s).

Lemma runs_bind {A B} b st (m : M Box A) (k : A -> M Box B) Q R :
  runs b st m Q ->
  (forall a st' n, Q a st' n -> runs b st' (k a) (fun a' st'' n' => R a' st'' (n + n')%nat)) ->
  runs b st (m ≫= k) R.
Proof.
  intros Hm Hk s Hw. rewrite mbind_run. destruct (Hm s Hw) as (Hw1 & tr1 & st1 & Ht1 & Hf1 & Hq).
  destruct (Hk _ _ _ Hq (snd (m s)) Hw1) as (Hw2 & tr2 & st2 & Ht2 & Hf2 & Hr).
  split; [done|]. exists (tr1 ++ tr2)%list, st2.
  rewrite Ht2, Ht1, app_assoc, follow_app, Hf1, length_app. done.
Qed.

Lemma runs_weaken {A} b st (m : M Box A) (Q R : A -> Stance -> nat -> Prop) :
  (forall a st' n, Q a st' n -> R a st' n) -> runs b st m Q -> runs b st m R.
Proof. intros HQ Hm s Hw. destruct (Hm s Hw) as (? & tr & st' & ? & ? & ?). eauto 10. Qed.

Lemma runs_silent {A} b st (m : M Box A) Q : silent m -> (forall a, Q a st 0%nat) -> runs b st m Q.
Proof.
  intros Hm HQ s Hw. destruct (Hm s) as [Ht Hk]. split.
  - unfold waits in *. by rewrite Hk.
  - exists [], st. rewrite app_nil_r. done.
Qed.

Lemma runs_ret {A} b st (a : A) (Q : A -> Stance -> nat -> Prop) : Q a st 0%nat -> runs b st (mret a) Q.
Proof. intros HQ s Hw. split; [done|]. exists [], st. by rewrite app_nil_r. Qed.

Lemma runs_err {E A B} b st (m : M Box (result E A)) (k : A -> M Box (result E B)) Q R :
  runs b st m Q ->
  (forall a st' n, Q (Ok a) st' n -> runs b st' (k a) (fun a' st'' n' => R a' st'' (n + n')%nat)) ->
  (forall e st' n, Q (Err e) st' n -> R (Err e) st' n) ->
  runs b st (mbind_err m k) R.
Proof.
  intros Hm Hk He s Hw. destruct (Hm s Hw) as (Hw1 & tr1 & st1 & Ht1 & Hf1 & Hq). unfold mbind_err.
  destruct (m s) as [[a|e] s1] eqn:Hms; cbn [fst snd] in *.
  - destruct (Hk _ _ _ Hq s1 Hw1) as (Hw2 & tr2 & st2 & Ht2 & Hf2 & Hr).
    split; [done|]. exists (tr1 ++ tr2)%list, st2.
    rewrite Ht2, Ht1, app_assoc, follow_app, Hf1, length_app. done.
  - split; [done|]. exists tr1, st1. auto.
Qed.

Lemma runs_wrap {E F A} b st (f : E -> F) (m : M Box (result E A)) Q :
  runs b st m (fun r => Q (map_err f r)) -> runs b st (wrap f m) Q.
Proof.
  intros Hm s Hw. specialize (Hm s Hw). unfold wrap. by destruct (m s).
Qed.

Lemma silent_on_store {A} (m : M (T * World) A) : silent (on_store m).
Proof. intros [tw ps]. unfold on_store, on_fst. destruct (m tw). cbn. auto. Qed.

Lemma silent_on_files {A} (m : M World A) : silent (on_files m : M Box A).
Proof. apply silent_on_store. Qed.

Lemma silent_ignore {A} (m : M Box A) : silent m -> silent (ignore m).
Proof. intros Hm s. apply Hm. Qed.

Lemma silent_others : silent (others : M Box unit).
Proof.
  intros [tw ps]. unfold others. cbn [fst snd].
  set (ps' := ps <| ps_events ::= tail |>).
  change (ps_trace ps) with (ps_trace ps'). change (ps_ticks ps) with (ps_ticks ps').
  generalize (default [] (head (ps_events ps))). intros l. revert tw. generalize ps'. clear ps'.
  induction l as [|ev l IH]; intros ps' tw; cbn [foldl fst snd]; [auto|].
  destruct tw as [t w]. destruct ev as [pid|pid p|path [f|]]; cbn [happens];
    match goal with |- context [foldl _ (?tw, ?p) l] => exact (IH p tw) end.
Qed.

Lemma silent_read {A} (f : Procs -> A) : silent (on_procs (fun ps => (f ps, ps)) : M Box A).
Proof. intros [tw ps]. cbn. auto. Qed.

Lemma runs_traced b st c st' (Q : unit -> Stance -> nat -> Prop) :
  step st c = Some st' -> Q tt st' 1%nat -> runs b st (traced c : M Box unit) Q.
Proof.
  intros Hst HQ [tw ps] Hw. split; [exact Hw|]. exists [c], st'. cbn. auto.
Qed.

(** ** The system calls *)

Lemma runs_look {A} b st (f : Procs -> A) (c : A -> Syscall) (Q : A -> Stance -> nat -> Prop) :
  (forall a, exists st', step st (c a) = Some st' /\ Q a st' 1%nat) ->
  runs b st (_ ← others; a ← on_procs (fun ps => (f ps, ps)); _ ← traced (c a); mret a) Q.
Proof.
  intros Hc.
  eapply runs_bind; [apply runs_silent with (Q := fun _ st' n => st' = st /\ n = 0%nat); [apply silent_others|done]|].
  intros [] st1 n1 [-> ->].
  eapply runs_bind; [apply runs_silent with (Q := fun _ st' n => st' = st /\ n = 0%nat); [apply silent_read|done]|].
  intros a st2 n2 [-> ->]. destruct (Hc a) as (st' & Hst & HQ).
  eapply runs_bind; [eapply runs_traced with (Q := fun _ st1 n => st1 = st' /\ n = 1%nat); [exact Hst|done]|].
  intros [] st3 n3 [-> ->]. apply runs_ret. exact HQ.
Qed.

Lemma runs_probe b st pid (Q : bool -> Stance -> nat -> Prop) :
  (forall a, exists st', step st (Probe pid a) = Some st' /\ Q a st' 1%nat) ->
  runs b st (IsProcessRunning pid : M Box bool) Q.
Proof. apply runs_look. Qed.

Lemma runs_kill b st pid sig (Q : bool -> Stance -> nat -> Prop) :
  (forall a, exists st', step st (Kill pid sig a) = Some st' /\ Q a st' 1%nat) ->
  runs b st (kill pid sig : M Box bool) Q.
Proof. apply runs_look. Qed.

Lemma runs_procArgs b st pid : looking st ->
  runs b st (procArgs pid : M Box _)
    (fun argv st' n => n = 1%nat /\
       st' = match argv with Some argv => if agentArgv argv then Sees pid else Idle | None => Idle end).
Proof.
  intros Hst.
  assert (Hl := runs_look b st (fun ps => ps_table ps !! pid ≫= pr_Args) (ReadArgs pid)
    (fun args st' n => n = 1%nat /\ st' = if agentText args then Sees pid else Idle)).
  ospecialize (Hl _); [intros a; eexists; split; [by destruct st|done]|].
  unfold procArgs. intros s Hw. specialize (Hl s Hw). rewrite !mbind_run in *. cbn [fst snd] in *.
  destruct Hl as (Hw' & tr & st' & Ht & Hf & Hn & Hs). split; [exact Hw'|].
  exists tr, st'. split; [exact Ht|]. split; [exact Hf|]. split; [exact Hn|].
  rewrite Hs. unfold agentText. cbn. by destruct (_ ≫= readProcArgs).
Qed.

Lemma runs_IsAgentProcess b st pid : looking st ->
  runs b st (IsAgentProcess pid : M Box bool)
    (fun agent st' n => (n <= 2)%nat /\ st' = if agent : bool then Sees pid else Idle).
Proof.
  intros Hst. unfold IsAgentProcess.
  eapply runs_bind with (Q := fun _ st' n => st' = Idle /\ n = 1%nat).
  { apply runs_probe. intros a. exists Idle. by destruct st. }
  intros [] st1 n1 [-> ->]; [|apply runs_ret; auto]. cbn [negb].
  eapply runs_bind; [by apply runs_procArgs|]. intros argv st2 n2 [-> ->].
  apply runs_ret. split; [lia|]. destruct argv as [argv|]; [|done]. by destruct (agentArgv argv).
Qed.

Lemma silent_bind {A B} (m : M Box A) (k : A -> M Box B) : silent m -> (forall a, silent (k a)) -> silent (m ≫= k).
Proof.
  intros Hm Hk s. rewrite mbind_run. destruct (Hm s) as [<- <-]. apply Hk.
Qed.

Lemma silent_bind_err {E A B} (m : M Box (result E A)) (k : A -> M Box (result E B)) :
  silent m -> (forall a, silent (k a)) -> silent (mbind_err m k).
Proof.
  intros Hm Hk s. destruct (Hm s) as [<- <-]. unfold mbind_err. destruct (m s) as [[a|e] s1]; [apply Hk|done].
Qed.

Lemma silent_wrap {E F A} (f : E -> F) (m : M Box (result E A)) : silent m -> silent (wrap f m).
Proof. intros Hm s. specialize (Hm s). unfold wrap. by destruct (m s). Qed.

Lemma silent_ReadPIDFile path : silent (ReadPIDFile path : M Box _).
Proof.
  apply silent_bind; [apply silent_others|]. intros _.
  apply silent_bind_err; [apply silent_wrap, silent_on_files|]. done.
Qed.

Lemma silent_RemovePIDFile path : silent (RemovePIDFile path : M Box _).
Proof. apply silent_ignore, silent_on_files. Qed.

(** Silent calls, then the rest. *)
Lemma runs_after {A B} b st (m : M Box A) (k : A -> M Box B) Q :
  silent m -> (forall a, runs b st (k a) Q) -> runs b st (m ≫= k) Q.
Proof.
  intros Hm Hk. eapply runs_bind with (Q := fun _ st' n => st' = st /\ n = 0%nat); [by apply runs_silent|].
  intros a ? ? [-> ->]. apply Hk.
Qed.

Lemma runs_next_ticks b st : runs b st (next_ticks : M Box nat) (fun k st' n => st' = st /\ n = 0%nat /\ (k <= b)%nat).
Proof.
  intros [tw ps] Hw. unfold waits in Hw. cbn in *. destruct (ps_ticks ps) as [|k l] eqn:Hk; cbn.
  - split; [done|]. exists [], st. rewrite app_nil_r. split_and!; auto. lia.
  - apply Forall_cons in Hw as [Hk1 Hl]. split; [done|]. exists [], st. rewrite app_nil_r. auto.
Qed.

Lemma runs_pollExit b pid ticks :
  runs b (Stopping pid) (pollExit ticks pid : M Box bool)
    (fun gone st' n => (n <= ticks)%nat /\ st' = if gone : bool then Idle else Stopping pid).
Proof.
  induction ticks as [|ticks IH]; cbn [pollExit]; [apply runs_ret; auto|].
  eapply runs_bind with (Q := fun alive st' n => n = 1%nat /\ st' = if alive : bool then Stopping pid else Idle).
  { apply runs_probe. intros a. eexists. cbn. by rewrite decide_True. }
  intros [] st1 n1 [-> ->]; cbn [negb]; [|apply runs_ret; split; [lia|done]].
  eapply runs_weaken; [|exact IH]. cbn. intros a st' n [Hn ->]. split; [lia|done].
Qed.

(** ** The commands *)

Definition within {A} (b : nat) : A -> Stance -> nat -> Prop := fun _ st' n => (n <= b)%nat /\ st' = Idle.

Lemma runs_TERM b pid :
  runs b (Sees pid) (kill pid SIGTERM : M Box bool)
    (fun sent st' n => n = 1%nat /\ st' = if sent : bool then Stopping pid else Idle).
Proof. apply runs_kill. intros a. eexists. cbn. by rewrite decide_True. Qed.

Lemma runs_KILL b pid :
  runs b (Stopping pid) (kill pid SIGKILL : M Box bool) (fun _ st' n => n = 1%nat /\ st' = Idle).
Proof. apply runs_kill. intros a. eexists. cbn. by rewrite decide_True. Qed.

Lemma runs_probe_idle b pid :
  runs b Idle (IsProcessRunning pid : M Box bool) (fun _ st' n => n = 1%nat /\ st' = Idle).
Proof. apply runs_probe. intros a. by eexists. Qed.

Lemma runs_remove {A} b st path (r : A) Q : Q r st 0%nat ->
  runs b st (_ ← (RemovePIDFile path : M Box unit); mret r) Q.
Proof. intros HQ. apply runs_after; [apply silent_RemovePIDFile|]. intros _. by apply runs_ret. Qed.

Lemma runs_StopRunning b p : runs b Idle (StopRunning p : M Box _) (within (b + 4)).
Proof.
  unfold StopRunning. apply runs_after; [apply silent_ReadPIDFile|].
  intros [pid|e]; [|apply runs_ret; split; [lia|done]].
  eapply runs_bind; [by apply runs_IsAgentProcess|]. intros [] st1 n1 [Hn1 ->]; cbn [negb].
  2: { apply runs_remove. split; [lia|done]. }
  eapply runs_bind; [apply runs_TERM|]. intros [] st2 n2 [-> ->]; cbn [negb].
  - eapply runs_bind; [apply runs_next_ticks|]. intros ticks st3 n3 (-> & -> & Ht).
    eapply runs_bind; [apply runs_pollExit|]. intros [] st4 n4 [Hn4 ->].
    + apply runs_after; [done|]. intros _. apply runs_remove. split; [lia|done].
    + eapply runs_bind with (Q := fun _ st' n => n = 1%nat /\ st' = Idle).
      { eapply runs_bind; [apply runs_KILL|]. intros a st5 n5 [-> ->]. by apply runs_ret. }
      intros [] st5 n5 [-> ->]. apply runs_remove. split; [lia|done].
  - eapply runs_bind; [apply runs_probe_idle|]. intros [] st3 n3 [-> ->]; cbn [negb].
    + apply runs_ret. split; [lia|done].
    + apply runs_remove. split; [lia|done].
Qed.

Lemma runs_RunAgentStop b p : runs b Idle (RunAgentStop p : M Box _) (within (b + 5)).
Proof.
  unfold RunAgentStop. apply runs_after; [apply silent_ReadPIDFile|].
  intros [pid|e]; [|apply runs_ret; split; [lia|done]].
  eapply runs_bind; [by apply runs_IsAgentProcess|]. intros [] st1 n1 [Hn1 ->]; cbn [negb].
  2: { apply runs_remove. split; [lia|done]. }
  eapply runs_bind; [apply runs_TERM|]. intros [] st2 n2 [-> ->]; cbn [negb].
  2: { apply runs_ret. split; [lia|done]. }
  eapply runs_bind; [apply runs_next_ticks|]. intros ticks st3 n3 (-> & -> & Ht).
  eapply runs_bind; [apply runs_pollExit|]. intros [] st4 n4 [Hn4 ->].
  { apply runs_remove. split; [lia|done]. }
  eapply runs_bind; [apply runs_KILL|]. intros [] st5 n5 [-> ->].
  { apply runs_remove. split; [lia|done]. }
  eapply runs_bind; [apply runs_probe_idle|]. intros [] st6 n6 [-> ->]; cbn [negb].
  - apply runs_ret. split; [lia|done].
  - apply runs_remove. split; [lia|done].
Qed.

Lemma runs_runningAgent b path :
  runs b Idle (runningAgent path : M Box _)
    (fun found st' n => (n <= 2)%nat /\ st' = match found with Some pid => Sees pid | None => Idle end).
Proof.
  unfold runningAgent. apply runs_after; [apply silent_ReadPIDFile|].
  intros [pid|e]; [|apply runs_ret; auto].
  eapply runs_bind; [by apply runs_IsAgentProcess|]. intros [] st1 n1 [Hn1 ->]; apply runs_ret; split; auto; lia.
Qed.

Lemma runs_spawn b p :
  runs b Idle (spawn executable p : M Box _) (fun _ st' n => (n <= 1)%nat /\ resting st').
Proof.
  unfold spawn. destruct executable as [exe|]; [|apply runs_ret; split; [lia|done]].
  apply runs_after; [apply silent_ignore, silent_on_files|]. intros _.
  eapply runs_bind with (Q := fun _ st' n => n = 1%nat /\ st' = Started).
  - unfold startProcess. apply runs_after; [apply silent_others|]. intros _.
    apply runs_after; [intros [tw ps]; by cbn|]. intros child.
    eapply runs_bind; [by eapply runs_traced with (Q := fun _ st' n => st' = Started /\ n = 1%nat)|].
    intros [] ? ? [-> ->]. destruct child; [|by apply runs_ret].
    apply runs_after; [intros [tw ps]; by cbn|]. intros _. by apply runs_ret.
  - intros child st1 n1 [-> ->]. destruct child; [|by apply runs_ret].
    apply runs_silent; [apply silent_wrap, silent_on_files|]. done.
Qed.

Lemma runs_EnsureRunning b p :
  runs b Idle (EnsureRunning executable p : M Box _) (fun _ st' n => (n <= 3)%nat /\ resting st').
Proof.
  unfold EnsureRunning.
  assert (Hs : forall F G A B (f : F -> G) (m : M Box (result F A)) (k : A -> M Box (result G B)),
    silent m -> (forall a, runs b Idle (k a) (fun _ st' n => (n <= 3)%nat /\ resting st')) ->
    runs b Idle (mbind_err (wrap f m) k) (fun _ st' n => (n <= 3)%nat /\ resting st')).
  { intros F G A B f m k Hm Hk. eapply runs_err with (Q := fun _ st' n => st' = Idle /\ n = 0%nat).
    - apply runs_silent; [by apply silent_wrap|done].
    - intros a ? ? [-> ->]. eapply runs_weaken; [|apply Hk]. by intros ? ? ? [? ?].
    - intros e ? ? [-> ->]. split; [lia|done]. }
  apply Hs; [apply silent_on_store|]. intros _. apply Hs; [apply silent_on_files|]. intros _.
  apply Hs; [apply silent_on_files|]. intros _.
  eapply runs_bind; [apply runs_runningAgent|]. intros found st1 n1 [Hn1 ->].
  eapply runs_bind with (Q := fun _ st' n => (n <= 1)%nat /\ resting st').
  - destruct found as [pid|]; [|apply runs_spawn].
    eapply runs_bind with (Q := fun _ st' n => n = 1%nat /\ st' = Idle).
    + eapply runs_bind with (Q := fun _ st' n => n = 1%nat /\ st' = Idle).
      * apply runs_kill. intros a. eexists. cbn. by rewrite decide_True.
      * intros ? ? ? [-> ->]. by apply runs_ret.
    + intros [] ? ? [-> ->]. apply runs_ret. split; [lia|done].
  - intros r st2 n2 [Hn2 Hr2]. apply runs_after; [apply silent_ignore, silent_on_files|]. intros _.
    apply runs_silent; [done|]. split; [lia|done].
Qed.

Lemma runs_RunAgentStart b p :
  runs b Idle (RunAgentStart executable p : M Box _) (fun _ st' n => (n <= 5)%nat /\ resting st').
Proof.
  unfold RunAgentStart. eapply runs_bind; [apply runs_runningAgent|]. intros [pid|] st1 n1 [Hn1 ->].
  - apply runs_ret. split; [lia|done].
  - eapply runs_weaken; [|apply runs_EnsureRunning]. intros r st2 n2 [Hn2 Hr2]. split; [lia|done].
Qed.

Lemma runs_RunAgentRestart b p :
  runs b Idle (RunAgentRestart executable p : M Box _) (fun _ st' n => (n <= b + 10)%nat /\ resting st').
Proof.
  unfold RunAgentRestart. eapply runs_err with (Q := fun _ st' n => st' = Idle /\ n = 0%nat).
  - apply runs_silent; [apply silent_wrap, silent_on_store|done].
  - intros _ ? ? [-> ->]. eapply runs_bind; [apply runs_RunAgentStop|]. intros r st1 n1 [Hn1 ->].
    assert (Hstart : runs b Idle (RunAgentStart executable p : M Box _)
      (fun _ st' n => (0 + (n1 + n) <= b + 10)%nat /\ resting st')).
    { eapply runs_weaken; [|apply runs_RunAgentStart]. intros a st2 n2 [? ?]. split; [lia|done]. }
    destruct r as [|[]]; try exact Hstart; apply runs_ret; (split; [lia|done]).
  - intros e ? ? [-> ->]. split; [lia|done].
Qed.
End Triples.

(** ** The agent's own arguments *)

Lemma stake_app s1 s2 : stake (String.length s1) (s1 +:+ s2) = s1.
Proof.
  induction s1 as [|c s1 IH]; [by destruct s2|].
  change (String c s1 +:+ s2) with (String c (s1 +:+ s2)). cbn [String.length stake]. by rewrite IH.
Qed.

Lemma append_length s1 s2 : String.length (s1 +:+ s2) = (String.length s1 + String.length s2)%nat.
Proof.
  induction s1 as [|c s1 IH]; [done|].
  change (String c s1 +:+ s2) with (String c (s1 +:+ s2)). cbn [String.length]. by rewrite IH.
Qed.

Lemma TrimSuffix_char s c : TrimSuffix (s +:+ String c "") (String c "") = s.
Proof.
  unfold TrimSuffix, HasSuffix. rewrite srev_app_string. change (srev (String c "")) with (String c "").
  assert (String.prefix (String c "") (String c "" +:+ srev s) = true) as ->.
  { change (String c "" +:+ srev s) with (String c (srev s)). cbn. destruct (ascii_dec c c); [|done]. by destruct (srev s). }
  rewrite append_length. replace (String.length s + _ - _)%nat with (String.length s) by (cbn; lia).
  apply stake_app.
Qed.

(** [exe agent run] is read back as it was started, and taken for an agent if
    the base name of [exe] is pmux. *)
Definition recognised {P : ProcArgs} (exe : string) : Prop :=
  agentText (Some (showArgs [exe; "agent"; "run"])) = true.

Lemma linux_recognises exe : mem_char NUL exe = false -> Base exe = "pmux" ->
  recognised (P := linuxArgs) exe.
Proof.
  intros Hn Hb. unfold recognised, agentText. cbn [showArgs linuxArgs readProcArgs foldr].
  assert (exe +:+ String NUL "" +:+ "agent" +:+ String NUL "" +:+ "run" +:+ String NUL "" +:+ "" =
    (exe +:+ String NUL ("agent" +:+ String NUL "run")) +:+ String NUL "") as ->
    by (rewrite !append_assoc; reflexivity).
  cbn [mbind option_bind]. rewrite TrimSuffix_char.
  rewrite decide_False by (by destruct exe).
  unfold Split. rewrite split_aux_field by done. change (srev "" +:+ exe) with exe.
  change (split_aux NUL "" ("agent" +:+ String NUL "run")) with ["agent"; "run"].
  unfold agentArgv. cbn [rev app GoLib.Join]. by rewrite Hb.
Qed.

Lemma Fields_word s c rest cur :
  sforall visible s = true -> leading_space space_runes (String c rest) = Some (String c "") ->
  cur +:+ s <> "" -> fields 0 cur (s +:+ String c rest) = (cur +:+ s) :: fields 0 "" rest.
Proof.
  revert cur. induction s as [|d s IH]; intros cur Hs Hc Hne.
  - change ("" +:+ String c rest) with (String c rest). rewrite append_nil_r in *. cbn [fields].
    rewrite Hc. by rewrite decide_False.
  - change (String d s +:+ String c rest) with (String d (s +:+ String c rest)).
    cbn [sforall] in Hs. apply andb_true_iff in Hs as [Hd Hs]. cbn [fields].
    rewrite leading_visible by (done || by vm_compute). rewrite IH.
    + by rewrite append_assoc.
    + done.
    + done.
    + rewrite append_assoc. by destruct cur.
Qed.

Lemma TrimSpace_newline c m d : visible c = true -> visible d = true ->
  TrimSpace ((String c m +:+ String d "") +:+ String newline "") = String c m +:+ String d "".
Proof.
  intros Hc Hd. unfold TrimSpace.
  change ((String c m +:+ String d "") +:+ String newline "") with
    (String c ((m +:+ String d "") +:+ String newline "")).
  rewrite (trim_visible _ space_runes) by (done || by vm_compute).
  change (String c ((m +:+ String d "") +:+ String newline "")) with
    ((String c m +:+ String d "") +:+ String newline "").
  rewrite !srev_app_string. change (srev (String newline "")) with (String newline "").
  change (srev (String d "")) with (String d "").
  rewrite !append_length. cbn [String.length].
  replace (S (String.length m) + 1 + 1)%nat with (S (S (S (String.length m)))) by lia.
  change (String newline "" +:+ String d "" +:+ srev (String c m)) with (String newline (String d (srev (String c m)))).
  cbn [trim_runes].
  change (leading_space (map srev space_runes) (String newline (String d (srev (String c m)))))
    with (Some (String newline "")).
  cbn [String.length sdrop]. rewrite leading_visible by (done || by vm_compute).
  change (String d (srev (String c m))) with (String d "" +:+ srev (String c m)).
  rewrite srev_app_string, srev_involutive. done.
Qed.

Lemma darwin_recognises exe : sforall visible exe = true -> Base exe = "pmux" ->
  recognised (P := darwinArgs) exe.
Proof.
  intros Hv Hb. unfold recognised, agentText. cbn [showArgs darwinArgs readProcArgs GoLib.Join].
  destruct exe as [|c exe]; [done|]. assert (Hc : visible c = true) by (by apply andb_true_iff in Hv as [? _]).
  assert (String c exe +:+ " " +:+ "agent" +:+ " " +:+ "run" = String c (exe +:+ " agent ru") +:+ String "n" "") as ->.
  { change (String c (exe +:+ " agent ru")) with (String c exe +:+ " agent ru"). by rewrite append_assoc. }
  cbn [mbind option_bind]. rewrite TrimSpace_newline by done. rewrite decide_False by done.
  assert (String c (exe +:+ " agent ru") +:+ String "n" "" = String c exe +:+ String " " "agent run") as ->.
  { change (String c (exe +:+ " agent ru")) with (String c exe +:+ " agent ru"). by rewrite append_assoc. }
  unfold Fields. rewrite Fields_word by done. change ("" +:+ String c exe) with (String c exe).
  change (fields 0 "" "agent run") with ["agent"; "run"].
  unfold agentArgv. cbn [rev app GoLib.Join]. by rewrite Hb.
Qed.

(** ** The discipline, spelled out *)

Section Reading.
Context `{ProcArgs}.

Lemma follow_snoc st tr c st' :
  follow st (tr ++ [c]) = Some st' <-> exists s1, follow st tr = Some s1 /\ step s1 c = Some st'.
Proof.
  rewrite follow_app. destruct (follow st tr) as [s1|]; cbn; [|naive_solver].
  unfold follow. cbn. naive_solver.
Qed.

(** What the stance remembers. *)
Lemma follow_stance tr st : follow Idle tr = Some st ->
  match st with
  | Sees pid => exists l args, tr = (l ++ [ReadArgs pid args])%list /\ agentText args = true
  | Stopping pid => exists l args k,
      tr = (l ++ ReadArgs pid args :: Kill pid SIGTERM true :: replicate k (Probe pid true))%list /\ agentText args = true
  | Idle => True
  | Started => exists l child, tr = (l ++ [Fork child])%list /\ follow Idle l = Some Idle
  end.
Proof.
  revert st. induction tr as [|c tr IH] using rev_ind; intros st; [by intros [= <-]|].
  rewrite follow_snoc. intros (s1 & H1 & Hs). specialize (IH _ H1).
  destruct s1 as [|p|p|]; destruct c as [q a|q a|q [] d|child]; cbn in Hs; try done; try case_decide;
    simplify_eq; try done.
  - destruct (agentText a) eqn:Ha; [|done]. eauto.
  - eexists _, _. split; [reflexivity|done].
  - destruct (agentText a) eqn:Ha; [|done]. eauto.
  - destruct IH as (l & args & -> & Ha). destruct d; [|done].
    exists l, args, 0%nat. by rewrite <- app_assoc.
  - destruct IH as (l & args & k & -> & Ha). destruct a; [|done]. exists l, args, (S k).
    rewrite replicate_S_end, <- app_assoc. done.
Qed.

(** Before each call the prefix of the trace is in a stance that allows it. *)
Lemma follow_split l1 c l2 st : follow Idle (l1 ++ c :: l2) = Some st ->
  exists s1 s2, follow Idle l1 = Some s1 /\ step s1 c = Some s2 /\ follow s2 l2 = Some st.
Proof.
  change (c :: l2) with ([c] ++ l2)%list. rewrite app_assoc, follow_app.
  destruct (follow Idle (l1 ++ [c])) as [s2|] eqn:H2; [|done]. cbn.
  apply follow_snoc in H2 as (s1 & H1 & Hs). intros Hl. by exists s1, s2.
Qed.
(** A delivered SIGTERM and polls that see the process alive leave it to be
    dealt with. *)
Lemma follow_unfinished tr pid k st :
  follow Idle (tr ++ Kill pid SIGTERM true :: replicate k (Probe pid true)) = Some st -> st = Stopping pid.
Proof.
  revert st. induction k as [|k IH]; intros st Hf.
  - apply follow_snoc in Hf as (s0 & _ & Hs). destruct s0; cbn in Hs; try done. case_decide; by simplify_eq.
  - rewrite replicate_S_end in Hf.
    replace (tr ++ Kill pid SIGTERM true :: replicate k (Probe pid true) ++ [Probe pid true])%list
      with ((tr ++ Kill pid SIGTERM true :: replicate k (Probe pid true)) ++ [Probe pid true])%list in Hf
      by (by rewrite <- app_assoc).
    apply follow_snoc in Hf as (s0 & H0 & Hs). apply IH in H0 as ->. cbn in Hs. case_decide; by simplify_eq.
Qed.
End Reading.

Inductive Command := CmdEnsureRunning | CmdStopRunning | CmdStop | CmdStart | CmdRestart.

Section Theorems.
Context {T : Type} `{SecretStore T} `{ProcArgs}.
Variable executable : option string.
Abbreviation Box := ((T * World) * Procs)%type.

Definition command (c : Command) (p : Paths) : M Box (result AgentError unit) :=
  match c with
  | CmdEnsureRunning => EnsureRunning executable p
  | CmdStopRunning => StopRunning p
  | CmdStop => RunAgentStop p
  | CmdStart => RunAgentStart executable p
  | CmdRestart => RunAgentRestart executable p
  end.

Lemma runs_command b c p :
  runs b Idle (command c p : M Box _) (fun _ st' n => (n <= b + 10)%nat /\ resting st').
Proof.
  destruct c; cbn [command]; (eapply runs_weaken; [|first [apply runs_EnsureRunning | apply runs_StopRunning
    | apply runs_RunAgentStop | apply runs_RunAgentStart | apply runs_RunAgentRestart]]);
    intros a st n [Hn Hst]; (split; [lia|]); try done; by subst.
Qed.

Lemma waits_max (s : Box) : waits (max_list (ps_ticks (snd s))) s.
Proof. apply Forall_forall. intros n Hn. by apply max_list_elem_of_le. Qed.



(** ** What was started is found *)

Definition undisturbed (s : Box) : Prop := ps_events (snd s) = [].

(** The file names a running agent. *)
Definition names (path : Path) (pid : Z) (s : Box) : Prop :=
  (exists f, w_files (snd (fst s)) !! path = Some f /\ parsePID (f_data f) = Ok pid) /\
  (exists pr, ps_table (snd s) !! pid = Some pr /\ pr_Mine pr = true /\ agentText (pr_Args pr) = true).

(** A call that leaves files, processes and what is to come alone. *)
Definition keeps (s s' : Box) : Prop :=
  w_files (snd (fst s')) = w_files (snd (fst s)) /\ ps_table (snd s') = ps_table (snd s) /\
  ps_forks (snd s') = ps_forks (snd s) /\ undisturbed s'.

Lemma others_undisturbed s : undisturbed s -> others s = (tt, s).
Proof. destruct s as [[t w] ps]. unfold undisturbed, others. cbn. intros He. rewrite He. cbn. by destruct ps; cbn in *; subst. Qed.

Lemma calm_refl s : undisturbed s -> keeps s s.
Proof. by intros ?. Qed.
Lemma calm_trans s1 s2 s3 : keeps s1 s2 -> keeps s2 s3 -> keeps s1 s3.
Proof. intros (? & ? & ? & ?) (? & ? & ? & ?). unfold keeps. split_and!; congruence. Qed.

Lemma names_keeps path pid s s' : keeps s s' -> names path pid s -> names path pid s'.
Proof. intros (Hf & Ht & _ & _). unfold names. by rewrite Hf, Ht. Qed.

(** The traced look-ups under no disturbance. *)
Lemma look_run {A} (f : Procs -> A) (c : A -> Syscall) (s : Box) : undisturbed s ->
  let '(a, s') := (_ ← others; a ← on_procs (fun ps => (f ps, ps)); _ ← traced (c a); mret a) s in
  a = f (snd s) /\ fst s' = fst s /\ keeps s s'.
Proof.
  intros Hu. rewrite !mbind_run, others_undisturbed by done. destruct s as [tw ps]. cbn.
  unfold keeps, undisturbed in *. cbn in *. split_and!; done.
Qed.

Lemma procArgs_run pid (s : Box) : undisturbed s ->
  let '(argv, s') := procArgs pid s in
  argv = (ps_table (snd s) !! pid ≫= pr_Args) ≫= readProcArgs /\ fst s' = fst s /\ keeps s s'.
Proof.
  intros Hu. pose proof (look_run (fun ps => ps_table ps !! pid ≫= pr_Args) (ReadArgs pid) s Hu) as Hl.
  unfold procArgs. rewrite !mbind_run in *. cbn [fst snd mret M_ret] in *.
  destruct Hl as [Ha Hrest]. split; [by f_equal|exact Hrest].
Qed.

Definition isAgent (pid : Z) (ps : Procs) : Prop :=
  exists pr, ps_table ps !! pid = Some pr /\ pr_Mine pr = true /\ agentText (pr_Args pr) = true.

Lemma IsAgentProcess_run pid (s : Box) : undisturbed s ->
  let '(a, s') := IsAgentProcess pid s in
  (a = true <-> isAgent pid (snd s)) /\ fst s' = fst s /\ keeps s s'.
Proof.
  intros Hu. unfold IsAgentProcess. rewrite mbind_run.
  pose proof (look_run (fun ps => alive ps pid) (Probe pid) s Hu : let '(a, s') := IsProcessRunning pid s in
    a = alive (snd s) pid /\ fst s' = fst s /\ keeps s s') as Hl.
  destruct (IsProcessRunning pid s) as [a s1]. destruct Hl as (-> & Hs1 & Hk1). cbn [fst snd].
  unfold isAgent, alive, agentText. destruct (ps_table (snd s) !! pid) as [pr|] eqn:Hpr; cbn [negb].
  2: { split; [|done]. split; [done|]. by intros (pr' & ? & _). }
  destruct (pr_Mine pr) eqn:Hm; cbn [negb];
    [|split; [split; [done|intros (pr' & [= <-] & ? & _); congruence]|done]].
  rewrite mbind_run. pose proof (procArgs_run pid s1 ltac:(apply Hk1)) as Hp.
  destruct (procArgs pid s1) as [argv s2]. destruct Hp as (-> & Hs2 & Hk2). cbn [fst snd].
  assert (Hk : keeps s s2) by (by eapply calm_trans). destruct Hk1 as (_ & Ht1 & _). rewrite Ht1, Hpr. cbn.
  split; [|split; [congruence|exact Hk]].
  split; [intros Hag; by exists pr|]. by intros (pr' & [= <-] & _ & Hag).
Qed.

Lemma ReadPIDFile_run path (s : Box) : undisturbed s ->
  let '(r, s') := ReadPIDFile path s in
  keeps s s' /\ snd s' = snd s /\
  (forall pid, r = Ok pid -> exists f, w_files (snd (fst s)) !! path = Some f /\ parsePID (f_data f) = Ok pid) /\
  (nofault (snd (fst s)) -> forall f, w_files (snd (fst s)) !! path = Some f -> r = map_err id (parsePID (f_data f))).
Proof.
  intros Hu. unfold ReadPIDFile. rewrite !mbind_run, others_undisturbed by done. cbn [fst snd].
  unfold mbind_err, wrap, on_files, on_fst, lift. destruct s as [[t w] ps].
  rewrite on_snd_run. cbn [fst snd].
  pose proof (ReadFile_spec path w) as Hr. pose proof (ReadFile_nofault path w) as Hn.
  destruct (ReadFile path w) as [r w'] eqn:Hread. cbn [fst snd map_err].
  assert (Hk : keeps (t, w, ps) (t, w', ps)) by (destruct Hr; by unfold keeps).
  destruct r as [data|e]; cbn [fst snd map_err]; (split; [done|]; split; [done|]).
  - destruct Hr as (_ & f0 & Hf0 & <-). split; [by exists f0|]. intros _ f Hf.
    cbn in Hf. rewrite Hf in Hf0. simplify_eq. by destruct (parsePID _).
  - split; [done|]. intros Hw f Hf. specialize (Hn Hw). cbn in Hf. by rewrite Hf in Hn.
Qed.

Lemma runningAgent_run path (s : Box) : undisturbed s ->
  let '(found, s') := runningAgent path s in
  keeps s s' /\ (forall pid, found = Some pid -> names path pid s) /\
  (nofault (snd (fst s)) -> forall pid, names path pid s -> found = Some pid).
Proof.
  intros Hu. unfold runningAgent. rewrite mbind_run. pose proof (ReadPIDFile_run path s Hu) as Hr.
  destruct (ReadPIDFile path s) as [[pid0|e] s1]; destruct Hr as (Hk1 & Hs1 & Hread & Hnf); cbn [fst snd].
  2: { split; [done|]. split; [done|]. intros Hw pid ((f & Hf & Hp) & _). specialize (Hnf Hw f Hf). by rewrite Hp in Hnf. }
  rewrite mbind_run. pose proof (IsAgentProcess_run pid0 s1 ltac:(apply Hk1)) as Ha.
  destruct (IsAgentProcess pid0 s1) as [a s2]. destruct Ha as (Ha & _ & Hk2). cbn [fst snd]. rewrite Hs1 in Ha.
  split; [by eapply calm_trans|]. split.
  - intros pid. destruct a; [|done]. intros [= <-]. split; [by apply Hread|]. by apply Ha.
  - intros Hw pid ((f & Hf & Hp) & Hag). specialize (Hnf Hw f Hf). rewrite Hp in Hnf. cbn in Hnf. simplify_eq.
    destruct a; [done|]. exfalso. assert (false = true) by by apply Ha. done.
Qed.

Lemma Close_files path w : w_files (snd (Close path w)) = w_files w.
Proof. unfold Close, faulty. rewrite mbind_run. unfold next_fault. destruct (w_faults w) as [|[] l]; done. Qed.

Lemma on_files_procs {A} (m : M World A) (s : Box) : snd (snd (on_files m s)) = snd s.
Proof. destruct s as [[t w] ps]. unfold on_files, on_fst. rewrite on_snd_run. done. Qed.

Lemma on_store_procs {A} (m : M (T * World) A) (s : Box) : snd (snd (on_store m s)) = snd s.
Proof. destruct s as [tw ps]. unfold on_store, on_fst. by destruct (m tw). Qed.

Lemma on_files_run {A} (m : M World A) (s : Box) :
  fst (on_files m s) = fst (m (snd (fst s))) /\ snd (fst (snd (on_files m s))) = snd (m (snd (fst s))).
Proof. destruct s as [[t w] ps]. unfold on_files, on_fst. by rewrite on_snd_run. Qed.

Lemma parsePID_Itoa pid : 0 < pid <= maxInt64 -> parsePID (bytes_of (Itoa pid)) = Ok pid.
Proof.
  intros Hp. unfold parsePID. rewrite string_of_bytes_of, TrimSpace_Itoa by lia.
  rewrite Atoi_Itoa by (unfold int63; lia). destruct (pid <=? 0) eqn:?; bool_to_prop; [lia|done].
Qed.

(** A successful spawn leaves a PID file that names the new process. *)
Lemma spawn_names p (s s' : Box) exe :
  executable = Some exe -> recognised exe -> undisturbed s ->
  Forall (fun child => match child with Some pid => 0 < pid <= maxInt64 | None => True end) (ps_forks (snd s)) ->
  spawn executable p s = (Ok tt, s') -> undisturbed s' /\ exists pid, names (PIDFilePath p) pid s'.
Proof.
  intros Hexe Hrec Hu Hforks. unfold spawn. rewrite Hexe, mbind_run. unfold ignore at 1. cbn [fst snd].
  set (s1 := snd (on_files (openCreate (agentLogPath p) mode0600) s)).
  assert (Hps : snd s1 = snd s) by apply on_files_procs.
  assert (Hu1 : undisturbed s1) by (unfold undisturbed; by rewrite Hps).
  rewrite mbind_run. unfold startProcess. rewrite !mbind_run, others_undisturbed by done.
  destruct s1 as [tw1 ps1]. cbn in Hps. subst ps1. cbn [fst snd on_procs on_snd].
  destruct (ps_forks (snd s)) as [|[pid|] forks] eqn:Hf; cbn; try done.
  intros Hw. apply wrap_Ok in Hw. apply Forall_cons in Hforks as [Hpid _].
  match type of Hw with on_files ?m ?s0 = _ =>
    pose proof (on_files_procs m s0) as Hps; pose proof (on_files_run m s0) as [Hr Hfs] end.
  rewrite Hw in Hps, Hr, Hfs. cbn [fst snd] in Hps, Hr, Hfs.
  split; [unfold undisturbed in *; by rewrite Hps|]. exists pid. split.
  - destruct (WriteFile_Ok (PIDFilePath p) (bytes_of (Itoa pid)) pidFilePerms (snd tw1) (snd (fst s'))) as [perm Hfile].
    { rewrite Hfs. destruct (WriteFile _ _ _ _) as [[[]|] w2]; cbn in *; congruence. }
    eexists. split; [exact Hfile|]. cbn. by apply parsePID_Itoa.
  - rewrite Hps. exists (mkProc (Some (showArgs [exe; "agent"; "run"])) true).
    split; [apply lookup_insert_eq|]. split; [done|exact Hrec].
Qed.

End Theorems.

(** ** Concrete runs *)

Module SupervisorDemo.
Definition paths : Paths :=
  mkPaths "cfg" "keys" (World.Join "cfg" "paired_devices.json") (World.Join "cfg" "config.toml").
Definition exe : string := "/usr/local/bin/pmux".
Definition agentProc : Proc := mkProc (Some (showArgs (ProcArgs := linuxArgs) [exe; "agent"; "run"])) true.
Definition pidFile (pid : Z) : File := mkFile (bytes_of (Itoa pid)) pidFilePerms.

Definition box (files : gmap Path File) (ps : Procs) : (MemorySecretStore * World) * Procs :=
  ((mkMemory {[ SecretKeyEd25519Private := [x01] ]},
    set_files (<[World.Join "keys" publicKeyFile := mkFile [x02] mode0600]> files)
      (set_dirs {["cfg"; "keys"]} world0)), ps).

(** Nothing runs; a process can be started. *)
Definition fresh := box ∅ (mkProcs ∅ [] [Some 4242] [] []).

(** An agent runs, and dies of the SIGTERM before the first poll. Meanwhile
    another pmux command has started a new one. *)
Definition stopping := box {[ PIDFilePath paths := pidFile 100 ]}
  (mkProcs {[ 100 := agentProc ]}
     [[]; []; []; []; [Exits 100; Starts 200 agentProc; FileBecomes (PIDFilePath paths) (Some (pidFile 200))]]
     [Some 300] [30%nat] []).
Definition stopped := snd (RunAgentStop (H0 := linuxArgs) paths stopping).
Definition restarted := snd (EnsureRunning (H0 := linuxArgs) (Some exe) paths stopped).
End SupervisorDemo.



(** The stop does not take the lock on the PID file: it removes the file of an
    agent started while it polled, which then runs unseen, and the next command
    starts a second one. *)
Example stop_orphans_a_new_agent :
  ps_trace (snd SupervisorDemo.stopped) =
    [Probe 100 true; ReadArgs 100 (pr_Args SupervisorDemo.agentProc); Kill 100 SIGTERM true; Probe 100 false] /\
  w_files (snd (fst SupervisorDemo.stopped)) !! PIDFilePath SupervisorDemo.paths = None /\
  isAgent (H0 := linuxArgs) 200 (snd SupervisorDemo.stopped) /\
  isAgent (H0 := linuxArgs) 200 (snd SupervisorDemo.restarted) /\
  isAgent (H0 := linuxArgs) 300 (snd SupervisorDemo.restarted).
Proof.
  split_and!; try (by vm_compute).
  all: eexists; split; [by vm_compute|]; by vm_compute.
Qed.

(** An executable path with blanks, as [ps] shows it. *)
Example darwin_path_with_blanks : recognised (P := darwinArgs) "/Users/A  B/bin/pmux".
Proof. by vm_compute. Qed.

(** Another program with the same last arguments. *)
Example not_an_agent : agentText (H := linuxArgs) (Some (showArgs (ProcArgs := linuxArgs) ["/usr/bin/vim"; "agent"; "run"])) = false.
Proof. by vm_compute. Qed.

