(* ===== verification/PairFlow.v ===== *)
(** * internal/agent/pair.go, unpair.go: the pair and unpair commands

    The two commands that change the pairing, composed of the modelled parts:
    the identity, the server calls, the pairing session, the record of the
    paired device and the control of the agent process. What is shown on the
    terminal is a log, without the warnings and the lines that only report
    progress. *)

From S2P Require Import Prelude GoLib GoText World SecretStore Identity Pairing Token PairSession Config Supervisor.
From Stdlib Require Import Ascii.
Open Scope Z_scope.

(** ** Libraries

    The code outside the repository the commands reach, as the parts they are
    composed of name it. *)

Class PairLib := {
  lib_sha256 : list byte -> list byte;
  lib_ed25519_Sign : list byte -> list byte -> list byte;
  lib_hmac_sha256 : list byte -> list byte -> list byte;
  lib_hkdf_read : list byte -> list byte -> list byte -> option (list byte);
  lib_x25519_base : list byte -> list byte;
  lib_x25519 : list byte -> list byte -> list byte;
  lib_url_Parse : string -> option URL;
  lib_netip_ParseAddr : string -> option Addr;
  lib_idna_ToASCII : string -> option string;
  (** [net.ParseIP]: the 16-byte form of an address. *)
  lib_net_ParseIP : string -> option (list byte);
  lib_IsPrint : Z -> bool;
  (** [qrcode.New]: whether the text fits a QR code. *)
  lib_qrcode_New : string -> bool;
  lib_toml_Unmarshal : list byte -> option fileConfig;
  lib_json_Marshal : JSON -> option (list byte);
  lib_json_Field : string -> list byte -> option string;
  lib_json_Initiate : list byte -> option PairInitiateResponse;
  lib_json_Devices : list PairedDevice -> option (list byte);
  lib_json_DevicesBack : list byte -> option (list PairedDevice);
  lib_json_TypeError : list byte -> option (string * string);
  lib_json_PairComplete : list byte -> option PairCompleteMessage;
  lib_json_PairResult : list byte -> option PairResultMessage;
  lib_json_Decision : Decision -> string -> bool
}.

(** ** Addresses (net.IP) *)

Definition ipByte (ip : list byte) (i : nat) : Z := default 0 (byteZ <$> ip !! i).

(** [ip.To4() != nil], for a 16-byte address. *)
Definition To4 (ip : list byte) : option (list byte) :=
  if bool_decide (take 12 ip = replicate 10 x00 ++ [xff; xff]) then Some (drop 12 ip) else None.

Definition IsLoopback (ip : list byte) : bool :=
  match To4 ip with
  | Some ip4 => ipByte ip4 0 =? 127
  | None => bool_decide (ip = replicate 15 x00 ++ [x01])
  end.

(** [ip.IsPrivate()] where [ip4] is [ip.To4()]. *)
Definition IsPrivate4 (ip4 : list byte) : bool :=
  (ipByte ip4 0 =? 10) ||
  ((ipByte ip4 0 =? 172) && (Z.land (ipByte ip4 1) 240 =? 16)) ||
  ((ipByte ip4 0 =? 192) && (ipByte ip4 1 =? 168)).

(** ** The terminal *)

(** [reader.ReadString] up to the newline, which [TrimSpace] removes. *)
Definition readLine (input : string) : string := default "" (head (Split input newline)).

(** [fmt.Fscanln] of one string: the only word of the line. *)
Definition Fscanln (input : string) : option string :=
  match Fields (readLine input) with
  | [word] => Some word
  | _ => None
  end.

Inductive Shown :=
| AskReplace (label : string) (pairedAt : Z)
| PairingCancelled
| NotConfirmingServer
| QRCode (payload : string)
| ManualCode (code : string)
| PreviousUnpaired (label : string)
| PairedWith (label : string)
| NoDevicePaired
| AskUnpair (name short : string)
| Unpaired (name : string).

Definition shortID (id : string) : string := if slen id >? 12 then stake 12 id +:+ "..." else id.

Definition pairedDeviceLabel (d : PairedDevice) : string :=
  if decide (pd_Name d <> "") then pd_Name d else shortID (pd_DeviceID d).

(** ** Errors *)

Inductive TransportError := ParseServerURL | RefusedCleartext (scheme host : string).

Inductive DialError :=
| DialNonce (e : TokenError)
| DialRejected (e : HMACRejectedError)
| DialConnect
| DialSession (e : SessionError).

Inductive PairCmdError :=
| NoIdentityFound
| PairLoadIdentity (e : IdentityError)
| PairTransport (e : TransportError)
| PairLoadDevice (e : DevicesError)
| PairKeypair (e : PairingError)
| PairGenerateSecret (e : PairingError)
| PairInitiate (e : TokenError)
| PairQRCode
| PairAuthenticate (e : TokenError)
| PairDial (e : DialError)
| PairWait (e : SessionError)
| PairMACRejected (e : PairingError)
| PairKeyExchange (e : PairingError)
| PairDirs (e : DirError)
| PairAcceptFailed (e : SessionError)
| PairSave (e : DevicesError).

Inductive UnpairError :=
| UnpairLoadDevice (e : DevicesError)
| UnpairRemove (e : DevicesError).

(** What the dialer returns: a connection, or an error with the response of
    the server, if it sent one. *)
Inductive Dialed :=
| Connected (c : Conn)
| DialFailed (resp : option (Z * list byte)).

Section PairFlow.
Context `{PairLib} {T : Type} `{SecretStore T} `{ProcArgs}.
(** [os.Executable()], [os.Hostname()], the environment and the HMAC secret
    of the build. *)
Variable executable : option string.
Variable hostname : option string.
Variable env : Environ.
Variable hmacSecret : string.
Variable paths : Paths.

Abbreviation Box := ((T * World) * Procs)%type.
Abbreviation Term := (Box * list Shown)%type.

Definition show (x : Shown) : M Term unit := on_snd (mmod (fun l => (l ++ [x])%list)).
Definition on_box {A} (m : M Box A) : M Term A := on_fst m.
Definition term_store {A} (m : M (T * World) A) : M Term A := on_box (on_store m).
Definition term_files {A} (m : M World A) : M Term A := on_box (on_files m).

Definition sanitize (s : string) : string := SanitizeDisplayString lib_IsPrint s.

Definition checkServerTransport (serverURL : string) : result TransportError unit :=
  u ← of_option ParseServerURL (lib_url_Parse serverURL);
  if negb (bool_decide (u_Scheme u = "http")) && negb (bool_decide (u_Scheme u = "ws")) then Ok tt
  else if decide (u_Hostname u = "localhost") then Ok tt
  else if match lib_net_ParseIP (u_Hostname u) with
          | Some ip => IsLoopback ip || match To4 ip with Some ip4 => IsPrivate4 ip4 | None => false end
          | None => false
          end then Ok tt
  else Err (RefusedCleartext (u_Scheme u) (u_Hostname u)).

(** A running agent reloads the pairing. *)
Definition reloadAgent : M Term unit :=
  running ← on_box (runningAgent (PIDFilePath paths));
  match running with
  | Some pid => on_box (signalReloadPairing pid)
  | None => mret tt
  end.

(** ** Pairing *)

(** [auth.DialPairSession]: the signed headers, the dialer, the session. *)
Definition dialPair (dialed : Dialed) (apiBaseURL jwt : string) (confirmed : bool)
    : M World (result DialError PairSession * option PairSession) :=
  hs ← SignWebSocketHeaders lib_hmac_sha256 lib_url_Parse (pairWsURL apiBaseURL) hmacSecret;
  match hs, dialed with
  | Err e, _ => mret (Err (DialNonce e), None)
  | Ok _, DialFailed (Some (status, body)) =>
      match CheckHMACRejection lib_json_Field status (take (N.to_nat 4096) body) apiBaseURL with
      | Some e => mret (Err (DialRejected e), None)
      | None => mret (Err DialConnect, None)
      end
  | Ok _, DialFailed None => mret (Err DialConnect, None)
  | Ok _, Connected c =>
      let '(r, sess) := DialPairSession lib_json_TypeError lib_json_PairComplete lib_IsPrint c jwt confirmed in
      mret (map_err DialSession r, Some sess)
  end.

(** The terminal and, once dialed, the session. *)
Abbreviation Dialog := (Term * PairSession)%type.

Definition on_term {A} (m : M Term A) : M Dialog A := on_fst m.
Definition on_session {A} (m : M PairSession A) : M Dialog A := on_snd m.

(** From the pair_complete to the new record. *)
Definition storePairing (id : Identity) (kp : X25519Keypair) (secret : string) (confirmed : bool)
    (pc : PairCompleteMessage) : M Dialog (result PairCmdError unit) :=
  _ ←! lift (map_err PairMACRejected
    (VerifyPairMAC lib_hmac_sha256 secret (pm_MobileX25519PublicKey pc) (pm_MobileDeviceID pc) (pm_PairMac pc)));
  sharedSecret ←! lift (map_err PairKeyExchange
    (ComputeSharedSecret lib_hkdf_read lib_x25519 kp (pm_MobileX25519PublicKey pc) secret
       (id_DeviceID id) (pm_MobileDeviceID pc)));
  _ ←! wrap PairDirs (on_term (term_files (EnsureDirs paths)));
  _ ←! (if confirmed then
          wrap PairAcceptFailed (on_session (Accept lib_json_PairResult lib_json_Decision lib_IsPrint))
        else ok tt);
  now ← on_term (term_files time_Now);
  wrap PairSave (on_term (term_store
    (AddPairedDevice lib_json_Devices (p_PairedDevices paths)
       (mkDevice (pm_MobileDeviceID pc) (TruncateMobileName (pm_MobileName pc)) sharedSecret now 0)))).

(** The rest of the body: the error, and whether the device was stored. *)
Definition completePairing (id : Identity) (kp : X25519Keypair) (secret : string) (confirmed : bool)
    (existing : option PairedDevice) (pc : PairCompleteMessage) : M Dialog (result PairCmdError unit * bool) :=
  r ← storePairing id kp secret confirmed pc;
  match r with
  | Err e => mret (Err e, false)
  | Ok _ =>
      _ ← match existing with
          | Some old =>
              if decide (pd_DeviceID old <> pm_MobileDeviceID pc)
              then ignore (on_term (term_store (DeleteSecret (SharedSecretKey (pd_DeviceID old)))))
              else mret tt
          | None => mret tt
          end;
      let mobileName := TruncateMobileName (pm_MobileName pc) in
      _ ← on_term (show (PairedWith (sanitize (if decide (mobileName = "") then pm_MobileDeviceID pc else mobileName))));
      _ ← on_term reloadAgent;
      mret (Ok tt, true)
  end.

(** The deferred clean-up after a legacy server committed the pairing. *)
Definition settleLegacy (id : Identity) (apiBaseURL : string) (confirmed : bool)
    (existing : option PairedDevice) (pc : option PairCompleteMessage) (stored : bool) : M Term unit :=
  match confirmed, pc with
  | true, _ | _, None => mret tt
  | false, Some pc =>
      _ ← (if stored then mret tt else
             ignore (term_files (DeletePairing lib_hmac_sha256 lib_ed25519_Sign lib_url_Parse lib_netip_ParseAddr
               lib_idna_ToASCII lib_IsPrint lib_json_Marshal lib_json_Field id apiBaseURL hmacSecret)));
      match existing with
      | None => mret tt
      | Some old =>
          if stored && bool_decide (pd_DeviceID old = pm_MobileDeviceID pc) then mret tt else
          _ ← (if stored then mret tt else
                 ignore (term_store (RemovePairedDevice lib_json_Devices lib_json_DevicesBack
                   (p_PairedDevices paths) (pd_DeviceID old))));
          show (PreviousUnpaired (sanitize (pairedDeviceLabel old)))
      end
  end.

(** From the dialed session on, with its deferred calls in the order they run. *)
Definition pairOverSession (id : Identity) (kp : X25519Keypair) (secret code payload apiBaseURL : string)
    (confirmed : bool) (existing : option PairedDevice) (ctx : option nat) (ticks : nat)
    : M Dialog (result PairCmdError unit) :=
  _ ← on_term (show (QRCode payload));
  _ ← on_term (show (ManualCode (sanitize (FormatManualCode code secret))));
  w ← on_session (WaitForPairComplete lib_json_PairComplete ctx ticks);
  let '(pc, err) := w in
  (* no error means there is a message *)
  out ← match err, pc with
        | Some e, _ => mret (Err (PairWait e), false)
        | None, None => mret (Err (PairWait NoPairComplete), false)
        | None, Some m => completePairing id kp secret confirmed existing m
        end;
  let '(r, stored) := out in
  _ ← on_term (settleLegacy id apiBaseURL confirmed existing pc stored);
  _ ← ignore (on_session (SessionClose lib_json_Decision));
  mret r.

Definition withSession {A} (sess : PairSession) (m : M Dialog A) : M Term (A * PairSession) := fun s =>
  let '(a, (s', sess')) := m (s, sess) in ((a, sess'), s').

(** From the moment the agent is stopped: the result, and the session if one
    was dialed. *)
Definition pairWithServer (id : Identity) (kp : X25519Keypair) (secret code payload apiBaseURL : string)
    (confirmed : bool) (existing : option PairedDevice) (dialed : Dialed) (ctx : option nat) (ticks : nat)
    : M Term (result PairCmdError unit * option PairSession) :=
  jwt ← term_files (ExchangeToken lib_hmac_sha256 lib_ed25519_Sign lib_url_Parse lib_netip_ParseAddr
          lib_idna_ToASCII lib_IsPrint lib_json_Marshal lib_json_Field id apiBaseURL hmacSecret);
  match jwt with
  | Err e => mret (Err (PairAuthenticate e), None)
  | Ok jwt =>
      d ← term_files (dialPair dialed apiBaseURL jwt confirmed);
      match d with
      | (Err e, sess) => mret (Err (PairDial e), sess)
      | (Ok sess, _) =>
          out ← withSession sess (pairOverSession id kp secret code payload apiBaseURL confirmed existing ctx ticks);
          mret (fst out, Some (snd out))
      end
  end.

(** What comes before: nothing but a QR code that was never shown is lost when
    it fails. [None]: the user declined. *)
Record Prepared := mkPrepared {
  pp_Identity : Identity;
  pp_Existing : option PairedDevice;
  pp_Keypair : X25519Keypair;
  pp_Secret : string;
  pp_Response : PairInitiateResponse;
  pp_Payload : string
}.

Definition confirmReplace (existing : option PairedDevice) (input : string) : M Term bool :=
  match existing with
  | None => mret true
  | Some d =>
      _ ← show (AskReplace (sanitize (pairedDeviceLabel d)) (pd_PairedAt d));
      let answer := TrimSpace (readLine input) in
      if EqualsLower answer "y" || EqualsLower answer "yes" then mret true
      else _ ← show PairingCancelled; mret false
  end.

Definition preparePair (cfg : Config) (input : string) : M Term (result PairCmdError (option Prepared)) :=
  has ← term_store (HasIdentity (p_KeysDir paths));
  if negb has then fail NoIdentityFound else
  id ←! wrap PairLoadIdentity (term_store (LoadIdentity lib_sha256 (p_KeysDir paths)));
  let serverURL := ServerURL cfg in
  let apiBaseURL := APIBaseURL cfg in
  _ ←! lift (map_err PairTransport (checkServerTransport serverURL));
  existing ←! wrap PairLoadDevice (term_store (LoadPairedDevice lib_json_DevicesBack (p_PairedDevices paths)));
  yes ← confirmReplace existing input;
  if negb yes then ok None else
  kp ←! wrap PairKeypair (term_files (GenerateX25519Keypair lib_x25519_base));
  secret ←! wrap PairGenerateSecret (term_files GeneratePairingSecret);
  let hostName := if decide (c_Name cfg = "") then DefaultHostName hostname else c_Name cfg in
  resp ←! wrap PairInitiate (term_files (InitiatePairing lib_hmac_sha256 lib_ed25519_Sign lib_url_Parse
            lib_netip_ParseAddr lib_idna_ToASCII lib_IsPrint lib_json_Marshal lib_json_Field lib_json_Initiate
            id (PublicKeyBase64 kp) apiBaseURL hostName hmacSecret));
  _ ← (if pi_PairConfirm resp then mret tt else show NotConfirmingServer);
  let payload := BuildQRPayload (pi_PairingCode resp) (PublicKeyBase64 kp) (id_DeviceID id) serverURL secret in
  if negb (lib_qrcode_New payload) then fail PairQRCode
  else ok (Some (mkPrepared id existing kp secret resp payload)).

Definition RunPair (cfg : Config) (input : string) (dialed : Dialed) (ctx : option nat) (ticks : nat)
    : M Term (result PairCmdError unit * option PairSession) :=
  p ← preparePair cfg input;
  match p with
  | Err e => mret (Err e, None)
  | Ok None => mret (Ok tt, None)
  | Ok (Some p) =>
      _ ← ignore (on_box (StopRunning paths));
      out ← pairWithServer (pp_Identity p) (pp_Keypair p) (pp_Secret p) (pi_PairingCode (pp_Response p))
              (pp_Payload p) (APIBaseURL cfg) (pi_PairConfirm (pp_Response p)) (pp_Existing p) dialed ctx ticks;
      _ ← ignore (on_box (EnsureRunning executable paths));
      mret out
  end.

(** ** Unpairing *)

Definition notifyServer : M Term unit :=
  id ← term_store (LoadIdentity lib_sha256 (p_KeysDir paths));
  match id with
  | Err _ => mret tt
  | Ok id =>
      r ← term_files (LoadConfig lib_toml_Unmarshal env (p_ConfigFile paths));
      let cfg := match r with Ok cfg => cfg | Err _ => zeroConfig end in
      ignore (term_files (DeletePairing lib_hmac_sha256 lib_ed25519_Sign lib_url_Parse lib_netip_ParseAddr
        lib_idna_ToASCII lib_IsPrint lib_json_Marshal lib_json_Field id (APIBaseURL cfg) hmacSecret))
  end.

Definition RunUnpair (input : string) : M Term (result UnpairError unit) :=
  device ←! wrap UnpairLoadDevice (term_store (LoadPairedDevice lib_json_DevicesBack (p_PairedDevices paths)));
  match device with
  | None => _ ← show NoDevicePaired; ok tt
  | Some device =>
      let name := if decide (pd_Name device = "") then "(unnamed)" else pd_Name device in
      _ ← show (AskUnpair (sanitize name) (sanitize (shortID (pd_DeviceID device))));
      match Fscanln input with
      | None => ok tt
      | Some response =>
          if negb (EqualsLower response "y") then ok tt else
          _ ← notifyServer;
          _ ←! wrap UnpairRemove (term_store (RemovePairedDevice lib_json_Devices lib_json_DevicesBack
                 (p_PairedDevices paths) (pd_DeviceID device)));
          _ ← reloadAgent;
          _ ← show (Unpaired (sanitize name));
          ok tt
      end
  end.
End PairFlow.
