(* ===== verification/PairFlowProps.v ===== *)
(** * What the pair and unpair commands guarantee

    A device is stored only after it proved that it saw this code and, where
    the server confirms pairings, after the server committed the answer; and
    unpairing forgets the device. The other processes may meanwhile do anything
    to processes and to files outside the record and the store. *)

From S2P Require Import Prelude GoLib GoText World SecretStore Identity Pairing Token PairSession Config Supervisor PairFlow.
From Stdlib Require Import Ascii.
Open Scope Z_scope.

(** ** Talking to the server changes no file *)

Create HintDb net.

Section Network.
Context `{PairLib}.
Variable P : Path -> Prop.

Lemma touches_time_Now : touches P time_Now.
Proof. intros w. unfold time_Now. by destruct (w_clock w). Qed.

Lemma touches_http_Do rq : touches P (http_Do rq).
Proof. intros w. unfold http_Do. by destruct (w_replies w). Qed.

Lemma touches_ok {E A} (a : A) : touches P (ok a : M World (result E A)).
Proof. apply touches_ret. Qed.

Lemma touches_fail {E A} (e : E) : touches P (fail e : M World (result E A)).
Proof. apply touches_ret. Qed.

#[local] Hint Resolve touches_time_Now touches_http_Do touches_ok touches_fail touches_ret touches_lift touches_bind
  touches_mbind_err touches_wrap touches_rand_Read touches_MkdirAll : net.
#[local] Hint Extern 3 (touches _ (mret _)) => apply touches_ret : net.
#[local] Hint Extern 4 (touches _ (match ?x with _ => _ end)) => destruct x : net.

Lemma touches_SignRequest u rq secret : touches P (SignRequest lib_hmac_sha256 u rq secret).
Proof. unfold SignRequest, signatureHeaders, generateNonce. auto 20 with net. Qed.
#[local] Hint Resolve touches_SignRequest : net.

Lemma touches_postJSON b url j secret : touches P (postJSON lib_hmac_sha256 lib_url_Parse lib_json_Marshal b url j secret).
Proof. unfold postJSON. auto 20 with net. Qed.
#[local] Hint Resolve touches_postJSON : net.

Lemma touches_fetchChallenge id url secret :
  touches P (fetchChallenge lib_hmac_sha256 lib_url_Parse lib_IsPrint lib_json_Marshal lib_json_Field id url secret).
Proof. unfold fetchChallenge. auto 20 with net. Qed.
#[local] Hint Resolve touches_fetchChallenge : net.

Lemma touches_ExchangeToken id url secret :
  touches P (ExchangeToken lib_hmac_sha256 lib_ed25519_Sign lib_url_Parse lib_netip_ParseAddr
    lib_idna_ToASCII lib_IsPrint lib_json_Marshal lib_json_Field id url secret).
Proof. unfold ExchangeToken. auto 20 with net. Qed.
#[local] Hint Resolve touches_ExchangeToken : net.

Lemma touches_InitiatePairing id key url host secret :
  touches P (InitiatePairing lib_hmac_sha256 lib_ed25519_Sign lib_url_Parse lib_netip_ParseAddr
    lib_idna_ToASCII lib_IsPrint lib_json_Marshal lib_json_Field lib_json_Initiate id key url host secret).
Proof. unfold InitiatePairing. auto 20 with net. Qed.

Lemma touches_DeletePairing id url secret :
  touches P (DeletePairing lib_hmac_sha256 lib_ed25519_Sign lib_url_Parse lib_netip_ParseAddr
    lib_idna_ToASCII lib_IsPrint lib_json_Marshal lib_json_Field id url secret).
Proof. unfold DeletePairing, deleteFromServer. auto 20 with net. Qed.

Lemma touches_DeleteDevice id url secret :
  touches P (DeleteDevice lib_hmac_sha256 lib_ed25519_Sign lib_url_Parse lib_netip_ParseAddr
    lib_idna_ToASCII lib_IsPrint lib_json_Marshal lib_json_Field id url secret).
Proof. unfold DeleteDevice, deleteFromServer. auto 20 with net. Qed.

Lemma touches_LoadConfig env path : touches P (LoadConfig lib_toml_Unmarshal env path).
Proof.
  pose proof (touches_ReadFile P path). unfold LoadConfig. apply touches_bind; [done|]. intros [data|[]]; auto with net.
Qed.

Lemma touches_dialPair hmacSecret dialed url jwt confirmed : touches P (dialPair hmacSecret dialed url jwt confirmed).
Proof. unfold dialPair, SignWebSocketHeaders, signatureHeaders, generateNonce. auto 20 with net. Qed.

Lemma touches_GenerateX25519Keypair : touches P (GenerateX25519Keypair lib_x25519_base).
Proof. unfold GenerateX25519Keypair. auto 20 with net. Qed.

Lemma touches_GeneratePairingSecret : touches P GeneratePairingSecret.
Proof. unfold GeneratePairingSecret. auto 20 with net. Qed.

Lemma touches_EnsureDirs paths : touches P (EnsureDirs paths).
Proof. unfold EnsureDirs. auto 20 with net. Qed.
End Network.

#[export] Hint Resolve touches_time_Now touches_ExchangeToken touches_InitiatePairing touches_DeletePairing touches_DeleteDevice
  touches_LoadConfig touches_dialPair
  touches_GenerateX25519Keypair touches_GeneratePairingSecret touches_EnsureDirs : pmux.

(** ** The store and the record, held through a sequence of calls

    The stores the commands run over all contain the secrets, the files and,
    from [Box] on, what the other processes are about to do. *)

Class Stage (T S : Type) := {
  st_store : S -> T * World;
  st_events : S -> list (list Event)
}.

#[export] Hint Mode Stage - ! : typeclass_instances.
#[export] Instance stage_store {T} : Stage T (T * World) := {| st_store s := s; st_events _ := [] |}.
#[export] Instance stage_box {T} : Stage T ((T * World) * Procs) := {| st_store := fst; st_events s := ps_events (snd s) |}.
#[export] Instance stage_term {T} : Stage T (((T * World) * Procs) * list Shown) :=
  {| st_store s := st_store (fst s); st_events s := st_events (fst s) |}.
#[export] Instance stage_dialog {T} : Stage T ((((T * World) * Procs) * list Shown) * PairSession) :=
  {| st_store s := st_store (fst s); st_events s := st_events (fst s) |}.

Create HintDb calm.

Section Held.
Context {T : Type} `{SecretStoreLaws T} `{ProcArgs} `{PairLib}.
Variable executable : option string.
Variable paths : Paths.
Variables dir name : string.
(** The files of the store. *)
Variable mine : Path -> Prop.

Abbreviation Box := ((T * World) * Procs)%type.
Abbreviation Term := (Box * list Shown)%type.
Abbreviation Dialog := (Term * PairSession)%type.


(** The record of the paired device. *)
Abbreviation record := (Join dir name).

(** The files the commands write beside the record and the store's. *)
Definition ours (q : Path) : Prop :=
  q ∈ [PIDFilePath paths; pidTmpPath paths; agentLogPath paths; Join (p_KeysDir paths) publicKeyFile] \/
  exists k, q = Temp dir ".paired-" k.

Definition elsewhere (q : Path) : Prop := q <> record /\ ~ mine q.

Definition harmless (ev : Event) : Prop :=
  match ev with FileBecomes q _ => elsewhere q | _ => True end.

(** The secrets are [m], the record is the file [f], and nothing the commands
    or the other processes do beside them can reach either. *)
Record held {S : Type} `{Stage T S} (m : gmap string (list byte)) (f : option File) (s : S) : Prop := {
  he_view : view (st_store s) m;
  he_record : w_files (snd (st_store s)) !! record = f;
  he_mine : forall p, owns (fst (st_store s)) p <-> mine p;
  he_apart : ~ mine record;
  he_ours : forall q, ours q -> elsewhere q;
  he_events : Forall (Forall harmless) (st_events s)
}.

(** [m] leaves both as they are. *)
Definition calm {S A : Type} `{Stage T S} (c : M S A) : Prop :=
  forall m f s, held m f s -> held m f (snd (c s)).

Lemma held_frame {S S' : Type} `{Stage T S} `{Stage T S'} m f (s : S) m' f' (s' : S') :
  held m f s -> (forall p, owns (fst (st_store s')) p <-> owns (fst (st_store s)) p) ->
  view (st_store s') m' -> w_files (snd (st_store s')) !! record = f' ->
  Forall (Forall harmless) (st_events s') -> held m' f' s'.
Proof.
  intros [_ _ Hm Ha Ho He] Hown Hv Hf Hev. split; [done|done| |done..]. intros p. by rewrite Hown.
Qed.

Lemma held_unowned {S : Type} `{Stage T S} m f (s : S) q : held m f s -> ~ mine q -> ~ owns (fst (st_store s)) q.
Proof. intros Hs. by rewrite (he_mine _ _ _ Hs). Qed.

(** *** Sequences *)

Section Stages.
Context {S : Type} `{Stage T S}.

Lemma calm_ret {A} (a : A) : calm (mret a : M S A).
Proof. by intros m f s Hs. Qed.

Lemma calm_lift {E A} (r : result E A) : calm (lift r : M S _).
Proof. by intros m f s Hs. Qed.

Lemma calm_bind {A B} (c : M S A) (k : A -> M S B) : calm c -> (forall a, calm (k a)) -> calm (c ≫= k).
Proof. intros Hc Hk m f s Hs. rewrite mbind_run. by apply Hk, Hc. Qed.

Lemma calm_bind_err {E A B} (c : M S (result E A)) (k : A -> M S (result E B)) :
  calm c -> (forall a, calm (k a)) -> calm (mbind_err c k).
Proof.
  intros Hc Hk m f s Hs. unfold mbind_err. specialize (Hc m f s Hs).
  destruct (c s) as [[a|e] s']; [by apply Hk|done].
Qed.

Lemma calm_wrap {E F A} (g : E -> F) (c : M S (result E A)) : calm c -> calm (wrap g c).
Proof. intros Hc m f s Hs. specialize (Hc m f s Hs). unfold wrap. by destruct (c s). Qed.

Lemma calm_ignore {A} (c : M S A) : calm c -> calm (ignore c).
Proof. intros Hc m f s Hs. by apply Hc. Qed.
End Stages.

(** *** Calls on one part *)

Lemma calm_touches {A} (c : M World A) : touches ours c -> calm (on_snd c : M (T * World) A).
Proof.
  intros Ht m f [t w] Hs. pose proof (Ht w) as Ha. rewrite on_snd_run. cbn [fst snd].
  assert (Hq : forall q, ~ ours q -> w_files (snd (c w)) !! q = w_files w !! q) by done.
  eapply held_frame; [exact Hs|done| | |done]; cbn.
  - eapply view_frame; [|apply Hs]. intros p Hp. apply Hq. intros Hp'.
    apply (he_ours _ _ _ Hs) in Hp' as [_ Hp']. by apply Hp', (he_mine _ _ _ Hs).
  - rewrite Hq; [apply Hs|]. intros Hp. by apply (he_ours _ _ _ Hs) in Hp as [? _].
Qed.

Lemma held_Get k m f (s : T * World) : held m f s ->
  let '(r, s') := Get k s in
  held m f s' /\ match r with
                 | Ok v => m !! k = Some v
                 | Err ErrSecretNotFound => m !! k = None
                 | Err (StoreFailed _) => True
                 end.
Proof.
  intros Hs. pose proof (Get_law k s m (he_view _ _ _ Hs)) as Hl. pose proof (Get_owns k s) as Ho.
  pose proof (Get_frame k s dir name (held_unowned _ _ _ _ Hs (he_apart _ _ _ Hs))) as Hf. destruct (Get k s) as [r s'].
  destruct Hl as [Hv Hl]. cbn [fst snd] in *.
  split; [|exact Hl]. eapply held_frame; [exact Hs|exact Ho|exact Hv|by rewrite <-(he_record _ _ _ Hs)|done].
Qed.

Lemma calm_Get k : calm (Get k : M (T * World) _).
Proof. intros m f s Hs. pose proof (held_Get k m f s Hs) as Hg. destruct (Get k s). apply Hg. Qed.

Lemma held_Set k v m f (s : T * World) : held m f s ->
  let '(r, s') := SetSecret k v s in
  match r with
  | Ok _ => held (<[k := v]> m) f s'
  | Err _ => exists m', held m' f s'
  end.
Proof.
  intros Hs. pose proof (Set_law k v s m (he_view _ _ _ Hs)) as Hl. pose proof (Set_owns k v s) as Ho.
  pose proof (Set_frame k v s dir name (held_unowned _ _ _ _ Hs (he_apart _ _ _ Hs))) as Hf. destruct (SetSecret k v s) as [[[]|e] s']; cbn [fst snd] in *.
  - eapply held_frame; [exact Hs|exact Ho|exact Hl|by rewrite <-(he_record _ _ _ Hs)|done].
  - destruct e; [done|]. destruct Hl as [Hl|Hl]; eexists;
      (eapply held_frame; [exact Hs|exact Ho|exact Hl|by rewrite <-(he_record _ _ _ Hs)|done]).
Qed.

Lemma held_Delete k m f (s : T * World) : held m f s ->
  let '(r, s') := DeleteSecret k s in
  match r with
  | Ok _ => held (delete k m) f s'
  | Err _ => held m f s' \/ held (delete k m) f s'
  end.
Proof.
  intros Hs. pose proof (Delete_law k s m (he_view _ _ _ Hs)) as Hl. pose proof (Delete_owns k s) as Ho.
  pose proof (Delete_frame k s dir name (held_unowned _ _ _ _ Hs (he_apart _ _ _ Hs))) as Hf. destruct (DeleteSecret k s) as [[[]|e] s']; cbn [fst snd] in *.
  - eapply held_frame; [exact Hs|exact Ho|exact Hl|by rewrite <-(he_record _ _ _ Hs)|done].
  - destruct e; [done|]. destruct Hl as [Hl|Hl]; [left|right];
      (eapply held_frame; [exact Hs|exact Ho|exact Hl|by rewrite <-(he_record _ _ _ Hs)|done]).
Qed.

Lemma calm_on_store {A} (c : M (T * World) A) : calm c -> calm (on_store c : M Box A).
Proof.
  intros Hc m f [tw ps] Hs. unfold on_store, on_fst.
  assert (H3 : held m f tw) by (destruct Hs; by split).
  specialize (Hc m f tw H3). destruct (c tw) as [a tw']. destruct Hc, Hs. by split.
Qed.

Lemma calm_on_files {A} (c : M World A) : touches ours c -> calm (on_files c : M Box A).
Proof. intros Hc. by apply calm_on_store, calm_touches. Qed.

Lemma calm_on_procs {A} (c : M Procs A) :
  (forall ps, ps_events (snd (c ps)) = ps_events ps) -> calm (on_procs c : M Box A).
Proof.
  intros Hc m f [tw ps] Hs. unfold on_procs, on_snd. specialize (Hc ps). destruct (c ps) as [a ps'].
  destruct Hs. split; try done. cbn in *. by rewrite Hc.
Qed.

Lemma calm_on_box {A} (c : M Box A) : calm c -> calm (on_box c : M Term A).
Proof.
  intros Hc m f [s l] Hs. unfold on_box, on_fst. assert (H3 : held m f s) by (destruct Hs; by split).
  specialize (Hc m f s H3). destruct (c s) as [a s']. destruct Hc. by split.
Qed.

Lemma calm_on_term {A} (c : M Term A) : calm c -> calm (on_term c : M Dialog A).
Proof.
  intros Hc m f [s l] Hs. unfold on_term, on_fst. assert (H3 : held m f s) by (destruct Hs; by split).
  specialize (Hc m f s H3). destruct (c s) as [a s']. destruct Hc. by split.
Qed.

Lemma calm_show x : calm (show x : M Term unit).
Proof. intros m f [s l] Hs. destruct Hs. by split. Qed.

Lemma calm_on_session {A} (c : M PairSession A) : calm (on_session c : M Dialog A).
Proof. intros m f [s l] Hs. unfold on_session, on_snd. destruct (c l). destruct Hs. by split. Qed.

Lemma held_happens m f ev (s : Box) : harmless ev -> held m f s -> held m f (happens ev s).
Proof.
  intros He Hs. destruct s as [[t w] ps]. destruct ev as [pid|pid p|path file]; [(by destruct Hs)..|].
  destruct He as [He1 He2].
  assert (exists w', happens (FileBecomes path file) (t, w, ps) = (t, w', ps) /\
    forall q, q <> path -> w_files w' !! q = w_files w !! q) as (w' & -> & Hq).
  { cbn. destruct file; (eexists; split; [done|]); intros q Hq; cbn; [by rewrite lookup_insert_ne|by rewrite lookup_delete_ne]. }
  eapply held_frame; [exact Hs|done| | |apply Hs]; cbn.
  - eapply view_frame; [|apply Hs]. intros q Hown. apply Hq. intros ->. by apply He2, (he_mine _ _ _ Hs).
  - rewrite Hq by done. apply Hs.
Qed.

Lemma calm_others : calm (others : M Box unit).
Proof.
  intros m f [tw ps] Hs. unfold others. cbn [fst snd].
  assert (Hh : Forall harmless (default [] (head (ps_events ps)))).
  { destruct Hs as [_ _ _ _ _ He]. cbn in He. destruct (ps_events ps); [done|]. by apply Forall_cons in He as [? _]. }
  set (s0 := (tw, ps <| ps_events ::= tail |>)).
  assert (H3 : held m f s0).
  { destruct Hs as [? ? ? ? ? He]. split; try done. cbn in *. destruct (ps_events ps); [done|].
    by apply Forall_cons in He as [_ ?]. }
  clearbody s0. revert s0 H3. induction Hh as [|ev l He Hh IH]; intros s0 H3; [exact H3|].
  cbn [foldl]. by apply IH, held_happens.
Qed.

(** *** The calls the commands are made of *)

Lemma calm_ok {S : Type} `{Stage T S} {E A} (a : A) : calm (ok a : M S (result E A)).
Proof. by intros m f s Hs. Qed.

Lemma calm_fail {S : Type} `{Stage T S} {E A} (e : E) : calm (fail e : M S (result E A)).
Proof. by intros m f s Hs. Qed.

#[local] Hint Resolve calm_ret calm_lift calm_ok calm_fail calm_bind calm_bind_err calm_wrap calm_ignore calm_Get
  calm_touches calm_on_store calm_on_files calm_on_box calm_on_term calm_show calm_on_session calm_others : calm.
#[local] Hint Extern 4 (calm (match ?x with _ => _ end)) => destruct x : calm.
#[local] Hint Extern 4 (calm (on_procs _)) => apply calm_on_procs; intros; reflexivity : calm.
#[local] Hint Extern 4 (touches ours _) => solve [auto with pmux] : calm.
#[local] Hint Unfold traced : calm.

Lemma calm_kill pid sig : calm (kill pid sig : M Box bool).
Proof. unfold kill, traced, mmod. auto 20 with calm. Qed.

Lemma calm_IsProcessRunning pid : calm (IsProcessRunning pid : M Box bool).
Proof. unfold IsProcessRunning, traced, mmod. auto 20 with calm. Qed.

Lemma calm_procArgs pid : calm (procArgs pid : M Box _).
Proof. unfold procArgs, traced, mmod. auto 20 with calm. Qed.
#[local] Hint Resolve calm_kill calm_IsProcessRunning calm_procArgs : calm.

Lemma calm_IsAgentProcess pid : calm (IsAgentProcess pid : M Box bool).
Proof. unfold IsAgentProcess. auto 20 with calm. Qed.

Lemma calm_ReadPIDFile path : calm (ReadPIDFile path : M Box _).
Proof. unfold ReadPIDFile. auto 20 with calm. Qed.
#[local] Hint Resolve calm_IsAgentProcess calm_ReadPIDFile : calm.

Lemma calm_runningAgent path : calm (runningAgent path : M Box _).
Proof. unfold runningAgent. auto 20 with calm. Qed.

Lemma ours_pid : ours (PIDFilePath paths).
Proof. left. rewrite !elem_of_cons. auto. Qed.
Lemma ours_log : ours (agentLogPath paths).
Proof. left. rewrite !elem_of_cons. auto. Qed.
Lemma ours_pub : ours (Join (p_KeysDir paths) publicKeyFile).
Proof. left. rewrite !elem_of_cons. auto. Qed.
#[local] Hint Resolve ours_pid ours_log ours_pub : calm pmux.

Lemma calm_RemovePIDFile : calm (RemovePIDFile (PIDFilePath paths) : M Box _).
Proof. unfold RemovePIDFile. auto 20 with calm. Qed.

Lemma calm_pollExit ticks pid : calm (pollExit ticks pid : M Box bool).
Proof. induction ticks; cbn [pollExit]; auto 20 with calm. Qed.

Lemma calm_next_ticks : calm (next_ticks : M Box nat).
Proof. unfold next_ticks. auto with calm. Qed.
#[local] Hint Resolve calm_runningAgent calm_RemovePIDFile calm_pollExit calm_next_ticks : calm.

Lemma calm_StopRunning : calm (StopRunning paths : M Box _).
Proof. unfold StopRunning. auto 40 with calm. Qed.

Lemma touches_openCreate p perm : ours p -> touches ours (openCreate p perm).
Proof.
  intros Hp. apply touches_faulty. intros w. destruct (w_files w !! p); [apply agree_refl|].
  case_decide; [by apply touches_put|apply agree_refl].
Qed.
#[local] Hint Resolve touches_openCreate : calm pmux.

Lemma calm_startProcess exe : calm (startProcess exe : M Box _).
Proof. unfold startProcess, traced, mmod. auto 20 with calm. Qed.
#[local] Hint Resolve calm_startProcess : calm.

Lemma calm_CheckIdentity : calm (CheckIdentity (p_KeysDir paths) : M (T * World) _).
Proof. unfold CheckIdentity. auto 20 with calm. Qed.
#[local] Hint Resolve calm_CheckIdentity : calm.

Lemma calm_EnsureRunning : calm (EnsureRunning executable paths : M Box _).
Proof.
  unfold EnsureRunning, spawn, signalActivity.
  assert (touches ours (faulty (ok tt))) by (apply touches_faulty, touches_ret).
  auto 40 with calm.
Qed.

Lemma calm_LoadIdentity : calm (LoadIdentity lib_sha256 (p_KeysDir paths) : M (T * World) _).
Proof.
  unfold LoadIdentity. assert (touches ours (enforceKeyFilePerms (Join (p_KeysDir paths) publicKeyFile)))
    by apply touches_enforce, ours_pub. auto 20 with calm.
Qed.

Lemma calm_LoadPairedDevice path : calm (LoadPairedDevice lib_json_DevicesBack path : M (T * World) _).
Proof.
  assert (forall ds, calm (loadSecrets ds : M (T * World) _)).
  { induction ds; cbn [loadSecrets]; auto 20 with calm. }
  unfold LoadPairedDevice, LoadPairedDevices. auto 20 with calm.
Qed.
#[local] Hint Resolve calm_StopRunning calm_EnsureRunning calm_LoadIdentity calm_LoadPairedDevice : calm.

(** *** The record *)

Lemma held_save devices m f (s : T * World) : held m f s ->
  let '(r, s') := on_snd (SavePairedDevices lib_json_Devices record devices) s in
  match r with
  | Ok _ => exists data, lib_json_Devices (map withoutSecret devices) = Some data /\
      held m (Some (mkFile data mode0600)) s'
  | Err _ => held m f s'
  end.
Proof.
  intros Hs. destruct s as [t w]. rewrite on_snd_run. cbn [fst snd]. unfold SavePairedDevices.
  destruct (lib_json_Devices _) as [data|]; [|exact Hs]. unfold wrap.
  destruct (writeAtomic ".paired-" record data w) as [[[]|e] w'] eqn:Hw; cbn [map_err fst snd].
  - exists data. split; [done|]. apply writeAtomic_Ok in Hw.
    eapply held_frame; [exact Hs|done| | |apply Hs]; cbn.
    + eapply view_frame; [|apply Hs]. intros p Hp. rewrite Hw, lookup_insert_ne; [done|]. intros <-.
      by apply (he_apart _ _ _ Hs), (he_mine _ _ _ Hs).
    + by rewrite Hw, lookup_insert_eq.
  - apply writeAtomic_Err in Hw as (k & Ha).
    eapply held_frame; [exact Hs|done| | |apply Hs]; cbn.
    + eapply view_frame; [|apply Hs]. intros p Hp. apply Ha. intros <-.
      destruct (he_ours _ _ _ Hs (Temp dir ".paired-" k)) as [_ Hn]; [right; eauto|].
      by apply Hn, (he_mine _ _ _ Hs).
    + rewrite Ha by done. apply Hs.
Qed.

Lemma held_Add dev sec m f (s : T * World) : held m f s -> pd_SharedSecret dev = b64_encode sec -> sec <> [] ->
  let '(r, s') := AddPairedDevice lib_json_Devices record dev s in
  match r with
  | Ok _ => exists data, lib_json_Devices [withoutSecret dev] = Some data /\
      held (<[SharedSecretKey (pd_DeviceID dev) := sec]> m) (Some (mkFile data mode0600)) s'
  | Err _ => exists m', held m' f s'
  end.
Proof.
  intros Hs Hsec Hne. unfold AddPairedDevice. rewrite Hsec, b64_decode_encode.
  rewrite decide_True by (destruct sec as [|? [|? [|]]]; cbn; congruence).
  unfold mbind_err at 1, lift. destruct (map_err AddInvalidID _); [|by exists m].
  unfold mbind_err, wrap. pose proof (held_Set (SharedSecretKey (pd_DeviceID dev)) sec m f s Hs) as Hset.
  destruct (SetSecret _ sec s) as [[[]|e] s1]; cbn [map_err]; [|done].
  pose proof (held_save [dev] _ _ _ Hset) as Hsv.
  destruct (on_snd _ s1) as [[[]|e] s2]; [exact Hsv|eauto].
Qed.

Definition listed (f : option File) : list PairedDevice :=
  match f with
  | None => []
  | Some f => default [] (lib_json_DevicesBack (f_data f))
  end.

(** The record [f] without the device [id]. *)
Definition dropped (id : string) (f : option File) : option (list byte) :=
  lib_json_Devices (map withoutSecret (base.filter (fun d => pd_DeviceID d <> id) (listed f))).

Lemma map_secretIn m id l :
  map withoutSecret (base.filter (fun d => pd_DeviceID d <> id) (map (secretIn m) l)) =
  map withoutSecret (base.filter (fun d => pd_DeviceID d <> id) l).
Proof.
  induction l as [|d l IH]; [done|]. cbn [map]. rewrite !filter_cons, secretIn_ID.
  case_decide; [|done]. cbn [map]. by rewrite IH, withoutSecret_secretIn.
Qed.

Lemma held_Load m f (s : T * World) : held m f s ->
  let '(r, s') := LoadPairedDevices lib_json_DevicesBack record s in
  held m f s' /\ forall ds, r = Ok ds -> ds = map (secretIn m) (listed f).
Proof.
  intros Hs. pose proof (calm_LoadPairedDevice record m f s Hs) as Hc.
  pose proof (LoadPairedDevices_Ok lib_json_DevicesBack dir name s m) as Hl.
  unfold LoadPairedDevice, mbind_err, ok in Hc.
  destruct (LoadPairedDevices lib_json_DevicesBack record s) as [[ds|e] s'] eqn:He; (split; [exact Hc|]); [|done].
  intros ds' [= <-]. destruct (Hl ds s') as (_ & _ & ->).
  - apply Hs.
  - exact (held_unowned m f s _ Hs (he_apart _ _ _ Hs)).
  - done.
  - unfold listed. rewrite <-(he_record _ _ _ Hs). by destruct (w_files _ !! _).
Qed.

Lemma held_Remove id m f (s : T * World) : held m f s ->
  let '(r, s') := RemovePairedDevice lib_json_Devices lib_json_DevicesBack record id s in
  match r with
  | Ok _ => exists data, dropped id f = Some data /\
      held (delete (SharedSecretKey id) m) (Some (mkFile data mode0600)) s'
  | Err _ => exists m', held m' f s'
  end.
Proof.
  intros Hs. unfold RemovePairedDevice, mbind_err at 1. pose proof (held_Load m f s Hs) as Hl.
  destruct (LoadPairedDevices _ _ s) as [[ds|e] s1]; destruct Hl as [Hh1 Hds]; [|by exists m].
  rewrite (Hds ds eq_refl). unfold mbind_err, wrap.
  pose proof (held_Delete (SharedSecretKey id) m f s1 Hh1) as Hd.
  destruct (DeleteSecret _ s1) as [[[]|e] s2]; cbn [map_err]; [|destruct Hd; eauto].
  match goal with |- context [SavePairedDevices _ _ ?l] => pose proof (held_save l _ _ _ Hd) as Hsv end.
  destruct (on_snd _ s2) as [[[]|e] s3]; [|eauto].
  destruct Hsv as (data & Hj & Hh). exists data. split; [|exact Hh]. unfold dropped. by rewrite <-Hj, map_secretIn.
Qed.

(** ** Pairing *)

Variables (hostname : option string) (env : Environ) (hmacSecret : string).
Hypothesis record_path : p_PairedDevices paths = record.
(** HKDF is read for 32 bytes. *)
Hypothesis hkdf_length : forall ikm salt info d, lib_hkdf_read ikm salt info = Some d -> length d = 32%nat.

Definition proved (kp : X25519Keypair) (hostID secret : string) (pc : PairCompleteMessage) (sec : list byte) : Prop :=
  VerifyPairMAC lib_hmac_sha256 secret (pm_MobileX25519PublicKey pc) (pm_MobileDeviceID pc) (pm_PairMac pc) = Ok tt /\
  ComputeSharedSecret lib_hkdf_read lib_x25519 kp (pm_MobileX25519PublicKey pc) secret hostID (pm_MobileDeviceID pc)
    = Ok (b64_encode sec) /\ sec <> [].

Lemma ComputeSharedSecret_Ok kp key secret hid mid t :
  ComputeSharedSecret lib_hkdf_read lib_x25519 kp key secret hid mid = Ok t -> exists sec, t = b64_encode sec /\ sec <> [].
Proof using hkdf_length.
  unfold ComputeSharedSecret. case_decide; [done|].
  destruct (b64_decode key); cbn; [|done]. destruct (NewPublicKey _); cbn; [|done].
  destruct (map_err Bind _); cbn; [|done]. destruct (ECDH _ _ _); cbn; [|done].
  destruct (lib_hkdf_read _ _ _) as [d|] eqn:Hd; cbn; [|done]. intros [= <-]. exists d. split; [done|].
  intros ->. by apply hkdf_length in Hd.
Qed.

Lemma on_term_session {A} (c : M Term A) (s : Dialog) : snd (snd (on_term c s)) = snd s.
Proof. destruct s as [t ss]. unfold on_term, on_fst. by destruct (c t). Qed.

(** The record the pairing of [pc] leaves. *)
Definition stored_as (pc : PairCompleteMessage) (sec : list byte) (m : gmap string (list byte)) (f : option File) : Prop :=
  exists dev data, pd_DeviceID dev = pm_MobileDeviceID pc /\ pd_Name dev = TruncateMobileName (pm_MobileName pc) /\
    pd_SharedSecret dev = b64_encode sec /\ lib_json_Devices [withoutSecret dev] = Some data /\
    f = Some (mkFile data mode0600) /\ m !! SharedSecretKey (pm_MobileDeviceID pc) = Some sec.

Lemma held_on_term_store {A} (c : M (T * World) A) (s : Term) (Q : A -> T * World -> Prop) m f :
  held m f s -> (forall tw, held m f tw -> Q (fst (c tw)) (snd (c tw))) ->
  exists tw, Q (fst (term_store c s)) tw /\ (forall m' f', held m' f' tw -> held m' f' (snd (term_store c s))).
Proof.
  intros Hs HQ. destruct s as [[tw ps] l]. unfold term_store, on_box, on_store, on_fst.
  assert (Hh : held m f tw) by (destruct Hs; by split). specialize (HQ tw Hh).
  destruct (c tw) as [a tw']. cbn [fst snd] in *. exists tw'. split; [exact HQ|].
  intros m' f' H'. destruct H', Hs. by split.
Qed.

Lemma held_term_store {A} (c : M (T * World) A) (s : Dialog) (Q : A -> T * World -> Prop) m f :
  held m f s ->
  (forall tw, held m f tw -> Q (fst (c tw)) (snd (c tw))) ->
  exists tw, Q (fst (on_term (term_store c) s)) tw /\
    (forall m' f', held m' f' tw -> held m' f' (snd (on_term (term_store c) s))) /\
    snd (snd (on_term (term_store c) s)) = snd s.
Proof.
  intros Hs HQ. destruct s as [t ss].
  destruct (held_on_term_store c t Q m f) as (tw & Hq & Hup); [by destruct Hs|exact HQ|].
  unfold on_term, on_fst. destruct (term_store c t) as [a t']. exists tw. split; [exact Hq|]. split; [|done].
  intros m' f' Htw. destruct (Hup m' f' Htw). by split.
Qed.

Lemma held_record_step pc sec m f (s : Dialog) : held m f s -> sec <> [] ->
  let '(r, s') := (now ← on_term (term_files time_Now);
    wrap PairSave (on_term (term_store (AddPairedDevice lib_json_Devices (p_PairedDevices paths)
      (mkDevice (pm_MobileDeviceID pc) (TruncateMobileName (pm_MobileName pc)) (b64_encode sec) now 0)))) : M Dialog _) s in
  snd s' = snd s /\
  match r with
  | Ok _ => exists m' f', stored_as pc sec m' f' /\ held m' f' s'
  | Err (PairSave _) => exists m', held m' f s'
  | Err _ => False
  end.
Proof using record_path.
  intros Hs Hne. rewrite mbind_run, record_path.
  assert (Hc : calm (on_term (term_files time_Now) : M Dialog Z)) by (unfold term_files; auto 10 with calm).
  specialize (Hc m f s Hs). pose proof (on_term_session (term_files time_Now) s) as Hss.
  destruct (on_term (term_files time_Now) s) as [now s1]. cbn [fst snd] in *.
  set (dev := mkDevice _ _ _ now 0).
  destruct (held_term_store (AddPairedDevice lib_json_Devices record dev) s1 (fun r tw =>
    match r with
    | Ok _ => exists m' f', stored_as pc sec m' f' /\ held m' f' tw
    | Err _ => exists m', held m' f tw
    end) m f Hc) as (tw & HQ & Hup & Hsess).
  { intros tw Htw. pose proof (held_Add dev sec m f tw Htw eq_refl Hne) as Ha.
    destruct (AddPairedDevice _ _ _ tw) as [[[]|e] tw']; cbn; [|exact Ha].
    destruct Ha as (data & Hj & Hh). do 2 eexists. split; [|exact Hh].
    exists dev, data. split_and!; try done. apply lookup_insert_eq. }
  unfold wrap. destruct (on_term _ s1) as [r s2]. cbn [fst snd] in *. split; [congruence|].
  destruct r as [[]|e]; cbn [map_err].
  - destruct HQ as (m' & f' & Hst & Hh). eauto.
  - destruct HQ as [m' Hh]. eauto.
Qed.

Lemma held_storePairing id kp secret confirmed pc m f (s : Dialog) : held m f s ->
  let '(r, s') := storePairing paths id kp secret confirmed pc s in
  let accepted := Accept lib_json_PairResult lib_json_Decision lib_IsPrint (snd s) in
  (snd s' = snd s \/ confirmed = true /\ snd s' = snd accepted) /\
  match r with
  | Ok _ => (if confirmed : bool then accepted = (Ok tt, snd s') else snd s' = snd s) /\
      exists sec m' f', proved kp (id_DeviceID id) secret pc sec /\ stored_as pc sec m' f' /\ held m' f' s'
  | Err (PairSave _) => exists m', held m' f s'
  | Err _ => held m f s'
  end.
Proof using record_path hkdf_length.
  intros Hs. cbv zeta. unfold storePairing. unfold mbind_err at 1, lift at 1.
  destruct (VerifyPairMAC _ _ _ _ _) as [[]|e] eqn:Hmac; cbn [map_err]; [|by split; [left|]].
  unfold mbind_err at 1, lift at 1.
  destruct (ComputeSharedSecret _ _ _ _ _ _ _) as [t|e] eqn:Hsec; cbn [map_err]; [|by split; [left|]].
  destruct (ComputeSharedSecret_Ok _ _ _ _ _ _ Hsec) as (sec & -> & Hne).
  assert (Hd : calm (on_term (term_files (EnsureDirs paths)) : M Dialog _)) by (unfold term_files; auto 10 with calm).
  specialize (Hd m f s Hs). pose proof (on_term_session (term_files (EnsureDirs paths)) s) as Hss.
  unfold mbind_err at 1, wrap at 1. destruct (on_term _ s) as [[[]|e] s1]; cbn [fst snd map_err] in *; [|by split; [left|]].
  unfold mbind_err at 1. rewrite <-Hss. destruct confirmed.
  - unfold wrap at 1. assert (Ha : calm (on_session (Accept lib_json_PairResult lib_json_Decision lib_IsPrint) : M Dialog _))
      by auto with calm. specialize (Ha m f s1 Hd).
    unfold on_session in *. rewrite !on_snd_run in *. cbn [fst snd] in *.
    destruct (Accept _ _ _ (snd s1)) as [[[]|e] ss]; cbn [fst snd map_err] in *; [|by split; [right|]].
    pose proof (held_record_step pc sec m f (fst s1, ss) Ha Hne) as Hr.
    match type of Hr with context [let '(_, _) := ?c in _] => destruct c as [r s2] end.
    cbn [snd] in Hr. destruct Hr as [-> Hr]. split; [by right|].
    destruct r as [[]|e]; [|by destruct e].
    split; [done|]. destruct Hr as (m' & f' & Hst & Hh). exists sec, m', f'. done.
  - unfold ok. pose proof (held_record_step pc sec m f s1 Hd Hne) as Hr.
    match type of Hr with context [let '(_, _) := ?c in _] => destruct c as [r s2] end.
    destruct Hr as [-> Hr]. split; [by left|]. destruct r as [[]|e]; [|by destruct e].
    split; [done|]. destruct Hr as (m' & f' & Hst & Hh). exists sec, m', f'. done.
Qed.

Lemma calm_reloadAgent : calm (reloadAgent paths : M Term unit).
Proof. unfold reloadAgent, signalReloadPairing. auto 20 with calm. Qed.

Lemma SharedSecretKey_inj a b : SharedSecretKey a = SharedSecretKey b -> a = b.
Proof. intros E. injection E as E. exact E. Qed.

(** What follows the stored record keeps it. *)
Lemma held_forget_old existing pc sec m f (s : Dialog) : held m f s -> stored_as pc sec m f ->
  let s' := snd ((match existing with
                  | Some old =>
                      if decide (pd_DeviceID old <> pm_MobileDeviceID pc)
                      then ignore (on_term (term_store (DeleteSecret (SharedSecretKey (pd_DeviceID old)))))
                      else mret tt
                  | None => mret tt
                  end : M Dialog unit) s) in
  snd s' = snd s /\ exists m', held m' f s' /\ stored_as pc sec m' f.
Proof.
  intros Hs Hst. destruct existing as [old|]; [|by split; [|exists m]].
  case_decide as Hne; [|by split; [|exists m]]. unfold ignore. cbn [fst snd].
  destruct (held_term_store (DeleteSecret (SharedSecretKey (pd_DeviceID old))) s (fun _ tw =>
    held m f tw \/ held (delete (SharedSecretKey (pd_DeviceID old)) m) f tw) m f Hs) as (tw & HQ & Hup & Hsess).
  { intros tw Htw. pose proof (held_Delete (SharedSecretKey (pd_DeviceID old)) m f tw Htw) as Hd.
    destruct (DeleteSecret _ tw) as [[[]|e] tw']; cbn; [by right|exact Hd]. }
  split; [exact Hsess|]. destruct HQ as [HQ|HQ]; [exists m; auto|]. eexists. split; [by apply Hup|].
  destruct Hst as (dev & data & Hid & Hn & Hs1 & Hj & Hf & Hm). exists dev, data. split_and!; try done.
  rewrite lookup_delete_ne; [done|]. by intros ?%SharedSecretKey_inj.
Qed.

Lemma held_completePairing id kp secret confirmed existing pc m f (s : Dialog) : held m f s ->
  let '((r, stored), s') := completePairing paths id kp secret confirmed existing pc s in
  let accepted := Accept lib_json_PairResult lib_json_Decision lib_IsPrint (snd s) in
  (snd s' = snd s \/ confirmed = true /\ snd s' = snd accepted) /\
  match r with
  | Ok _ => stored = true /\ (if confirmed : bool then accepted = (Ok tt, snd s') else snd s' = snd s) /\
      exists sec m' f', proved kp (id_DeviceID id) secret pc sec /\ stored_as pc sec m' f' /\ held m' f' s'
  | Err (PairSave _) => stored = false /\ exists m', held m' f s'
  | Err _ => stored = false /\ held m f s'
  end.
Proof using record_path hkdf_length.
  intros Hs. unfold completePairing. rewrite mbind_run.
  pose proof (held_storePairing id kp secret confirmed pc m f s Hs) as Hst. cbv zeta in *.
  destruct (storePairing _ _ _ _ _ _ s) as [[[]|e] s1]; cbn [fst snd] in *; destruct Hst as [Hss Hst].
  2: { split; [exact Hss|]. by destruct e. }
  destruct Hst as (Hacc & sec & m' & f' & Hp & Hrec & Hh). rewrite mbind_run.
  pose proof (held_forget_old existing pc sec m' f' s1 Hh Hrec) as Hold. cbv zeta in Hold.
  match type of Hold with snd (snd ?c) = _ /\ _ => destruct c as [u s2] end. cbn [fst snd] in *.
  destruct Hold as (Hs2 & m2 & Hh2 & Hrec2).
  rewrite !mbind_run. cbn [mret M_ret fst snd].
  set (s3 := snd (on_term (reloadAgent paths) _)).
  assert (snd s3 = snd s2 /\ held m2 f' s3) as [-> Hh3].
  { unfold s3. rewrite !on_term_session. split; [done|]. by apply calm_on_term; [apply calm_reloadAgent|apply calm_on_term; [apply calm_show|]]. }
  rewrite Hs2. split; [exact Hss|]. split; [done|]. split; [exact Hacc|]. exists sec, m2, f'. done.
Qed.

(** The record [f'] is [f] or [f] without a device. *)
Definition kept_or_dropped (f f' : option File) : Prop :=
  f' = f \/ exists id data, dropped id f = Some data /\ f' = Some (mkFile data mode0600).

Lemma held_settleLegacy id url confirmed existing pc stored m f (s : Term) : held m f s ->
  let s' := snd (settleLegacy hmacSecret paths id url confirmed existing pc stored s) in
  if confirmed || stored then held m f s' else exists m' f', held m' f' s' /\ kept_or_dropped f f'.
Proof using record_path.
  intros Hs. cbv zeta.
  assert (Hkeep : forall s' : Term, held m f s' -> exists m' f', held m' f' s' /\ kept_or_dropped f f').
  { intros s' Hs'. exists m, f. split; [done|by left]. }
  unfold settleLegacy. destruct confirmed; [done|]. destruct pc as [pc|]; [|destruct stored; [done|by apply Hkeep]].
  rewrite mbind_run. destruct stored; cbn [orb].
  { cbn [fst snd mret M_ret]. destruct existing as [old|]; [|done].
    destruct (true && _); [done|]. rewrite mbind_run. by apply calm_show. }
  set (s1 := snd (ignore _ s)). cbn [fst snd ignore].
  assert (Hh1 : held m f s1).
  { unfold s1. apply calm_ignore; [|done]. unfold term_files. auto 10 with calm. }
  clearbody s1. destruct existing as [old|]; [|by apply Hkeep]. cbn [andb]. rewrite mbind_run. unfold ignore.
  cbn [fst snd]. rewrite record_path.
  destruct (held_on_term_store (RemovePairedDevice lib_json_Devices lib_json_DevicesBack record (pd_DeviceID old)) s1
    (fun r tw => exists m' f', held m' f' tw /\ kept_or_dropped f f') m f Hh1) as (tw & (m' & f' & Hh & Hk) & Hup).
  { intros tw Htw. pose proof (held_Remove (pd_DeviceID old) m f tw Htw) as Hr.
    destruct (RemovePairedDevice _ _ _ _ tw) as [[[]|e] tw']; cbn.
    - destruct Hr as (data & Hd & Hh). do 2 eexists. split; [exact Hh|]. right. eauto.
    - destruct Hr as [m' Hh]. exists m', f. split; [done|by left]. }
  exists m', f'. split; [|exact Hk]. by apply calm_show, Hup.
Qed.

Lemma held_settle_dialog id url confirmed existing pc stored m f (s : Dialog) : held m f s ->
  let s' := snd (on_term (settleLegacy hmacSecret paths id url confirmed existing pc stored) s) in
  if confirmed || stored then held m f (fst s') else exists m' f', held m' f' (fst s') /\ kept_or_dropped f f'.
Proof using record_path.
  intros Hs. destruct s as [t ss]. assert (Ht : held m f t) by (by destruct Hs).
  pose proof (held_settleLegacy id url confirmed existing pc stored m f t Ht) as Hl. cbv zeta in *.
  unfold on_term, on_fst. by destruct (settleLegacy _ _ _ _ _ _ _ _ t).
Qed.

(** The server committed this answer: one acceptance was sent, and of the
    frames [ins] one says that the pairing is done. *)
Definition committed (ins : list Inbound) (ss : PairSession) (pc : PairCompleteMessage) : Prop :=
  decisions ss = [(PairAccept, pm_MobileDeviceID pc)] /\
  exists data msg, Frame data ∈ ins /\ lib_json_PairResult data = Some msg /\
    pr_ResultType msg = "pair_result" /\ pr_MobileDeviceID msg = pm_MobileDeviceID pc /\ pr_OK msg = true.

Lemma Accept_decisions ss ss' pc : decisions ss = [] -> ss_received ss = Some pc ->
  Accept lib_json_PairResult lib_json_Decision lib_IsPrint ss = (Ok tt, ss') ->
  committed (cn_in (ss_conn ss)) ss' pc /\ ss_decided ss' = true.
Proof.
  intros Hd Hm Ha. pose proof (Accept_spec lib_json_PairResult lib_json_Decision lib_IsPrint ss) as Hs. rewrite Ha in Hs.
  destruct (Accept_Ok _ _ _ _ _ Ha) as (Hc & m & sent & pre & data & msg & Hm' & Hout & Hin & Hj & Ht & Hid & Hok & _).
  rewrite Hc, Hm in Hs. destruct Hs as (Hdec & _ & _ & Hds). rewrite Hm in Hm'. injection Hm' as <-.
  split; [|done]. split.
  - destruct Hds as [Hds|Hds]; rewrite Hds, Hd; [|done]. exfalso. rewrite Hd in Hds.
    unfold decisions, conn_decisions in Hds. rewrite Hout, omap_app in Hds. by destruct (omap frame_decision sent).
  - exists data, msg. split_and!; try done. rewrite Hin. apply elem_of_app. right. apply list_elem_of_here.
Qed.

Lemma Accept_frame ss : ss_received (snd (Accept lib_json_PairResult lib_json_Decision lib_IsPrint ss)) = ss_received ss /\
  ss_confirm (snd (Accept lib_json_PairResult lib_json_Decision lib_IsPrint ss)) = ss_confirm ss.
Proof.
  pose proof (Accept_spec lib_json_PairResult lib_json_Decision lib_IsPrint ss) as Ha.
  destruct (Accept _ _ _ ss) as [r ss']. cbn [snd].
  destruct (ss_confirm ss) eqn:Hc, (ss_received ss) eqn:Hm; destruct_and!; by subst.
Qed.

(** What the pairing leaves, whatever it returns. *)
Definition pair_outcome (proof : PairCompleteMessage -> list byte -> Prop) (ins : list Inbound)
    (m : gmap string (list byte)) (f : option File) {S : Type} `{Stage T S}
    (r : result PairCmdError unit) (ss : PairSession) (s : S) : Prop :=
  match r with
  | Ok _ => exists pc sec m' f', ss_received ss = Some pc /\ proof pc sec /\ stored_as pc sec m' f' /\ held m' f' s /\
      (ss_confirm ss = true -> committed ins ss pc)
  | Err e =>
      if ss_confirm ss then exists m', held m' f s /\ ((forall e', e <> PairSave e') -> m' = m)
      else exists m' f', held m' f' s /\ kept_or_dropped f f'
  end.

(** The body between the pair_complete and the deferred calls. *)
Definition after_complete (id : Identity) (kp : X25519Keypair) (secret : string) (confirmed : bool)
    (existing : option PairedDevice) (w : option PairCompleteMessage * option SessionError)
    : M Dialog (result PairCmdError unit * bool) :=
  match snd w, fst w with
  | Some e, _ => mret (Err (PairWait e), false)
  | None, None => mret (Err (PairWait NoPairComplete), false)
  | None, Some m => completePairing paths id kp secret confirmed existing m
  end.

Lemma held_after_complete id kp secret confirmed existing w m f (s : Dialog) :
  held m f s -> ss_confirm (snd s) = confirmed -> decisions (snd s) = [] -> fst w = ss_received (snd s) ->
  let '((r, stored), s') := after_complete id kp secret confirmed existing w s in
  ss_confirm (snd s') = confirmed /\ ss_received (snd s') = fst w /\
  match r with
  | Ok _ => stored = true /\ exists pc sec m' f', fst w = Some pc /\ proved kp (id_DeviceID id) secret pc sec /\
      stored_as pc sec m' f' /\ held m' f' s' /\
      (confirmed = true -> committed (cn_in (ss_conn (snd s))) (snd s') pc /\ ss_decided (snd s') = true)
  | Err (PairSave _) => stored = false /\ exists m', held m' f s'
  | Err _ => stored = false /\ held m f s'
  end.
Proof using record_path hkdf_length.
  intros Hs Hc Hd Hw. destruct w as [pc err]. cbn [fst] in Hw. unfold after_complete. cbn [fst snd].
  destruct err as [e|]; [by cbn|]. destruct pc as [pc|]; [|by cbn].
  pose proof (held_completePairing id kp secret confirmed existing pc m f s Hs) as Hcp. cbv zeta in Hcp.
  destruct (completePairing _ _ _ _ _ _ _ s) as [[r stored] s']. destruct Hcp as [Hss Hr].
  pose proof (Accept_frame (snd s)) as [Ha1 Ha2].
  split; [destruct Hss as [->|[_ ->]]; congruence|]. split; [destruct Hss as [->|[_ ->]]; congruence|].
  destruct r as [[]|e]; [|exact Hr]. destruct Hr as (Hst & Hacc & sec & m' & f' & Hp & Hrec & Hh).
  split; [exact Hst|]. exists pc, sec, m', f'. split_and!; try done. intros ->.
  by eapply Accept_decisions.
Qed.

Lemma Close_keeps ss : ss_confirm (snd (SessionClose lib_json_Decision ss)) = ss_confirm ss /\
  ss_received (snd (SessionClose lib_json_Decision ss)) = ss_received ss /\
  (ss_decided ss = true -> decisions (snd (SessionClose lib_json_Decision ss)) = decisions ss).
Proof.
  pose proof (Close_spec lib_json_Decision ss) as Hc. cbv zeta in Hc. destruct Hc as (Hm & Hc & _ & Hd).
  split_and!; [done..|]. intros Hdec.
  destruct (ss_confirm ss), (ss_received ss); destruct_and?; try done. by destruct H4 as [?|[? ?]]; congruence.
Qed.

Lemma held_pairOverSession id kp secret code payload url confirmed existing ctx ticks m f (s : Dialog) :
  held m f s -> session_inv (snd s) -> ss_confirm (snd s) = confirmed -> ss_decided (snd s) = false ->
  ss_waited (snd s) = false ->
  let '(r, s') := pairOverSession hmacSecret paths id kp secret code payload url confirmed existing ctx ticks s in
  ss_confirm (snd s') = confirmed /\
  pair_outcome (proved kp (id_DeviceID id) secret) (cn_in (ss_conn (snd s))) m f r (snd s') (fst s').
Proof using record_path hkdf_length.
  intros Hs Hinv Hconf Hdec Hwait. unfold pairOverSession. rewrite !mbind_run.
  set (s1 := snd (on_term (show (ManualCode _)) _)).
  assert (held m f s1 /\ snd s1 = snd s) as [Hh1 Hs1].
  { unfold s1. rewrite !on_term_session. split; [|done]. by apply calm_on_term; [apply calm_show|apply calm_on_term; [apply calm_show|]]. }
  clearbody s1. rewrite <-Hs1 in *. clear Hs1 Hs s.
  assert (Hcw : calm (on_session (WaitForPairComplete lib_json_PairComplete ctx ticks) : M Dialog _)) by auto with calm.
  specialize (Hcw m f s1 Hh1). unfold on_session in *. rewrite !on_snd_run in *.
  pose proof (Wait_spec lib_json_PairComplete ctx ticks (snd s1)) as Hw.
  pose proof (Wait_in lib_json_PairComplete ctx ticks (snd s1)) as Hin.
  destruct (WaitForPairComplete _ _ _ (snd s1)) as [[pc err] ss]. cbn [fst snd] in *.
  destruct Hw as (Hc2 & Hd2 & Hdd2 & _ & _ & Hw2). destruct (Hw2 Hwait) as (Hpc & _ & Hval). clear Hw2.
  pose proof (inv_decided _ Hinv Hdec) as Hnil. rewrite Hnil in Hdd2.
  set (s2 := (fst s1, ss)). change (fst s1, ss) with s2 in Hcw. assert (Hs2 : snd s2 = ss) by done. clearbody s2.
  rewrite <-Hs2 in *. clear Hs2.
  change (match err, pc with
    | Some e, _ => mret (Err (PairWait e), false)
    | None, None => mret (Err (PairWait NoPairComplete), false)
    | None, Some m => completePairing paths id kp secret confirmed existing m
    end) with (after_complete id kp secret confirmed existing (pc, err)).
  rewrite mbind_run.
  pose proof (held_after_complete id kp secret confirmed existing (pc, err) m f s2 Hcw ltac:(congruence) Hdd2 Hpc) as Ha.
  destruct (after_complete _ _ _ _ _ _ s2) as [[r stored] s3]. cbn [fst snd] in *.
  destruct Ha as (Hc3 & Hm3 & Hr). rewrite !mbind_run.
  pose proof (on_term_session (settleLegacy hmacSecret paths id url confirmed existing pc stored) s3) as Hs4.
  pose proof (fun m f => held_settle_dialog id url confirmed existing pc stored m f s3) as Hsettle. cbv zeta in Hsettle.
  set (s4 := snd (on_term _ s3)) in *. clearbody s4. unfold ignore. cbn [fst snd mret M_ret].
  rewrite on_snd_run. cbn [fst snd]. rewrite Hs4. destruct (Close_keeps (snd s3)) as (Hc5 & Hm5 & Hd5).
  split; [congruence|]. unfold pair_outcome. rewrite Hc5, Hc3.
  destruct r as [[]|e].
  - destruct Hr as (-> & pc' & sec & m' & f' & -> & Hp & Hrec & Hh & Hcom). rewrite orb_true_r in Hsettle.
    exists pc', sec, m', f'. split_and!; try done; [congruence|by apply Hsettle|].
    intros ->. destruct (Hcom eq_refl) as [[Hdecs (data & msg & Hfr & Hmsg)] Hdd]. split; [by rewrite Hd5|].
    exists data, msg. split; [|done]. destruct Hin as [pre ->]. apply elem_of_app. by right.
  - assert (stored = false /\ exists m', held m' f s3 /\ ((forall e', e <> PairSave e') -> m' = m)) as [-> (m' & Hh & Hm')].
    { destruct e; try (destruct Hr as [? ?]; split; [done|]; by exists m).
      destruct Hr as [? [m' Hh]]. split; [done|]. exists m'. split; [done|]. intros Hn. by destruct (Hn e). }
    rewrite orb_false_r in Hsettle. specialize (Hsettle m' f Hh). destruct confirmed; [|exact Hsettle].
    exists m'. done.
Qed.

(** *** The commands *)

Lemma calm_HasIdentity : calm (HasIdentity (p_KeysDir paths) : M (T * World) bool).
Proof. unfold HasIdentity. auto 10 with calm. Qed.

Lemma calm_confirmReplace existing input : calm (confirmReplace existing input : M Term bool).
Proof. unfold confirmReplace. auto 20 with calm. Qed.
#[local] Hint Resolve calm_HasIdentity calm_confirmReplace : calm.

Lemma calm_preparePair cfg input : calm (preparePair hostname hmacSecret paths cfg input : M Term _).
Proof. unfold preparePair, term_store, term_files. auto 40 with calm. Qed.

Lemma dialPair_session dialed url jwt confirmed w ss :
  match dialed with Connected c => cn_out c = [] | DialFailed _ => True end ->
  (match fst (dialPair hmacSecret dialed url jwt confirmed w) with
   | (Ok ss', _) => Some ss' = ss
   | (Err _, o) => o = ss
   end) ->
  match ss with
  | None => is_ok (fst (fst (dialPair hmacSecret dialed url jwt confirmed w))) = false
  | Some ss => exists c, dialed = Connected c /\
      (is_ok (fst (fst (dialPair hmacSecret dialed url jwt confirmed w))) = true ->
       session_inv ss /\ ss_confirm ss = confirmed /\ ss_decided ss = false /\ ss_waited ss = false /\
       cn_in (ss_conn ss) `suffix_of` cn_in c)
  end.
Proof.
  intros Ho. unfold dialPair. rewrite mbind_run. destruct (fst (SignWebSocketHeaders _ _ _ _ w)) as [hs|e]; cbn [fst snd mret M_ret].
  2: { intros <-. done. }
  destruct dialed as [c|[[status body]|]].
  - pose proof (Dial_inv lib_json_TypeError lib_json_PairComplete lib_IsPrint c jwt confirmed) as Hi.
    pose proof (Dial_in lib_json_TypeError lib_json_PairComplete lib_IsPrint c jwt confirmed) as Hn.
    destruct (DialPairSession _ _ _ c jwt confirmed) as [[ss'|e] ss2]; cbn [fst snd mret M_ret map_err] in *.
    + intros <-. exists c. split; [done|]. intros _. destruct (Hi ss' Ho eq_refl), (Hn ss' eq_refl) as (? & ? & ?). done.
    + intros <-. exists c. done.
  - destruct (CheckHMACRejection _ _ _ _); cbn; by intros <-.
  - cbn. by intros <-.
Qed.

Lemma held_pairWithServer id kp secret code payload url confirmed existing dialed ctx ticks m f (s : Term) :
  held m f s -> match dialed with Connected c => cn_out c = [] | DialFailed _ => True end ->
  let '((r, sess), s') := pairWithServer hmacSecret paths id kp secret code payload url confirmed existing dialed ctx ticks s in
  match sess with
  | None => is_ok r = false /\ held m f s'
  | Some ss => exists c, dialed = Connected c /\
      pair_outcome (proved kp (id_DeviceID id) secret) (cn_in c) m f r ss s'
  end.
Proof using record_path hkdf_length.
  intros Hs Ho. unfold pairWithServer. rewrite mbind_run.
  match goal with |- context [snd (term_files ?c s)] =>
    assert (Hh : held m f (snd (term_files c s))) by
      (apply calm_on_box; [|done]; apply calm_on_files; auto with pmux); destruct (term_files c s) as [jwt s1] end.
  cbn [fst snd] in *. destruct jwt as [jwt|e]; [|done]. rewrite mbind_run.
  assert (Hh2 : held m f (snd (term_files (dialPair hmacSecret dialed url jwt confirmed) s1))).
  { apply calm_on_box; [|done]. apply calm_on_files. auto with pmux. }
  assert (Hw : exists w, fst (term_files (dialPair hmacSecret dialed url jwt confirmed) s1) =
    fst (dialPair hmacSecret dialed url jwt confirmed w)).
  { destruct s1 as [[[t w] ps] l]. exists w. unfold term_files, on_box, on_files, on_fst. rewrite on_snd_run. done. }
  destruct Hw as [w Hw]. destruct (term_files _ s1) as [d s2]. cbn [fst snd] in *. subst d.
  pose proof (dialPair_session dialed url jwt confirmed w) as Hd.
  destruct (fst (dialPair _ _ _ _ _ w)) as [[ss|e] o].
  - destruct (Hd (Some ss) Ho eq_refl) as (c & -> & Hss). destruct (Hss eq_refl) as (Hi & Hc & Hdd & Hw & Hin).
    rewrite mbind_run. unfold withSession. cbn [mret M_ret].
    assert (Hdg : held m f ((s2, ss) : Dialog)) by (by destruct Hh2).
    pose proof (held_pairOverSession id kp secret code payload url confirmed existing ctx ticks m f (s2, ss) Hdg Hi Hc Hdd Hw) as Hp.
    destruct (pairOverSession _ _ _ _ _ _ _ _ _ _ _ _ (s2, ss)) as [r [s3 ss3]]. cbn [fst snd] in *.
    exists c. split; [done|]. destruct Hp as [Hc3 Hp]. destruct r as [[]|e]; [|exact Hp].
    destruct Hp as (pc & sec & m' & f' & Hpc & Hpr & Hst & Hhh & Hcom). exists pc, sec, m', f'. split_and!; try done.
    intros Hcf. destruct (Hcom Hcf) as [Hdecs (data & msg & Hfr & Hmsg)]. split; [done|]. exists data, msg. split; [|done].
    destruct Hin as [pre ->]. apply elem_of_app. by right.
  - specialize (Hd o Ho eq_refl). cbn [mret M_ret]. destruct o as [ss|]; [|done].
    destruct Hd as (c & -> & _). exists c. split; [done|]. cbn [pair_outcome]. destruct (ss_confirm ss).
    + by exists m.
    + exists m, f. split; [done|by left].
Qed.

Lemma pair_outcome_later {S S' : Type} `{Stage T S} `{Stage T S'} (proof : PairCompleteMessage -> list byte -> Prop) ins m f r ss
    (s : S) (s' : S') :
  (forall m' f', held m' f' s -> held m' f' s') -> pair_outcome proof ins m f r ss s -> pair_outcome proof ins m f r ss s'.
Proof.
  intros Hup. destruct r as [[]|e]; cbn [pair_outcome].
  - intros (pc & sec & m' & f' & ? & ? & ? & ? & ?). exists pc, sec, m', f'. split_and!; try done. by apply Hup.
  - destruct (ss_confirm ss).
    + intros (m' & ? & ?). exists m'. split; [by apply Hup|done].
    + intros (m' & f' & ? & ?). exists m', f'. split; [by apply Hup|done].
Qed.

(** Once there is a code to show: the session, then the agent. *)
Lemma RunPair_prepared cfg input dialed ctx ticks p m f (s : Term) :
  held m f s -> match dialed with Connected c => cn_out c = [] | DialFailed _ => True end ->
  fst (preparePair hostname hmacSecret paths cfg input s) = Ok (Some p) ->
  let '((r, sess), s') := RunPair executable hostname hmacSecret paths cfg input dialed ctx ticks s in
  exists s3, s' = snd (on_box (EnsureRunning executable paths) s3) /\
  match sess with
  | None => is_ok r = false /\ held m f s3
  | Some ss => exists c, dialed = Connected c /\
      pair_outcome (proved (pp_Keypair p) (id_DeviceID (pp_Identity p)) (pp_Secret p)) (cn_in c) m f r ss s3
  end.
Proof using record_path hkdf_length.
  intros Hs Ho Hprep. unfold RunPair. rewrite mbind_run. pose proof (calm_preparePair cfg input m f s Hs) as Hp.
  destruct (preparePair _ _ _ _ _ s) as [[[p'|]|e] s1]; cbn [fst snd mret M_ret] in *; simplify_eq.
  rewrite !mbind_run. unfold ignore. cbn [fst snd].
  assert (Hstop : held m f (snd (on_box (StopRunning paths) s1))) by (apply calm_on_box; [apply calm_StopRunning|done]).
  set (s2 := snd (on_box (StopRunning paths) s1)) in *. clearbody s2.
  match goal with |- context [pairWithServer ?a ?b ?c ?d ?e ?g ?h ?i ?j ?k ?l ?n ?o s2] =>
    pose proof (held_pairWithServer c d e g h i j k l n o m f s2 Hstop Ho) as Hw;
    destruct (pairWithServer a b c d e g h i j k l n o s2) as [[r sess] s3] end.
  cbn [fst snd mret M_ret]. by exists s3.
Qed.

Lemma calm_agentBack : calm (on_box (EnsureRunning executable paths) : M Term _).
Proof. auto with calm. Qed.


Definition agreed (input : string) : bool :=
  match Fscanln input with Some response => EqualsLower response "y" | None => false end.

Lemma calm_notifyServer : calm (notifyServer env hmacSecret paths : M Term unit).
Proof. unfold notifyServer, term_store, term_files. auto 40 with calm. Qed.

(** C30: unpairing forgets the device, and only when asked to. When the unpair
    command returns no error, either nothing was paired or the user did not
    answer y, and nothing changed; or the store no longer holds the first listed
    device's secret and the record, written whole and readable by the owner
    only, lists the devices it listed before without that one - whether or not
    the server could be told. On an error the record is as it was. *)
Theorem unpair_forgets input m f (s : Term) : held m f s ->
  let '(r, s') := RunUnpair env hmacSecret paths input s in
  match r with
  | Err _ => exists m', held m' f s'
  | Ok _ =>
      held m f s' /\ (listed f = [] \/ agreed input = false) \/
      agreed input = true /\ exists d rest data, listed f = d :: rest /\ dropped (pd_DeviceID d) f = Some data /\
        held (delete (SharedSecretKey (pd_DeviceID d)) m) (Some (mkFile data mode0600)) s'
  end.
Proof using record_path.
  intros Hs. unfold RunUnpair. rewrite record_path.
  destruct (held_on_term_store (LoadPairedDevice lib_json_DevicesBack record) s (fun r tw => held m f tw /\
    forall d, r = Ok d -> d = head (map (secretIn m) (listed f))) m f Hs) as (tw & [Hh Hd] & Hup).
  { intros tw Htw. pose proof (held_Load m f tw Htw) as Hl. unfold LoadPairedDevice, mbind_err, ok.
    destruct (LoadPairedDevices _ _ tw) as [[ds|e] tw']; destruct Hl as [Hl Hds]; (split; [exact Hl|]); [|done].
    intros d [= <-]. by rewrite (Hds ds eq_refl). }
  unfold mbind_err at 1, wrap at 1. destruct (term_store _ s) as [[d|e] s1]; cbn [fst snd map_err] in *.
  2: { exists m. by apply Hup. }
  specialize (Hup m f Hh). rewrite (Hd d eq_refl). clear Hd tw Hh d.
  destruct (listed f) as [|d0 rest] eqn:Hf; cbn [map head].
  { rewrite mbind_run. left. split; [by apply calm_show|by left]. }
  rewrite mbind_run, secretIn_ID. set (s2 := snd (show _ s1)).
  assert (Hh2 : held m f s2) by by apply calm_show. clearbody s2.
  unfold agreed. destruct (Fscanln input) as [response|]; [|left; split; [exact Hh2|by right]].
  destruct (EqualsLower response "y"); cbn [negb]; [|left; split; [exact Hh2|by right]].
  rewrite mbind_run. set (s3 := snd (notifyServer env hmacSecret paths s2)).
  assert (Hh3 : held m f s3) by by apply calm_notifyServer. clearbody s3.
  destruct (held_on_term_store (RemovePairedDevice lib_json_Devices lib_json_DevicesBack record (pd_DeviceID d0)) s3
    (fun r tw => match r with
      | Ok _ => exists data, dropped (pd_DeviceID d0) f = Some data /\
          held (delete (SharedSecretKey (pd_DeviceID d0)) m) (Some (mkFile data mode0600)) tw
      | Err _ => exists m', held m' f tw end) m f Hh3) as (tw & HQ & Hup3).
  { intros tw Htw. pose proof (held_Remove (pd_DeviceID d0) m f tw Htw) as Hr.
    by destruct (RemovePairedDevice _ _ _ _ tw). }
  unfold mbind_err at 1, wrap at 1. destruct (term_store _ s3) as [[[]|e] s4]; cbn [fst snd map_err] in *.
  2: { destruct HQ as [m' HQ]. exists m'. by apply Hup3. }
  destruct HQ as (data & Hdrop & HQ). rewrite !mbind_run. right. split; [done|]. exists d0, rest, data. split; [done|].
  split; [done|]. by apply calm_show, calm_reloadAgent, Hup3.
Qed.
End Held.

(** ** A pairing, run *)

Module PairDemo.
Definition mobile : string := "0123456789abcdef0123456789abcdef".
Definition mobileKey : list byte := replicate 32 x01.
Definition mac : list byte := replicate 32 x05.

(** Primitives that are as good as any, and bodies of one byte. *)
Definition lib : PairLib := {|
  lib_sha256 b := replicate 32 x02;
  lib_ed25519_Sign _ _ := replicate 64 x03;
  lib_hmac_sha256 _ _ := mac;
  lib_hkdf_read _ _ _ := Some (replicate 32 x09);
  lib_x25519_base _ := replicate 32 x04;
  lib_x25519 _ _ := replicate 32 x07;
  lib_url_Parse _ := Some (mkURL "https" false "signal.pmux.io" "" "/");
  lib_netip_ParseAddr _ := None;
  lib_idna_ToASCII h := Some h;
  lib_net_ParseIP h := if decide (h = "127.0.0.1") then Some (replicate 10 x00 ++ [xff; xff; x7f; x00; x00; x01])%list
    else if decide (h = "8.8.8.8") then Some (replicate 10 x00 ++ [xff; xff; x08; x08; x08; x08])%list
    else if decide (h = "172.31.0.1") then Some (replicate 10 x00 ++ [xff; xff; xac; x1f; x00; x01])%list
    else if decide (h = "172.32.0.1") then Some (replicate 10 x00 ++ [xff; xff; xac; x20; x00; x01])%list
    else if decide (h = "fd00::1") then Some ([xfd] ++ replicate 14 x00 ++ [x01])%list else None;
  lib_IsPrint c := (32 <=? c) && (c <? 127);
  lib_qrcode_New _ := true;
  lib_toml_Unmarshal _ := None;
  lib_json_Marshal _ := Some [];
  lib_json_Field name b :=
    if decide (name = "nonce" /\ b = [x01]) then Some "nonce"
    else if decide (name = "token" /\ b = [x02]) then Some "jwt" else None;
  lib_json_Initiate b := if decide (b = [x03]) then Some (mkInitiate "ABCDEF" true) else None;
  lib_json_Devices l :=
    match map pd_DeviceID l with
    | [] => Some [x00]
    | [id] => if decide (id = mobile) then Some [x07] else None
    | _ => None
    end;
  lib_json_DevicesBack b := if decide (b = [x07]) then Some [mkDevice mobile "phone" "" 100 0] else Some [];
  lib_json_TypeError b := if decide (b = [x0a]) then Some ("auth", "") else None;
  lib_json_PairComplete b :=
    if decide (b = [x0b]) then Some (mkPairComplete "pair_complete" mobile (b64_encode mobileKey) "phone" (b64_encode mac))
    else None;
  lib_json_PairResult b := if decide (b = [x0c]) then Some (mkPairResult "pair_result" mobile true "") else None;
  lib_json_Decision _ _ := true
|}.

Definition paths : Paths :=
  mkPaths "cfg" "keys" (World.Join "cfg" "paired_devices.json") (World.Join "cfg" "config.toml").
Definition exe : string := "/usr/local/bin/pmux".

Definition reply (b : byte) : HttpReply := Reply 200 (Some [b]).

(** An initialised host, a server that answers, entropy for both keys. *)
Definition start (replies : list HttpReply) : ((MemorySecretStore * World) * Procs) * list Shown :=
  (((mkMemory {[ SecretKeyEd25519Private := replicate 64 x06 ]},
     set_net [] replies (set_entropy (replicate 400 x00)
       (set_files {[ World.Join "keys" publicKeyFile := mkFile (replicate 32 x08) mode0600 ]}
         (set_dirs {["cfg"; "keys"]} world0)))),
    mkProcs ∅ [] [Some 4242] [] []), []).

Definition cfg : Config := Defaults.
Definition conn (frames : list byte) : Conn := mkConn (map (fun b => Frame [b]) frames) [] [] true.

#[local] Existing Instance lib.
#[local] Existing Instance linuxArgs.

Definition run (frames : list byte) := RunPair (Some exe) (Some "host") "hmac" paths cfg ""
  (Connected (conn frames)) None 0 (start [reply x01; reply x03; reply x01; reply x02]).
Definition paired := snd (run [x0a; x0b; x0c]).
End PairDemo.

#[local] Existing Instance PairDemo.lib.
#[local] Existing Instance linuxArgs.

Lemma PairDemo_held replies :
  held PairDemo.paths "cfg" "paired_devices.json" (fun _ => False)
    {[ SecretKeyEd25519Private := replicate 64 x06 ]} None (PairDemo.start replies).
Proof.
  split; [done|done|done|by intros []| |by constructor]. intros q Hq. split; [|by intros []]. intros ->.
  destruct Hq as [Hq|[k Hq]]; [|done]. vm_compute in Hq.
  repeat (apply elem_of_cons in Hq as [Hq|Hq]; [discriminate|]). by apply elem_of_nil in Hq.
Qed.

Lemma PairDemo_hkdf : forall ikm salt info d, lib_hkdf_read ikm salt info = Some d -> length d = 32%nat.
Proof. intros ikm salt info d. by intros [= <-]. Qed.

(** The mobile proves itself and the server confirms: the device is stored and
    the agent started. *)
Example pair_succeeds :
  fst (fst (PairDemo.run [x0a; x0b; x0c])) = Ok tt /\
  decisions <$> snd (fst (PairDemo.run [x0a; x0b; x0c])) = Some [(PairAccept, PairDemo.mobile)] /\
  ps_trace (snd (fst PairDemo.paired)) = [Fork (Some 4242)].
Proof. by vm_compute. Qed.

(** The server never confirms: nothing is stored. *)
Example pair_unconfirmed :
  fst (fst (PairDemo.run [x0a; x0b])) = Err (PairAcceptFailed NoPairResult) /\
  w_files (snd (fst (fst (snd (PairDemo.run [x0a; x0b]))))) !! p_PairedDevices PairDemo.paths = None.
Proof. by vm_compute. Qed.


Lemma unpair_forgets_witness :
  agreed "y" = true /\
  match RunUnpair ∅ "hmac" PairDemo.paths "y" (PairDemo.start []) with
  | (Ok _, s') => held PairDemo.paths "cfg" "paired_devices.json" (fun _ => False)
      {[ SecretKeyEd25519Private := replicate 64 x06 ]} None s' /\ (listed None = [] \/ agreed "y" = false) \/
      agreed "y" = true /\ exists d rest data, listed None = d :: rest /\ dropped (pd_DeviceID d) None = Some data /\
        held PairDemo.paths "cfg" "paired_devices.json" (fun _ => False)
          (delete (SharedSecretKey (pd_DeviceID d)) {[ SecretKeyEd25519Private := replicate 64 x06 ]})
          (Some (mkFile data mode0600)) s'
  | (Err _, s') => exists m', held PairDemo.paths "cfg" "paired_devices.json" (fun _ => False) m' None s'
  end.
Proof.
  split; [by vm_compute|].
  apply (unpair_forgets PairDemo.paths "cfg" "paired_devices.json" (fun _ => False) ∅ "hmac" eq_refl "y" _ _ _ (PairDemo_held [])).
Defined.

(** Which servers may be spoken to in the clear. *)
Definition httpTo (host : string) : PairLib := {|
  lib_url_Parse _ := Some (mkURL "http" false host "" "/");
  lib_net_ParseIP := lib_net_ParseIP (PairLib := PairDemo.lib);
  lib_sha256 := lib_sha256; lib_ed25519_Sign := lib_ed25519_Sign; lib_hmac_sha256 := lib_hmac_sha256;
  lib_hkdf_read := lib_hkdf_read; lib_x25519_base := lib_x25519_base; lib_x25519 := lib_x25519;
  lib_netip_ParseAddr := lib_netip_ParseAddr; lib_idna_ToASCII := lib_idna_ToASCII; lib_IsPrint := lib_IsPrint;
  lib_qrcode_New := lib_qrcode_New; lib_toml_Unmarshal := lib_toml_Unmarshal; lib_json_Marshal := lib_json_Marshal;
  lib_json_Field := lib_json_Field; lib_json_Initiate := lib_json_Initiate; lib_json_Devices := lib_json_Devices;
  lib_json_DevicesBack := lib_json_DevicesBack; lib_json_TypeError := lib_json_TypeError;
  lib_json_PairComplete := lib_json_PairComplete; lib_json_PairResult := lib_json_PairResult;
  lib_json_Decision := lib_json_Decision
|}.

Example cleartext_only_locally :
  map (fun host => is_ok (checkServerTransport (H := httpTo host) "")) ["localhost"; "127.0.0.1"; "172.31.0.1"; "172.32.0.1"; "8.8.8.8"; "fd00::1"; "signal.pmux.io"] =
  [true; true; true; false; false; false; false].
Proof. by vm_compute. Qed.
