(* ===== verification/Signaling.v ===== *)
(** * internal/webrtc/signaling.go: the signaling client

    One persistent WebSocket connection, kept up by [Run]: dormancy, suspend
    for host sleep, exponential backoff, token refresh. [Run] is a state
    machine over its program points; it and everything that runs beside it
    (the presence and refresh loops, the context watchers, the public methods)
    are events of a labelled transition system. An event carries what the
    environment decides: the outcome of a dial, a write, a read, a [select].
    Times are nanoseconds. *)

From S2P Require Import Prelude GoLib World Identity Token Peer.
From Stdlib Require Import Ascii.
Open Scope Z_scope.

Definition second : Z := 10 ^ 9.
Definition TokenRefreshMargin : Z := 5 * 60 * second.
Definition JWTLifetime : Z := 3600 * second.
Definition initialBackoff : Z := 1 * second.
Definition maxBackoff : Z := 30 * second.
Definition backoffFactor : Z := 2.
Definition DormancyTimeout : Z := 5 * 60 * second.
Definition connectCycleTimeout : Z := 20 * second.
Definition stableConnectionThreshold : Z := 30 * second.

(** ** Data *)

Inductive SigFrame :=
| FMsg (m : SignalingMessage)
| FPing
| FClose.

(** What the client did on its sockets. *)
Inductive SigEffect :=
| SDial (c : nat)
| SSent (c : nat) (f : SigFrame)
| SHandled (c : nat) (m : SignalingMessage).

(** One dialed connection. *)
Record WsConn := mkWs {
  ws_open : bool;
  ws_accepted : bool;                (** authentication was accepted *)
  ws_published : bool;               (** was stored in [sc.conn] *)
  ws_alive : bool;                   (** [presenceCtx] is not cancelled *)
  ws_readDone : bool;                (** [readDone] is closed *)
  ws_watched : bool;                 (** the auth watch is armed *)
  ws_presence : bool;                (** [presenceLoop] is running *)
  ws_failBackoff : Z;                (** [tokenRefreshLoop]'s own state *)
  ws_lastFailure : Z
}.

#[export] Instance WsConn_eta : Eta WsConn := fun w =>
  mkWs (ws_open w) (ws_accepted w) (ws_published w) (ws_alive w) (ws_readDone w) (ws_watched w)
    (ws_presence w) (ws_failBackoff w) (ws_lastFailure w).

(** What a read yields: a message, data that does not parse, a close with a
    code, another error. *)
Inductive SigInbound :=
| SigMsg (m : SignalingMessage)
| SigMalformed
| SigCloseCode (code : Z)
| SigReadErr.

(** A failed dial may come with an HTTP reply. *)
Inductive DialAnswer :=
| DialOK
| DialFail (reply : option (Z * list byte)).

Inductive ConnErr :=
| ObtainJWT (e : TokenError)
| HeadersPanic
| DialErr
| DialRejected (e : HMACRejectedError)
| AuthRejected                       (** [errAuthRejected] *)
| AuthFailed
| Suspended                          (** [errSuspended] *)
| ReadFailed.

Inductive RunResult := CtxErr | CredentialsRejected | Panicked.

(** Where [Run] is. *)
Inductive RunLoc :=
| AtTop
| AtDormant                          (** waiting for activity *)
| AtSuspendCheck
| AtSuspended                        (** waiting for resume *)
| AtConnect                          (** connectAndServe: is the JWT fresh? *)
| AtExchange
| AtDial
| AtAuthSend (c : nat)
| AtAuthRead (c : nat)
| AtPublish (c : nat)
| AtServe (c : nat) (connectedAt : Z)
| AtClosed (c : nat) (connected : bool) (e : ConnErr)   (** conn.Close is done *)
| AtFailed (connected : bool) (e : ConnErr)
| AtBackoff (wait started : Z)
| Returned (r : RunResult).

Record SC := mkSC {
  sc_identity : Identity;
  sc_serverURL : string;
  sc_hmacSecret : string;
  sc_hostName : string;
  sc_hasHandler : bool;
  sc_InitialBackoff : Z;
  sc_conn : option nat;
  sc_jwt : string;
  sc_jwtExpiry : option Z;           (** [None] is the zero time *)
  sc_closed : bool;
  sc_failureStart : option Z;
  sc_dormant : bool;
  sc_suspended : bool;
  sc_activity : bool;                (** a signal is in the channel *)
  sc_pc : RunLoc;
  sc_backoff : Z;                    (** [Run]'s [backoff] *)
  sc_ctxDone : bool;
  sc_now : Z;
  sc_conns : gmap nat WsConn;
  sc_next : nat;
  sc_world : World;
  sc_log : list SigEffect
}.

#[export] Instance SC_eta : Eta SC := fun s =>
  mkSC (sc_identity s) (sc_serverURL s) (sc_hmacSecret s) (sc_hostName s) (sc_hasHandler s)
    (sc_InitialBackoff s) (sc_conn s) (sc_jwt s) (sc_jwtExpiry s) (sc_closed s) (sc_failureStart s)
    (sc_dormant s) (sc_suspended s) (sc_activity s) (sc_pc s) (sc_backoff s) (sc_ctxDone s)
    (sc_now s) (sc_conns s) (sc_next s) (sc_world s) (sc_log s).

(** [startBackoff]. *)
Definition startBackoff (s : SC) : Z :=
  if sc_InitialBackoff s >? 0 then sc_InitialBackoff s else initialBackoff.

(** [NewSignalingClient], with [Run] about to start. *)
Definition NewSignalingClient (id : Identity) (serverURL hostName hmacSecret : string)
    (hasHandler : bool) (InitialBackoff now : Z) (w : World) : SC :=
  let s := mkSC id (TrimRight serverURL "/") hmacSecret hostName hasHandler InitialBackoff None "" None
             false None false false false AtTop 0 false now ∅ 0 w [] in
  s <| sc_backoff := startBackoff s |>.

(** ** Sockets *)

Definition goto (l : RunLoc) (s : SC) : SC := s <| sc_pc := l |>.

Definition upd_conn (c : nat) (f : WsConn -> WsConn) (s : SC) : SC := s <| sc_conns ::= alter f c |>.

Definition conn_is (c : nat) (f : WsConn -> bool) (s : SC) : bool := from_option f false (sc_conns s !! c).

(** [conn.Close]. *)
Definition close_conn (c : nat) (s : SC) : SC := upd_conn c (fun w => w <| ws_open := false |>) s.

(** A write: it goes out when the socket is open and the network takes it. *)
Definition transmit (c : nat) (f : SigFrame) (taken : bool) : M SC bool := fun s =>
  if conn_is c ws_open s && taken then (true, s <| sc_log ::= fun l => l ++ [SSent c f] |>) else (false, s).

(** A close frame, then the close. *)
Definition close_gracefully (c : nat) (taken : bool) (s : SC) : SC :=
  close_conn c (snd (transmit c FClose taken s)).

(** ** Backoff *)

(** [jitter d] with the random number [r] of [rand.Int64N(d/2 + 1)]. *)
Definition jitter (d r : Z) : Z := d + r.
Definition jitter_range (d r : Z) : bool := (0 <=? r) && (r <? d / 2 + 1).

(** The float minimum of [Run] and the refresh loop: both operands are below
    2^53, or the cap is the smaller one, so it is exact. *)
Definition growBackoff (backoff cap : Z) : Z := Z.min (backoff * backoffFactor) cap.

(** ** Tokens *)

(** Raw (unpadded) URL-safe base64. *)
Definition url_b64_char (c : ascii) : ascii :=
  if Ascii.eqb c "-" then "+"%char else if Ascii.eqb c "_" then "/"%char else c.
Fixpoint smap (f : ascii -> ascii) (s : string) : string :=
  match s with
  | "" => ""
  | String c s' => String (f c) (smap f s')
  end.
Definition b64url_decode (s : string) : option (list byte) :=
  if mem_char "=" s || mem_char "+" s || mem_char "/" s then None else
  let s := smap url_b64_char (strip_crlf s) in
  match slen s mod 4 with
  | 1 => None
  | 2 => b64_decode (s +:+ "==")
  | 3 => b64_decode (s +:+ "=")
  | _ => b64_decode s
  end.

Section Client.
Variable hmac_sha256 : list byte -> list byte -> list byte.
Variable ed25519_Sign : list byte -> list byte -> list byte.
Variable url_Parse : string -> option URL.
Variable netip_ParseAddr : string -> option Addr.
Variable idna_ToASCII : string -> option string.
Variable IsPrint : Z -> bool.
Variable json_Marshal : JSON -> option (list byte).
Variable json_Field : string -> list byte -> option string.
(** [json.Unmarshal] into a struct with the number [exp]. *)
Variable json_Exp : list byte -> option Z.

(** [parseJWTExpiry], [None] for the zero time. *)
Definition parseJWTExpiry (token : string) : option Z :=
  match Split token "." with
  | [_; claims; _] =>
      match b64url_decode claims with
      | None => None
      | Some payload =>
          match json_Exp payload with
          | None => None
          | Some exp => if exp =? 0 then None else Some (exp * second)
          end
      end
  | _ => None
  end.

(** The first section of [ensureToken]: is the cached token good enough? *)
Definition tokenFresh (s : SC) : bool :=
  negb (bool_decide (sc_jwt s = "")) &&
  match sc_jwtExpiry s with
  | None => false
  | Some exp => exp - sc_now s >? TokenRefreshMargin
  end.

(** The rest of [ensureToken]: the exchange, then the new token is stored. *)
Definition exchangeJWT : M SC (result TokenError unit) := fun s =>
  let '(r, w) := ExchangeToken hmac_sha256 ed25519_Sign url_Parse netip_ParseAddr idna_ToASCII
                   IsPrint json_Marshal json_Field (sc_identity s) (sc_serverURL s) (sc_hmacSecret s)
                   (sc_world s) in
  let s := s <| sc_world := w |> in
  match r with
  | Err e => (Err e, s)
  | Ok token =>
      (Ok tt, s <| sc_jwt := token |>
                <| sc_jwtExpiry := Some (default (sc_now s + JWTLifetime) (parseJWTExpiry token)) |>)
  end.

Definition ensureToken : M SC (result TokenError unit) := fun s =>
  if tokenFresh s then (Ok tt, s) else exchangeJWT s.

(** ** The public methods *)

Definition SignalActivity (s : SC) : SC := s <| sc_activity := true |>.

(** [Send]: the message goes out, or the socket is closed. *)
Definition Send (msg : SignalingMessage) (taken : bool) : M SC bool := fun s =>
  match sc_conn s with
  | None => (false, s)
  | Some c =>
      let '(sent, s) := transmit c (FMsg msg) taken s in
      if sent : bool then (true, s) else (false, close_conn c s)
  end.

Definition Suspend (taken : bool) (s : SC) : SC :=
  if sc_closed s then s else
  let s := s <| sc_suspended := true |> in
  match sc_conn s with
  | None => s
  | Some c => close_gracefully c taken s
  end.

Definition Resume (s : SC) : SC := SignalActivity (s <| sc_suspended := false |>).

Definition SignalingClose (taken : bool) (s : SC) : SC :=
  if sc_closed s then s else
  let s := s <| sc_closed := true |> in
  match sc_conn s with
  | None => s
  | Some c => close_gracefully c taken s
  end.

(** ** Beside Run *)

(** One tick of [presenceLoop]; a failed write ends the loop. *)
Definition presenceTick (c : nat) (taken pinged : bool) (s : SC) : SC :=
  let stopped := upd_conn c (fun w => w <| ws_presence := false |>) in
  if negb (conn_is c ws_presence s) || negb (conn_is c ws_alive s) || sc_ctxDone s then s else
  let '(sent, s) := transmit c (FMsg (signal "presence")) taken s in
  if negb sent then stopped s else
  let '(ponged, s) := transmit c FPing pinged s in
  if negb ponged then stopped s else s.

Definition minRefreshBackoff : Z := 60 * second.
Definition maxRefreshBackoff : Z := 15 * 60 * second.

(** One tick of [tokenRefreshLoop]. *)
Definition refreshTick (c : nat) (s : SC) : SC :=
  match sc_conns s !! c with
  | None => s
  | Some w =>
      if negb (ws_alive w) || sc_ctxDone s then s
      else if (ws_failBackoff w >? 0) && (sc_now s - ws_lastFailure w <? ws_failBackoff w) then s
      else
        let needsRefresh := match sc_jwtExpiry s with
                            | None => true
                            | Some exp => exp <? sc_now s + TokenRefreshMargin
                            end in
        if negb needsRefresh then s else
        let '(r, s) := ensureToken s in
        match r with
        | Err NoncePanic => goto (Returned Panicked) s
        | Err _ =>
            let b := if ws_failBackoff w =? 0 then minRefreshBackoff
                     else growBackoff (ws_failBackoff w) maxRefreshBackoff in
            upd_conn c (fun w => w <| ws_lastFailure := sc_now s |> <| ws_failBackoff := b |>) s
        | Ok _ => upd_conn c (fun w => w <| ws_failBackoff := 0 |>) s
        end
  end.

(** The goroutine that closes the connection when its context ends. *)
Definition ctxWatch (c : nat) (taken : bool) (s : SC) : SC :=
  if negb (conn_is c ws_published s) then s
  else if conn_is c ws_alive s && negb (sc_ctxDone s) then s
  else if conn_is c ws_readDone s then close_conn c s
  else if sc_ctxDone s then close_gracefully c taken s
  else close_conn c s.

(** The [context.AfterFunc] that guards the authentication. *)
Definition authWatch (c : nat) (s : SC) : SC :=
  if conn_is c ws_watched s && sc_ctxDone s then close_conn c s else s.

(** ** Run *)

(** What happens next at [Run]'s program point. *)
Inductive Choice :=
| Go
| PickCtx
| PickActivity
| PickTimer
| Dial (d : DialAnswer)
| Wrote (taken : bool)
| Read (f : SigInbound)
| Random (r : Z).

Definition wsURL (s : SC) : string :=
  Replace1 (Replace1 (sc_serverURL s +:+ "/ws") "https://" "wss://") "http://" "ws://".

Definition authMsg (s : SC) : SignalingMessage :=
  (signal "auth") <| sm_Token := sc_jwt s |> <| sm_Name := sc_hostName s |>.

Definition new_conn : WsConn := mkWs true false false false false true false 0 0.

(** Taking the activity signal grants a fresh retry window. *)
Definition takeActivity (s : SC) : SC :=
  s <| sc_activity := false |> <| sc_failureStart := None |> <| sc_backoff := startBackoff s |>.

(** [connectAndServe] returns after the authentication failed: the auth watch
    is stopped, a rejection drops the cached token, the socket is closed. *)
Definition authEnds (c : nat) (e : ConnErr) (s : SC) : SC :=
  let s := upd_conn c (fun w => w <| ws_watched := false |>) s in
  let s := match e with AuthRejected => s <| sc_jwtExpiry := None |> | _ => s end in
  goto (AtClosed c false e) (close_conn c s).

Definition dialStep (d : DialAnswer) (s : SC) : SC :=
  let '(headers, w) := SignWebSocketHeaders hmac_sha256 url_Parse (wsURL s) (sc_hmacSecret s) (sc_world s) in
  let s := s <| sc_world := w |> in
  match headers with
  | Err _ => goto (Returned Panicked) s
  | Ok _ =>
      match d with
      | DialOK =>
          let c := sc_next s in
          goto (AtAuthSend c)
            (s <| sc_next ::= Datatypes.S |> <| sc_conns ::= <[c := new_conn]> |>
               <| sc_log ::= fun l => l ++ [SDial c] |>)
      | DialFail None => goto (AtFailed false DialErr) s
      | DialFail (Some (status, body)) =>
          match CheckHMACRejection json_Field status (take 4096 body) (sc_serverURL s) with
          | Some e => goto (AtFailed false (DialRejected e)) s
          | None => goto (AtFailed false DialErr) s
          end
      end
  end.

(** The reply to the auth message. *)
Definition authReply (c : nat) (f : SigInbound) (s : SC) : SC :=
  match f with
  | SigMsg m =>
      if decide (sm_Type m = "error") then authEnds c AuthRejected s
      else goto (AtPublish c) (upd_conn c (fun w => w <| ws_accepted := true |> <| ws_watched := false |>) s)
  | SigMalformed => authEnds c AuthFailed s
  | SigCloseCode code => authEnds c (if code =? 4001 then AuthRejected else AuthFailed) s
  | SigReadErr => authEnds c AuthFailed s
  end.

(** The connection becomes visible, unless the host was suspended meanwhile. *)
Definition publishStep (c : nat) (taken : bool) (s : SC) : SC :=
  if sc_suspended s then goto (AtClosed c false Suspended) (close_gracefully c taken s)
  else goto (AtServe c (sc_now s))
         (upd_conn c (fun w => w <| ws_published := true |> <| ws_alive := true |> <| ws_presence := true |>)
            (s <| sc_conn := Some c |>)).

(** One iteration of [readLoop]; on an error [connectAndServe] returns. *)
Definition readStep (c : nat) (connectedAt : Z) (f : SigInbound) (s : SC) : SC :=
  match f with
  | SigMsg m =>
      if decide (sm_Type m = "error") then s
      else if sc_hasHandler s then s <| sc_log ::= fun l => l ++ [SHandled c m] |> else s
  | SigMalformed => s
  | SigCloseCode _ | SigReadErr =>
      goto (AtClosed c (sc_now s - connectedAt >=? stableConnectionThreshold) ReadFailed)
        (close_conn c (upd_conn c (fun w => w <| ws_readDone := true |> <| ws_alive := false |>) s))
  end.

(** [errors.As] into [HMACRejectedError]. *)
Definition isRejection (e : ConnErr) : bool :=
  match e with
  | ObtainJWT (HMACRejected _) | DialRejected _ => true
  | _ => false
  end.

(** The jittered wait before the next attempt. *)
Definition startBackoffWait (r : Z) (s : SC) : option SC :=
  if jitter_range (sc_backoff s) r
  then Some (goto (AtBackoff (jitter (sc_backoff s) r) (sc_now s)) s)
  else None.

(** Count the failure, unless the connection was stable: long enough, and the
    client goes dormant. *)
Definition countFailure (connected : bool) (r : Z) (s : SC) : option SC :=
  if connected then
    startBackoffWait r (s <| sc_backoff := startBackoff s |> <| sc_failureStart := None |>)
  else
    let start := default (sc_now s) (sc_failureStart s) in
    let s := s <| sc_failureStart := Some start |> in
    if sc_now s - start >=? DormancyTimeout then Some (goto AtTop (s <| sc_dormant := true |>))
    else startBackoffWait r s.

(** After [connectAndServe]: give up, or try again. *)
Definition failedStep (connected : bool) (e : ConnErr) (r : Z) (s : SC) : option SC :=
  if sc_ctxDone s then Some (goto (Returned CtxErr) s) else
  match e with
  | Suspended => Some (goto AtTop s)
  | _ => if isRejection e then Some (goto (Returned CredentialsRejected) s) else countFailure connected r s
  end.

Definition backoffOver (wait started : Z) (s : SC) : option SC :=
  if sc_now s - started >=? wait then
    let s := if sc_now s - started >=? sc_backoff s / 2
             then s <| sc_backoff := growBackoff (sc_backoff s) maxBackoff |> else s in
    Some (goto AtTop s)
  else None.

Definition pickCtx (s : SC) : option SC :=
  if sc_ctxDone s then Some (goto (Returned CtxErr) s) else None.

Definition pickActivity (f : SC -> SC) (s : SC) : option SC :=
  if sc_activity s then Some (f (takeActivity s)) else None.

(** A read of data succeeds only on an open socket. *)
Definition readable (c : nat) (f : SigInbound) (s : SC) : bool :=
  match f with
  | SigMsg _ | SigMalformed => conn_is c ws_open s
  | _ => true
  end.

Definition runStep (ch : Choice) (s : SC) : option SC :=
  match sc_pc s, ch with
  | AtTop, Go =>
      Some (goto (if sc_ctxDone s then Returned CtxErr
                  else if sc_dormant s then AtDormant else AtSuspendCheck) s)
  | AtDormant, PickCtx => pickCtx s
  | AtDormant, PickActivity => pickActivity (fun s => goto AtSuspendCheck (s <| sc_dormant := false |>)) s
  | AtSuspendCheck, Go => Some (goto (if sc_suspended s then AtSuspended else AtConnect) s)
  | AtSuspended, PickCtx => pickCtx s
  | AtSuspended, PickActivity => pickActivity (goto AtTop) s
  | AtConnect, Go => Some (goto (if tokenFresh s then AtDial else AtExchange) s)
  | AtExchange, Go =>
      let '(r, s) := exchangeJWT s in
      match r with
      | Ok _ => Some (goto AtDial s)
      | Err NoncePanic => Some (goto (Returned Panicked) s)
      | Err e => Some (goto (AtFailed false (ObtainJWT e)) s)
      end
  | AtDial, Dial d => Some (dialStep d s)
  | AtAuthSend c, Wrote taken =>
      let '(sent, s) := transmit c (FMsg (authMsg s)) taken s in
      Some (if sent : bool then goto (AtAuthRead c) s else authEnds c AuthFailed s)
  | AtAuthRead c, Read f => if readable c f s then Some (authReply c f s) else None
  | AtPublish c, Wrote taken => Some (publishStep c taken s)
  | AtServe c t, Read f => if readable c f s then Some (readStep c t f s) else None
  | AtClosed _ connected e, Go => Some (goto (AtFailed connected e) (s <| sc_conn := None |>))
  | AtFailed connected e, Random r => failedStep connected e r s
  | AtBackoff _ _, PickCtx => pickCtx s
  | AtBackoff _ _, PickActivity => pickActivity (fun s => goto AtTop (s <| sc_dormant := false |>)) s
  | AtBackoff wait started, PickTimer => backoffOver wait started s
  | _, _ => None
  end.

(** ** The transition system *)

Inductive SigEvent :=
| EvRun (ch : Choice)
| EvTick (d : Z)
| EvActivity
| EvSend (m : SignalingMessage) (taken : bool)
| EvSuspend (taken : bool)
| EvResume
| EvClose (taken : bool)
| EvCancel
| EvPresence (c : nat) (taken pinged : bool)
| EvRefresh (c : nat)
| EvCtxWatch (c : nat) (taken : bool)
| EvAuthWatch (c : nat).

(** A panic ends the process. *)
Definition crashed (s : SC) : bool :=
  match sc_pc s with Returned Panicked => true | _ => false end.

Definition sigStep (e : SigEvent) (s : SC) : option SC :=
  if crashed s then None else
  match e with
  | EvRun ch => runStep ch s
  | EvTick d => if 0 <=? d then Some (s <| sc_now := sc_now s + d |>) else None
  | EvActivity => Some (SignalActivity s)
  | EvSend m taken => Some (snd (Send m taken s))
  | EvSuspend taken => Some (Suspend taken s)
  | EvResume => Some (Resume s)
  | EvClose taken => Some (SignalingClose taken s)
  | EvCancel => Some (s <| sc_ctxDone := true |>)
  | EvPresence c taken pinged => Some (presenceTick c taken pinged s)
  | EvRefresh c => Some (refreshTick c s)
  | EvCtxWatch c taken => Some (ctxWatch c taken s)
  | EvAuthWatch c => Some (authWatch c s)
  end.

Fixpoint sigSteps (l : list SigEvent) (s : SC) : option SC :=
  match l with
  | [] => Some s
  | e :: l => s' ← sigStep e s; sigSteps l s'
  end.

Inductive sig_reachable : SC -> Prop :=
| sig_new id url host secret h ib now w :
    sig_reachable (NewSignalingClient id url host secret h ib now w)
| sig_step s e s' : sig_reachable s -> sigStep e s = Some s' -> sig_reachable s'.
End Client.
