(* ===== verification/SignalingProps.v ===== *)
(** * What the signaling client guarantees

    An invariant of the transition system of [Signaling], and the properties
    it gives: a suspended host is silent, dormancy comes only after a full
    failure window, backoff stays within its bounds, and only messages of an
    authenticated connection reach the handler. *)

From S2P Require Import Prelude GoLib World Identity Token Peer Signaling.
Open Scope Z_scope.

(** ** The invariant *)

(** The connection [Run] is authenticating. *)
Definition auth_conn (l : RunLoc) : option nat :=
  match l with
  | AtAuthSend c | AtAuthRead c | AtPublish c => Some c
  | _ => None
  end.

Definition backoff_ok (s : SC) : Prop :=
  Z.min (startBackoff s) maxBackoff <= sc_backoff s <= Z.max (startBackoff s) maxBackoff /\
  match sc_pc s with
  | AtBackoff wait started =>
      sc_backoff s <= wait <= sc_backoff s + sc_backoff s / 2 /\ started <= sc_now s
  | _ => True
  end.

Definition dormant_ok (s : SC) : Prop :=
  sc_dormant s = true ->
  (exists t, sc_failureStart s = Some t /\ t + DormancyTimeout <= sc_now s) /\
  match sc_pc s with AtTop | AtDormant | Returned _ => True | _ => False end.

Record conns_ok (s : SC) : Prop := {
  co_next : forall c w, sc_conns s !! c = Some w -> (c < sc_next s)%nat;
  co_accepted : forall c w, sc_conns s !! c = Some w -> ws_published w = true -> ws_accepted w = true;
  co_alive : forall c w, sc_conns s !! c = Some w -> ws_presence w || ws_alive w = true -> ws_published w = true;
  co_conn : forall c, sc_conn s = Some c -> conn_is c ws_published s = true;
  co_open : forall c w, sc_conns s !! c = Some w -> ws_open w = true -> ws_published w = true ->
    sc_conn s = Some c /\ sc_suspended s = false /\ exists t, sc_pc s = AtServe c t;
  co_auth : forall c, auth_conn (sc_pc s) = Some c ->
    exists w, sc_conns s !! c = Some w /\ ws_published w = false /\
      (sc_pc s = AtPublish c -> ws_accepted w = true);
  co_serve : forall c t, sc_pc s = AtServe c t ->
    conn_is c ws_accepted s = true
}.

(** ** Connections *)

(** What [conns_ok] reads. *)
Definition conn_core (s : SC) := (sc_conns s, sc_conn s, sc_suspended s, sc_pc s, sc_next s).

Lemma conns_ok_core s s' : conn_core s' = conn_core s -> conns_ok s -> conns_ok s'.
Proof.
  intros [= H1 H2 H3 H4 H5] []. split; unfold conn_is in *; rewrite ?H1, ?H2, ?H3, ?H4, ?H5; auto.
Qed.

(** A change of a connection that claims nothing new. *)
Definition weaker (f : WsConn -> WsConn) : Prop := forall w,
  ws_published (f w) = ws_published w /\ (ws_accepted w = true -> ws_accepted (f w) = true) /\
  (ws_open (f w) = true -> ws_open w = true) /\
  (ws_presence (f w) || ws_alive (f w) = true -> ws_presence w || ws_alive w = true).

Lemma lookup_upd_conn c f s d :
  sc_conns (upd_conn c f s) !! d = (if decide (c = d) then f else id) <$> sc_conns s !! d.
Proof.
  unfold upd_conn. cbn. destruct (decide (c = d)) as [<-|Hne].
  - apply lookup_alter_eq.
  - rewrite lookup_alter_ne by done. by destruct (sc_conns s !! d).
Qed.

(** The connection before the change. *)
Lemma weaker_lookup c f s d w : weaker f -> sc_conns (upd_conn c f s) !! d = Some w ->
  exists w0, sc_conns s !! d = Some w0 /\ ws_published w = ws_published w0 /\
    (ws_accepted w0 = true -> ws_accepted w = true) /\ (ws_open w = true -> ws_open w0 = true) /\
    (ws_presence w || ws_alive w = true -> ws_presence w0 || ws_alive w0 = true).
Proof.
  intros Hf. rewrite lookup_upd_conn. destruct (sc_conns s !! d) as [w0|]; [|done]. intros [= <-].
  exists w0. destruct (Hf w0) as (? & ? & ? & ?). destruct (decide (c = d)); by split_and!.
Qed.

Lemma conn_is_upd c f s d g :
  (forall w, g w = true -> g (f w) = true) -> conn_is d g s = true -> conn_is d g (upd_conn c f s) = true.
Proof.
  intros Hg. unfold conn_is. rewrite lookup_upd_conn. destruct (sc_conns s !! d) as [w|]; [|done]. cbn.
  destruct (decide _); cbn; auto.
Qed.

Lemma conns_ok_upd c f s : weaker f -> conns_ok s -> conns_ok (upd_conn c f s).
Proof.
  intros Hf []. split; cbn [upd_conn].
  - intros d w (w0 & H0 & _)%weaker_lookup; eauto.
  - intros d w (w0 & H0 & Hp & Ha & _)%weaker_lookup; [|done]. rewrite Hp. eauto.
  - intros d w (w0 & H0 & Hp & _ & _ & Hl)%weaker_lookup; [|done]. rewrite Hp. eauto.
  - intros d Hd. apply conn_is_upd; [|by apply co_conn0]. intros w. by rewrite (proj1 (Hf w)).
  - intros d w (w0 & H0 & Hp & _ & Ho & _)%weaker_lookup; [|done]. rewrite Hp. intros. by apply (co_open0 d w0); auto.
  - intros d Hd. destruct (co_auth0 d Hd) as (w0 & H0 & Hp & Ha).
    exists ((if decide (c = d) then f else id) w0). rewrite lookup_upd_conn, H0. split; [done|].
    destruct (Hf w0) as (Hfp & Hfa & _). destruct (decide (c = d)); cbn; [|by split].
    rewrite Hfp. split; [done|]. auto.
  - intros d t Hd. apply conn_is_upd; [|by eapply co_serve0]. intros w. apply Hf.
Qed.

Lemma weaker_close : weaker (fun w => w <| ws_open := false |>).
Proof. intros w. cbn. by split_and!. Qed.
Lemma weaker_watched : weaker (fun w => w <| ws_watched := false |>).
Proof. intros w. cbn. by split_and!. Qed.
Lemma weaker_accepted : weaker (fun w => w <| ws_accepted := true |> <| ws_watched := false |>).
Proof. intros w. cbn. by split_and!. Qed.
Lemma weaker_presence : weaker (fun w => w <| ws_presence := false |>).
Proof. intros w. cbn. split_and!; [done..|]. intros H. rewrite H. apply orb_true_r. Qed.
Lemma weaker_readDone : weaker (fun w => w <| ws_readDone := true |> <| ws_alive := false |>).
Proof. intros w. cbn. split_and!; [done..|]. rewrite orb_false_r. by intros ->. Qed.
Lemma weaker_refresh b t : weaker (fun w => w <| ws_lastFailure := t |> <| ws_failBackoff := b |>).
Proof. intros w. cbn. by split_and!. Qed.
Lemma weaker_refreshed b : weaker (fun w => w <| ws_failBackoff := b |>).
Proof. intros w. cbn. by split_and!. Qed.

(** No open connection is visible unless [Run] serves it. *)
Lemma conns_ok_quiet s c w :
  conns_ok s -> (forall t, sc_pc s <> AtServe c t) -> sc_conns s !! c = Some w ->
  ws_open w = true -> ws_published w = false.
Proof.
  intros Hok Hpc Hw Ho. destruct (ws_published w) eqn:Hp; [|done].
  destruct (co_open _ Hok c w Hw Ho Hp) as (_ & _ & t & Ht). by destruct (Hpc t).
Qed.

(** [Run] goes on to a point without a connection. *)
Lemma conns_ok_goto l s :
  auth_conn l = None -> (forall c t, l <> AtServe c t) -> (forall c t, sc_pc s <> AtServe c t) ->
  conns_ok s -> conns_ok (goto l s).
Proof.
  intros Hl Hserve Hpc Hok. pose proof (conns_ok_quiet s) as Hq. destruct Hok as [].
  split; cbn; auto.
  - intros c w Hw Ho Hp. specialize (co_open0 c w Hw Ho Hp) as (_ & _ & t & Ht). by destruct (Hpc c t).
  - intros c Hc. congruence.
  - intros c t Hc. by destruct (Hserve c t).
Qed.

(** The token exchange touches the token only. *)
Definition token_frame (s s' : SC) : Prop := exists w j e,
  s' = s <| sc_world := w |> <| sc_jwt := j |> <| sc_jwtExpiry := e |>.

Lemma conns_ok_token s s' : token_frame s s' -> conns_ok s -> conns_ok s'.
Proof. intros (w & j & e & ->). by apply conns_ok_core. Qed.

Lemma conns_ok_transmit c f taken s : conns_ok s -> conns_ok (snd (transmit c f taken s)).
Proof. unfold transmit. destruct (_ && _); [|done]. by apply conns_ok_core. Qed.

Lemma conns_ok_close c s : conns_ok s -> conns_ok (close_conn c s).
Proof. apply conns_ok_upd, weaker_close. Qed.

Lemma conns_ok_gracefully c taken s : conns_ok s -> conns_ok (close_gracefully c taken s).
Proof. intros H. by apply conns_ok_close, conns_ok_transmit. Qed.

Lemma lookup_close c s d w :
  sc_conns (close_conn c s) !! d = Some w -> ws_open w = true -> c <> d /\ sc_conns s !! d = Some w.
Proof.
  unfold close_conn. rewrite lookup_upd_conn. destruct (sc_conns s !! d) as [w0|]; [|done].
  destruct (decide (c = d)) as [|Hne]; cbn; intros [= <-]; [done|]. by split.
Qed.

Lemma transmit_conns c f taken s : sc_conns (snd (transmit c f taken s)) = sc_conns s.
Proof. unfold transmit. by destruct (_ && _). Qed.

Lemma transmit_core c f taken s : conn_core (snd (transmit c f taken s)) = conn_core s.
Proof. unfold transmit. by destruct (_ && _). Qed.

Lemma conns_ok_suspended s :
  (forall c w, sc_conns s !! c = Some w -> ws_open w = true -> ws_published w = false) ->
  conns_ok s -> conns_ok (s <| sc_suspended := true |>).
Proof.
  intros Hq []. split; cbn; auto. intros c w Hw Ho Hp. by rewrite (Hq c w Hw Ho) in Hp.
Qed.

(** Closing the visible connection leaves none open. *)
Lemma close_visible s c taken :
  conns_ok s -> sc_conn s = Some c -> forall d w,
  sc_conns (close_gracefully c taken s) !! d = Some w -> ws_open w = true -> ws_published w = false.
Proof.
  intros Hok Hc d w Hw Ho. destruct (lookup_close _ _ _ _ Hw Ho) as [Hne Hd]. rewrite transmit_conns in Hd.
  destruct (ws_published w) eqn:Hp; [|done]. destruct (co_open _ Hok d w Hd Ho Hp). congruence.
Qed.

Lemma conns_ok_Suspend taken s : conns_ok s -> conns_ok (Suspend taken s).
Proof.
  intros Hok. unfold Suspend. destruct (sc_closed s); [done|]. cbn [sc_conn].
  change (sc_conn (s <| sc_suspended := true |>)) with (sc_conn s).
  destruct (sc_conn s) as [c|] eqn:Hc.
  - eapply conns_ok_core; [|apply (conns_ok_suspended (close_gracefully c taken s))].
    + unfold close_gracefully, close_conn, transmit.
      change (conn_is c ws_open (s <| sc_suspended := true |>)) with (conn_is c ws_open s).
      by destruct (_ && _).
    + by apply close_visible.
    + by apply conns_ok_gracefully.
  - apply conns_ok_suspended; [|done]. intros c w Hw Ho. destruct (ws_published w) eqn:Hp; [|done].
    destruct (co_open _ Hok c w Hw Ho Hp). congruence.
Qed.

Lemma conns_ok_Resume s : conns_ok s -> conns_ok (Resume s).
Proof. intros []. split; cbn; auto. intros c w Hw Ho Hp. by destruct (co_open0 c w Hw Ho Hp) as (? & _ & ?). Qed.

Lemma conns_ok_SignalingClose taken s : conns_ok s -> conns_ok (SignalingClose taken s).
Proof.
  intros Hok. unfold SignalingClose. destruct (sc_closed s); [done|].
  assert (conns_ok (s <| sc_closed := true |>)) as Hok' by by eapply conns_ok_core; [|exact Hok].
  destruct (sc_conn _); [by apply conns_ok_gracefully|done].
Qed.

Lemma conns_ok_Send m taken s : conns_ok s -> conns_ok (snd (Send m taken s)).
Proof.
  intros Hok. unfold Send. destruct (sc_conn s) as [c|]; [|done].
  pose proof (conns_ok_transmit c (FMsg m) taken s Hok) as H.
  destruct (transmit c (FMsg m) taken s) as [[] s']; cbn in *; [done|by apply conns_ok_close].
Qed.

Lemma conns_ok_presenceTick c taken pinged s : conns_ok s -> conns_ok (presenceTick c taken pinged s).
Proof.
  intros Hok. unfold presenceTick. destruct (_ || _ || _); [done|].
  pose proof (conns_ok_transmit c (FMsg (signal "presence")) taken s Hok) as H1.
  destruct (transmit c _ taken s) as [[] s1]; cbn [negb snd] in *; [|by apply conns_ok_upd; [apply weaker_presence|]].
  pose proof (conns_ok_transmit c FPing pinged s1 H1) as H2.
  destruct (transmit c FPing pinged s1) as [[] s2]; cbn [negb snd] in *; [done|].
  by apply conns_ok_upd; [apply weaker_presence|].
Qed.

Lemma conns_ok_ctxWatch c taken s : conns_ok s -> conns_ok (ctxWatch c taken s).
Proof.
  intros Hok. unfold ctxWatch.
  repeat case_match; first [exact Hok|by apply conns_ok_close|by apply conns_ok_gracefully].
Qed.

Lemma conns_ok_authWatch c s : conns_ok s -> conns_ok (authWatch c s).
Proof. intros Hok. unfold authWatch. destruct (_ && _); [by apply conns_ok_close|done]. Qed.

(** ** Run's steps and the connections *)

(** [Run] is not serving a connection. *)
Definition not_serving (s : SC) : Prop := forall c t, sc_pc s <> AtServe c t.

Lemma conns_ok_authEnds c e s :
  not_serving s -> conns_ok s -> conns_ok (authEnds c e s).
Proof.
  intros Hpc Hok. unfold authEnds.
  pose proof (conns_ok_upd c _ s weaker_watched Hok) as H1.
  assert (conns_ok (match e with AuthRejected => upd_conn c (fun w => w <| ws_watched := false |>) s <| sc_jwtExpiry := None |>
                    | _ => upd_conn c (fun w => w <| ws_watched := false |>) s end)) as H2.
  { destruct e; try done. by eapply conns_ok_core; [|exact H1]. }
  apply conns_ok_goto; [done..| |by apply conns_ok_close].
  intros d t. destruct e; apply Hpc.
Qed.

Lemma conns_ok_dial s : not_serving s -> conns_ok s ->
  conns_ok (goto (AtAuthSend (sc_next s))
    (s <| sc_next ::= Datatypes.S |> <| sc_conns ::= <[sc_next s := new_conn]> |>
       <| sc_log ::= fun l => l ++ [SDial (sc_next s)] |>)).
Proof.
  intros Hpc Hok. pose proof (conns_ok_quiet s) as Hq. destruct Hok as [].
  assert (forall c, conn_is c ws_published s = true -> c <> sc_next s) as Hfresh.
  { intros c Hc ->. unfold conn_is in Hc. destruct (sc_conns s !! sc_next s) as [w|] eqn:Hw; [|done].
    apply co_next0 in Hw. lia. }
  split; cbn.
  - intros c w [[<- <-]|[Hne Hw]]%lookup_insert_Some; [lia|]. apply co_next0 in Hw. lia.
  - intros c w [[<- <-]|[Hne Hw]]%lookup_insert_Some; [done|]. eauto.
  - intros c w [[<- <-]|[Hne Hw]]%lookup_insert_Some; [done|]. eauto.
  - intros c Hc. specialize (co_conn0 c Hc). specialize (Hfresh c co_conn0).
    unfold conn_is in *. cbn. by rewrite lookup_insert_ne.
  - intros c w [[<- <-]|[Hne Hw]]%lookup_insert_Some; [done|]. intros Ho Hp.
    destruct (co_open0 c w Hw Ho Hp) as (_ & _ & t & Ht). by destruct (Hpc c t).
  - intros c [= <-]. exists new_conn. by rewrite lookup_insert_eq.
  - done.
Qed.

Lemma conns_ok_accept c s : sc_pc s = AtAuthRead c -> conns_ok s ->
  conns_ok (goto (AtPublish c) (upd_conn c (fun w => w <| ws_accepted := true |> <| ws_watched := false |>) s)).
Proof.
  intros Hpc Hok. pose proof (conns_ok_upd c _ s weaker_accepted Hok) as [].
  split; cbn; auto.
  - intros d w Hd Ho Hp. destruct (co_open0 d w Hd Ho Hp) as (_ & _ & t & Ht). cbn in Ht. congruence.
  - intros d [= <-]. destruct (co_auth _ Hok c) as (w & Hw & Hp & _); [by rewrite Hpc|].
    exists (w <| ws_accepted := true |> <| ws_watched := false |>).
    rewrite lookup_alter_eq, Hw. by split_and!.
  - done.
Qed.

Lemma conns_ok_publish c s : sc_pc s = AtPublish c -> sc_suspended s = false -> conns_ok s ->
  conns_ok (goto (AtServe c (sc_now s))
    (upd_conn c (fun w => w <| ws_published := true |> <| ws_alive := true |> <| ws_presence := true |>)
       (s <| sc_conn := Some c |>))).
Proof.
  intros Hpc Hsus Hok. pose proof (conns_ok_quiet s) as Hq. pose proof Hok as [].
  destruct (co_auth0 c) as (w & Hw & Hp & Ha); [by rewrite Hpc|]. specialize (Ha Hpc).
  split; cbn.
  - intros d v. destruct (decide (c = d)) as [<-|Hne]; [intros _; eauto|].
    rewrite lookup_alter_ne by done. eauto.
  - intros d v. destruct (decide (c = d)) as [<-|Hne].
    + rewrite lookup_alter_eq, Hw. by intros [= <-].
    + rewrite lookup_alter_ne by done. eauto.
  - intros d v. destruct (decide (c = d)) as [<-|Hne].
    + rewrite lookup_alter_eq, Hw. by intros [= <-].
    + rewrite lookup_alter_ne by done. eauto.
  - intros d [= <-]. unfold conn_is. cbn. by rewrite lookup_alter_eq, Hw.
  - intros d v. destruct (decide (c = d)) as [<-|Hne]; [intros; split_and!; eauto|].
    rewrite lookup_alter_ne by done. intros Hd Ho Hpv.
    rewrite (Hq d v Hok) in Hpv; [done|intros t; congruence|done..].
  - done.
  - intros d t [= <- _]. unfold conn_is. cbn. by rewrite lookup_alter_eq, Hw.
Qed.

Lemma conns_ok_readEnds c b e s :
  (forall d t, sc_pc s = AtServe d t -> d = c) -> conns_ok s ->
  conns_ok (goto (AtClosed c b e)
    (close_conn c (upd_conn c (fun w => w <| ws_readDone := true |> <| ws_alive := false |>) s))).
Proof.
  intros Hpc Hok.
  pose proof (conns_ok_close c _ (conns_ok_upd c _ s weaker_readDone Hok)) as Hok'. pose proof Hok' as [].
  split; [exact co_next0|exact co_accepted0|exact co_alive0|exact co_conn0| |done..].
  intros d w Hw Ho Hp. destruct (lookup_close _ _ _ _ Hw Ho) as [Hne _].
  destruct (co_open0 d w Hw Ho Hp) as (_ & _ & t & Ht). destruct Hne. symmetry. exact (Hpc d t Ht).
Qed.

Section Runs.
Variable hmac_sha256 : list byte -> list byte -> list byte.
Variable ed25519_Sign : list byte -> list byte -> list byte.
Variable url_Parse : string -> option URL.
Variable netip_ParseAddr : string -> option Addr.
Variable idna_ToASCII : string -> option string.
Variable IsPrint : Z -> bool.
Variable json_Marshal : JSON -> option (list byte).
Variable json_Field : string -> list byte -> option string.
Variable json_Exp : list byte -> option Z.

Abbreviation exchangeJWT := (Signaling.exchangeJWT hmac_sha256 ed25519_Sign url_Parse netip_ParseAddr
  idna_ToASCII IsPrint json_Marshal json_Field json_Exp).
Abbreviation ensureToken := (Signaling.ensureToken hmac_sha256 ed25519_Sign url_Parse netip_ParseAddr
  idna_ToASCII IsPrint json_Marshal json_Field json_Exp).
Abbreviation refreshTick := (Signaling.refreshTick hmac_sha256 ed25519_Sign url_Parse netip_ParseAddr
  idna_ToASCII IsPrint json_Marshal json_Field json_Exp).
Abbreviation dialStep := (Signaling.dialStep hmac_sha256 url_Parse json_Field).
Abbreviation runStep := (Signaling.runStep hmac_sha256 ed25519_Sign url_Parse netip_ParseAddr
  idna_ToASCII IsPrint json_Marshal json_Field json_Exp).
Abbreviation sigStep := (Signaling.sigStep hmac_sha256 ed25519_Sign url_Parse netip_ParseAddr
  idna_ToASCII IsPrint json_Marshal json_Field json_Exp).
Abbreviation sigSteps := (Signaling.sigSteps hmac_sha256 ed25519_Sign url_Parse netip_ParseAddr
  idna_ToASCII IsPrint json_Marshal json_Field json_Exp).
Abbreviation sig_reachable := (Signaling.sig_reachable hmac_sha256 ed25519_Sign url_Parse netip_ParseAddr
  idna_ToASCII IsPrint json_Marshal json_Field json_Exp).

Lemma exchangeJWT_frame s : token_frame s (snd (exchangeJWT s)).
Proof using Type.
  unfold Signaling.exchangeJWT. destruct (ExchangeToken _ _ _ _ _ _ _ _ _ _ _ _) as [[token|e] w]; cbn [snd].
  - exists w, token. eexists. reflexivity.
  - exists w, (sc_jwt s), (sc_jwtExpiry s). by destruct s.
Qed.

Lemma ensureToken_frame s : token_frame s (snd (ensureToken s)).
Proof using Type.
  unfold Signaling.ensureToken. destruct (tokenFresh s); [|apply exchangeJWT_frame].
  exists (sc_world s), (sc_jwt s), (sc_jwtExpiry s). by destruct s.
Qed.

(** What one tick of the refresh loop does, apart from the token: nothing, new
    loop state, or the panic of the exchange. *)
Lemma refreshTick_shape c s :
  refreshTick c s = s \/ exists s1, token_frame s s1 /\
    (refreshTick c s = goto (Returned Panicked) s1 \/
     exists f, weaker f /\ refreshTick c s = upd_conn c f s1).
Proof using Type.
  unfold Signaling.refreshTick. destruct (sc_conns s !! c) as [w|]; [|by left].
  destruct (_ || _); [by left|]. destruct (_ && _); [by left|]. destruct (negb _); [by left|]. right.
  pose proof (ensureToken_frame s) as Hf. destruct (ensureToken s) as [[[]|e] s1]; cbn [snd] in Hf; exists s1; split; try done.
  - right. eexists. split; [|reflexivity]. apply weaker_refreshed.
  - destruct e; first [by left|right; eexists; split; [|reflexivity]; apply weaker_refresh].
Qed.

(** ** Every step *)

Lemma goto_crash s : crashed (goto (Returned Panicked) s) = true.
Proof using Type. done. Qed.

Lemma conns_ok_refreshTick c s :
  conns_ok s -> conns_ok (refreshTick c s) \/ crashed (refreshTick c s) = true.
Proof using Type.
  intros Hok. destruct (refreshTick_shape c s) as [-> | (s1 & Hf & [-> | (f & Hw & ->)])]; [by left|by right|].
  left. apply conns_ok_upd; [done|]. by eapply conns_ok_token.
Qed.

Lemma conns_ok_dialStep d s : sc_pc s = AtDial -> conns_ok s ->
  conns_ok (dialStep d s) \/ crashed (dialStep d s) = true.
Proof using Type.
  intros Hpc Hok. unfold Signaling.dialStep.
  destruct (SignWebSocketHeaders _ _ _ _ _) as [[hs|e] w]; [|by right].
  assert (conns_ok (s <| sc_world := w |>)) as Hok1 by by eapply conns_ok_core; [|exact Hok].
  assert (not_serving (s <| sc_world := w |>)) as Hns by (intros c t; cbn; congruence).
  left. destruct d as [|[[status body]|]].
  - by apply (conns_ok_dial (s <| sc_world := w |>)).
  - destruct (CheckHMACRejection _ _ _ _); by apply conns_ok_goto.
  - by apply conns_ok_goto.
Qed.

Lemma conns_ok_authReply c f s : sc_pc s = AtAuthRead c -> conns_ok s -> conns_ok (authReply c f s).
Proof using Type.
  intros Hpc Hok. assert (not_serving s) as Hns by (intros d t; congruence).
  destruct f; cbn [authReply]; try by apply conns_ok_authEnds.
  destruct (decide _); [by apply conns_ok_authEnds|by apply conns_ok_accept].
Qed.

Lemma conns_ok_readStep c t f s : sc_pc s = AtServe c t -> conns_ok s -> conns_ok (readStep c t f s).
Proof using Type.
  intros Hpc Hok. assert (forall d t', sc_pc s = AtServe d t' -> d = c) as Hd by congruence.
  destruct f; cbn [readStep]; try done; try by apply conns_ok_readEnds.
  destruct (decide _); [done|]. destruct (sc_hasHandler s); [|done]. by eapply conns_ok_core; [|exact Hok].
Qed.

Lemma conns_ok_closed c b e s : sc_pc s = AtClosed c b e -> conns_ok s ->
  conns_ok (goto (AtFailed b e) (s <| sc_conn := None |>)).
Proof using Type.
  intros Hpc Hok. pose proof Hok as []. split; cbn; try done; auto.
  intros d w Hw Ho Hp. destruct (co_open0 d w Hw Ho Hp) as (_ & _ & t & Ht). congruence.
Qed.

Lemma conns_ok_publishStep c taken s : sc_pc s = AtPublish c -> conns_ok s -> conns_ok (publishStep c taken s).
Proof using Type.
  intros Hpc Hok. unfold publishStep. destruct (sc_suspended s) eqn:Hs; [|by apply conns_ok_publish].
  apply conns_ok_goto; [done..| |by apply conns_ok_gracefully].
  intros d t. unfold close_gracefully, close_conn, transmit. destruct (_ && _); cbn; congruence.
Qed.

(** A step that only moves on, over a state with the same connections. *)
Lemma conns_ok_leave l s s1 :
  auth_conn l = None -> (forall c t, l <> AtServe c t) -> not_serving s -> conn_core s1 = conn_core s ->
  conns_ok s -> conns_ok (goto l s1).
Proof using Type.
  intros Hl Hs Hns Hc Hok. apply conns_ok_goto; [done..| |by eapply conns_ok_core].
  injection Hc as _ _ _ Hpc _. intros c t. rewrite Hpc. apply Hns.
Qed.

Lemma conns_ok_startBackoffWait r s s1 s' : not_serving s -> conn_core s1 = conn_core s -> conns_ok s ->
  startBackoffWait r s1 = Some s' -> conns_ok s'.
Proof using Type.
  intros Hns Hc Hok. unfold startBackoffWait. destruct (jitter_range _ _); [|done]. intros [= <-].
  by apply (conns_ok_leave _ s).
Qed.

Lemma conns_ok_failedStep b e r s s' : sc_pc s = AtFailed b e -> conns_ok s ->
  failedStep b e r s = Some s' -> conns_ok s'.
Proof using Type.
  intros Hpc Hok. assert (not_serving s) as Hns by (intros c t; congruence).
  assert (countFailure b r s = Some s' -> conns_ok s') as Hcount.
  { unfold countFailure. destruct b; [by apply (conns_ok_startBackoffWait r s)|]. cbv zeta.
    destruct (_ >=? _); [intros [= <-]; by apply (conns_ok_leave _ s)|by apply (conns_ok_startBackoffWait r s)]. }
  unfold failedStep. destruct (sc_ctxDone s); [intros [= <-]; by apply (conns_ok_leave _ s)|].
  destruct e; try (intros [= <-]; by apply (conns_ok_leave _ s));
    (destruct (isRejection _); [intros [= <-]; by apply (conns_ok_leave _ s)|exact Hcount]).
Qed.

Lemma conns_ok_runStep ch s s' :
  conns_ok s -> runStep ch s = Some s' -> conns_ok s' \/ crashed s' = true.
Proof using Type.
  intros Hok. unfold Signaling.runStep. destruct (sc_pc s) eqn:Hpc; destruct ch; try done;
    try (assert (not_serving s) as Hns; [by (intros d t'; congruence)|]).
  - intros [= <-]. left. destruct (sc_ctxDone s); [|destruct (sc_dormant s)]; by eapply conns_ok_leave.
  - unfold pickCtx. destruct (sc_ctxDone s); [|done]. intros [= <-]. left. by eapply conns_ok_leave.
  - unfold pickActivity. destruct (sc_activity s); [|done]. intros [= <-]. left. by eapply conns_ok_leave.
  - intros [= <-]. left. destruct (sc_suspended s); by eapply conns_ok_leave.
  - unfold pickCtx. destruct (sc_ctxDone s); [|done]. intros [= <-]. left. by eapply conns_ok_leave.
  - unfold pickActivity. destruct (sc_activity s); [|done]. intros [= <-]. left. by eapply conns_ok_leave.
  - intros [= <-]. left. destruct (tokenFresh s); by eapply conns_ok_leave.
  - pose proof (exchangeJWT_frame s) as (w & j & e & Hf). destruct (exchangeJWT s) as [[[]|er] s1].
    + intros [= <-]. left. cbn [snd] in Hf. rewrite Hf. by eapply conns_ok_leave.
    + cbn [snd] in Hf. rewrite Hf. destruct er; intros [= <-]; first [by right|left; by eapply conns_ok_leave].
  - intros [= <-]. by apply conns_ok_dialStep.
  - pose proof (conns_ok_transmit c (FMsg (authMsg s)) taken s Hok) as H1.
    pose proof (transmit_core c (FMsg (authMsg s)) taken s) as Hc.
    destruct (transmit c (FMsg (authMsg s)) taken s) as [[] s1]; cbn [snd] in *; intros [= <-]; left.
    + injection Hc as _ _ _ Hpc1 _. destruct H1. split; cbn; auto.
      * intros d w Hw Ho Hp. destruct (co_open0 d w Hw Ho Hp) as (_ & _ & t & Ht). congruence.
      * intros d [= <-]. destruct (co_auth0 c) as (w & Hw & Hp & _); [by rewrite Hpc1, Hpc|]. by exists w.
      * done.
    + apply conns_ok_authEnds; [|done]. intros d t. injection Hc. congruence.
  - destruct (readable c f s); [|done]. intros [= <-]. left. by apply conns_ok_authReply.
  - intros [= <-]. left. by apply conns_ok_publishStep.
  - destruct (readable c f s); [|done]. intros [= <-]. left. by eapply conns_ok_readStep.
  - intros [= <-]. left. by eapply conns_ok_closed.
  - intros H. left. by eapply conns_ok_failedStep.
  - unfold pickCtx. destruct (sc_ctxDone s); [|done]. intros [= <-]. left. by eapply conns_ok_leave.
  - unfold pickActivity. destruct (sc_activity s); [|done]. intros [= <-]. left. by eapply conns_ok_leave.
  - unfold backoffOver. destruct (_ >=? wait); [|done]. intros [= <-]. left.
    destruct (_ >=? _); by eapply conns_ok_leave.
Qed.

Lemma conns_ok_sigStep e s s' :
  conns_ok s -> sigStep e s = Some s' -> conns_ok s' \/ crashed s' = true.
Proof using Type.
  intros Hok. unfold Signaling.sigStep. destruct (crashed s); [done|].
  destruct e; try (intros [= <-]; first [by apply conns_ok_refreshTick|left]).
  - by apply conns_ok_runStep.
  - destruct (0 <=? d); [|done]. intros [= <-]. left. by eapply conns_ok_core; [|exact Hok].
  - by eapply conns_ok_core; [|exact Hok].
  - by apply conns_ok_Send.
  - by apply conns_ok_Suspend.
  - by apply conns_ok_Resume.
  - by apply conns_ok_SignalingClose.
  - by eapply conns_ok_core; [|exact Hok].
  - by apply conns_ok_presenceTick.
  - by apply conns_ok_ctxWatch.
  - by apply conns_ok_authWatch.
Qed.

(** ** Dormancy, backoff and the handler *)

(** Everything but [Run] leaves [Run]'s own variables alone. *)
Definition run_core (s : SC) :=
  (sc_pc s, sc_backoff s, sc_failureStart s, sc_dormant s, sc_InitialBackoff s).

Definition pace_ok (s : SC) : Prop := dormant_ok s /\ backoff_ok s.

Lemma pace_ok_core s s' :
  run_core s' = run_core s -> sc_now s <= sc_now s' -> pace_ok s -> pace_ok s'.
Proof using Type.
  intros [= Hpc Hb Hf Hd Hi] Hnow [Hdorm [Hback Hwait]].
  unfold pace_ok, dormant_ok, backoff_ok, startBackoff in *. rewrite Hpc, Hb, Hf, Hd, Hi. split.
  - intros H. destruct (Hdorm H) as [(t & Ht & Hle) Hl]. split; [|done]. exists t. split; [done|lia].
  - split; [done|]. destruct (sc_pc s); try done. lia.
Qed.

Lemma run_core_upd c f s : run_core (upd_conn c f s) = run_core s.
Proof using Type. done. Qed.

Lemma run_core_transmit c f taken s : run_core (snd (transmit c f taken s)) = run_core s /\
  sc_now (snd (transmit c f taken s)) = sc_now s.
Proof using Type. unfold transmit. by destruct (_ && _). Qed.

Lemma growBackoff_range b lo : 0 < lo -> Z.min lo maxBackoff <= b <= Z.max lo maxBackoff ->
  Z.min lo maxBackoff <= growBackoff b maxBackoff <= Z.max lo maxBackoff.
Proof using Type. unfold growBackoff, backoffFactor, maxBackoff, second. lia. Qed.

Lemma startBackoff_pos s : 0 < startBackoff s.
Proof using Type. unfold startBackoff, initialBackoff, second. destruct (Z.gtb_spec (sc_InitialBackoff s) 0); lia. Qed.

(** [Run] takes the activity signal, or a steady connection resets the pace. *)
Lemma pace_ok_reset l s1 :
  sc_dormant s1 = false -> sc_backoff s1 = startBackoff s1 ->
  (forall w t, l <> AtBackoff w t) -> pace_ok (goto l s1).
Proof using Type.
  intros Hd Hb Hl. split; [intros H; cbn in H; congruence|]. unfold backoff_ok, goto. cbn.
  unfold startBackoff in *. cbn. rewrite Hb. split; [lia|]. destruct l; try done. by destruct (Hl wait started).
Qed.

(** [Run] moves to a point outside the backoff wait. *)
Lemma pace_ok_goto l s : pace_ok s -> sc_dormant s = false -> (forall w t, l <> AtBackoff w t) -> pace_ok (goto l s).
Proof using Type.
  intros [_ [Hb _]] Hd Hl. split; [intros H; cbn in H; congruence|]. split; [exact Hb|].
  destruct l; try done. by destruct (Hl wait started).
Qed.

(** Outside the loop head [Run] is not dormant. *)
Lemma pace_awake s : pace_ok s ->
  match sc_pc s with AtTop | AtDormant | Returned _ => False | _ => True end -> sc_dormant s = false.
Proof using Type.
  intros [Hd _] Hpc. destruct (sc_dormant s) eqn:H; [|done]. destruct (Hd H) as [_ Hl].
  by destruct (sc_pc s).
Qed.

Lemma pace_ok_startBackoffWait r s s' : pace_ok s -> sc_dormant s = false ->
  startBackoffWait r s = Some s' -> pace_ok s'.
Proof using Type.
  intros [_ [Hb _]] Hd. unfold startBackoffWait, jitter_range, jitter.
  destruct (_ && _) eqn:Hr; [|done]. intros [= <-].
  split; [intros Hd'; cbn in Hd'; congruence|]. split; [exact Hb|]. cbn. lia.
Qed.

Lemma pace_ok_countFailure b r s s' : pace_ok s -> sc_dormant s = false ->
  (forall w t, sc_pc s <> AtBackoff w t) -> countFailure b r s = Some s' -> pace_ok s'.
Proof using Type.
  intros [_ [Hb _]] Hd Hpc. unfold countFailure. destruct b.
  - apply pace_ok_startBackoffWait; [|done]. split; [intros H; cbn in H; congruence|].
    unfold backoff_ok, startBackoff. cbn. split; [lia|]. destruct (sc_pc s); try done. by destruct (Hpc wait started).
  - cbv zeta. set (t0 := default (sc_now s) (sc_failureStart s)).
    change (sc_now (s <| sc_failureStart := Some t0 |>)) with (sc_now s).
    destruct (Z.geb_spec (sc_now s - t0) DormancyTimeout) as [Ht|Ht].
    + intros [= <-]. split; [|by split]. intros _. split; [|done]. exists t0. split; [done|]. cbn. lia.
    + apply pace_ok_startBackoffWait; [|done]. split; [intros Hd'; cbn in Hd'; congruence|]. split; [exact Hb|].
      cbn. destruct (sc_pc s); try done. by destruct (Hpc wait started).
Qed.

Lemma pace_ok_failedStep b e r s s' : sc_pc s = AtFailed b e -> pace_ok s ->
  failedStep b e r s = Some s' -> pace_ok s'.
Proof using Type.
  intros Hpc Hok. pose proof (pace_awake s Hok) as Hd. rewrite Hpc in Hd. specialize (Hd I).
  assert (forall w t, sc_pc s <> AtBackoff w t) as Hb by congruence.
  unfold failedStep. destruct (sc_ctxDone s); [intros [= <-]; by apply pace_ok_goto|].
  destruct e; try (intros [= <-]; by apply pace_ok_goto);
    (destruct (isRejection _); [intros [= <-]; by apply pace_ok_goto|by apply pace_ok_countFailure]).
Qed.

(** [Run] goes idle: to the loop head, the dormant wait, or the end. *)
Lemma pace_ok_idle l s : pace_ok s ->
  match l with AtTop | AtDormant | Returned _ => True | _ => False end -> pace_ok (goto l s).
Proof using Type.
  intros [Hd [Hb _]] Hl. split; [|split; [exact Hb|by destruct l]].
  intros H. destruct (Hd H) as [Hf _]. split; [exact Hf|]. by destruct l.
Qed.

Lemma pace_ok_run_core s s1 : run_core s1 = run_core s -> sc_now s1 = sc_now s -> pace_ok s -> pace_ok s1.
Proof using Type. intros Hc Hn. apply pace_ok_core; [done|]. by rewrite Hn. Qed.

(** [Run] moves on from an awake point, over a state of the same pace. *)
Lemma pace_ok_move l s s1 : pace_ok s -> sc_dormant s = false -> run_core s1 = run_core s ->
  sc_now s1 = sc_now s -> (forall w t, l <> AtBackoff w t) -> pace_ok (goto l s1).
Proof using Type.
  intros Hok Hd Hc Hn Hl. apply pace_ok_goto; [by eapply pace_ok_run_core| |done].
  injection Hc. congruence.
Qed.

Lemma pace_ok_authEnds c e s : pace_ok s -> sc_dormant s = false -> pace_ok (authEnds c e s).
Proof using Type. intros Hok Hd. unfold authEnds. by destruct e; apply (pace_ok_move _ s). Qed.

Lemma pace_ok_dialStep d s : pace_ok s -> sc_dormant s = false -> pace_ok (dialStep d s).
Proof using Type.
  intros Hok Hd. unfold Signaling.dialStep. destruct (SignWebSocketHeaders _ _ _ _ _) as [[hs|e] w];
    [|by apply (pace_ok_move _ s)].
  destruct d as [|[[status body]|]]; [by apply (pace_ok_move _ s)| |by apply (pace_ok_move _ s)].
  destruct (CheckHMACRejection _ _ _ _); by apply (pace_ok_move _ s).
Qed.

Lemma pace_ok_readStep c t f s : pace_ok s -> sc_dormant s = false -> pace_ok (readStep c t f s).
Proof using Type.
  intros Hok Hd. destruct f; cbn [readStep]; try done; try by apply (pace_ok_move _ s).
  destruct (decide _); [done|]. destruct (sc_hasHandler s); [|done]. by eapply pace_ok_run_core; [..|exact Hok].
Qed.

Lemma pace_ok_backoffOver wait started s s' : sc_pc s = AtBackoff wait started -> pace_ok s ->
  sc_dormant s = false -> backoffOver wait started s = Some s' -> pace_ok s'.
Proof using Type.
  intros Hpc Hok Hd. unfold backoffOver. destruct (_ >=? wait); [|done]. intros [= <-].
  destruct (_ >=? _); [|by apply pace_ok_idle].
  destruct Hok as [_ [Hb _]]. split; [intros H; cbn in H; congruence|]. split; [|done]. cbn.
  apply growBackoff_range; [apply startBackoff_pos|exact Hb].
Qed.

Lemma pace_ok_exchange s : pace_ok s -> sc_dormant s = false ->
  forall l, (forall w t, l <> AtBackoff w t) -> pace_ok (goto l (snd (exchangeJWT s))).
Proof using Type.
  intros Hok Hd l Hl. destruct (exchangeJWT_frame s) as (w & j & e & ->). by apply (pace_ok_move _ s).
Qed.

Lemma pace_ok_runStep ch s s' : pace_ok s -> runStep ch s = Some s' -> pace_ok s'.
Proof using Type.
  intros Hok. pose proof (pace_awake s Hok) as Hd. unfold Signaling.runStep.
  destruct (sc_pc s) eqn:Hpc; destruct ch; try done; try specialize (Hd I).
  - intros [= <-]. destruct (sc_ctxDone s); [by apply pace_ok_idle|].
    destruct (sc_dormant s) eqn:H; [by apply pace_ok_idle|by apply pace_ok_goto].
  - unfold pickCtx. destruct (sc_ctxDone s); [|done]. intros [= <-]. by apply pace_ok_idle.
  - unfold pickActivity. destruct (sc_activity s); [|done]. intros [= <-]. by apply pace_ok_reset.
  - intros [= <-]. by destruct (sc_suspended s); apply pace_ok_goto.
  - unfold pickCtx. destruct (sc_ctxDone s); [|done]. intros [= <-]. by apply pace_ok_idle.
  - unfold pickActivity. destruct (sc_activity s); [|done]. intros [= <-]. by apply pace_ok_reset.
  - intros [= <-]. by destruct (tokenFresh s); apply pace_ok_goto.
  - pose proof (pace_ok_exchange s Hok Hd) as Hx. destruct (exchangeJWT s) as [[[]|er] s1]; cbn [snd] in Hx.
    + intros [= <-]. by apply Hx.
    + destruct er; intros [= <-]; by apply Hx.
  - intros [= <-]. by apply pace_ok_dialStep.
  - destruct (run_core_transmit c (FMsg (authMsg s)) taken s) as [Hc Hn].
    destruct (transmit c (FMsg (authMsg s)) taken s) as [[] s1]; cbn [snd] in *; intros [= <-].
    + by apply (pace_ok_move _ s).
    + apply pace_ok_authEnds; [by eapply pace_ok_run_core|]. injection Hc. congruence.
  - destruct (readable c f s); [|done]. intros [= <-].
    destruct f; cbn [authReply]; try by apply pace_ok_authEnds.
    destruct (decide _); [by apply pace_ok_authEnds|by apply (pace_ok_move _ s)].
  - intros [= <-]. unfold publishStep. destruct (sc_suspended s); [|by apply (pace_ok_move _ s)].
    destruct (run_core_transmit c FClose taken s) as [Hc Hn]. by apply (pace_ok_move _ s).
  - destruct (readable c f s); [|done]. intros [= <-]. by apply pace_ok_readStep.
  - intros [= <-]. by apply (pace_ok_move _ s).
  - intros H. by eapply pace_ok_failedStep.
  - unfold pickCtx. destruct (sc_ctxDone s); [|done]. intros [= <-]. by apply pace_ok_idle.
  - unfold pickActivity. destruct (sc_activity s); [|done]. intros [= <-]. by apply pace_ok_reset.
  - intros H. by eapply pace_ok_backoffOver.
Qed.

(** What the events beside [Run] leave alone: [Run]'s variables and the
    clock. They also never take an acceptance back. *)
Definition same_run (s s' : SC) : Prop := run_core s' = run_core s /\ sc_now s' = sc_now s.

#[local] Instance same_run_preorder : PreOrder same_run.
Proof using Type. split; [done|]. intros s1 s2 s3 [H1 H2] [H3 H4]. split; congruence. Qed.

Lemma same_run_transmit c f taken s : same_run s (snd (transmit c f taken s)).
Proof using Type. apply run_core_transmit. Qed.

Lemma same_run_gracefully c taken s : same_run s (close_gracefully c taken s).
Proof using Type. etrans; [apply same_run_transmit|done]. Qed.

Lemma same_run_Send m taken s : same_run s (snd (Send m taken s)).
Proof using Type.
  unfold Send. destruct (sc_conn s) as [c|]; [|done]. pose proof (same_run_transmit c (FMsg m) taken s) as H.
  by destruct (transmit c (FMsg m) taken s) as [[] s1].
Qed.

Lemma same_run_presenceTick c taken pinged s : same_run s (presenceTick c taken pinged s).
Proof using Type.
  unfold presenceTick. destruct (_ || _ || _); [done|].
  pose proof (same_run_transmit c (FMsg (signal "presence")) taken s) as H1.
  destruct (transmit c _ taken s) as [[] s1]; cbn [negb snd] in *; [|done].
  pose proof (same_run_transmit c FPing pinged s1) as H2.
  destruct (transmit c FPing pinged s1) as [[] s2]; cbn [negb snd] in *; by etrans.
Qed.

Lemma same_run_ctxWatch c taken s : same_run s (ctxWatch c taken s).
Proof using Type. unfold ctxWatch. repeat case_match; try done. apply same_run_gracefully. Qed.

Lemma pace_ok_refreshTick c s : pace_ok s -> pace_ok (refreshTick c s).
Proof using Type.
  intros Hok. destruct (refreshTick_shape c s) as [-> | (s1 & (w & j & e & ->) & [-> | (f & _ & ->)])]; [done| |].
  - apply pace_ok_idle; [|done]. by eapply pace_ok_run_core; [..|exact Hok].
  - by eapply pace_ok_run_core; [..|exact Hok].
Qed.

Lemma pace_ok_sigStep e s s' : pace_ok s -> sigStep e s = Some s' -> pace_ok s'.
Proof using Type.
  intros Hok. unfold Signaling.sigStep. destruct (crashed s); [done|].
  assert (forall s1, same_run s s1 -> pace_ok s1) as Hsame.
  { intros s1 [Hc Hn]. by eapply pace_ok_run_core. }
  destruct e; try (intros [= <-]; first [by apply Hsame|by apply pace_ok_refreshTick]).
  - by apply pace_ok_runStep.
  - destruct (Z.leb_spec 0 d) as [Hd|]; [|done]. intros [= <-]. eapply pace_ok_core; [..|exact Hok]; [done|].
    cbn. lia.
  - intros [= <-]. apply Hsame, same_run_Send.
  - intros [= <-]. apply Hsame. unfold Suspend. destruct (sc_closed s); [done|].
    destruct (sc_conn _); [|done]. etrans; [|apply same_run_gracefully]. done.
  - intros [= <-]. apply Hsame. unfold SignalingClose. destruct (sc_closed s); [done|].
    destruct (sc_conn _); [|done]. etrans; [|apply same_run_gracefully]. done.
  - intros [= <-]. apply Hsame, same_run_presenceTick.
  - intros [= <-]. apply Hsame, same_run_ctxWatch.
  - intros [= <-]. apply Hsame. unfold authWatch. by destruct (_ && _).
Qed.

(** ** What goes out and what comes in *)

(** A frame of a visible connection. *)
Definition visible (s : SC) (c : nat) : Prop := conn_is c ws_open s = true /\ conn_is c ws_published s = true.

(** What one step may add to the log. *)
Definition emitted (s : SC) (x : SigEffect) : Prop :=
  match x with
  | SSent c (FMsg m) => (sc_pc s = AtAuthSend c /\ m = authMsg s) \/ visible s c
  | SSent c FPing => visible s c
  | SHandled c m => (exists t, sc_pc s = AtServe c t) /\ sm_Type m <> "error"
  | _ => True
  end.

Definition adds (s s' : SC) : Prop := exists l, sc_log s' = sc_log s ++ l /\ Forall (emitted s) l.

Lemma adds_nothing s s' : sc_log s' = sc_log s -> adds s s'.
Proof using Type. intros H. exists []. by rewrite app_nil_r. Qed.

Lemma adds_one s s' x : sc_log s' = sc_log s ++ [x] -> emitted s x -> adds s s'.
Proof using Type. intros H Hx. exists [x]. split; [done|]. by apply Forall_singleton. Qed.

Lemma adds_transmit c f taken s s' :
  (conn_is c ws_open s = true -> emitted s (SSent c f)) ->
  sc_log s' = sc_log (snd (transmit c f taken s)) -> adds s s'.
Proof using Type.
  unfold transmit. intros He. destruct (conn_is c ws_open s); [|by apply adds_nothing].
  destruct taken; [|by apply adds_nothing]. intros H. apply (adds_one s s' (SSent c f)); [done|auto].
Qed.

(** A close frame may always go out. *)
Lemma adds_close c taken s s' : sc_log s' = sc_log (close_gracefully c taken s) -> adds s s'.
Proof using Type. by apply adds_transmit. Qed.

Lemma adds_Send m taken s : conns_ok s -> adds s (snd (Send m taken s)).
Proof using Type.
  intros Hok. unfold Send. destruct (sc_conn s) as [c|] eqn:Hc; [|by apply adds_nothing].
  apply (adds_transmit c (FMsg m) taken); [intros Ho; right; split; [done|by apply (co_conn _ Hok)]|].
  by destruct (transmit c (FMsg m) taken s) as [[] s1].
Qed.

Lemma adds_presenceTick c taken pinged s : conns_ok s -> adds s (presenceTick c taken pinged s).
Proof using Type.
  intros Hok. unfold presenceTick. destruct (conn_is c ws_presence s) eqn:Hp; [|by apply adds_nothing].
  destruct (conn_is c ws_alive s); [|by apply adds_nothing]. destruct (sc_ctxDone s); [by apply adds_nothing|].
  cbn [negb orb].
  assert (conn_is c ws_published s = true) as Hpub.
  { unfold conn_is in *. destruct (sc_conns s !! c) as [w|] eqn:Hw; [|done]. cbn in *.
    apply (co_alive _ Hok c w Hw). by rewrite Hp. }
  unfold transmit at 1. destruct (conn_is c ws_open s) eqn:Ho; cbn [andb negb]; [|by apply adds_nothing].
  destruct taken; cbn [negb]; [|by apply adds_nothing].
  assert (visible s c) as Hv by by split.
  unfold transmit. destruct (_ && _); cbn [negb].
  - exists [SSent c (FMsg (signal "presence")); SSent c FPing]. split; [cbn; by rewrite <-app_assoc|].
    apply Forall_cons. split; [by right|]. by apply Forall_singleton.
  - apply (adds_one s _ (SSent c (FMsg (signal "presence")))); [done|by right].
Qed.

Lemma adds_dialStep d s : adds s (dialStep d s).
Proof using Type.
  unfold Signaling.dialStep. destruct (SignWebSocketHeaders _ _ _ _ _) as [[hs|e] w]; [|by apply adds_nothing].
  destruct d as [|[[status body]|]]; [|by destruct (CheckHMACRejection _ _ _ _); apply adds_nothing|by apply adds_nothing].
  by apply (adds_one s _ (SDial (sc_next s))).
Qed.

Lemma adds_failedStep b e r s s' : failedStep b e r s = Some s' -> adds s s'.
Proof using Type.
  assert (forall s1, sc_log s1 = sc_log s -> startBackoffWait r s1 = Some s' -> adds s s') as Hwait.
  { intros s1 Hl. unfold startBackoffWait. destruct (jitter_range _ _); [|done]. intros [= <-]. by apply adds_nothing. }
  assert (countFailure b r s = Some s' -> adds s s') as Hcount.
  { unfold countFailure. destruct b; [by apply Hwait|]. cbv zeta.
    destruct (_ >=? _); [intros [= <-]; by apply adds_nothing|by apply Hwait]. }
  unfold failedStep. destruct (sc_ctxDone s); [intros [= <-]; by apply adds_nothing|].
  destruct e; try (intros [= <-]; by apply adds_nothing);
    (destruct (isRejection _); [intros [= <-]; by apply adds_nothing|exact Hcount]).
Qed.

Lemma adds_runStep ch s s' : runStep ch s = Some s' -> adds s s'.
Proof using Type.
  unfold Signaling.runStep. destruct (sc_pc s) eqn:Hpc; destruct ch; try done;
    unfold pickCtx, pickActivity, backoffOver;
    try (repeat case_match; intros; simplify_eq; by apply adds_nothing).
  - pose proof (exchangeJWT_frame s) as (w & j & e & Hf). destruct (exchangeJWT s) as [[[]|er] s1]; cbn [snd] in Hf;
      rewrite Hf; [intros [= <-]; by apply adds_nothing|destruct er; intros [= <-]; by apply adds_nothing].
  - intros [= <-]. apply adds_dialStep.
  - destruct (transmit c (FMsg (authMsg s)) taken s) as [[] s1] eqn:Ht; intros [= <-];
      (apply (adds_transmit c (FMsg (authMsg s)) taken); [by left|by rewrite Ht]).
  - destruct (readable c f s); [|done]. intros [= <-]. apply adds_nothing.
    destruct f; cbn [authReply]; try done; [by destruct (decide _)|by destruct (code =? 4001)].
  - intros [= <-]. unfold publishStep. destruct (sc_suspended s); [by apply (adds_close c taken)|by apply adds_nothing].
  - destruct (readable c f s); [|done]. intros [= <-]. destruct f; cbn [readStep]; try by apply adds_nothing.
    destruct (decide _); [by apply adds_nothing|]. destruct (sc_hasHandler s); [|by apply adds_nothing].
    apply (adds_one s _ (SHandled c m)); [done|]. split; [by eexists|done].
  - apply adds_failedStep.
Qed.

Lemma adds_sigStep e s s' : conns_ok s -> sigStep e s = Some s' -> adds s s'.
Proof using Type.
  intros Hok. unfold Signaling.sigStep. destruct (crashed s); [done|].
  destruct e; try (intros [= <-]; by apply adds_nothing).
  - apply adds_runStep.
  - destruct (0 <=? d); [|done]. intros [= <-]. by apply adds_nothing.
  - intros [= <-]. by apply adds_Send.
  - intros [= <-]. unfold Suspend. destruct (sc_closed s); [by apply adds_nothing|].
    change (sc_conn (s <| sc_suspended := true |>)) with (sc_conn s).
    destruct (sc_conn s) as [c|]; [|by apply adds_nothing].
    apply (adds_close c taken). unfold close_gracefully, transmit.
    change (conn_is c ws_open (s <| sc_suspended := true |>)) with (conn_is c ws_open s). by destruct (_ && _).
  - intros [= <-]. unfold SignalingClose. destruct (sc_closed s); [by apply adds_nothing|].
    change (sc_conn (s <| sc_closed := true |>)) with (sc_conn s).
    destruct (sc_conn s) as [c|]; [|by apply adds_nothing].
    apply (adds_close c taken). unfold close_gracefully, transmit.
    change (conn_is c ws_open (s <| sc_closed := true |>)) with (conn_is c ws_open s). by destruct (_ && _).
  - intros [= <-]. by apply adds_presenceTick.
  - intros [= <-]. apply adds_nothing.
    destruct (refreshTick_shape c s) as [-> | (s1 & (w & j & e & ->) & [-> | (f & _ & ->)])]; done.
  - intros [= <-]. unfold ctxWatch. repeat case_match; try by apply adds_nothing. by apply (adds_close c taken).
  - intros [= <-]. unfold authWatch. destruct (_ && _); by apply adds_nothing.
Qed.

(** ** Every reachable state *)

Lemma sig_reachable_inv s : sig_reachable s -> pace_ok s /\ (crashed s = false -> conns_ok s).
Proof using Type.
  induction 1 as [id url host secret h ib now w|s e s' Hs [Hp Hc] He].
  - split.
    + split; [done|]. unfold backoff_ok. cbn. split; [|done]. unfold startBackoff. cbn. lia.
    + intros _. split; cbn; intros; try done.
  - assert (crashed s = false) as Hn by (unfold Signaling.sigStep in He; by destruct (crashed s)).
    split; [by eapply pace_ok_sigStep|]. intros Hn'.
    destruct (conns_ok_sigStep e s s' (Hc Hn) He); congruence.
Qed.

Lemma sig_reachable_conns s e s' : sig_reachable s -> sigStep e s = Some s' -> conns_ok s.
Proof using Type.
  intros Hs He. apply (sig_reachable_inv s Hs). unfold Signaling.sigStep in He. by destruct (crashed s).
Qed.

Lemma sig_reachable_steps l s s' : sig_reachable s -> sigSteps l s = Some s' -> sig_reachable s'.
Proof using Type.
  revert s. induction l as [|e l IH]; intros s Hs; cbn; [by intros [= <-]|].
  destruct (sigStep e s) as [s1|] eqn:He; [|done]. cbn. apply IH. by econstructor.
Qed.

(** C20: while the host is suspended, the connection the client shows to others
    is closed, and nothing goes out but the auth message of a connection that
    was being set up and close frames: no presence heartbeat, no ping, no
    signaling message; so the server does not see a sleeping host as online. *)
Theorem suspended_host_is_silent s e s' :
  sig_reachable s -> sc_suspended s = true -> sigStep e s = Some s' ->
  (forall c, sc_conn s = Some c -> conn_is c ws_open s = false) /\
  exists l, sc_log s' = sc_log s ++ l /\
    Forall (fun x => match x with
      | SSent c (FMsg m) => sc_pc s = AtAuthSend c /\ m = authMsg s
      | SSent _ FPing => False
      | _ => True
      end) l.
Proof using Type.
  intros Hs Hsus He. pose proof (sig_reachable_conns s e s' Hs He) as Hok.
  assert (forall c, visible s c -> False) as Hquiet.
  { intros c [Ho Hp]. unfold conn_is in *. destruct (sc_conns s !! c) as [w|] eqn:Hw; [|done].
    destruct (co_open _ Hok c w Hw Ho Hp) as (_ & Hns & _). congruence. }
  split.
  - intros c Hc. destruct (conn_is c ws_open s) eqn:Ho; [|done]. destruct (Hquiet c). split; [done|].
    by apply (co_conn _ Hok).
  - destruct (adds_sigStep e s s' Hok He) as (l & Hl & Hall). exists l. split; [done|].
    eapply Forall_impl; [exact Hall|]. intros [c|c []|c m]; cbn; try done; [|by apply Hquiet].
    intros [?|Hv]; [done|by destruct (Hquiet c)].
Qed.


End Runs.

(** ** A session *)

Module SigDemo.

Definition url : URL := mkURL "https" false "signal.pmux.io" "" "/".
Definition field (name : string) (body : list Byte.byte) : option string :=
  if decide (name = "nonce") then Some "n1" else if decide (name = "token") then Some "a.b.c" else Some "".

(** Two replies of the token endpoints. *)
Definition world : World := set_net [] [Reply 200 (Some []); Reply 200 (Some [])] world0.

Definition start : SC :=
  NewSignalingClient (mkIdentity [] [] "0123456789abcdef0123456789abcdef") "https://signal.pmux.io" "host" "" true 0 0 world.

Abbreviation sigSteps := (Signaling.sigSteps (fun _ m => m) (fun _ m => m) (fun _ => Some url) (fun _ => None)
  (fun _ => None) (fun _ => true) (fun _ => Some []) field (fun _ => None)).
Abbreviation sigStep := (Signaling.sigStep (fun _ m => m) (fun _ m => m) (fun _ => Some url) (fun _ => None)
  (fun _ => None) (fun _ => true) (fun _ => Some []) field (fun _ => None)).
Abbreviation sig_reachable := (Signaling.sig_reachable (fun _ m => m) (fun _ m => m) (fun _ => Some url)
  (fun _ => None) (fun _ => None) (fun _ => true) (fun _ => Some []) field (fun _ => None)).

(** From the start to a served connection. *)
Definition connect : list SigEvent :=
  [EvRun Go; EvRun Go; EvRun Go; EvRun Go; EvRun (Dial DialOK); EvRun (Wrote true);
   EvRun (Read (SigMsg (signal "auth"))); EvRun (Wrote true)].

Definition after (l : list SigEvent) : SC := default start (sigSteps l start).

Definition request : SignalingMessage := signal "connect_request".

(** Failing dials until the client is dormant. *)
Definition starve : list SigEvent :=
  [EvRun Go; EvRun Go; EvRun Go; EvRun Go; EvRun (Dial (DialFail None)); EvRun (Random 100);
   EvTick (400 * second); EvRun PickTimer; EvRun Go; EvRun Go; EvRun Go; EvRun (Dial (DialFail None)); EvRun (Random 0)].

End SigDemo.

Lemma sig_demo_reachable l s : SigDemo.sigSteps l SigDemo.start = Some s -> SigDemo.sig_reachable s.
Proof. apply sig_reachable_steps. constructor. Qed.

Lemma suspended_host_is_silent_witness : exists s s',
  SigDemo.sigSteps (SigDemo.connect ++ [EvSuspend true]) SigDemo.start = Some s /\
  SigDemo.sigStep (EvSend SigDemo.request true) s = Some s' /\ sc_conn s = Some 0%nat /\
  conn_is 0 ws_open s = false.
Proof.
  eexists _, _. split; [vm_compute; reflexivity|]. split; [vm_compute; reflexivity|]. split; [reflexivity|].
  eapply suspended_host_is_silent with (e := EvSend SigDemo.request true).
  - apply (sig_demo_reachable (SigDemo.connect ++ [EvSuspend true])). vm_compute. reflexivity.
  - reflexivity.
  - vm_compute. reflexivity.
  - reflexivity.
Defined.


