(* ===== verification/Update.v ===== *)
(** * internal/update: version checks and the self-update

    The persisted result of the last check (state.go), the comparison of
    versions (version.go), the query of GitHub's latest release (checker.go),
    the detection of the install method (detect.go) and the updaters. JSON,
    SHA-256, the archive readers and the library that swaps the executable
    are parameters; files and HTTP are [World]'s. *)

From S2P Require Import Prelude GoLib World.
From Stdlib Require Import Ascii.
Open Scope Z_scope.

(** ** state.go *)

Record State := mkState {
  st_LastCheck : Z;
  st_CurrentVersion : string;
  st_LatestVersion : string;
  st_UpdateAvailable : bool;
  st_ReleaseURL : string;
  st_InstallMethod : string
}.

(** [State{}]. *)
Definition zeroState : State := mkState 0 "" "" false "" "".

Definition IsStale (s : State) (runningVersion : string) : bool :=
  negb (bool_decide (st_CurrentVersion s = runningVersion)).

(** filepath.Join of a cleaned directory. *)
Definition StateFilePath (configDir : string) : Path := World.Join configDir "update-state.json".

Inductive StateError :=
| StateRead (e : FsError)
| StateParse
| StateMarshal
| StateWrite (e : FsError).

(** ** version.go *)

(** The numeric value of one dot-separated part: its digits before a dash, 0
    if they are no number. *)
Definition versionPart (part : string) : Z :=
  match Atoi (nth 0 (SplitN part "-" 2) "") with
  | (n, None) => if 0 <=? n then n else 0
  | _ => 0
  end.

Definition parseVersion (v : string) : Z * Z * Z :=
  let parts := SplitN (TrimPrefix v "v") "." 3 in
  let part i := match parts !! i with Some p => versionPart p | None => 0 end in
  (part 0%nat, part 1%nat, part 2%nat).

Definition CompareVersions (a b : string) : Z :=
  let '(a0, a1, a2) := parseVersion a in
  let '(b0, b1, b2) := parseVersion b in
  if a0 <? b0 then -1 else if a0 >? b0 then 1 else
  if a1 <? b1 then -1 else if a1 >? b1 then 1 else
  if a2 <? b2 then -1 else if a2 >? b2 then 1 else 0.

Section Files.
(** encoding/json on [State]. *)
Variable parseState : list byte -> option State.
Variable marshalState : State -> option (list byte).

Definition LoadState (path : Path) : M World (result StateError State) :=
  r ← ReadFile path;
  match r with
  | Err FsNotExist => ok zeroState
  | Err e => fail (StateRead e)
  | Ok data =>
      match parseState data with
      | Some s => ok s
      | None => fail StateParse
      end
  end.

(** After [os.CreateTemp] an error removes the temporary file, except one of
    the final rename. *)
Definition SaveState (path : Path) (state : State) : M World (result StateError unit) :=
  match marshalState state with
  | None => fail StateMarshal
  | Some data =>
      tmp ←! wrap StateWrite (CreateTemp (Dir path) "update-state-");
      _ ←! wrap (fun e => match e with AtCreateTemp f | AtWrite f | AtChmod f | AtClose f | AtRename f => StateWrite f end)
             (orRemove true tmp AtWrite (write_handle tmp data));
      _ ←! wrap (fun e => match e with AtCreateTemp f | AtWrite f | AtChmod f | AtClose f | AtRename f => StateWrite f end)
             (orRemove true tmp AtChmod (Chmod tmp mode0600));
      _ ←! wrap (fun e => match e with AtCreateTemp f | AtWrite f | AtChmod f | AtClose f | AtRename f => StateWrite f end)
             (orRemove false tmp AtClose (Close tmp));
      wrap StateWrite (Rename tmp path)
  end.
End Files.
