(* ===== verification/Updater.v ===== *)
(** * internal/update: the release check and the self-update

    The query of GitHub's latest release (checker.go), the detection of the
    install method (detect.go) and the updaters (updater*.go), over one state:
    the [World], the HTTP replies still to come, the requests sent, the
    commands run and the executables handed to the selfupdate library. URL
    parsing, JSON, SHA-256 and the archive readers are parameters. *)

From S2P Require Import Prelude GoLib GoText World Update.
From Stdlib Require Import Ascii.
Open Scope Z_scope.

(** ** What the standard library does with a reply *)

(** What the source reads of a [url.URL]; [url_Rest] is everything else. *)
Record URL := mkURL { url_Scheme : string; url_Host : string; url_Rest : string }.

(** A body: the bytes it delivers, and whether it then fails. *)
Record Body := mkBody { bo_data : list byte; bo_broken : bool }.

Inductive NetReply :=
| NoReply
| Response (status : Z) (location : string) (body : Body).

(** [io.ReadAll(io.LimitReader(body, n))]: a longer body is cut silently. *)
Definition readLimited (n : Z) (b : Body) : option (list byte) :=
  if n <=? blen (bo_data b) then Some (take (Z.to_nat n) (bo_data b))
  else if bo_broken b then None
  else Some (bo_data b).

Definition MiB : Z := 1048576.

(** The statuses on which [http.Client] follows the Location header of a
    reply to a GET. *)
Definition redirects (status : Z) : bool :=
  (status =? 301) || (status =? 302) || (status =? 303) || (status =? 307) || (status =? 308).

Inductive NetError (E : Type) := NetFailed | BadLocation | RedirectRefused (e : E).
Arguments NetFailed {E}.
Arguments BadLocation {E}.
Arguments RedirectRefused {E} e.

(** ** The state *)

(** [selfupdate.Apply]: the executable is replaced, or not, and then the old
    one is put back, or not. *)
Inductive ApplyResult := Applied | RolledBack | RollbackFailed.

Record Env := mkEnv {
  e_world : World;
  e_replies : list NetReply;
  e_sent : list (URL * list (string * string));
  e_applies : list ApplyResult;
  e_applied : list (list byte);
  e_exits : list bool;
  e_ran : list (string * list string)
}.
#[export] Instance Env_eta : Eta Env := fun e =>
  mkEnv (e_world e) (e_replies e) (e_sent e) (e_applies e) (e_applied e) (e_exits e) (e_ran e).

Definition on_world {A} (m : M World A) : M Env A := fun e =>
  let '(a, w) := m (e_world e) in (a, e <| e_world := w |>).

(** [cmd.Run() == nil]. *)
Definition runCommand (name : string) (args : list string) : M Env bool := fun e =>
  (default false (head (e_exits e)),
   e <| e_exits ::= tail |> <| e_ran ::= fun l => l ++ [(name, args)] |>).

Definition selfupdate_Apply (binary : list byte) : M Env ApplyResult := fun e =>
  (default RolledBack (head (e_applies e)),
   e <| e_applies ::= tail |> <| e_applied ::= fun l => l ++ [binary] |>).

(** ** checker.go: data *)

Definition defaultRepo : string := "ShiftinBits/pmux-agent".

Record ReleaseAsset := mkAsset { as_Name : string; as_BrowserDownloadURL : string }.
Record ReleaseInfo := mkRelease { ri_TagName : string; ri_HTMLURL : string; ri_Assets : list ReleaseAsset }.

Record Checker := mkChecker { ch_repo : string; ch_current : string; ch_stateFile : Path }.

Definition NewChecker (currentVersion : string) (stateFile : Path) : Checker :=
  mkChecker defaultRepo currentVersion stateFile.

Inductive CheckError :=
| BadRequestURL
| GitHubFailed (e : NetError unit)
| RateLimited (status : Z)
| BadStatus (status : Z)
| ReadBody
| ParseRelease.

(** ** detect.go *)

Inductive InstallMethod := MethodDev | MethodSnap | MethodDeb | MethodRPM | MethodHomebrew | MethodGitHub.

#[export] Instance InstallMethod_eq_dec : EqDecision InstallMethod.
Proof. solve_decision. Defined.

(** The string constant behind the type. *)
Definition methodName (m : InstallMethod) : string :=
  match m with
  | MethodDev => "dev" | MethodSnap => "snap" | MethodDeb => "deb"
  | MethodRPM => "rpm" | MethodHomebrew => "homebrew" | MethodGitHub => "github"
  end.

Definition methodLabel (m : InstallMethod) : string :=
  match m with
  | MethodDev => "development build"
  | MethodSnap => "Snap Store"
  | MethodDeb => "Debian package (dpkg)"
  | MethodRPM => "RPM package"
  | MethodHomebrew => "Homebrew"
  | MethodGitHub => "GitHub Releases (direct binary)"
  end.

Definition HasUpdatePath (m : InstallMethod) : bool :=
  match m with
  | MethodHomebrew | MethodSnap | MethodDeb | MethodRPM | MethodGitHub => true
  | MethodDev => false
  end.

(** What the path of the executable tells; [executable] is [os.Executable()],
    [resolved] is [filepath.EvalSymlinks] of it. *)
Definition methodOfPath (executable resolved : option string) : option InstallMethod :=
  match executable with
  | None => None
  | Some exePath =>
      let exePath := default exePath resolved in
      if Contains exePath "/snap/" then Some MethodSnap
      else if Contains exePath "/Caskroom/" || Contains exePath "/Cellar/" || Contains exePath "/opt/homebrew/"
      then Some MethodHomebrew
      else None
  end.

Definition Detect (buildMethod : string) (executable resolved : option string) : M Env InstallMethod :=
  if decide (buildMethod = "dev") then mret MethodDev else
  match methodOfPath executable resolved with
  | Some m => mret m
  | None =>
      deb ← runCommand "dpkg" ["-s"; "pmux"];
      if deb : bool then mret MethodDeb else
      rpm ← runCommand "rpm" ["-q"; "pmux"];
      if rpm : bool then mret MethodRPM else mret MethodGitHub
  end.

(** ** updater_github.go: data *)

Inductive RedirectError :=
| UntrustedRedirectHost (host : string)
| UntrustedRedirectScheme (scheme : string).

Inductive DownloadError :=
| UntrustedHost (url : string)
| UntrustedScheme (url : string)
| GetFailed (e : NetError RedirectError)
| HttpStatus (status : Z)
| ReadFailed.

Inductive ExtractError :=
| OpenGzip
| ReadTar
| OpenZip
| OpenZipEntry
| ReadEntry
| BinaryNotFound.

Inductive UpdateError :=
| NoAssetMatching (name : string)
| NoArchiveURL (name : string)
| NoChecksums
| FetchChecksums (e : DownloadError)
| ChecksumMissing (name : string)
| DownloadArchive (e : DownloadError)
| ChecksumMismatch (expected actual : string)
| ExtractBinary (e : ExtractError)
| ApplyRolledBack
| ApplyRollbackFailed
| NoPackageAsset (suffix arch : string)
| ErrElevationRequired (command : string)
| BrewNotFound
| BrewFailed
| DevBuild.

Definition allowedDownloadHosts : list string :=
  ["github.com"; "objects.githubusercontent.com"; "release-assets.githubusercontent.com"].

Definition allowed (host : string) : bool := bool_decide (host ∈ allowedDownloadHosts).

Definition checkDownloadRedirect (u : URL) : option RedirectError :=
  if negb (allowed (url_Host u)) then Some (UntrustedRedirectHost (url_Host u))
  else if negb (bool_decide (url_Scheme u = "https")) then Some (UntrustedRedirectScheme (url_Scheme u))
  else None.

(** An entry of a tar archive: its header, and the content that follows. *)
Inductive TarStep :=
| TarEntry (name : string) (regular : bool) (content : Body)
| TarBroken.

Record ZipEntry := mkZipEntry { ze_Name : string; ze_IsDir : bool; ze_Open : option Body }.

Definition maxBinary : Z := 100 * MiB.

Definition readEntry (b : Body) : result ExtractError (list byte) := of_option ReadEntry (readLimited maxBinary b).

(** The loop over the entries, after the archive was opened. *)
Fixpoint findInTar (steps : list TarStep) : result ExtractError (list byte) :=
  match steps with
  | [] => Err BinaryNotFound
  | TarBroken :: _ => Err ReadTar
  | TarEntry name regular content :: rest =>
      if bool_decide (Base name = "pmux") && regular then readEntry content else findInTar rest
  end.

Fixpoint findInZip (entries : list ZipEntry) : result ExtractError (list byte) :=
  match entries with
  | [] => Err BinaryNotFound
  | f :: rest =>
      if bool_decide (Base (ze_Name f) = "pmux") && negb (ze_IsDir f)
      then b ← of_option OpenZipEntry (ze_Open f); readEntry b
      else findInZip rest
  end.

(** The first line of checksums.txt of the form [<hash>  <filename>]. *)
Fixpoint findChecksum (lines : list string) (filename : string) : option string :=
  match lines with
  | [] => None
  | line :: rest =>
      match Fields line with
      | [hash; name] => if decide (name = filename) then Some hash else findChecksum rest filename
      | _ => findChecksum rest filename
      end
  end.

(** [strings.ToUpper] of one ASCII letter. *)
Definition upper_char (c : ascii) : ascii :=
  let n := N_of_ascii c in
  if ((97 <=? n) && (n <=? 122))%N then ascii_of_N (n - 32) else c.
Definition title (s : string) : string :=
  match s with
  | EmptyString => ""
  | String c rest => String (upper_char c) rest
  end.

Fixpoint findAsset (assets : list ReleaseAsset) (suffix arch : string) : result UpdateError ReleaseAsset :=
  match assets with
  | [] => Err (NoPackageAsset suffix arch)
  | a :: rest =>
      if HasSuffix (as_Name a) suffix && Contains (as_Name a) arch then Ok a else findAsset rest suffix arch
  end.

Section Update.
Variable url_Parse : string -> option URL.
(** [URL.Parse]: resolves a Location against the URL of the request. *)
Variable url_Resolve : URL -> string -> option URL.
Variable parseRelease : list byte -> option ReleaseInfo.
Variable marshalState : State -> option (list byte).
Variable sha256 : list byte -> list byte.
(** [gzip.NewReader] and what [tar.Reader.Next] then yields up to [io.EOF]. *)
Variable untar : list byte -> option (list TarStep).
Variable unzip : list byte -> option (list ZipEntry).
(** [runtime.GOOS], [runtime.GOARCH], and [exec.LookPath("brew")]. *)
Variable GOOS GOARCH : string.
Variable brewPath : option string.

(** ** net/http: a GET, following redirects *)

(** One request per reply; [via] are the requests so far, [check] the
    client's CheckRedirect. *)
Fixpoint hops {E} (check : list URL -> URL -> option E) (replies : list NetReply) (via : list URL) (u : URL)
    : result (NetError E) (Z * Body) * list NetReply * list URL :=
  let sent := via ++ [u] in
  match replies with
  | [] => (Err NetFailed, [], sent)
  | NoReply :: rest => (Err NetFailed, rest, sent)
  | Response status location body :: rest =>
      if redirects status && negb (bool_decide (location = "")) then
        match url_Resolve u location with
        | None => (Err BadLocation, rest, sent)
        | Some u' =>
            match check sent u' with
            | Some e => (Err (RedirectRefused e), rest, sent)
            | None => hops check rest sent u'
            end
        end
      else (Ok (status, body), rest, sent)
  end.

Definition http_Get {E} (check : list URL -> URL -> option E) (headers : list (string * string)) (u : URL)
    : M Env (result (NetError E) (Z * Body)) := fun e =>
  let '(r, replies, sent) := hops check (e_replies e) [] u in
  (r, e <| e_replies := replies |> <| e_sent ::= fun l => l ++ map (fun u => (u, headers)) sent |>).

(** The client's own limit, when it has no CheckRedirect. *)
Definition defaultCheckRedirect (via : list URL) (u : URL) : option unit :=
  if (10 <=? length via)%nat then Some tt else None.

(** ** checker.go *)

Definition releaseURL (c : Checker) : string :=
  "https://api.github.com/repos/" +:+ ch_repo c +:+ "/releases/latest".

Definition FetchRelease (c : Checker) : M Env (result CheckError ReleaseInfo) :=
  match url_Parse (releaseURL c) with
  | None => fail BadRequestURL
  | Some u =>
      resp ←! wrap GitHubFailed (http_Get defaultCheckRedirect
        [("Accept", "application/vnd.github.v3+json"); ("User-Agent", "pmux/" +:+ ch_current c)] u);
      let '(status, body) := resp in
      if (status =? 403) || (status =? 429) then fail (RateLimited status) else
      if negb (status =? 200) then fail (BadStatus status) else
      match readLimited MiB body with
      | None => fail ReadBody
      | Some data => lift (of_option ParseRelease (parseRelease data))
      end
  end.

Definition Check (c : Checker) (method : InstallMethod) : M Env (result CheckError State) :=
  if decide (ch_current c = "dev") then ok (mkState 0 "dev" "" false "" "") else
  release ←! FetchRelease c;
  now ← on_world time_Now;
  let state := mkState now (ch_current c) (ri_TagName release)
    (CompareVersions (ch_current c) (ri_TagName release) <? 0) (ri_HTMLURL release) (methodName method) in
  _ ← ignore (on_world (SaveState marshalState (ch_stateFile c) state));
  ok state.

(** ** updater_github.go *)

Definition archiveArch : string :=
  if decide (GOOS = "darwin") then "universal" else if decide (GOARCH = "amd64") then "x86_64" else GOARCH.
Definition archiveExt : string := if decide (GOOS = "darwin") then ".zip" else ".tar.gz".

Definition archiveName (release : ReleaseInfo) : string :=
  "pmux-agent_" +:+ TrimPrefix (ri_TagName release) "v" +:+ "_" +:+ title GOOS +:+ "_" +:+
  archiveArch +:+ archiveExt.

Definition matchArchiveName (release : ReleaseInfo) : result UpdateError string :=
  let name := archiveName release in
  if existsb (fun a => bool_decide (as_Name a = name)) (ri_Assets release) then Ok name
  else Err (NoAssetMatching name).

(** The last asset of that name, as the loop leaves it. *)
Definition assetNamed (release : ReleaseInfo) (name : string) : ReleaseAsset :=
  foldl (fun found a => if decide (as_Name a = name) then a else found) (mkAsset "" "") (ri_Assets release).

Definition download (url : string) (maxBytes : Z) : M Env (result DownloadError (list byte)) :=
  match url_Parse url with
  | None => fail (UntrustedHost url)
  | Some parsed =>
      if negb (allowed (url_Host parsed)) then fail (UntrustedHost url) else
      if negb (bool_decide (url_Scheme parsed = "https")) then fail (UntrustedScheme url) else
      resp ←! wrap GetFailed (http_Get (fun _ u => checkDownloadRedirect u) [] parsed);
      let '(status, body) := resp in
      if negb (status =? 200) then fail (HttpStatus status) else
      lift (of_option ReadFailed (readLimited maxBytes body))
  end.

Definition fetchExpectedChecksum (url filename : string) : M Env (result UpdateError string) :=
  data ←! wrap FetchChecksums (download url MiB);
  lift (of_option (ChecksumMissing filename) (findChecksum (Lines data) filename)).

Definition extractFromTarGz (data : list byte) : result ExtractError (list byte) :=
  steps ← of_option OpenGzip (untar data); findInTar steps.

Definition extractFromZip (data : list byte) : result ExtractError (list byte) :=
  entries ← of_option OpenZip (unzip data); findInZip entries.

Definition extractBinary (archiveData : list byte) (name : string) : result ExtractError (list byte) :=
  if HasSuffix name ".zip" then extractFromZip archiveData else extractFromTarGz archiveData.

Definition apply (binary : list byte) : M Env (result UpdateError unit) :=
  a ← selfupdate_Apply binary;
  match a with
  | Applied => ok tt
  | RolledBack => fail ApplyRolledBack
  | RollbackFailed => fail ApplyRollbackFailed
  end.

Definition github_Update (release : ReleaseInfo) : M Env (result UpdateError unit) :=
  name ←! lift (matchArchiveName release);
  let archiveURL := as_BrowserDownloadURL (assetNamed release name) in
  let checksumsURL := as_BrowserDownloadURL (assetNamed release "checksums.txt") in
  _ ←! lift (check (negb (bool_decide (archiveURL = ""))) (NoArchiveURL name));
  _ ←! lift (check (negb (bool_decide (checksumsURL = ""))) NoChecksums);
  expectedHash ←! fetchExpectedChecksum checksumsURL name;
  archiveData ←! wrap DownloadArchive (download archiveURL maxBinary);
  let actualHex := hex_encode (sha256 archiveData) in
  _ ←! lift (check (bool_decide (actualHex = expectedHash)) (ChecksumMismatch expectedHash actualHex));
  binaryData ←! wrap ExtractBinary (lift (extractBinary archiveData name));
  apply binaryData.

(** ** The other updaters, and [NewUpdater] *)

Definition elevated (tool suffix : string) (release : ReleaseInfo) : M Env (result UpdateError unit) :=
  asset ←! lift (findAsset (ri_Assets release) suffix GOARCH);
  fail (ErrElevationRequired
    ("curl -LO " +:+ as_BrowserDownloadURL asset +:+ " && sudo " +:+ tool +:+ " " +:+ as_Name asset)).

Definition deb_Update : ReleaseInfo -> M Env (result UpdateError unit) := elevated "dpkg -i" ".deb".
Definition rpm_Update : ReleaseInfo -> M Env (result UpdateError unit) := elevated "rpm -U" ".rpm".

Definition snap_Update (_ : ReleaseInfo) : M Env (result UpdateError unit) :=
  fail (ErrElevationRequired "sudo snap refresh pmux").

Definition dev_Update (_ : ReleaseInfo) : M Env (result UpdateError unit) := fail DevBuild.

Definition homebrew_Update (_ : ReleaseInfo) : M Env (result UpdateError unit) :=
  match brewPath with
  | None => fail BrewNotFound
  | Some brew =>
      done ← runCommand brew ["upgrade"; "shiftinbits/tap/pmux"];
      if done : bool then ok tt else fail BrewFailed
  end.

(** [NewUpdater(method).Update]. *)
Definition NewUpdater (method : InstallMethod) : ReleaseInfo -> M Env (result UpdateError unit) :=
  match method with
  | MethodHomebrew => homebrew_Update
  | MethodSnap => snap_Update
  | MethodDeb => deb_Update
  | MethodRPM => rpm_Update
  | MethodGitHub => github_Update
  | MethodDev => dev_Update
  end.
End Update.

(** ** banner.go *)

(** The versions the notice shows, when there is one. *)
Definition PrintBannerIfAvailable (parseState : list byte -> option State) (stateFile : Path)
    (runningVersion : string) : M World (option (string * string)) :=
  r ← LoadState parseState stateFile;
  match r with
  | Err _ => mret None
  | Ok state =>
      if negb (st_UpdateAvailable state) || IsStale state runningVersion then mret None
      else mret (Some (st_CurrentVersion state, st_LatestVersion state))
  end.

(** ** Lemmas *)

Definition trusted (u : URL) : Prop := url_Scheme u = "https" /\ allowed (url_Host u) = true.

Lemma checkDownloadRedirect_None u : checkDownloadRedirect u = None <-> trusted u.
Proof.
  unfold checkDownloadRedirect, trusted. destruct (allowed _); simpl; [|naive_solver].
  case_bool_decide; naive_solver.
Qed.

(** The steps of the updater that only read the network. *)
Definition quiet (e e' : Env) : Prop :=
  e_applied e' = e_applied e /\ e_applies e' = e_applies e /\ e_ran e' = e_ran e /\ e_exits e' = e_exits e.

(** Every request sent between two states went to a trusted URL. *)
Definition trustedSends (e e' : Env) : Prop :=
  exists reqs, e_sent e' = (e_sent e ++ reqs)%list /\ Forall (fun q => trusted (fst q)) reqs.

Lemma quiet_trans e1 e2 e3 : quiet e1 e2 -> quiet e2 e3 -> quiet e1 e3.
Proof. unfold quiet. naive_solver congruence. Qed.

Lemma trustedSends_refl e : trustedSends e e.
Proof. exists []. by rewrite app_nil_r. Qed.

Lemma trustedSends_trans e1 e2 e3 : trustedSends e1 e2 -> trustedSends e2 e3 -> trustedSends e1 e3.
Proof.
  intros (r1 & H1 & F1) (r2 & H2 & F2). exists (r1 ++ r2)%list.
  rewrite H2, H1, (app_assoc (e_sent e1)). split; [done|]. by apply Forall_app.
Qed.

Section Lemmas.
Variable url_Parse : string -> option URL.
Variable url_Resolve : URL -> string -> option URL.
Variable sha256 : list byte -> list byte.
Variable untar : list byte -> option (list TarStep).
Variable unzip : list byte -> option (list ZipEntry).
Variable GOOS GOARCH : string.
Variable brewPath : option string.

Abbreviation get := (download url_Parse url_Resolve).
Abbreviation update := (github_Update url_Parse url_Resolve sha256 untar unzip GOOS GOARCH).

(** Every URL requested is the first one or passed the check; the result is
    the reply that ended the chain. *)
Lemma hops_spec {E} (check : list URL -> URL -> option E) replies via u :
  let '(r, rest, sent) := hops url_Resolve check replies via u in
  (exists us, sent = (via ++ us)%list /\
     Forall (fun u' => u' = u \/ exists via', check via' u' = None) us) /\
  (forall status body, r = Ok (status, body) ->
     exists pre location, replies = (pre ++ Response status location body :: rest)%list).
Proof using Type.
  assert (Hone : forall u : URL, Forall (fun u' => u' = u \/ exists via', check via' u' = None) [u])
    by (intros; constructor; auto).
  revert via u. induction replies as [|[|status location body] replies IH]; intros via u; simpl.
  1, 2: by (split; [exists [u]|]).
  destruct (redirects status && negb (bool_decide (location = ""))).
  2: { split; [by exists [u]|]. intros ? ? [= <- <-]. by exists [], location. }
  destruct (url_Resolve u location) as [u'|]; [|by (split; [exists [u]|])].
  destruct (check (via ++ [u])%list u') eqn:Hc; [by (split; [exists [u]|])|].
  specialize (IH (via ++ [u])%list u'). destruct (hops _ _ _ _ _) as [[r rest] sent].
  destruct IH as [(us & -> & Hus) Hr]. split.
  - exists (u :: us). rewrite <- app_assoc. split; [done|]. constructor; [by left|].
    eapply Forall_impl; [exact Hus|]. intros x [->|?]; right; eauto.
  - intros st b Hst. destruct (Hr _ _ Hst) as (pre & loc & ->).
    by exists (Response status location body :: pre), loc.
Qed.

(** [data] is what a request of [url], and the redirects it led to, was
    answered with: at most [n] bytes of a reply with status 200. *)
Definition served (url : string) (n : Z) (data : list byte) (e e' : Env) : Prop :=
  exists u pre location body,
    url_Parse url = Some u /\ trusted u /\
    e_replies e = (pre ++ Response 200 location body :: e_replies e')%list /\
    readLimited n body = Some data.

Lemma download_spec url n e :
  let '(r, e') := get url n e in
  quiet e e' /\ trustedSends e e' /\ (forall data, r = Ok data -> served url n data e e').
Proof using Type.
  unfold download. destruct (url_Parse url) as [u|] eqn:Hu.
  2: { split; [done|]. split; [apply trustedSends_refl|done]. }
  destruct (allowed (url_Host u)) eqn:Ha; simpl.
  2: { split; [done|]. split; [apply trustedSends_refl|done]. }
  case_bool_decide as Hs; simpl.
  2: { split; [done|]. split; [apply trustedSends_refl|done]. }
  unfold mbind_err, wrap, http_Get.
  pose proof (hops_spec (fun _ u => checkDownloadRedirect u) (e_replies e) [] u) as Hh.
  destruct (hops _ _ _ _ _) as [[r rest] sent]. destruct Hh as [(us & -> & Hus) Hr].
  assert (Forall trusted us) as Ht.
  { eapply Forall_impl; [exact Hus|]. intros x [->|[_ Hx]]; [done|]. by apply checkDownloadRedirect_None in Hx. }
  set (e' := e <| e_replies := rest |> <| e_sent ::= _ |>).
  assert (quiet e e') as Hq by done.
  assert (trustedSends e e') as Hts.
  { eexists. split; [reflexivity|]. rewrite Forall_map. exact Ht. }
  destruct r as [[status body]|err]; simpl; [|by (split; [|split])].
  destruct (status =? 200) eqn:Hst; simpl; [|by (split; [|split])].
  split; [done|]. split; [done|]. intros data Hd. apply Z.eqb_eq in Hst as ->.
  destruct (Hr _ _ eq_refl) as (pre & location & Hrep).
  destruct (readLimited n body) as [d|] eqn:Hread; simplify_eq/=.
  by exists u, pre, location, body.
Qed.

(** The run ends in state [e2], with an error and nothing applied. *)
Ltac stop e2 H :=
  exists e2; destruct H as [Hq Hs]; split; [exact Hq|]; split; [exact Hs|];
  left; eexists; split; [reflexivity|done].

(** The run of the self-update up to the call of the library: either it fails
    with nothing applied, or it goes on with a verified binary. *)
Lemma github_Update_run release e :
  let name := archiveName GOOS GOARCH release in
  let url n := as_BrowserDownloadURL (assetNamed release n) in
  exists e2, quiet e e2 /\ trustedSends e e2 /\
    ((exists err, update release e = (Err err, e2) /\
        err <> ApplyRolledBack /\ err <> ApplyRollbackFailed /\ (forall c, err <> ErrElevationRequired c)) \/
     (exists sums archive binary e1,
        served (url "checksums.txt") MiB sums e e1 /\ served (url name) maxBinary archive e1 e2 /\
        findChecksum (Lines sums) name = Some (hex_encode (sha256 archive)) /\
        extractBinary untar unzip archive name = Ok binary /\
        update release e = apply binary e2)).
Proof using Type.
  cbv zeta. unfold github_Update, fetchExpectedChecksum.
  set (name := archiveName GOOS GOARCH release).
  unfold mbind_err, lift, wrap, matchArchiveName. fold name.
  set (trace e2 := quiet e e2 /\ trustedSends e e2).
  assert (T0 : trace e) by (split; [done|apply trustedSends_refl]).
  destruct (existsb _ _); [|stop e T0].
  case_bool_decide; simpl; [stop e T0|]. case_bool_decide; simpl; [stop e T0|].
  pose proof (download_spec (as_BrowserDownloadURL (assetNamed release "checksums.txt")) MiB e) as Hd.
  destruct (get _ MiB e) as [r1 e1]. destruct Hd as (Hq1 & Hs1 & Hr1).
  assert (T1 : trace e1) by done.
  destruct r1 as [sums|err]; simpl; [|stop e1 T1].
  destruct (findChecksum (Lines sums) name) as [hash|] eqn:Hf; simpl; [|stop e1 T1].
  pose proof (download_spec (as_BrowserDownloadURL (assetNamed release name)) maxBinary e1) as Hd.
  destruct (get _ maxBinary e1) as [r2 e2]. destruct Hd as (Hq2 & Hs2 & Hr2).
  assert (T2 : trace e2) by (split; [by eapply quiet_trans|by eapply trustedSends_trans]).
  destruct r2 as [archive|err]; simpl; [|stop e2 T2].
  case_bool_decide as Hh; simpl; [|stop e2 T2]. subst hash.
  destruct (extractBinary untar unzip archive name) as [binary|err] eqn:Hx; simpl; [|stop e2 T2].
  exists e2. split; [apply T2|]. split; [apply T2|]. right.
  exists sums, archive, binary, e1. auto 10.
Qed.

Lemma apply_spec binary e :
  let '(r, e') := apply binary e in
  e_applied e' = (e_applied e ++ [binary])%list /\ e_sent e' = e_sent e /\ e_replies e' = e_replies e /\
  r = match default RolledBack (head (e_applies e)) with
      | Applied => Ok tt | RolledBack => Err ApplyRolledBack | RollbackFailed => Err ApplyRollbackFailed
      end.
Proof using Type. unfold apply, selfupdate_Apply. rewrite mbind_run. simpl. by destruct (default _ _). Qed.

(** C9: the self-update installs nothing that was not published. Every
    request of a run, redirects included, goes over https to one of GitHub's
    three download hosts; and if the run touches the executable at all, it
    does so once, with the pmux binary of the archive of this release for this
    platform, as served by those hosts, after the SHA-256 of that archive was
    found equal to the one checksums.txt lists for its name. *)
Theorem self_update_verified release e :
  let '(r, e') := update release e in
  let name := archiveName GOOS GOARCH release in
  let url n := as_BrowserDownloadURL (assetNamed release n) in
  trustedSends e e' /\
  (e_applied e' = e_applied e \/
   exists sums archive binary e1,
     e_applied e' = (e_applied e ++ [binary])%list /\
     served (url "checksums.txt") MiB sums e e1 /\ served (url name) maxBinary archive e1 e' /\
     findChecksum (Lines sums) name = Some (hex_encode (sha256 archive)) /\
     extractBinary untar unzip archive name = Ok binary).
Proof using Type.
  destruct (github_Update_run release e)
    as (e2 & Hq & Hs & [(err & -> & _)|(sums & archive & binary & e1 & H1 & H2 & Hf & Hx & ->)]).
  - split; [done|]. left. apply Hq.
  - pose proof (apply_spec binary e2) as Ha. destruct (apply binary e2) as [r e'].
    destruct Ha as (Hap & Hse & Hre & _). destruct Hq as (Hqa & _). split.
    + destruct Hs as (reqs & Hs & Ht). exists reqs. by rewrite Hse.
    + right. exists sums, archive, binary, e1. rewrite Hap, Hqa. unfold served in *. rewrite Hre. auto.
Qed.

(** What an update reports is what it did. No error means that the
    library replaced the executable, or that brew upgraded it; an error of the
    library says whether the old executable is back; the package managers'
    updaters do nothing and only say which command to run; and every other
    error comes before anything was replaced. *)
Theorem update_reports method release e :
  let '(r, e') := NewUpdater url_Parse url_Resolve sha256 untar unzip GOOS GOARCH brewPath method release e in
  let tried := exists binary, e_applied e' = (e_applied e ++ [binary])%list in
  match r with
  | Ok _ =>
      (method = MethodGitHub /\ tried /\ head (e_applies e) = Some Applied) \/
      (method = MethodHomebrew /\ e_applied e' = e_applied e /\ head (e_exits e) = Some true /\
       exists brew, e_ran e' = (e_ran e ++ [(brew, ["upgrade"; "shiftinbits/tap/pmux"])])%list)
  | Err ApplyRolledBack => method = MethodGitHub /\ tried /\ default RolledBack (head (e_applies e)) = RolledBack
  | Err ApplyRollbackFailed => method = MethodGitHub /\ tried /\ head (e_applies e) = Some RollbackFailed
  | Err (ErrElevationRequired _) => method ∈ [MethodSnap; MethodDeb; MethodRPM] /\ e' = e
  | Err _ => e_applied e' = e_applied e
  end.
Proof using Type.
  destruct method; try done.
  1: set_solver.
  1, 2: unfold NewUpdater, deb_Update, rpm_Update, elevated, mbind_err, lift, fail;
    induction (ri_Assets release); simpl; [done|]; destruct (_ && _); [set_solver|done].
  - unfold NewUpdater, homebrew_Update. destruct brewPath as [brew|]; [|done].
    rewrite mbind_run. simpl. destruct (e_exits e) as [|[] exits]; simpl; try done. right. eauto.
  - unfold NewUpdater. destruct (github_Update_run release e)
      as (e2 & Hq & Hs & [(err & -> & ? & ? & Hel)|(sums & archive & binary & e1 & H1 & H2 & Hf & Hx & ->)]).
    + destruct Hq as (Hqa & _). destruct err; try done. by destruct (Hel command).
    + pose proof (apply_spec binary e2) as Ha. destruct (apply binary e2) as [r e'].
      destruct Ha as (Hap & _ & _ & ->). destruct Hq as (Hqa & <- & _).
      rewrite Hap, Hqa. destruct (e_applies e2) as [|[] l]; simpl; eauto 10.
Qed.
End Lemmas.

(** ** A release, installed and refused *)

Module UpdateDemo.
Definition parse (s : string) : option URL :=
  if HasPrefix s "https://github.com/" then Some (mkURL "https" "github.com" (sdrop 19 s))
  else if HasPrefix s "https://objects.githubusercontent.com/"
  then Some (mkURL "https" "objects.githubusercontent.com" (sdrop 38 s))
  else if HasPrefix s "https://evil.example/" then Some (mkURL "https" "evil.example" (sdrop 21 s))
  else None.
(** A digest and an archive reader for the demonstration. *)
Definition digest (b : list byte) : list byte := take 2 b.
Definition untar1 (b : list byte) : option (list TarStep) :=
  Some [TarEntry "README.md" true (mkBody [] false); TarEntry "dist/pmux" true (mkBody (drop 2 b) false)].

Definition release : ReleaseInfo := mkRelease "v1.2.3" "https://github.com/r"
  [mkAsset "pmux-agent_1.2.3_Linux_x86_64.tar.gz" "https://github.com/a";
   mkAsset "checksums.txt" "https://github.com/c"].

Definition page (s : string) : NetReply := Response 200 "" (mkBody (bytes_of s) false).
Definition sums : NetReply :=
  page ("dead  other.zip" +:+ String newline "" +:+ "4142  pmux-agent_1.2.3_Linux_x86_64.tar.gz" +:+ String newline "").

Definition run (replies : list NetReply) :=
  github_Update parse (fun _ => parse) digest untar1 (fun _ => None) "linux" "amd64" release
    (mkEnv world0 replies [] [Applied] [] [] []).

Example installs :
  let '(r, e) := run [sums; Response 302 "https://objects.githubusercontent.com/x" (mkBody [] false); page "ABnew"] in
  r = Ok tt /\ e_applied e = [bytes_of "new"] /\ map (fun q => url_Host (fst q)) (e_sent e) =
    ["github.com"; "github.com"; "objects.githubusercontent.com"].
Proof. vm_compute. auto. Qed.

Example refuses_checksum :
  let '(r, e) := run [sums; page "AXbad"] in r = Err (ChecksumMismatch "4142" "4158") /\ e_applied e = [].
Proof. vm_compute. auto. Qed.

Example refuses_redirect :
  let '(r, e) := run [sums; Response 302 "https://evil.example/x" (mkBody [] false); page "ABnew"] in
  r = Err (DownloadArchive (GetFailed (RedirectRefused (UntrustedRedirectHost "evil.example")))) /\ e_applied e = [].
Proof. vm_compute. auto. Qed.

(** nfpm names an RPM by the architecture as rpm knows it, which is not what
    the updater looks for on amd64 or arm64. *)
Example no_rpm_for_amd64 :
  let assets := [mkAsset "pmux-1.2.3-1.x86_64.rpm" "https://github.com/r"] in
  rpm_Update "amd64" (mkRelease "v1.2.3" "" assets) (mkEnv world0 [] [] [] [] [] []) =
    (Err (NoPackageAsset ".rpm" "amd64"), mkEnv world0 [] [] [] [] [] []).
Proof. by vm_compute. Qed.
End UpdateDemo.
