(* ===== verification/Agent.v ===== *)
(** * internal/agent/agent.go, cleanup.go, monitor.go: the agent process

    [Run] wires the parts together: the store, the identity, the signaling
    client and the peer manager, the paired device that may connect. Then the
    agent is what its goroutines, the signaling server, the signals and the
    other processes make of it: a transition system over the stores and the
    peer manager's pool of goroutines. *)

From S2P Require Import Prelude GoLib GoText World Update Updater SecretStore Identity Pairing Token Config Supervisor.
From S2P Require Import Conc Protocol Peer PeerManager Signaling PairFlow.
From Stdlib Require Import Ascii.
Open Scope Z_scope.

(** ** Constants *)

Definition maxLogSize : Z := 10 * 1024 * 1024.
Definition tmuxMonitorInterval : Z := 2 * Time.Second.
Definition DefaultCleanupInterval : Z := 30 * Time.Second.
Definition DefaultIdleTimeout : Z := 60 * Time.Second.

(** ** Errors *)

(** [FatalInitError]: what a fresh start does not cure. *)
Inductive FatalInitError :=
| InitSecretStore (e : NewStoreError)
| InitIdentity (e : IdentityError).

Inductive StartError :=
| OpenLogFile (e : FsError)
| Fatal (e : FatalInitError).

(** How [Run] ends: [SignalingFailed] passes the rejection of the credentials
    on, [Crashed] is a panic of the process. *)
Inductive RunEnd :=
| RunOK
| StartFailed (e : StartError)
| SignalingFailed
| Crashed.

Definition IsFatalInitError (e : RunEnd) : bool :=
  match e with StartFailed (Fatal _) => true | _ => false end.

(** ** The log file *)

(** [os.Stat(p)] for the size. *)
Definition StatSize (p : Path) : M World (result FsError Z) :=
  faulty (fun w => (match w_files w !! p with Some f => Ok (blen (f_data f)) | None => Err FsNotExist end, w)).

Definition rotatedLogPath (p : Paths) : Path := World.Join (p_ConfigDir p) "agent.log.1".

Definition rotateLogIfNeeded (p : Paths) : M World unit :=
  info ← StatSize (agentLogPath p);
  match info with
  | Err _ => mret tt
  | Ok size => if size <? maxLogSize then mret tt else ignore (Rename (agentLogPath p) (rotatedLogPath p))
  end.

(** ** The allowed device *)

(** What the result of [LoadPairedDevice] makes of the allowed device: an
    error and no device become IDs no device has. *)
Definition reloadTarget (r : result DevicesError (option PairedDevice)) : string :=
  match r with
  | Err _ => "!invalid-load-error"
  | Ok None => "!unpaired"
  | Ok (Some d) => pd_DeviceID d
  end.

(** [NewPeerManager] as [Run] configures it; [answers] holds what the
    environment will answer. *)
Definition newManager (cfg : Config) (answers : Sys) : Sys :=
  let cc := c_Connection cfg in
  (NewPeerManager true answers)
    <| s_MaxPeers := cc_MaxMobileConnections cc |> <| s_ForceRelay := cc_ForceRelay cc |>
    <| s_hasDisconnect := true |> <| s_hasSecretFn := true |>.

(** ** The tmux client *)

Definition DefaultSocket : string := "pmux".

Record TmuxClient := mkTmuxClient { tx_Socket : string; tx_TmuxBin : string }.

(** [found]: what [exec.LookPath] answers. *)
Definition NewClient (found : option string) (socket : string) : TmuxClient :=
  mkTmuxClient (if decide (socket = "") then DefaultSocket else socket) (default "tmux" found).

(** The client of the configured socket and program. *)
Definition configuredClient (found : option string) (cfg : Config) : TmuxClient :=
  let c := NewClient found (tc_SocketName (c_Tmux cfg)) in
  if decide (tc_TmuxPath (c_Tmux cfg) = "") then c else mkTmuxClient (tx_Socket c) (tc_TmuxPath (c_Tmux cfg)).

(** What a client starts for a tmux command. *)
Definition commandLine (c : TmuxClient) (args : list string) : list string := tx_TmuxBin c :: "-L" :: tx_Socket c :: args.

(** ** Run *)

(** What [Run] starts, in order. *)
Inductive Launch :=
| NotifySignals
| RunTmux (argv : list string)
| StartKeepAwake
| StartSleepWatcher (keepAwake : bool)
| StartSignalLoop
| StartTmuxMonitor (interval : Z)
| StartCleaner
| StartUpdateChecker (c : Checker) (buildMethod : string) (interval : Z)
| RunSignaling (url : string)
| ClosePeers
| CloseSignaling.

Record AgentParts := mkParts {
  ap_Config : Config;
  ap_Identity : Identity;
  ap_Client : SC;
  ap_PresenceInterval : Z;
  ap_Manager : Sys
}.

(** How a process opens its store, given the keys directory and the
    configured backend. *)
Class StoreOpener (Store : Type) := {
  openStore : string -> string -> M (Store * World) (result NewStoreError unit)
}.

#[export] Instance MemoryOpener : StoreOpener MemorySecretStore := {| openStore _ _ := ok tt |}.

Section Run.
Context `{PairLib} {Store : Type} `{SecretStore Store} `{StoreOpener Store} `{ProcArgs}.
(** [os.Getpid()], [os.Hostname()], where tmux is found, the environment and
    what the build fixes. *)
Variable pid : Z.
Variables hostname tmuxFound : option string.
Variable env : Environ.
Variable hmacSecret version installMethod : string.
Variable paths : Paths.

Abbreviation Box := ((Store * World) * Procs)%type.
Abbreviation Boot := (Box * list Launch)%type.

Definition launch (x : Launch) : M Boot unit := on_snd (mmod (fun l => (l ++ [x])%list)).
Definition boot_box {A} (m : M Box A) : M Boot A := on_fst m.
Definition boot_store {A} (m : M (Store * World) A) : M Boot A := boot_box (on_store m).
Definition boot_files {A} (m : M World A) : M Boot A := boot_box (on_files m).

(** Everything before the signaling client runs; [now] is the clock then. *)
Definition startAgent (answers : Sys) (now : Z) : M Boot (result StartError AgentParts) :=
  _ ← boot_files (rotateLogIfNeeded paths);
  _ ←! wrap OpenLogFile (boot_files (openCreate (agentLogPath paths) mode0600));
  _ ← ignore (boot_box (WritePIDFile paths pid));
  _ ← launch NotifySignals;
  cfg ← boot_files (agentConfig lib_toml_Unmarshal env (p_ConfigFile paths));
  _ ←! wrap (fun e => Fatal (InitSecretStore e))
         (boot_store (openStore (p_KeysDir paths) (ic_SecretBackend (c_Identity cfg))));
  identity ←! wrap (fun e => Fatal (InitIdentity e)) (boot_store (LoadIdentity lib_sha256 (p_KeysDir paths)));
  _ ← launch (RunTmux (commandLine (configuredClient tmuxFound cfg) ["set-environment"; "-g"; "PROMPT_EOL_MARK"; ""]));
  let apiBaseURL := APIBaseURL cfg in
  let hostName := if decide (c_Name cfg = "") then DefaultHostName hostname else c_Name cfg in
  w ← boot_files (fun w => (w, w));
  let client := NewSignalingClient identity apiBaseURL hostName hmacSecret true (ReconnectInterval cfg) now w in
  paired ← boot_store (LoadPairedDevice lib_json_DevicesBack (p_PairedDevices paths));
  let manager := allow (reloadTarget paired) (newManager cfg answers) in
  let keepAwake := pc_KeepAwake (c_Power cfg) in
  _ ← (if keepAwake : bool then launch StartKeepAwake else mret tt);
  _ ← launch (StartSleepWatcher keepAwake);
  _ ← launch StartSignalLoop;
  _ ← launch (StartTmuxMonitor tmuxMonitorInterval);
  _ ← launch StartCleaner;
  _ ← (if uc_Enabled (c_Update cfg) && negb (bool_decide (version = "dev"))
       then launch (StartUpdateChecker (NewChecker version (StateFilePath (p_ConfigDir paths))) installMethod
                     (UpdateCheckInterval cfg))
       else mret tt);
  _ ← launch (RunSignaling apiBaseURL);
  ok (mkParts cfg identity client (KeepaliveInterval cfg) manager).

(** After the signaling client returned. Whether the peers close within ten
    seconds or not, the PID file goes. *)
Definition shutDown (r : RunResult) : M Boot RunEnd :=
  match r with
  | Panicked => mret Crashed
  | _ =>
      _ ← launch ClosePeers;
      _ ← launch CloseSignaling;
      _ ← boot_box (RemovePIDFile (PIDFilePath paths));
      mret (match r with CtxErr => RunOK | _ => SignalingFailed end)
  end.

(** [Run]; [signaling]: how the client's run ends. *)
Definition Run (answers : Sys) (now : Z) (signaling : SC -> RunResult) : M Boot RunEnd :=
  r ← startAgent answers now;
  match r with
  | Err e => mret (StartFailed e)
  | Ok parts => shutDown (signaling (ap_Client parts))
  end.
End Run.

(** ** The running agent *)

(** The goroutine of the signals SIGUSR1 and SIGUSR2 reloads the pairing
    itself; everything else of the peer manager is a pool of goroutines. *)
Record Agent (Store : Type) := mkAgent {
  a_store : Store * World;
  a_sys : Sys;
  a_loop : Thread Sys;
  a_threads : list (Thread Sys);
  (** mobile names the signaling client handed over, to be stored *)
  a_names : list (string * string);
  (** what every [LoadPairedDevice] returned, oldest first *)
  a_loads : list (result DevicesError (option PairedDevice))
}.
Arguments mkAgent {Store}.
Arguments a_store {Store}.
Arguments a_sys {Store}.
Arguments a_loop {Store}.
Arguments a_threads {Store}.
Arguments a_names {Store}.
Arguments a_loads {Store}.

#[export] Instance Agent_eta (Store : Type) : Eta (Agent Store) := fun a =>
  mkAgent (a_store a) (a_sys a) (a_loop a) (a_threads a) (a_names a) (a_loads a).

(** SIGUSR2, after the load. *)
Definition reload (target : string) : Proc Sys unit :=
  _ ← SetAllowedDeviceID target; CloseAllAndReopen.

(** A name update of the allowed device is the agent's own business; the rest
    goes to the peer manager. *)
Inductive Routed := ToManager | StoreName (deviceID name : string) | Ignored.

Definition routeSignal (allowedID : string) (msg : SignalingMessage) : Routed :=
  if decide (sm_Type msg = "mobile_name_updated" /\ sm_DeviceID msg <> "" /\ sm_Name msg <> "") then
    if decide (allowedID = "" \/ sm_DeviceID msg <> allowedID) then Ignored
    else StoreName (sm_DeviceID msg) (TruncateMobileName (sm_Name msg))
  else ToManager.

Section System.
Context `{PairLib} {Store : Type} `{SecretStore Store}.
Variable unmarshalEnvelope : list byte -> option string.
Variable unmarshalInto : forall k : Kind, list byte -> option (payload k).
Variable marshal : Message -> option (list byte).
(** The record of the paired device. *)
Variable record : Path.
(** What the other processes do to the store and the files. *)
Variable others : Store * World -> Store * World -> Prop.

Abbreviation inject := (PeerManager.inject lib_hmac_sha256 unmarshalEnvelope unmarshalInto marshal).

(** [SharedSecretFn] of the manager, which waits five seconds for it. *)
Definition SharedSecretFn (deviceID : string) : M (Store * World) (result SecretError (list byte)) :=
  Get (SharedSecretKey deviceID).

Definition isSecret (e : Effect) : bool := match e with ESecret _ _ => true | _ => false end.

(** The store answers what a section of the manager logged: the question for a
    secret, in time or too late. *)
Inductive answered : list Effect -> Store * World -> Store * World -> Prop :=
| answered_get d st :
    answered [ESecret d (match fst (SharedSecretFn d st) with Ok secret => Some secret | Err _ => None end)]
      st (snd (SharedSecretFn d st))
| answered_late d st : answered [ESecret d None] st (snd (SharedSecretFn d st))
| answered_none l st : forallb (fun e => negb (isSecret e)) l = true -> answered l st st.

(** What may reach the manager besides signaling messages and reloads. *)
Definition peripheral (e : Event) : Prop :=
  match e with
  | EvSignal _ | EvSetAllowed _ | EvReload => False
  | _ => True
  end.

Inductive agent_step (a : Agent Store) : Agent Store -> Prop :=
| step_goroutine before f after s' new t l st' :
    a_threads a = before ++ Atomic f :: after ->
    f (a_sys a) = Some (s', new, t) ->
    s_log s' = s_log (a_sys a) ++ l -> answered l (a_store a) st' ->
    agent_step a (a <| a_sys := s' |> <| a_store := st' |> <| a_threads := before ++ t :: after ++ new |>)
| step_loop f s' new t l st' :
    a_loop a = Atomic f ->
    f (a_sys a) = Some (s', new, t) ->
    s_log s' = s_log (a_sys a) ++ l -> answered l (a_store a) st' ->
    agent_step a (a <| a_sys := s' |> <| a_store := st' |> <| a_loop := t |> <| a_threads ::= fun ts => ts ++ new |>)
| step_event e s' new :
    peripheral e -> inject e (a_sys a) = (s', new) ->
    agent_step a (a <| a_sys := s' |> <| a_threads ::= fun ts => ts ++ new |>)
| step_signal msg s' new :
    routeSignal (s_allowed (a_sys a)) msg = ToManager -> inject (EvSignal msg) (a_sys a) = (s', new) ->
    agent_step a (a <| a_sys := s' |> <| a_threads ::= fun ts => ts ++ new |>)
| step_name msg d name :
    routeSignal (s_allowed (a_sys a)) msg = StoreName d name ->
    agent_step a (a <| a_names ::= fun l => l ++ [(d, name)] |>)
| step_store_name d name rest :
    a_names a = (d, name) :: rest ->
    agent_step a (a <| a_names := rest |>
      <| a_store := snd (UpdatePairedDeviceName lib_json_Devices lib_json_DevicesBack record d name (a_store a)) |>)
| step_SIGUSR2 r st' :
    a_loop a = Done ->
    LoadPairedDevice lib_json_DevicesBack record (a_store a) = (r, st') ->
    agent_step a (a <| a_store := st' |> <| a_loads ::= fun l => l ++ [r] |>
      <| a_loop := Conc.run (reload (reloadTarget r)) |>)
| step_others st' : others (a_store a) st' -> agent_step a (a <| a_store := st' |>).

Definition agent_steps : Agent Store -> Agent Store -> Prop := rtc agent_step.

(** ** Running it

    One move of a schedule, if it is one: which goroutine runs next, or what
    arrives. The store is asked in time. *)
Inductive Move := MThread (i : nat) | MLoop | MSignal (msg : SignalingMessage) | MReload.

(** The log of a section, and what the store makes of it. *)
Definition logged (s s' : Sys) : option (list Effect) :=
  let l := drop (length (s_log s)) (s_log s') in
  if decide (s_log s' = s_log s ++ l) then Some l else None.

Definition answer (l : list Effect) (st : Store * World) : option (Store * World) :=
  if forallb (fun e => negb (isSecret e)) l then Some st else
  match l with
  | [ESecret d ans] =>
      let '(r, st') := SharedSecretFn d st in
      if decide (ans = match r with Ok secret => Some secret | Err _ => None end) then Some st' else None
  | _ => None
  end.

Definition section (t : Thread Sys) (a : Agent Store)
    : option (Sys * (Store * World) * list (Thread Sys) * Thread Sys) :=
  match t with
  | Done => None
  | Atomic f =>
      '(s', new, t') ← f (a_sys a);
      l ← logged (a_sys a) s';
      st' ← answer l (a_store a);
      Some (s', st', new, t')
  end.

Definition move (m : Move) (a : Agent Store) : option (Agent Store) :=
  match m with
  | MThread i =>
      t ← a_threads a !! i;
      '(s', st', new, t') ← section t a;
      Some (a <| a_sys := s' |> <| a_store := st' |>
              <| a_threads := take i (a_threads a) ++ t' :: drop (S i) (a_threads a) ++ new |>)
  | MLoop =>
      '(s', st', new, t') ← section (a_loop a) a;
      Some (a <| a_sys := s' |> <| a_store := st' |> <| a_loop := t' |> <| a_threads ::= fun ts => ts ++ new |>)
  | MSignal msg =>
      match routeSignal (s_allowed (a_sys a)) msg with
      | ToManager =>
          let '(s', new) := inject (EvSignal msg) (a_sys a) in
          Some (a <| a_sys := s' |> <| a_threads ::= fun ts => ts ++ new |>)
      | _ => None
      end
  | MReload =>
      match a_loop a with
      | Done =>
          let '(r, st') := LoadPairedDevice lib_json_DevicesBack record (a_store a) in
          Some (a <| a_store := st' |> <| a_loads ::= fun l => l ++ [r] |>
                  <| a_loop := Conc.run (reload (reloadTarget r)) |>)
      | Atomic _ => None
      end
  end.

Fixpoint moves_of (l : list Move) (a : Agent Store) : option (Agent Store) :=
  match l with
  | [] => Some a
  | m :: l => a' ← move m a; moves_of l a'
  end.

(** The agent as [startAgent] leaves it: the pairing was loaded once. *)
Definition agentStart (cfg : Config) (answers : Sys) (st : Store * World) : Agent Store :=
  let '(r, st') := LoadPairedDevice lib_json_DevicesBack record st in
  mkAgent st' (allow (reloadTarget r) (newManager cfg answers)) Done [] [] [r].
End System.
