(* ===== verification/AgentProps.v ===== *)
(** * The agent lets in only the paired device

    The theorems about the running agent of [Agent]: the store's contract, the
    peer manager's invariant and the reload of the pairing, composed. *)

From S2P Require Import Prelude GoLib World Update Updater SecretStore Identity Pairing Token Config Supervisor.
From S2P Require Import Conc Protocol Peer PeerManager PeerSafety PeerProps Signaling PairFlow PairFlowProps Agent.
Open Scope Z_scope.

(** ** What the agent does to its store

    It reads it, and rewrites the record of the paired device; the secrets
    stay. [ok_secrets] is what is known of them. *)

Section Good.
Context {Store : Type} `{SecretStoreLaws Store}.
Variable dir name : string.
Variable ok_secrets : Secrets -> Prop.

(** The pairing record and the files it is written through. *)
Definition recordFile (p : Path) : Prop :=
  p = World.Join dir name \/ exists k, p = Temp dir ".paired-" k.

(** The secrets are [m]; the pairing record is no file of the store. *)
Definition holds (st : Store * World) (m : Secrets) : Prop :=
  view st m /\ (forall p, recordFile p -> ~ owns (fst st) p) /\ ok_secrets m.
Definition good (st : Store * World) : Prop := exists m, holds st m.

(** The secrets stay what they are. *)
Definition still {A} (c : M (Store * World) A) : Prop := forall st m, holds st m -> holds (snd (c st)) m.

Lemma still_bind {A B} (c : M (Store * World) A) (k : A -> M (Store * World) B) :
  still c -> (forall a, still (k a)) -> still (c ≫= k).
Proof using Type. intros Hc Hk st m Hm. rewrite mbind_run. by apply Hk, Hc. Qed.

Lemma still_mbind_err {E A B} (c : M (Store * World) (result E A)) (k : A -> M (Store * World) (result E B)) :
  still c -> (forall a, still (k a)) -> still (mbind_err c k).
Proof using Type.
  intros Hc Hk st m Hm. unfold mbind_err. specialize (Hc st m Hm).
  destruct (c st) as [[a|e] st1]; [|done]. by apply Hk.
Qed.

Lemma still_wrap {E F A} (f : E -> F) (c : M (Store * World) (result E A)) : still c -> still (wrap f c).
Proof using Type. intros Hc st m Hm. specialize (Hc st m Hm). unfold wrap. by destruct (c st). Qed.

Lemma still_same {A} (a : A) : still (fun st => (a, st)).
Proof using Type. by intros st m Hm. Qed.

Lemma still_Get k : still (Get k).
Proof using Type.
  intros st m (Hv & Ho & Hk). pose proof (Get_law k st m Hv) as Hl. pose proof (Get_owns k st) as Hown.
  unfold holds. destruct (Get k st) as [r st']. cbn in *. destruct Hl as [Hv' _]. split_and!; [done| |done].
  intros p Hp. rewrite Hown. by apply Ho.
Qed.

Lemma still_files {A} (c : M World A) : touches recordFile c -> still (on_snd c).
Proof using Type.
  intros Ht st m (Hv & Ho & Hk). destruct (on_snd_touches recordFile c st Ht) as [_ Hf].
  split_and!; [|by rewrite Hf|done]. eapply view_touches; [done| |done].
  intros p Hp Hr. by eapply Ho.
Qed.
End Good.

Create HintDb still.
#[export] Hint Resolve still_bind still_mbind_err still_wrap still_same still_Get still_files : still.
#[export] Hint Resolve touches_ReadFile : still.
#[export] Hint Extern 1 (still _ _ _ (ok _)) => apply still_same : still.
#[export] Hint Extern 1 (still _ _ _ (fail _)) => apply still_same : still.
#[export] Hint Extern 4 (still _ _ _ (match ?x with _ => _ end)) => destruct x : still.

Section Loads.
Context `{PairLib} {Store : Type} `{SecretStoreLaws Store}.
Variable dir name : string.
Variable ok_secrets : Secrets -> Prop.
Abbreviation still := (still dir name ok_secrets).

Lemma still_loadSecrets ds : still (loadSecrets ds).
Proof using Type. induction ds as [|d ds IH]; cbn [loadSecrets]; auto 10 with still. Qed.

Lemma still_LoadPairedDevices : still (LoadPairedDevices lib_json_DevicesBack (World.Join dir name)).
Proof using Type.
  apply still_bind; [auto with still|]. pose proof still_loadSecrets. auto 10 with still.
Qed.

Lemma still_LoadPairedDevice : still (LoadPairedDevice lib_json_DevicesBack (World.Join dir name)).
Proof using Type. apply still_mbind_err; [apply still_LoadPairedDevices|auto with still]. Qed.

Lemma still_SavePairedDevices ds : still (on_snd (SavePairedDevices lib_json_Devices (World.Join dir name) ds)).
Proof using Type.
  apply still_files. unfold SavePairedDevices. destruct (lib_json_Devices _); [|apply touches_ret].
  apply touches_wrap, touches_writeAtomic; [by left|]. intros k. right. by exists k.
Qed.

Lemma still_UpdatePairedDeviceName d n :
  still (UpdatePairedDeviceName lib_json_Devices lib_json_DevicesBack (World.Join dir name) d n).
Proof using Type.
  pose proof still_LoadPairedDevice. pose proof still_SavePairedDevices.
  apply still_mbind_err; [auto with still|]. intros [dev|]; [|auto with still].
  destruct (decide _); [auto with still|]. destruct (decide _); auto with still.
Qed.

(** What the store answers is what it holds. *)
Lemma SharedSecretFn_holds d st m secret : holds dir name ok_secrets st m ->
  fst (SharedSecretFn d st) = Ok secret -> m !! SharedSecretKey d = Some secret.
Proof using Type.
  intros (Hv & _) Hr. unfold SharedSecretFn in Hr. pose proof (Get_law (SharedSecretKey d) st m Hv) as Hl.
  destruct (Get _ st) as [r st']. cbn in Hr. subst r. by destruct Hl.
Qed.
End Loads.

(** ** Schedules are runs *)

Section Moves.
Context `{PairLib} {Store : Type} `{SecretStore Store}.
Variable unmarshalEnvelope : list byte -> option string.
Variable unmarshalInto : forall k : Kind, list byte -> option (payload k).
Variable marshal : Message -> option (list byte).
Variable record : Path.
Variable others : Store * World -> Store * World -> Prop.

Abbreviation agent_step := (agent_step unmarshalEnvelope unmarshalInto marshal record others).

Lemma answer_answered l (st st' : Store * World) : answer l st = Some st' -> answered l st st'.
Proof using Type.
  unfold answer. destruct (forallb _ l) eqn:Hl; [intros [= <-]; by apply answered_none|].
  destruct l as [|[| |d ans| | | | | | |] [|]]; try done.
  pose proof (answered_get d st) as Hg. destruct (SharedSecretFn d st) as [r st1]. cbn [fst snd] in Hg.
  case_decide as Ha; [|done]. intros [= <-]. by rewrite Ha.
Qed.

Lemma section_Some t (a : Agent Store) s' st' new t' : section t a = Some (s', st', new, t') ->
  exists f l, t = Atomic f /\ f (a_sys a) = Some (s', new, t') /\ s_log s' = s_log (a_sys a) ++ l /\
    answered l (a_store a) st'.
Proof using Type.
  destruct t as [|f]; [done|]. cbn. destruct (f (a_sys a)) as [[[s1 new1] t1]|] eqn:Hf; [|done]. cbn.
  unfold logged. case_decide as Hl; [|done]. cbn.
  destruct (answer _ (a_store a)) as [st1|] eqn:Ha; [|done]. intros [= <- <- <- <-].
  exists f, (drop (length (s_log (a_sys a))) (s_log s1)). split_and!; [done..|]. by apply answer_answered.
Qed.

Lemma move_step m a a' : move unmarshalEnvelope unmarshalInto marshal record m a = Some a' -> agent_step a a'.
Proof using Type.
  destruct m as [i| |msg|]; cbn [move].
  - destruct (a_threads a !! i) as [t|] eqn:Hi; [|done]. cbn.
    destruct (section t a) as [[[[s' st'] new] t']|] eqn:Hs; [|done]. intros [= <-].
    apply section_Some in Hs as (f & l & -> & Hf & Hl & Ha). eapply step_goroutine; [|done..].
    symmetry. by apply take_drop_middle.
  - destruct (section (a_loop a) a) as [[[[s' st'] new] t']|] eqn:Hs; [|done]. intros [= <-].
    apply section_Some in Hs as (f & l & Hloop & Hf & Hl & Ha). by eapply step_loop.
  - destruct (routeSignal _ msg) eqn:Hr; [|done..]. cbn. intros [= <-]. by eapply step_signal.
  - destruct (a_loop a) eqn:Hl; [|done]. destruct (LoadPairedDevice _ record (a_store a)) as [r st'] eqn:Hr.
    intros [= <-]. by apply step_SIGUSR2.
Qed.

Lemma moves_of_steps l a a' : moves_of unmarshalEnvelope unmarshalInto marshal record l a = Some a' ->
  agent_steps unmarshalEnvelope unmarshalInto marshal record others a a'.
Proof using Type.
  revert a. induction l as [|m l IH]; intros a; cbn [moves_of]; [intros [= <-]; constructor|].
  destruct (move _ _ _ record m a) as [a1|] eqn:Hm; [|done]. intros H'. econstructor; [by eapply move_step|by apply IH].
Qed.
End Moves.

(** ** Targets *)

Lemma lastAllowed_targets l : lastAllowed l = default "" (last (targets l)).
Proof.
  induction l as [|e l IH] using rev_ind; [done|]. rewrite lastAllowed_snoc, targets_snoc.
  destruct e; cbn; rewrite ?app_nil_r; try done. by rewrite last_snoc.
Qed.

(** No device is called what stands for no device. *)
Lemma reloadTarget_valid r d : ValidateDeviceID d = Ok tt -> reloadTarget r = d ->
  exists dev, r = Ok (Some dev) /\ pd_DeviceID dev = d.
Proof.
  intros Hd Hr. destruct r as [[dev|]|e]; cbn in Hr; [by exists dev|..]; subst d; vm_compute in Hd; discriminate.
Qed.

(** ** The system *)

Section System.
Context `{PairLib} {Store : Type} `{SecretStoreLaws Store}.
Variable unmarshalEnvelope : list byte -> option string.
Variable unmarshalInto : forall k : Kind, list byte -> option (payload k).
Variable marshal : Message -> option (list byte).
Variable dir name : string.
Variable ok_secrets : Secrets -> Prop.
Variable others : Store * World -> Store * World -> Prop.

Abbreviation record := (World.Join dir name).
Abbreviation agent_step := (agent_step unmarshalEnvelope unmarshalInto marshal record others).
Abbreviation agent_steps := (agent_steps unmarshalEnvelope unmarshalInto marshal record others).
Abbreviation inject := (PeerManager.inject lib_hmac_sha256 unmarshalEnvelope unmarshalInto marshal).
Abbreviation inv := (inv lib_hmac_sha256).
Abbreviation safe := (Conc.safe inv later (moved True)).
Abbreviation good := (good dir name ok_secrets).

(** What the other processes do to the secrets is acceptable. *)
Hypothesis others_good : forall st st', others st st' -> good st -> good st'.

(** The store held the device's secret at some moment of the run. *)
Definition held_once (a0 a : Agent Store) (d : string) (secret : list byte) : Prop :=
  exists a1 m, agent_steps a0 a1 /\ agent_steps a1 a /\ holds dir name ok_secrets (a_store a1) m /\
    m !! SharedSecretKey d = Some secret.

(** The signal loop and what has been loaded: it is idle or closing peers, and
    every load has been published; or the last one is about to be. *)
Definition loop_ok (s : Sys) (loop : Thread Sys) (loads : list (result DevicesError (option PairedDevice))) : Prop :=
  safe s loop /\ targets (s_log s) = map reloadTarget loads \/
  exists before r, loads = before ++ [r] /\ loop = Conc.run (reload (reloadTarget r)) /\
    targets (s_log s) = map reloadTarget before.

Record agent_ok (a0 a : Agent Store) : Prop := {
  ao_run : agent_steps a0 a;
  ao_inv : inv (a_sys a);
  ao_good : good (a_store a);
  ao_threads : Forall (safe (a_sys a)) (a_threads a);
  ao_loop : loop_ok (a_sys a) (a_loop a) (a_loads a);
  ao_secrets : forall d secret, ESecret d (Some secret) ∈ s_log (a_sys a) -> held_once a0 a d secret
}.

Lemma answered_good l st st' : answered l st st' -> good st -> good st'.
Proof using Type.
  intros [d s|d s|l' s _] [m Hm]; exists m; try done; by apply still_Get.
Qed.

(** One more answer of the store. *)
Lemma held_answered a0 a a' l st' :
  agent_ok a0 a -> agent_step a a' -> s_log (a_sys a') = s_log (a_sys a) ++ l -> answered l (a_store a) st' ->
  forall d secret, ESecret d (Some secret) ∈ s_log (a_sys a') -> held_once a0 a' d secret.
Proof using Type.
  intros [] Hstep -> Hans d secret [Hin|Hin]%elem_of_app.
  - destruct (ao_secrets0 d secret Hin) as (a1 & m & ? & ? & ? & ?). exists a1, m. split_and!; [done| |done..].
    eapply rtc_r; done.
  - destruct ao_good0 as [m Hm]. exists a, m. split_and!; [done|by apply rtc_once|done|].
    remember (a_store a) as st eqn:Hst. destruct Hans as [d' s|d' s|l s Hl].
    + apply list_elem_of_singleton in Hin as [= -> Heq].
      destruct (fst (SharedSecretFn d' s)) as [b|] eqn:Hf; [|done]. injection Heq as ->.
      by eapply SharedSecretFn_holds.
    + by apply list_elem_of_singleton in Hin.
    + apply forallb_forall with (x := ESecret d (Some secret)) in Hl; [done|]. by apply list_elem_of_In.
Qed.
(** A section of a goroutine that reloads nothing. *)
Lemma section_ok s f s' new t : inv s -> safe s (Atomic f) -> f s = Some (s', new, t) ->
  inv s' /\ moved True s s' /\ Forall (safe s') new /\ safe s' t.
Proof using Type. intros HI Hs Hf. inversion Hs as [|g Hg]; subst. by apply Hg. Qed.

(** The reload, whatever it loads, is a change of the allowed device and then a
    goroutine like the others. *)
Lemma reload_sections r s f s' new t :
  Conc.run (reload (reloadTarget r)) = Atomic f -> f s = Some (s', new, t) -> inv s ->
  s' = allow (reloadTarget r) s /\ new = [] /\ safe s' t /\ inv s' /\ later s s'.
Proof using Type.
  intros [= <-] [= <- <- <-] HI.
  destruct (moves_allowed _ False s (reloadTarget r) id HI) as [HI' [HR _]]. split_and!; [done..| |done|done].
  change (safe (allow (reloadTarget r) s) (Conc.run CloseAllAndReopen)).
  eapply safe_run. apply CloseAllAndReopen_keeps.
Qed.

Lemma loop_later s s' loop loads : moved True s s' -> loop_ok s loop loads -> loop_ok s' loop loads.
Proof using Type.
  intros [HR HT] Hl. unfold loop_ok. rewrite (HT Logic.I). destruct Hl as [[Hs Ht]|]; [left|by right].
  split; [|done]. by eapply safe_later; [apply _| |].
Qed.

Lemma inject_log e s : s_log (fst (inject e s)) = s_log s.
Proof using Type.
  destruct e; cbn; try done; [by destruct (isAuthHandshakeMessage msg)|]. by destruct (timerLive t s).
Qed.

Lemma inject_safe e s s' new : (forall d, e <> EvSetAllowed d) -> inv s -> inject e s = (s', new) ->
  inv s' /\ moved True s s' /\ Forall (safe s') new.
Proof using Type.
  intros He HI Hi.
  pose proof (inject_ok lib_hmac_sha256 unmarshalEnvelope unmarshalInto marshal True e s) as H'.
  rewrite Hi in H'. destruct H' as [Hm Hn]; [by intros d ?%He|done|]. destruct (Hm HI). by split_and!.
Qed.

Lemma agent_ok_step a0 a a' : agent_ok a0 a -> agent_step a a' -> agent_ok a0 a'.
Proof using others_good.
  intros Hok Hstep. pose proof Hok as [].
  assert (agent_steps a0 a') as Hrun by by eapply rtc_r.
  pose proof (fun l st' => held_answered a0 a a' l st' Hok Hstep) as Hsec.
  (* what comes from the outside starts goroutines and logs nothing *)
  assert (forall e s' new, (forall d, e <> EvSetAllowed d) -> inject e (a_sys a) = (s', new) ->
    a' = a <| a_sys := s' |> <| a_threads ::= fun ts => ts ++ new |> -> agent_ok a0 a') as Hinject.
  { intros e s' new He Hi ->. destruct (inject_safe _ _ _ _ He ao_inv0 Hi) as (HI & HM & Hn).
    pose proof (inject_log e (a_sys a)) as Hl. rewrite Hi in Hl. cbn in Hl.
    split; [done..| |by eapply loop_later|].
    - apply Forall_app. split; [|done]. by eapply Forall_safe_later; [apply _|apply HM|].
    - apply (Hsec [] (a_store a)); [by rewrite app_nil_r|by apply answered_none]. }
  destruct Hstep as [before f after s' new t l st' Ht Hf Hl Ha|f s' new t l st' Ht Hf Hl Ha|e s' new Hp Hi|msg s' new Hr Hi
    |msg d n Hr|d n rest Hn|r st' Hd Hl|st' Ho].
  - rewrite Ht in ao_threads0. apply Forall_app in ao_threads0 as [Hb [Hthis Hafter]%Forall_cons].
    destruct (section_ok _ _ _ _ _ ao_inv0 Hthis Hf) as (HI & HM & Hnew & Ht').
    split; [done..|by eapply answered_good| |by eapply loop_later|exact (Hsec l st' Hl Ha)].
    apply Forall_app. split; [by eapply Forall_safe_later; [apply _|apply HM|]|].
    apply Forall_cons. split; [done|]. apply Forall_app. split; [|done].
    by eapply Forall_safe_later; [apply _|apply HM|].
  - assert (inv s' /\ later (a_sys a) s' /\ Forall (safe s') new /\ loop_ok s' t (a_loads a))
      as (HI & HR & Hnew & Hloop).
    { destruct ao_loop0 as [[Hs Htg]|(before & r & Hlds & Hgo & Htg)].
      - rewrite Ht in Hs. destruct (section_ok _ _ _ _ _ ao_inv0 Hs Hf) as (HI & [HR HT] & Hnew & Ht').
        split_and!; [done..|]. left. split; [done|]. by rewrite (HT Logic.I).
      - rewrite Ht in Hgo. destruct (reload_sections _ _ _ _ _ _ (eq_sym Hgo) Hf ao_inv0) as (-> & -> & Hs & HI & HR).
        split_and!; [done..|]. left. split; [done|]. rewrite Hlds, map_app, <-Htg. apply targets_snoc. }
    split; [done..|by eapply answered_good| |done|exact (Hsec l st' Hl Ha)].
    apply Forall_app. split; [|done]. by eapply Forall_safe_later; [apply _| |].
  - eapply Hinject; [|exact Hi|done]. by intros d ->.
  - eapply Hinject; [|exact Hi|done]. done.
  - split; try done. apply (Hsec [] (a_store a)); [by rewrite app_nil_r|by apply answered_none].
  - assert (good (snd (UpdatePairedDeviceName lib_json_Devices lib_json_DevicesBack record d n (a_store a)))) as Hg.
    { destruct ao_good0 as [m Hm]. exists m. by apply still_UpdatePairedDeviceName. }
    split; try done. apply (Hsec [] (a_store a)); [by rewrite app_nil_r|by apply answered_none].
  - assert (good st') as Hg.
    { destruct ao_good0 as [m Hm]. exists m. pose proof (still_LoadPairedDevice dir name ok_secrets (a_store a) m Hm) as Hm'.
      by rewrite Hl in Hm'. }
    split; [done..| |apply (Hsec [] (a_store a)); [by rewrite app_nil_r|by apply answered_none]].
    destruct ao_loop0 as [[Hs Htg]|(before & r' & Hlds & Hrun' & Htg)]; [|by rewrite Hd in Hrun'].
    right. by exists (a_loads a), r.
  - split; try done; [by eapply others_good|].
    apply (Hsec [] (a_store a)); [by rewrite app_nil_r|by apply answered_none].
Qed.

Lemma agent_ok_start cfg answers st :
  good st -> agent_ok (agentStart record cfg answers st) (agentStart record cfg answers st).
Proof using Type.
  intros [m Hm]. pose proof (still_LoadPairedDevice dir name ok_secrets st m Hm) as Hm'.
  unfold agentStart. destruct (LoadPairedDevice _ record st) as [r st']. cbn [snd] in Hm'.
  split; cbn; [done| |by exists m|done|left; split; [constructor|done]|].
  - apply fresh_inv. split; try done. by right.
  - by intros d secret Hin%list_elem_of_singleton.
Qed.

Lemma agent_reaches cfg answers st a :
  good st -> agent_steps (agentStart record cfg answers st) a -> agent_ok (agentStart record cfg answers st) a.
Proof using others_good.
  intros Hg Hs. revert a Hs. apply rtc_ind_r; [by apply agent_ok_start|].
  intros a1 a2 _ Hstep Hok. by eapply agent_ok_step.
Qed.

(** Who gets a peer: the device of a load that was published last, with a
    secret the store held. *)
Lemma inserted_was_loaded cfg answers st a d r allowed before after :
  good st -> agent_steps (agentStart record cfg answers st) a ->
  s_log (a_sys a) = before ++ EInserted d r allowed :: after ->
  (exists earlier res, earlier ++ [res] `prefix_of` a_loads a /\ reloadTarget res = d /\
     targets before = map reloadTarget (earlier ++ [res])) /\
  exists p, s_store (a_sys a) !! r = Some p /\ p_DeviceID p = d /\
    held_once (agentStart record cfg answers st) a d (p_sharedSecret p).
Proof using others_good.
  intros Hg Hs Hl. pose proof (agent_reaches _ _ _ _ Hg Hs) as [].
  destruct (inv_inserted _ _ _ _ _ _ _ ao_inv0 Hl) as (-> & Hne & Hlast & p & Hp & Hid & Hsec).
  split; [|exists p; by auto].
  assert (exists loads, loads `prefix_of` a_loads a /\ targets (s_log (a_sys a)) = map reloadTarget loads)
    as (loads & Hpre & Hall).
  { destruct ao_loop0 as [[_ Ht]|(b & res & -> & _ & Ht)]; [by exists (a_loads a)|].
    exists b. split; [by apply prefix_app_r|done]. }
  rewrite Hl in Hall. unfold targets in Hall. rewrite omap_app in Hall. cbn in Hall.
  symmetry in Hall. apply map_eq_app in Hall as (l1 & l2 & -> & Hl1 & _).
  change (map reloadTarget l1 = targets before) in Hl1.
  rewrite lastAllowed_targets, <-Hl1 in Hlast.
  destruct l1 as [|res l1 _] using rev_ind; [by cbn in Hlast|].
  rewrite map_app in Hlast. cbn [map] in Hlast. rewrite last_snoc in Hlast. exists l1, res. split_and!; [|done|done].
  etrans; [|exact Hpre]. by apply prefix_app_r.
Qed.
End System.

(** ** From [Run] to the running agent *)

Section StartUp.
Context `{PairLib} {Store : Type} `{SecretStore Store} `{StoreOpener Store} `{ProcArgs}.
Variable pid : Z.
Variables hostname tmuxFound : option string.
Variable env : Environ.
Variable hmacSecret version installMethod : string.
Variable paths : Paths.

Abbreviation startAgent := (startAgent pid hostname tmuxFound env hmacSecret version installMethod paths).

(** What a start-up starts with a configuration. *)
Definition launches (cfg : Config) : list Launch :=
  let keepAwake := pc_KeepAwake (c_Power cfg) in
  [NotifySignals;
   RunTmux (commandLine (configuredClient tmuxFound cfg) ["set-environment"; "-g"; "PROMPT_EOL_MARK"; ""])] ++
  (if keepAwake : bool then [StartKeepAwake] else []) ++
  [StartSleepWatcher keepAwake; StartSignalLoop; StartTmuxMonitor tmuxMonitorInterval; StartCleaner] ++
  (if uc_Enabled (c_Update cfg) && negb (bool_decide (version = "dev"))
   then [StartUpdateChecker (NewChecker version (StateFilePath (p_ConfigDir paths))) installMethod (UpdateCheckInterval cfg)]
   else []) ++
  [RunSignaling (APIBaseURL cfg)].

Abbreviation Boot := ((((Store * World) * Procs) * list Launch)%type).

Lemma boot_box_log {A} (m : M ((Store * World) * Procs) A) (s : Boot) : snd (snd (boot_box m s)) = snd s.
Proof using Type. destruct s as [b l]. unfold boot_box, on_fst. by destruct (m b). Qed.

(** A step of the start-up that starts nothing. *)
Lemma boot_bind {A B} (m : M ((Store * World) * Procs) A) (k : A -> M Boot B) (s : Boot) r s' :
  (boot_box m ≫= k) s = (r, s') -> exists a s1, snd s1 = snd s /\ k a s1 = (r, s').
Proof using Type.
  rewrite mbind_run. intros Hk. exists (fst (boot_box m s)), (snd (boot_box m s)).
  split; [apply boot_box_log|done].
Qed.

Lemma boot_bind_err {E F A B} (m : M ((Store * World) * Procs) (result E A)) (f : E -> F)
    (k : A -> M Boot (result F B)) (s : Boot) b s' :
  mbind_err (wrap f (boot_box m)) k s = (Ok b, s') -> exists a s1, snd s1 = snd s /\ k a s1 = (Ok b, s').
Proof using Type.
  intros (a & s1 & Hm%wrap_Ok & Hk)%mbind_err_Ok. exists a, s1. split; [|done].
  pose proof (boot_box_log m s) as Hl. by rewrite Hm in Hl.
Qed.

Lemma boot_bind_ignore {A B} (m : M ((Store * World) * Procs) A) (k : unit -> M Boot B) (s : Boot) r s' :
  (ignore (boot_box m) ≫= k) s = (r, s') -> exists s1, snd s1 = snd s /\ k tt s1 = (r, s').
Proof using Type.
  rewrite mbind_run. intros Hk. exists (snd (boot_box m s)). split; [apply boot_box_log|done].
Qed.

Lemma launch_bind {B} x (k : unit -> M Boot B) (s : Boot) : (launch x ≫= k) s = k tt (fst s, snd s ++ [x]).
Proof using Type. by destruct s. Qed.

(** The signaling client runs last, when the device of the record is allowed
    and the rest is started. *)
Lemma startAgent_ready answers now (s : Boot) parts s' :
  startAgent answers now s = (Ok parts, s') ->
  snd s' = snd s ++ launches (ap_Config parts) /\
  exists st, agentStart (p_PairedDevices paths) (ap_Config parts) answers st =
    mkAgent (fst (fst s')) (ap_Manager parts) Done [] [] [fst (LoadPairedDevice lib_json_DevicesBack (p_PairedDevices paths) st)].
Proof using Type.
  unfold startAgent. intros ([] & s1 & <- & ([] & s2 & <- & Hs)%boot_bind_err)%boot_bind.
  apply boot_bind_ignore in Hs as (s3 & <- & Hs). rewrite launch_bind in Hs.
  apply boot_bind in Hs as (cfg & s4 & H4 & ([] & s5 & H5 & (id & s6 & H6 & Hs)%boot_bind_err)%boot_bind_err).
  cbv zeta in Hs. rewrite launch_bind in Hs. apply boot_bind in Hs as (w & s7 & H7 & Hs).
  rewrite mbind_run in Hs. cbn [fst snd] in H4, H7.
  assert (snd s7 = snd s3 ++ firstn 2 (launches cfg)) as Hlog.
  { rewrite H7, H6, H5, H4, <-app_assoc. done. }
  clear H4 H5 H6 H7. destruct s7 as [[st7 ps7] l7]. cbn [snd] in Hlog. subst l7.
  unfold boot_store, boot_box, on_store, on_fst in Hs.
  destruct (LoadPairedDevice lib_json_DevicesBack (p_PairedDevices paths) st7) as [paired st8] eqn:Hload.
  cbn [fst snd] in Hs.
  assert (s' = (st8, ps7, snd s3 ++ launches cfg) /\ ap_Config parts = cfg /\
    ap_Manager parts = allow (reloadTarget paired) (newManager cfg answers)) as (-> & -> & Hm).
  { revert Hs. unfold launches. destruct (pc_KeepAwake (c_Power cfg)), (uc_Enabled (c_Update cfg) && _);
      intros [= <- <-]; rewrite <-!app_assoc; done. }
  split; [done|]. exists st7. unfold agentStart. by rewrite Hload, Hm.
Qed.

Lemma boot_bind_fails {E F A B} (m : M ((Store * World) * Procs) (result E A)) (f : E -> F)
    (k : A -> M Boot (result F B)) (s : Boot) e s' :
  mbind_err (wrap f (boot_box m)) k s = (Err e, s') ->
  snd s' = snd s \/ exists a s1, snd s1 = snd s /\ k a s1 = (Err e, s').
Proof using Type.
  unfold mbind_err, wrap. pose proof (boot_box_log m s) as Hl.
  destruct (boot_box m s) as [[a|e1] s1]; cbn in *; [|intros [= <- <-]; by left]. intros Hk. right. by exists a, s1.
Qed.

(** A start-up that fails has started nothing: at most the signals are
    listened to. *)
Lemma startAgent_fails answers now (s : Boot) e s' :
  startAgent answers now s = (Err e, s') -> snd s' = snd s \/ snd s' = snd s ++ [NotifySignals].
Proof using Type.
  unfold startAgent. intros ([] & s1 & <- & Hs)%boot_bind.
  apply boot_bind_fails in Hs as [?|([] & s2 & <- & Hs)]; [by left|].
  apply boot_bind_ignore in Hs as (s3 & <- & Hs). rewrite launch_bind in Hs. right.
  change (snd s3 ++ [NotifySignals]) with (snd (fst s3, snd s3 ++ [NotifySignals])).
  apply boot_bind in Hs as (cfg & s4 & <- & Hs).
  apply boot_bind_fails in Hs as [?|([] & s5 & <- & Hs)]; [done|].
  apply boot_bind_fails in Hs as [?|(id & s6 & <- & Hs)]; [done|].
  exfalso. revert Hs. cbv zeta. rewrite launch_bind, mbind_run. destruct (boot_files _ _) as [w s7]. cbn [fst snd].
  rewrite mbind_run. destruct (boot_store _ s7) as [r [b8 l8]]. cbn [fst snd].
  by destruct (pc_KeepAwake (c_Power cfg)), (uc_Enabled (c_Update cfg) && _).
Qed.

(** [Run] starts the parts in order and takes them down again. A start
    that fails has started nothing. Otherwise the signals are listened to
    first and the signaling client runs last, with the manager already
    restricted to the device that was loaded (the start of the running agent);
    when the client returns the peers are closed before the client and the PID
    file is gone (unless the removal fails), and only a rejection of the
    credentials is reported. *)
Theorem Run_starts_and_stops answers now signaling (s : Boot) :
  let '(r, s') := Run pid hostname tmuxFound env hmacSecret version installMethod paths answers now signaling s in
  match r with
  | StartFailed e => snd s' = snd s \/ snd s' = snd s ++ [NotifySignals]
  | _ => exists parts st s1, startAgent answers now s = (Ok parts, s1) /\
      agentStart (p_PairedDevices paths) (ap_Config parts) answers st =
        mkAgent (fst (fst s1)) (ap_Manager parts) Done [] []
          [fst (LoadPairedDevice lib_json_DevicesBack (p_PairedDevices paths) st)] /\
      match r with
      | Crashed => signaling (ap_Client parts) = Panicked /\ snd s' = snd s ++ launches (ap_Config parts)
      | _ => snd s' = snd s ++ launches (ap_Config parts) ++ [ClosePeers; CloseSignaling] /\
          (signaling (ap_Client parts) = CtxErr <-> r = RunOK) /\
          snd (fst (fst s')) = snd (Remove (PIDFilePath paths) (snd (fst (fst s1))))
      end
  end.
Proof using Type.
  unfold Run. rewrite mbind_run. destruct (startAgent answers now s) as [[parts|e] s1] eqn:Hs; cbn [fst snd].
  - pose proof (startAgent_ready _ _ _ _ _ Hs) as [Hl [st Hst]].
    destruct s1 as [[[t1 w1] ps1] l1]. cbn [fst snd] in Hl. subst l1.
    unfold shutDown. destruct (signaling (ap_Client parts)) eqn:Hr;
      [rewrite !launch_bind, mbind_run..|exists parts, st; eexists; by split_and!];
      unfold boot_box, RemovePIDFile, ignore, on_files, on_fst, on_snd; cbn [fst snd];
      destruct (Remove (PIDFilePath paths) w1) as [rm w2] eqn:Hrm; cbn [fst snd mret M_ret];
      exists parts, st; eexists; (split_and!; [done|done|by rewrite <-!app_assoc|rewrite Hr; by split|cbn; by rewrite Hrm]).
  - by eapply startAgent_fails.
Qed.
End StartUp.

(** ** Theorems *)

(** Secrets of the pairing are kept under well-formed device IDs only. *)
Definition keys_valid (m : Secrets) : Prop :=
  forall d, is_Some (m !! SharedSecretKey d) -> ValidateDeviceID d = Ok tt.

Section Admission.
Context `{PairLib} {Store : Type} `{SecretStoreLaws Store}.
Variable unmarshalEnvelope : list byte -> option string.
Variable unmarshalInto : forall k : Kind, list byte -> option (payload k).
Variable marshal : Message -> option (list byte).
Variable dir name : string.
Variable others : Store * World -> Store * World -> Prop.

Abbreviation record := (World.Join dir name).
Abbreviation agent_steps := (agent_steps unmarshalEnvelope unmarshalInto marshal record others).

(** C2: the running agent lets in the paired device only. Whatever the
    signaling server, the peers, the timers, the signals and the other
    processes do, and in whichever order: a peer is inserted only for the
    device that the last published load of the pairing record returned, whose
    ID is well-formed and whose shared secret, with which the peer has to
    authenticate, was in the store; the IDs that stand for no device admit
    nobody, even if a server asks for them. The other processes only have to
    keep secrets under well-formed IDs, as [AddPairedDevice] does. *)
Theorem agent_admits_only_paired cfg answers st a d r allowed before after :
  (forall st st', others st st' -> good dir name keys_valid st -> good dir name keys_valid st') ->
  good dir name keys_valid st ->
  agent_steps (agentStart record cfg answers st) a ->
  s_log (a_sys a) = before ++ EInserted d r allowed :: after ->
  ValidateDeviceID d = Ok tt /\
  (exists earlier dev, earlier ++ [Ok (Some dev)] `prefix_of` a_loads a /\ pd_DeviceID dev = d /\
     targets before = map reloadTarget (earlier ++ [Ok (Some dev)])) /\
  exists p, s_store (a_sys a) !! r = Some p /\ p_DeviceID p = d /\
    held_once unmarshalEnvelope unmarshalInto marshal dir name keys_valid others
      (agentStart record cfg answers st) a d (p_sharedSecret p).
Proof using Type.
  intros Hothers Hg Hs Hl.
  destruct (inserted_was_loaded _ _ _ _ _ _ _ Hothers cfg answers st a d r allowed before after Hg Hs Hl)
    as ((earlier & res & Hpre & Hres & Ht) & p & Hp & Hid & Hheld).
  assert (ValidateDeviceID d = Ok tt) as Hd.
  { destruct Hheld as (a1 & m & _ & _ & (_ & _ & Hk) & Hm). apply Hk. by eexists. }
  split; [done|]. split; [|by exists p].
  destruct (reloadTarget_valid res d Hd Hres) as (dev & -> & Hdev). by exists earlier, dev.
Qed.
End Admission.

(** ** The encrypted file is read once *)

Section Cached.
Variable hmac_sha256 : list byte -> list byte -> list byte.
Variable argon2_IDKey : list byte -> list byte -> list byte.
Variable aead_Seal : list byte -> list byte -> list byte -> list byte.
Variable aead_Open : list byte -> list byte -> list byte -> option (list byte).
Variable json_Marshal : Secrets -> option (list byte).
Variable json_Unmarshal : list byte -> option Secrets.
Variable GOOS : string.
Variable ioreg : option string.

#[local] Instance file_store : SecretStore FileSecretStore :=
  FileStore hmac_sha256 argon2_IDKey aead_Seal aead_Open json_Marshal json_Unmarshal GOOS ioreg.

(** Once the file is loaded, the map in memory is what the process reads. *)
#[local, refine] Instance cached_laws : SecretStoreLaws FileSecretStore := {|
  view s m := fs_loaded (fst s) = true /\ fs_secrets (fst s) = m;
  owns f := storeFile (fs_dir f)
|}.
Proof.
  - intros k [f w] m [Hl <-]. cbn in *. unfold File_Get, whenLoaded, ensureLoaded. rewrite Hl. cbn.
    split; [done|]. by destruct (fs_secrets f !! k) eqn:Hk.
  - intros k v [f w] m [Hl <-]. cbn in *. unfold File_Set, whenLoaded, ensureLoaded, updateAndFlush. rewrite Hl. cbn.
    rewrite Hl. destruct (flush _ _ _ _ _ _ _ w) as [[[]|e] w']; cbn; [done|]. by right.
  - intros k [f w] m [Hl <-]. cbn in *. unfold File_Delete, whenLoaded, ensureLoaded, updateAndFlush. rewrite Hl. cbn.
    rewrite Hl. destruct (flush _ _ _ _ _ _ _ w) as [[[]|e] w']; cbn; [done|]. by right.
  - done.
  - intros k [f w] d n Ho. by eapply (proj2 (File_Get_frame _ _ _ _ _ _ k f w)).
  - intros k v [f w] d n Ho. by eapply (proj2 (File_update_frame _ _ _ _ _ _ _ _ (<[k := v]>) f w)).
  - intros k [f w] d n Ho. by eapply (proj2 (File_update_frame _ _ _ _ _ _ _ _ (delete k) f w)).
  - intros k [f w] p. cbn -[File_Get]. by rewrite (proj1 (File_Get_frame _ _ _ _ _ _ k f w)).
  - intros k v [f w] p. cbn -[File_Set]. unfold File_Set. by rewrite (proj1 (File_update_frame _ _ _ _ _ _ _ _ (<[k := v]>) f w)).
  - intros k [f w] p. cbn -[File_Delete]. unfold File_Delete. by rewrite (proj1 (File_update_frame _ _ _ _ _ _ _ _ (delete k) f w)).
Defined.

(** [Run] has loaded the file when it gets to the pairing: the identity is in
    it. *)
Lemma LoadIdentity_loads `{PairLib} keysDir f w id f' w' :
  LoadIdentity lib_sha256 keysDir (f, w) = (Ok id, (f', w')) -> fs_loaded f' = true.
Proof.
  unfold LoadIdentity. intros ([] & [f1 w1] & _ & (priv & [f2 w2] & Hget%wrap_Ok & Hrest)%mbind_err_Ok)%mbind_err_Ok.
  assert (fs_loaded f2 = true) as Hl.
  { cbn in Hget. unfold File_Get, whenLoaded in Hget.
    destruct (ensureLoaded _ _ _ _ _ _ f1 w1) as [[f3|e] w3] eqn:He; [|done]. injection Hget as _ <- _.
    unfold ensureLoaded in He. destruct (fs_loaded f1) eqn:Hf; [unfold ok in He; by simplify_eq|].
    rewrite mbind_run in He. destruct (ReadFile (filePath f1) w1) as [[data|[]] w4]; cbn in He; try done.
    - apply mbind_err_Ok in He as (f5 & w5 & _ & [= <- _]). done.
    - unfold ok in He. by simplify_eq. }
  apply mbind_err_Ok in Hrest as (pub & [f6 w6] & Hread%wrap_Ok & Hend).
  assert (f6 = f2) as ->.
  { rewrite on_snd_run in Hread. cbn in Hread. destruct (ReadFile _ w2). by simplify_eq. }
  revert Hend. destruct (negb _); [done|]. destruct (negb _); [done|]. unfold ok. congruence.
Qed.

Section Stale.
Context `{PairLib}.
Variable unmarshalEnvelope : list byte -> option string.
Variable unmarshalInto : forall k : Kind, list byte -> option (payload k).
Variable marshal : Message -> option (list byte).
Variable dir name : string.

(** The other processes have their own memory: of the agent's store they reach
    the files only. *)
Definition files_only (st st' : FileSecretStore * World) : Prop := fst st' = fst st.

(** C37: an agent on the encrypted file admits only devices whose secret was
    in the file when it was loaded, which is before the agent connects.
    Whatever another process writes afterwards, a new pairing with its secret
    included, and however often the pairing is reloaded, the agent does not
    see the secret: the newly paired device is not let in until the agent is
    restarted, and a device paired again has to prove itself with the old
    secret. *)
Theorem file_agent_misses_new_pairing cfg answers f w a d r allowed before after :
  fs_loaded f = true -> (forall p, recordFile dir name p -> ~ storeFile (fs_dir f) p) ->
  agent_steps unmarshalEnvelope unmarshalInto marshal (World.Join dir name) files_only
    (agentStart (World.Join dir name) cfg answers (f, w)) a ->
  s_log (a_sys a) = before ++ EInserted d r allowed :: after ->
  exists p, s_store (a_sys a) !! r = Some p /\ p_DeviceID p = d /\
    fs_secrets f !! SharedSecretKey d = Some (p_sharedSecret p).
Proof using Type.
  intros Hload Hown Hs Hl.
  assert (forall st st', files_only st st' -> good dir name (eq (fs_secrets f)) st ->
    good dir name (eq (fs_secrets f)) st') as Hothers.
  { intros [f1 w1] [f2 w2] Hf (m & (Hv & Ho & Hm)). unfold files_only in Hf. cbn in Hf. subst f2. by exists m. }
  assert (good dir name (eq (fs_secrets f)) (f, w)) as Hg by by exists (fs_secrets f).
  destruct (inserted_was_loaded _ _ _ _ _ _ _ Hothers cfg answers (f, w) a d r allowed before after Hg Hs Hl)
    as (_ & p & Hp & Hid & a1 & m & _ & _ & (_ & _ & <-) & Hm). by exists p.
Qed.
End Stale.
End Cached.

(** ** From pairing to a connection *)

Module AgentDemo.
#[local] Existing Instance PairDemo.lib.

Definition connect : SignalingMessage := (signal "connect_request") <| sm_TargetDeviceID := PairDemo.mobile |>.
(** The mobile connects; its goroutine runs until the peer is tracked. *)
Definition connecting : list Move := MSignal connect :: repeat (MThread 0) 15.
Definition secret : list byte := replicate 32 x09.
Definition answers (l : list (option (list byte))) : Sys := Demo.start <| s_secrets := l |>.

Section Run.
Context {Store : Type} `{SecretStore Store}.
Definition moves := moves_of (Store := Store) Demo.unmarshalEnvelope Demo.unmarshalInto Demo.marshal
  (p_PairedDevices PairDemo.paths).
Definition started (l : list (option (list byte))) (st : Store * World) : Agent Store :=
  agentStart (p_PairedDevices PairDemo.paths) PairDemo.cfg (answers l) st.
(** The log after a schedule. *)
Definition log (ms : list Move) (a : Agent Store) : option (list Effect) :=
  (fun a => s_log (a_sys a)) <$> moves ms a.
End Run.

(** The host as [pmux pair] left it. *)
Definition host : MemorySecretStore * World := fst (fst PairDemo.paired).
End AgentDemo.

#[local] Existing Instance PairDemo.lib.

Lemma AgentDemo_run {Store : Type} `{SecretStore Store} others ms (a a' : Agent Store) :
  AgentDemo.moves ms a = Some a' ->
  agent_steps Demo.unmarshalEnvelope Demo.unmarshalInto Demo.marshal (p_PairedDevices PairDemo.paths) others a a'.
Proof. apply moves_of_steps. Qed.

Lemma AgentDemo_host : good "cfg" "paired_devices.json" keys_valid AgentDemo.host.
Proof.
  exists (mem_secrets (fst AgentDemo.host)). split_and!; [done|by intros p _ []|].
  replace (mem_secrets (fst AgentDemo.host)) with
    (<[SharedSecretKey PairDemo.mobile := AgentDemo.secret]> {[ SecretKeyEd25519Private := replicate 64 x06 ]} : Secrets)
    by (vm_compute; reflexivity).
  intros d [v [[Hk _]|[_ [Hk _]%lookup_singleton_Some]]%lookup_insert_Some]; [|done].
  apply append_inj_l in Hk as <-. by vm_compute.
Qed.

Lemma AgentDemo_log {Store : Type} `{SecretStore Store} ms (a : Agent Store) l :
  AgentDemo.log ms a = Some l -> exists a', AgentDemo.moves ms a = Some a' /\ s_log (a_sys a') = l.
Proof.
  unfold AgentDemo.log. destruct (AgentDemo.moves ms a) as [a'|]; [|done]. intros [= <-]. by exists a'.
Qed.

Lemma AgentDemo_connected :
  AgentDemo.log AgentDemo.connecting (AgentDemo.started [Some AgentDemo.secret] AgentDemo.host) =
  Some ([EAllowed PairDemo.mobile; ESecret PairDemo.mobile (Some AgentDemo.secret);
         EConnection false stunServers; EInserted PairDemo.mobile 0%nat PairDemo.mobile])%list.
Proof. by vm_compute. Qed.

(** Paired by [pmux pair], started, and asked for by the mobile: the mobile
    gets its peer. *)
Lemma agent_admits_only_paired_witness :
  exists a, AgentDemo.moves AgentDemo.connecting (AgentDemo.started [Some AgentDemo.secret] AgentDemo.host) = Some a /\
    ValidateDeviceID PairDemo.mobile = Ok tt.
Proof.
  destruct (AgentDemo_log _ _ _ AgentDemo_connected) as (a & Ha & Hl). exists a. split; [exact Ha|].
  destruct (agent_admits_only_paired _ _ _ "cfg" "paired_devices.json" (fun _ _ => False) PairDemo.cfg
    (AgentDemo.answers [Some AgentDemo.secret]) AgentDemo.host a PairDemo.mobile 0%nat PairDemo.mobile [EAllowed PairDemo.mobile; ESecret PairDemo.mobile (Some AgentDemo.secret); EConnection false stunServers] []
    (fun _ _ (Hf : False) => False_ind _ Hf) AgentDemo_host (AgentDemo_run _ _ _ _ Ha) Hl) as [Hd _]. exact Hd.
Defined.

(** ** An agent that has loaded the encrypted file *)

Module CachedDemo.
Definition key : string := SharedSecretKey PairDemo.mobile.
Definition old : Secrets := {[ SecretKeyEd25519Private := replicate 64 x06 ]}.
Definition new : Secrets := <[key := AgentDemo.secret]> old.
(** One byte tells the two maps apart. *)
Definition marshal (m : Secrets) : option (list byte) := Some [match m !! key with Some _ => x02 | None => x01 end].
Definition unmarshal (p : list byte) : option Secrets := Some (if decide (p = [x02]) then new else old).

#[local] Instance store : SecretStore FileSecretStore :=
  FileStore StoreExample.hmac StoreExample.argon StoreExample.seal StoreExample.open marshal unmarshal "linux" None.

(** The files before and after another process paired the mobile. *)
Definition unpaired : World := snd (snd (SetSecret SecretKeyEd25519Private (replicate 64 x06)
  (NewFileSecretStore "keys", set_entropy (replicate 400 x2a) (set_dirs {["cfg"; "keys"]} world0)))).
Definition paired : World := snd (snd (AddPairedDevice lib_json_Devices (p_PairedDevices PairDemo.paths)
  (mkDevice PairDemo.mobile "phone" (b64_encode AgentDemo.secret) 100 0) (NewFileSecretStore "keys", unpaired))).

Definition loaded (m : Secrets) : FileSecretStore := mkFileStore "keys" m true.

(** Started unpaired; then the files change, the agent is told to reload, and
    the mobile connects. *)
Definition agent : Agent FileSecretStore :=
  (AgentDemo.started [None] (loaded old, unpaired)) <| a_store := (loaded old, paired) |>.
Definition schedule : list Move := [MReload; MLoop] ++ MSignal AgentDemo.connect :: repeat (MThread 0) 4.
End CachedDemo.

#[local] Existing Instance CachedDemo.store.

(** A process started now finds the mobile's secret; the running agent does
    not, and rejects the mobile it has just been told of. *)
Example new_pairing_is_rejected :
  fst (Get CachedDemo.key (NewFileSecretStore "keys", CachedDemo.paired)) = Ok AgentDemo.secret /\
  AgentDemo.log CachedDemo.schedule CachedDemo.agent =
  Some [EAllowed "!unpaired"; EAllowed PairDemo.mobile; ESecret PairDemo.mobile None;
        ESignal ((signal "connection_rejected") <| sm_Reason := "secret_unavailable" |>
                   <| sm_TargetDeviceID := PairDemo.mobile |>) true].
Proof. split; by vm_compute. Qed.

Lemma CachedDemo_connected :
  AgentDemo.log AgentDemo.connecting
    (AgentDemo.started [Some AgentDemo.secret] (CachedDemo.loaded CachedDemo.new, CachedDemo.paired)) =
  Some ([EAllowed PairDemo.mobile; ESecret PairDemo.mobile (Some AgentDemo.secret);
         EConnection false stunServers; EInserted PairDemo.mobile 0%nat PairDemo.mobile])%list.
Proof. by vm_compute. Qed.

Lemma file_agent_misses_new_pairing_witness :
  exists a p, AgentDemo.moves AgentDemo.connecting
      (AgentDemo.started [Some AgentDemo.secret] (CachedDemo.loaded CachedDemo.new, CachedDemo.paired)) = Some a /\
    s_store (a_sys a) !! 0%nat = Some p /\ CachedDemo.new !! CachedDemo.key = Some (p_sharedSecret p).
Proof.
  destruct (AgentDemo_log _ _ _ CachedDemo_connected) as (a & Ha & Hl).
  destruct (file_agent_misses_new_pairing StoreExample.hmac StoreExample.argon StoreExample.seal StoreExample.open
    CachedDemo.marshal CachedDemo.unmarshal "linux" None Demo.unmarshalEnvelope Demo.unmarshalInto Demo.marshal
    "cfg" "paired_devices.json" PairDemo.cfg (AgentDemo.answers [Some AgentDemo.secret])
    (CachedDemo.loaded CachedDemo.new) CachedDemo.paired a PairDemo.mobile 0%nat PairDemo.mobile
    [EAllowed PairDemo.mobile; ESecret PairDemo.mobile (Some AgentDemo.secret); EConnection false stunServers] [] eq_refl) as (p & Hp & _ & Hs).
  - intros p [->|[k ->]] [Hs|Hs]; discriminate Hs.
  - exact (AgentDemo_run _ _ _ _ Ha).
  - exact Hl.
  - exists a, p. repeat split; [exact Ha|exact Hp|exact Hs].
Defined.
