(* ===== verification/Upkeep.v ===== *)
(** * internal/agent/cleanup.go, monitor.go: the agent's background goroutines

    The connection cleaner, the watch on the tmux server and the periodic
    update check. Each is a loop over the ticks of its timer; a run is given
    by the ticks there are before the context ends. *)

From S2P Require Import Prelude GoLib GoText World Update Updater Agent.
Open Scope Z_scope.

(** ** cleanup.go *)

(** The parts the cleaner works on: the handler ([GetStalePeers],
    [PeerDisconnected]), the [PeerCloser] and the [PeerStateChecker]. *)
Class CleanerParts (S : Type) := {
  GetStalePeers : Z -> M S (list string);
  PeerDisconnected : string -> M S unit;
  DisconnectPeer : string -> M S bool;
  (** the peers and their connection states, in the order the map yields *)
  PeerStates : M S (list (string * string))
}.

Record ConnectionCleaner := mkCleaner { cl_hasStateChecker : bool; cl_interval : Z; cl_timeout : Z }.

Definition NewConnectionCleaner : ConnectionCleaner := mkCleaner false DefaultCleanupInterval DefaultIdleTimeout.
Definition WithInterval (d : Z) (cc : ConnectionCleaner) : ConnectionCleaner :=
  mkCleaner (cl_hasStateChecker cc) d (cl_timeout cc).
Definition WithTimeout (d : Z) (cc : ConnectionCleaner) : ConnectionCleaner :=
  mkCleaner (cl_hasStateChecker cc) (cl_interval cc) d.
Definition WithStateChecker (cc : ConnectionCleaner) : ConnectionCleaner :=
  mkCleaner true (cl_interval cc) (cl_timeout cc).

Section Cleaner.
Context {S : Type} `{CleanerParts S}.

(** A tracked peer goes through the manager; the rest of an untracked one is
    cleaned here. *)
Definition disconnect (peerID : string) : M S unit :=
  tracked ← DisconnectPeer peerID;
  if tracked : bool then mret tt else PeerDisconnected peerID.

Fixpoint disconnectAll (peers : list string) : M S unit :=
  match peers with
  | [] => mret tt
  | p :: rest => _ ← disconnect p; disconnectAll rest
  end.

Definition deadState (state : string) : bool := bool_decide (state = "failed") || bool_decide (state = "closed").

(** The peers the safety net closes: dead, and not just closed as stale. *)
Definition deadPeers (stale : list string) (states : list (string * string)) : list string :=
  (filter (fun '(p, state) => (p ∉ stale) /\ deadState state = true) states).*1.

Definition sweep (cc : ConnectionCleaner) : M S unit :=
  stale ← GetStalePeers (cl_timeout cc);
  _ ← disconnectAll stale;
  if cl_hasStateChecker cc then
    states ← PeerStates;
    disconnectAll (deadPeers stale states)
  else mret tt.

Lemma elem_deadPeers p stale states :
  p ∈ deadPeers stale states <-> (p ∉ stale) /\ exists state, (p, state) ∈ states /\ deadState state = true.
Proof using Type.
  unfold deadPeers. rewrite list_elem_of_fmap. split.
  - intros ([q st] & -> & [[Hs Hd] Hin]%list_elem_of_filter). split; [done|]. by exists st.
  - intros (Hs & st & Hin & Hd). exists (p, st). split; [done|]. by apply list_elem_of_filter.
Qed.

(** No peer is disconnected twice in a sweep. *)
Lemma sweep_once stale states :
  NoDup stale -> NoDup states.*1 -> NoDup (stale ++ deadPeers stale states).
Proof using Type.
  intros Hs Hd. apply NoDup_app. split_and!; [done| |].
  - intros p Hp [Hn _]%elem_deadPeers. done.
  - unfold deadPeers. induction states as [|[p st] states IH]; [constructor|].
    apply NoDup_cons in Hd as [Hp Hd]. rewrite filter_cons. destruct (decide _); [|by apply IH].
    apply NoDup_cons. split; [|by apply IH]. intros ([q st'] & Heq & [_ Hin]%list_elem_of_filter)%list_elem_of_fmap.
    apply Hp. apply list_elem_of_fmap. exists (q, st'). by split.
Qed.

(** [Run], for so many ticks. *)
Fixpoint cleanerRun (cc : ConnectionCleaner) (ticks : nat) : M S unit :=
  match ticks with
  | O => mret tt
  | Datatypes.S ticks => _ ← sweep cc; cleanerRun cc ticks
  end.
End Cleaner.

(** ** monitor.go *)

Inductive TmuxChange := TmuxDetected | TmuxExited.

(** [polls]: what [IsServerRunning] answers at each tick; the result is the
    log. *)
Fixpoint monitorTmux (wasRunning : bool) (polls : list bool) : list TmuxChange :=
  match polls with
  | [] => []
  | running :: rest =>
      (if running && negb wasRunning then [TmuxDetected]
       else if negb running && wasRunning then [TmuxExited] else []) ++ monitorTmux running rest
  end.

(** The server as the log tells it. *)
Definition changedTo (c : TmuxChange) : bool := match c with TmuxDetected => true | TmuxExited => false end.
Definition runningAfter (was : bool) (changes : list TmuxChange) : bool := foldl (fun _ c => changedTo c) was changes.

(** Every entry is a change of what was logged before. *)
Fixpoint alternates (was : bool) (changes : list TmuxChange) : Prop :=
  match changes with
  | [] => True
  | c :: rest => changedTo c <> was /\ alternates (changedTo c) rest
  end.

(** The log has an entry for every change, and ends with the server as the
    last poll found it. *)
Lemma monitorTmux_tracks was polls :
  alternates was (monitorTmux was polls) /\ runningAfter was (monitorTmux was polls) = default was (last polls).
Proof.
  revert was. induction polls as [|b polls IH]; intros was; [done|].
  destruct (IH b) as [IH1 IH2]. cbn [monitorTmux].
  assert (default was (last (b :: polls)) = default b (last polls)) as ->.
  { destruct polls; [done|]. by rewrite last_cons_cons; destruct (last _) eqn:Hl; [|apply last_None in Hl]. }
  destruct b, was; cbn; auto.
Qed.

(** ** The update checker of agent.go *)

Section UpdateChecker.
(** [checker.Check(method)]. *)
Variable check : M Env (result CheckError State).

(** Once at the start, then at every tick; the results are only logged. *)
Fixpoint runUpdateChecker (ticks : nat) : M Env (list (result CheckError State)) :=
  state ← check;
  match ticks with
  | O => mret [state]
  | S ticks => rest ← runUpdateChecker ticks; mret (state :: rest)
  end.

Lemma runUpdateChecker_checks ticks e : length (fst (runUpdateChecker ticks e)) = S ticks.
Proof using Type.
  revert e. induction ticks as [|ticks IH]; intros e; cbn [runUpdateChecker]; rewrite mbind_run.
  - by destruct (check e).
  - destruct (check e) as [state e1]. cbn [fst snd]. rewrite mbind_run.
    specialize (IH e1). destruct (runUpdateChecker ticks e1). cbn in *. by rewrite IH.
Qed.
End UpdateChecker.

(** The goroutine [Run] starts: the way of installation, then the checks. *)
Definition updateGoroutine (url_Parse : string -> option URL) (url_Resolve : URL -> string -> option URL)
    (parseRelease : list byte -> option ReleaseInfo) (marshalState : State -> option (list byte))
    (buildMethod : string) (executable resolved : option string) (c : Checker) (ticks : nat)
    : M Env (list (result CheckError State)) :=
  method ← Detect buildMethod executable resolved;
  runUpdateChecker (Check url_Parse url_Resolve parseRelease marshalState c method) ticks.
