(* ===== verification/Turn.v ===== *)
(** * internal/webrtc/peer.go: the request for TURN credentials

    What the peer manager's oracle of TURN credentials stands for: one signed
    GET of the signaling server with the agent's token. *)

From S2P Require Import Prelude GoLib World Update Updater SecretStore Identity Token Config Supervisor.
From S2P Require Import Conc Protocol Peer PeerManager.
Open Scope Z_scope.

Inductive TurnError :=
| CreateTurnRequest
| SignTurnRequest (e : TokenError)
| TurnConnection
| ReadTurn
| TurnStatus (status : Z) (body : string)
| ParseTurn.

Section Turn.
Variable hmac_sha256 : list byte -> list byte -> list byte.
Variable url_Parse : string -> option Identity.URL.
(** [json.Unmarshal] into [TurnCredentials]. *)
Variable json_Turn : list byte -> option ICEServer.

Definition requestTurnCredentials (serverURL jwt hmacSecret : string) : M World (result TurnError (list ICEServer)) :=
  let url := serverURL +:+ "/turn/credentials" in
  match url_Parse url with
  | None => fail CreateTurnRequest
  | Some u =>
      req ←! wrap SignTurnRequest (SignRequest hmac_sha256 u
               (mkRequest true "GET" url [("Authorization", "Bearer " +:+ jwt)] []) hmacSecret);
      resp ← http_Do req;
      match resp with
      | ConnectionError => fail TurnConnection
      | Reply status None => fail ReadTurn
      | Reply status (Some b) =>
          let body := limitBody b in
          if negb (status =? StatusOK) then fail (TurnStatus status (string_of body)) else
          match json_Turn body with
          | None => fail ParseTurn
          | Some creds => ok [creds]
          end
      end
  end.

(** At most one request is sent, with the token and to the server's own URL;
    servers come only out of the first 64 KiB of a reply of status 200. *)
Lemma requestTurnCredentials_once serverURL jwt hmacSecret w :
  let '(r, w') := requestTurnCredentials serverURL jwt hmacSecret w in
  (w_sent w' = w_sent w \/ exists rq, w_sent w' = (w_sent w ++ [rq])%list /\ rq_Method rq = "GET" /\
     rq_URL rq = serverURL +:+ "/turn/credentials" /\ head (rq_Headers rq) = Some ("Authorization", "Bearer " +:+ jwt)) /\
  forall servers, r = Ok servers -> exists raw creds,
    w_replies w = Reply 200 (Some raw) :: w_replies w' /\ json_Turn (limitBody raw) = Some creds /\ servers = [creds].
Proof.
  unfold requestTurnCredentials. set (url := serverURL +:+ _). destruct (url_Parse url) as [u|]; [|by split; [left|]].
  set (req0 := mkRequest _ _ _ _ _). unfold mbind_err at 1, wrap.
  pose proof (SignRequest_net hmac_sha256 u req0 hmacSecret w) as Hs.
  assert (Hh : forall req, fst (SignRequest hmac_sha256 u req0 hmacSecret w) = Ok req -> head (rq_Headers req) = head (rq_Headers req0)).
  { intros req. unfold SignRequest. case_decide; [by intros [= <-]|]. unfold mbind_err.
    destruct (signatureHeaders _ _ _ w) as [[hs|e] w1]; [|done]. by intros [= <-]. }
  destruct (SignRequest _ _ _ _ w) as [[req|e] w1]; cbn [map_err]; destruct Hs as [[Hs1 Hs2] Hreq]; [|by split; [left|]].
  destruct Hreq as (_ & Hu & _ & Hmeth). specialize (Hh req eq_refl).
  rewrite mbind_run. unfold http_Do. rewrite Hs2.
  assert (Hsent : exists rq, (w_sent w1 ++ [req])%list = (w_sent w ++ [rq])%list /\ rq_Method rq = "GET" /\ rq_URL rq = url /\
    head (rq_Headers rq) = Some ("Authorization", "Bearer " +:+ jwt)) by (exists req; by rewrite Hs1).
  destruct (w_replies w) as [|[|status [raw|]] rs]; cbn [fst snd]; try (by split; [by right|]).
  destruct (Z.eqb_spec status StatusOK) as [->|]; cbn [negb]; [|by split; [by right|]].
  destruct (json_Turn (limitBody raw)) as [creds|] eqn:Hj; [|by split; [by right|]].
  split; [by right|]. intros servers [= <-]. by exists raw, creds.
Qed.
End Turn.
