(* ===== verification/Firewall.v ===== *)
(** * internal/firewall: is the host firewall in the way?

    The probe of each platform over the commands it runs: a command ends with
    its combined output, or fails. The probe only looks. *)

From S2P Require Import Prelude GoLib GoText.
From Stdlib Require Import Ascii.
Open Scope Z_scope.

(** ** firewall.go *)

Inductive Confidence := ConfidenceUnknown | ConfidenceLow | ConfidenceHigh.

#[export] Instance Confidence_eq_dec : EqDecision Confidence.
Proof. solve_decision. Defined.

Definition confidenceString (c : Confidence) : string :=
  match c with ConfidenceLow => "low" | ConfidenceHigh => "high" | ConfidenceUnknown => "unknown" end.

Record Status := mkStatus {
  fw_Supported : bool; fw_FirewallEnabled : bool; fw_Authorized : bool;
  fw_Confidence : Confidence; fw_Detail : string; fw_Path : string
}.

#[export] Instance Status_eta : Eta Status := fun s =>
  mkStatus (fw_Supported s) (fw_FirewallEnabled s) (fw_Authorized s) (fw_Confidence s) (fw_Detail s) (fw_Path s).

Definition NeedsAttention (s : Status) : bool :=
  fw_Supported s && fw_FirewallEnabled s && negb (fw_Authorized s)
  && negb (bool_decide (fw_Confidence s = ConfidenceUnknown)).

(** [os.Executable()] and [filepath.EvalSymlinks] of it. *)
Definition ExecutablePath (executable resolved : option string) : option string :=
  exe ← executable; Some (default exe resolved).

Definition unsupportedProbe (binPath : string) : Status :=
  mkStatus false false false ConfidenceUnknown "" binPath.

(** ** exec.go *)

(** What the commands will answer, and which ran. *)
Record Shell := mkShell { sh_answers : list (option string); sh_ran : list (string * list string) }.

(** [execCommand(name, args...).CombinedOutput()]; the output of a failing
    command is not looked at. *)
Definition execCommand (name : string) (args : list string) : M Shell (option string) := fun s =>
  (default None (head (sh_answers s)), mkShell (tail (sh_answers s)) (sh_ran s ++ [(name, args)])).

(** ** firewall_linux.go *)

Definition linuxProbe (binPath : string) : M Shell Status :=
  let st := mkStatus true false true ConfidenceLow "" binPath in
  ufw ← execCommand "ufw" ["status"];
  if from_option (fun out => Contains out "Status: active") false ufw then
    mret (st <| fw_FirewallEnabled := true |> <| fw_Authorized := false |>
             <| fw_Detail := "ufw is active; inbound UDP to pmux may be blocked" |>)
  else
    fwd ← execCommand "firewall-cmd" ["--state"];
    if from_option (fun out => Contains out "running") false fwd then
      mret (st <| fw_FirewallEnabled := true |> <| fw_Authorized := false |>
               <| fw_Detail := "firewalld is running; inbound UDP to pmux may be blocked" |>)
    else mret (st <| fw_Detail := "no active host firewall detected (or could not verify without root)" |>).

(** ** firewall_windows.go *)

Definition fwRuleName : string := "pmux agent".

Definition windowsProbe (binPath : string) : M Shell Status :=
  let st := mkStatus true false false ConfidenceHigh "" binPath in
  out ← execCommand "powershell" ["-NonInteractive"; "-Command";
    "(Get-NetFirewallProfile | Where-Object Enabled -eq 'True' | Measure-Object).Count -gt 0"];
  match out with
  | None => mret (mkStatus true false false ConfidenceUnknown "could not read firewall state" binPath)
  | Some out =>
      if negb (ContainsLower out "true") then
        mret (st <| fw_Authorized := true |> <| fw_Detail := "firewall disabled on all profiles" |>)
      else
        let st := st <| fw_FirewallEnabled := true |> in
        rule ← execCommand "powershell" ["-NonInteractive"; "-Command";
          "(Get-NetFirewallRule -DisplayName '" +:+ fwRuleName +:+ "' -ErrorAction SilentlyContinue).DisplayName"];
        match rule with
        | None => mret (st <| fw_Confidence := ConfidenceUnknown |> <| fw_Detail := "could not query firewall rules" |>)
        | Some rule =>
            if Contains rule fwRuleName
            then mret (st <| fw_Authorized := true |> <| fw_Detail := "inbound allow rule present" |>)
            else mret (st <| fw_Authorized := false |> <| fw_Detail := "no inbound allow rule for pmux" |>)
        end
  end.

(** ** firewall_darwin.go *)

Definition sfw : string := "/usr/libexec/ApplicationFirewall/socketfilterfw".

Definition macOSMajor : M Shell Z :=
  out ← execCommand "sw_vers" ["-productVersion"];
  match out with
  | None => mret 0
  | Some out =>
      let v := TrimSpace out in
      let major := match Cut v "." with Some (a, _) => a | None => v end in
      mret (fst (Atoi major))
  end.

(** The two lines after an entry tell whether the application is allowed. *)
Definition entryAllowed (next : list string) : bool :=
  match find (fun s => Contains s "Allow" || Contains s "Block") (take 2 next) with
  | Some s => Contains s "Allow"
  | None => false
  end.

(** [Some allowed] for the first entry of the path. *)
Fixpoint findEntry (lines : list string) (binPath : string) : option bool :=
  match lines with
  | [] => None
  | l :: rest =>
      match Cut (TrimSpace l) " : " with
      | Some (_, path) => if decide (TrimSpace path = binPath) then Some (entryAllowed rest) else findEntry rest binPath
      | None => findEntry rest binPath
      end
  end.

Definition listappsAuthorized (out binPath : string) : bool * bool :=
  match findEntry (Split out newline) binPath with
  | Some allowed => (allowed, true)
  | None => (false, false)
  end.

Definition darwinProbe (binPath : string) : M Shell Status :=
  let st := mkStatus true false false ConfidenceHigh "" binPath in
  out ← execCommand sfw ["--getglobalstate"];
  match out with
  | None => mret (mkStatus true false false ConfidenceUnknown "could not read firewall state" binPath)
  | Some out =>
      if negb (Contains out "enabled") then
        mret (st <| fw_Authorized := true |> <| fw_Detail := "firewall disabled" |>)
      else
        let st := st <| fw_FirewallEnabled := true |> in
        blockAll ← execCommand sfw ["--getblockall"];
        if from_option (fun out => Contains out "set to enabled") false blockAll then
          mret (st <| fw_Detail := "block-all mode active; all inbound connections blocked" |>)
        else
          major ← macOSMajor;
          if 15 <=? major then
            mret (st <| fw_Confidence := ConfidenceLow |>
                     <| fw_Detail := "macOS 15+: cannot verify per-app firewall status" |>)
          else
            apps ← execCommand sfw ["--listapps"];
            match apps with
            | None => mret (st <| fw_Confidence := ConfidenceUnknown |> <| fw_Detail := "could not list firewall apps" |>)
            | Some out =>
                let '(allowed, found) := listappsAuthorized out binPath in
                mret (if negb found then st <| fw_Detail := "pmux is not in the firewall allow-list" |>
                      else if negb allowed then st <| fw_Detail := "pmux is set to block incoming connections" |>
                      else st <| fw_Authorized := true |> <| fw_Detail := "pmux is allowed" |>)
            end
  end.

(** ** What the probes say *)

Lemma needs_attention_exactly s :
  NeedsAttention s = true <->
  fw_Supported s = true /\ fw_FirewallEnabled s = true /\ fw_Authorized s = false /\ fw_Confidence s <> ConfidenceUnknown.
Proof.
  unfold NeedsAttention. rewrite !andb_true_iff, !negb_true_iff, bool_decide_eq_false. tauto.
Qed.

(** On Linux attention is asked for exactly when one of the two firewalls says
    it is on; a command that fails says nothing. *)
Lemma linux_attention binPath ufw fwd rest ran :
  NeedsAttention (fst (linuxProbe binPath (mkShell (ufw :: fwd :: rest) ran))) =
  from_option (fun out => Contains out "Status: active") false ufw ||
  from_option (fun out => Contains out "running") false fwd.
Proof.
  unfold linuxProbe. rewrite mbind_run. cbn [execCommand fst snd head tail sh_answers sh_ran default from_option id].
  destruct (from_option _ false ufw); [done|]. rewrite mbind_run.
  cbn [execCommand fst snd head tail sh_answers sh_ran default from_option id].
  by destruct (from_option _ false fwd).
Qed.

(** A probe that could not look raises no alarm. *)
Lemma unsure_is_silent s : fw_Confidence s = ConfidenceUnknown -> NeedsAttention s = false.
Proof. intros Hs. unfold NeedsAttention. rewrite Hs. by rewrite andb_false_r. Qed.

(** ** The listing of socketfilterfw *)

Section Listing.
(** An application: its number, its path, whether it is allowed. *)
Record App := mkApp { app_Number : Z; app_Path : string; app_Allowed : bool }.

Definition appLine (a : App) : string := Itoa (app_Number a) +:+ " : " +:+ app_Path a.
Definition stateLine (a : App) : string :=
  if app_Allowed a then "             (Allow incoming connections)" else "             (Block incoming connections)".
Definition appLines (apps : list App) : list string := concat (map (fun a => [appLine a; stateLine a]) apps).

(** The number is one, and the path is a line without blanks around it. *)
Record app_ok (a : App) : Prop := {
  ok_number : 0 <= app_Number a;
  ok_trim : TrimSpace (app_Path a) = app_Path a;
  ok_line : TrimSpace (appLine a) = appLine a;
  ok_newline : mem_char newline (app_Path a) = false
}.

Definition header_ok (l : string) : Prop :=
  Cut (TrimSpace l) " : " = None /\ mem_char newline l = false.

Lemma Cut_digits n rest : 0 <= n -> Cut (Itoa n +:+ " : " +:+ rest) " : " = Some (Itoa n, rest).
Proof.
  intros Hn. pose proof (Itoa_digits " "%char n Hn eq_refl) as Hd. revert Hd. generalize (Itoa n). clear.
  intros s. induction s as [|c s IH]; intros Hd; [by destruct rest|].
  cbn [mem_char] in Hd. destruct (Ascii.eqb_spec " "%char c) as [|Hne]; [done|].
  change (String c s +:+ " : " +:+ rest) with (String c (s +:+ " : " +:+ rest)).
  cbn [Cut]. unfold HasPrefix. cbn [String.prefix]. destruct (ascii_dec " " c); [done|].
  by rewrite (IH Hd).
Qed.

(** The listing: lines without entries, then the entries. *)
Definition listing (header : list string) (apps : list App) : string :=
  GoLib.Join (header ++ appLines apps) (String newline "").

Lemma findEntry_header header lines p : Forall header_ok header -> findEntry (header ++ lines) p = findEntry lines p.
Proof. induction 1 as [|l header [Hc _] _ IH]; [done|]. cbn. by rewrite Hc. Qed.

Lemma findEntry_apps apps p : Forall app_ok apps ->
  findEntry (appLines apps) p = app_Allowed <$> find (fun a => bool_decide (app_Path a = p)) apps.
Proof.
  induction 1 as [|a apps [Hn Ht Hl _] _ IH]; [done|]. cbn [appLines map concat app findEntry find].
  rewrite Hl. unfold appLine at 1. rewrite Cut_digits by done. rewrite Ht.
  destruct (decide (app_Path a = p)) as [<-|Hne].
  - rewrite bool_decide_true by done. cbn. unfold stateLine. by destruct (app_Allowed a).
  - rewrite bool_decide_false by done. change (concat (map (fun a0 => [appLine a0; stateLine a0]) apps)) with (appLines apps).
    rewrite <-IH. unfold stateLine. by destruct (app_Allowed a).
Qed.

Lemma appLines_newline apps : Forall app_ok apps -> Forall (fun l => mem_char newline l = false) (appLines apps).
Proof.
  induction 1 as [|a apps [Hn _ _ Hnl] _ IH]; [constructor|]. cbn. constructor; [|constructor; [|exact IH]].
  - unfold appLine. rewrite !mem_char_app, Hnl. by rewrite (Itoa_digits newline) by done.
  - unfold stateLine. by destruct (app_Allowed a).
Qed.

(** What the parser says of a path is what the first entry of the path says:
    not found, allowed or blocked. *)
Theorem listapps_roundtrip header apps p : header ++ appLines apps <> [] ->
  Forall header_ok header -> Forall app_ok apps ->
  listappsAuthorized (listing header apps) p =
  match find (fun a => bool_decide (app_Path a = p)) apps with
  | Some a => (app_Allowed a, true)
  | None => (false, false)
  end.
Proof.
  intros Hne Hh Ha. unfold listappsAuthorized, listing. rewrite Split_Join; [|done|].
  - rewrite findEntry_header, findEntry_apps by done. by destruct (find _ apps).
  - apply Forall_app. split; [by eapply Forall_impl; [exact Hh|intros l []]|by apply appLines_newline].
Qed.
End Listing.

Example listapps_example :
  let apps := [mkApp 1 "/Applications/A : B.app" true; mkApp 2 "/usr/local/bin/pmux" false; mkApp 3 "/x" true] in
  listappsAuthorized (listing ["ALF: total number of apps = 3 "; ""] apps) "/usr/local/bin/pmux" = (false, true) /\
  listappsAuthorized (listing ["ALF: total number of apps = 3 "; ""] apps) "/Applications/A : B.app" = (true, true) /\
  listappsAuthorized (listing ["ALF: total number of apps = 3 "; ""] apps) "/usr/bin/pmux" = (false, false).
Proof. by vm_compute. Qed.
