(* ===== verification/Sleep.v ===== *)
(** * internal/agent: sleep prevention and sleep detection

    [keep_awake] (keepawake.go and its platforms) and the sleep watchers:
    logind's PrepareForSleep signal (sleepwatch_linux.go) and IOKit's power
    messages (sleepwatch_iokit.go, sleepwatch_darwin.go). What the bus, the
    kernel and the started programs answer is read from oracle lists; what the
    agent does is a log. *)

From S2P Require Import Prelude GoLib GoText World.
From Stdlib Require Import Ascii.
Open Scope Z_scope.

(** ** What the agent holds and does *)

(** How a call of logind's Inhibit ends: an error, a reply without a file
    descriptor, or a new file descriptor. *)
Inductive Inhibit := InhibitError | InhibitBadReply | InhibitFd (fd : Z).

Inductive PowerAction :=
| OnSleep
| OnResume
| TakeDelay (fd : option Z)
| CloseFd (fd : Z)
| CloseBus
| StartProgram (name : string) (args : list string) (started : bool).

Record Power := mkPower {
  pw_bus : list bool;                   (** [dbus.ConnectSystemBus] *)
  pw_match : list bool;                 (** [AddMatchSignal] *)
  pw_owners : list (option string);     (** [GetNameOwner] *)
  pw_inhibits : list Inhibit;
  pw_starts : list bool;                (** [cmd.Start() == nil] *)
  pw_open : gset Z;                     (** the inhibitor file descriptors the agent holds *)
  pw_log : list PowerAction
}.
#[export] Instance Power_eta : Eta Power := fun p =>
  mkPower (pw_bus p) (pw_match p) (pw_owners p) (pw_inhibits p) (pw_starts p) (pw_open p) (pw_log p).

Definition act (a : PowerAction) : M Power unit := mmod (fun p => p <| pw_log ::= fun l => l ++ [a] |>).
Definition ask_bus : M Power bool := fun p => (default false (head (pw_bus p)), p <| pw_bus ::= tail |>).
Definition ask_match : M Power bool := fun p => (default false (head (pw_match p)), p <| pw_match ::= tail |>).
Definition ask_start : M Power bool := fun p => (default false (head (pw_starts p)), p <| pw_starts ::= tail |>).

(** logind's Inhibit; a file descriptor it sends is a new one. *)
Definition call_Inhibit : M Power Inhibit := fun p =>
  let p' := p <| pw_inhibits ::= tail |> in
  match default InhibitError (head (pw_inhibits p)) with
  | InhibitFd fd =>
      if decide (0 <= fd /\ (fd ∉ pw_open p)) then (InhibitFd fd, p' <| pw_open ::= fun s => {[fd]} ∪ s |>)
      else (InhibitError, p')
  | r => (r, p')
  end.

Definition closeFd (fd : Z) : M Power unit :=
  _ ← mmod (fun p => p <| pw_open ::= fun s => s ∖ {[fd]} |>); act (CloseFd fd).

Definition runProgram (name : string) (args : list string) : M Power bool :=
  started ← ask_start; _ ← act (StartProgram name args started); mret started.

(** ** keepawake.go *)

Definition caffeinateArgs (pid : Z) : list string := ["-i"; "-w"; Itoa pid].

Definition isWSL (procVersion : string) : bool := ContainsLower procVersion "microsoft".

Definition readProcVersion : M World string :=
  r ← ReadFile (Join "/proc" "version");
  mret (match r with Ok data => string_of data | Err _ => "" end).

(** ** keepawake_darwin.go *)

Definition startKeepAwakeDarwin (pid : Z) : M Power unit :=
  _ ← runProgram "/usr/bin/caffeinate" (caffeinateArgs pid); mret tt.

(** ** keepawake_linux.go *)

Inductive LogindError := ConnectBus | CallInhibit | ReadInhibitFd.

(** The lock held until the context ends. *)
Definition inhibitLogind : M Power (result LogindError Z) :=
  connected ← ask_bus;
  if negb connected then fail ConnectBus else
  r ← call_Inhibit;
  match r with
  | InhibitError => _ ← act CloseBus; fail CallInhibit
  | InhibitBadReply => _ ← act CloseBus; fail ReadInhibitFd
  | InhibitFd fd => ok fd
  end.

(** When the context ends. *)
Definition releaseLogind (fd : Z) : M Power unit := _ ← closeFd fd; act CloseBus.

Definition quote : string := String "034"%char "".
Definition wslScript : string :=
  "$sig='[DllImport(" +:+ quote +:+ "kernel32.dll" +:+ quote
  +:+ ")] public static extern uint SetThreadExecutionState(uint e);';"
  +:+ "$p=Add-Type -MemberDefinition $sig -Name Power -Namespace Win32 -PassThru;"
  +:+ "$p::SetThreadExecutionState(0x80000001);"
  +:+ "while($true){Start-Sleep -Seconds 3600}".

Definition startKeepAwakeWSL : M Power unit :=
  _ ← runProgram "powershell.exe" ["-NoProfile"; "-NonInteractive"; "-Command"; wslScript]; mret tt.

(** What is held until the context ends: logind's lock, if there is one. *)
Definition startKeepAwakeLinux (procVersion : string) : M Power (option Z) :=
  if isWSL procVersion then _ ← startKeepAwakeWSL; mret None else
  r ← inhibitLogind;
  mret (match r with Ok fd => Some fd | Err _ => None end).

(** ** sleepwatch_linux.go *)

Definition prepareForSleepSignal : string := "org.freedesktop.login1.Manager.PrepareForSleep".
Definition logindName : string := "org.freedesktop.login1".

(** A D-Bus signal; a body value is a boolean or something else. *)
Record Signal := mkSignal { sg_Sender : string; sg_Name : string; sg_Body : list (option bool) }.

Definition isFromLogind (sig : Signal) (owner : string) : bool :=
  negb (bool_decide (owner = "")) && bool_decide (sg_Sender sig = owner).

Definition logindOwner : M Power (option string) := fun p =>
  (default None (head (pw_owners p)), p <| pw_owners ::= tail |>).

Definition takeSleepDelay : M Power Z :=
  r ← call_Inhibit;
  match r with
  | InhibitFd fd => _ ← act (TakeDelay (Some fd)); mret fd
  | _ => _ ← act (TakeDelay None); mret (-1)
  end.

Definition releaseSleepDelay (fd : Z) : M Power unit := if 0 <=? fd then closeFd fd else mret tt.

(** The start: [Some fd] when the loop runs, with the first delay lock. *)
Definition startSleepWatcherLinux (keepAwake : bool) : M Power (option Z) :=
  if keepAwake then mret None else
  connected ← ask_bus;
  if negb connected then mret None else
  matched ← ask_match;
  if negb matched then _ ← act CloseBus; mret None else
  fd ← takeSleepDelay;
  mret (Some fd).

(** What the loop's select gets; a nil signal is one of a closed channel. *)
Inductive WatchEvent := WatchDone | WatchSignal (sig : option Signal).

(** One turn with the delay lock [delayFd]: [None] when the loop ends. *)
Definition watchTurn (delayFd : Z) (ev : WatchEvent) : M Power (option Z) :=
  match ev with
  | WatchDone => _ ← releaseSleepDelay delayFd; _ ← act CloseBus; mret None
  | WatchSignal None => mret (Some delayFd)
  | WatchSignal (Some sig) =>
      if negb (bool_decide (sg_Name sig = prepareForSleepSignal)) then mret (Some delayFd) else
      match sg_Body sig with
      | [] => mret (Some delayFd)
      | value :: _ =>
          owner ← logindOwner;
          match owner with
          | None => mret (Some delayFd)
          | Some owner =>
              if negb (isFromLogind sig owner) then mret (Some delayFd) else
              if default false value then
                _ ← act OnSleep; _ ← releaseSleepDelay delayFd; mret (Some (-1))
              else
                _ ← act OnResume; _ ← releaseSleepDelay delayFd;
                fd ← takeSleepDelay; mret (Some fd)
          end
      end
  end.

Fixpoint watchLoop (delayFd : Z) (evs : list WatchEvent) : M Power (option Z) :=
  match evs with
  | [] => mret (Some delayFd)
  | ev :: evs =>
      r ← watchTurn delayFd ev;
      match r with Some fd => watchLoop fd evs | None => mret None end
  end.

(** ** sleepwatch_iokit.go *)

Definition kIOMessageCanSystemSleep : Z := 0xE0000270.
Definition kIOMessageSystemWillSleep : Z := 0xE0000280.
Definition kIOMessageSystemWillNotSleep : Z := 0xE0000290.
Definition kIOMessageSystemHasPoweredOn : Z := 0xE0000300.
Definition kIOMessageSystemWillPowerOn : Z := 0xE0000320.

Inductive PowerCall := CallOnSleep | CallOnResume | Allow (arg : Z).

Definition handlePowerMessage (msgType arg : Z) : list PowerCall :=
  if msgType =? kIOMessageCanSystemSleep then [Allow arg]
  else if msgType =? kIOMessageSystemWillSleep then [CallOnSleep; Allow arg]
  else if msgType =? kIOMessageSystemHasPoweredOn then [CallOnResume]
  else [].

(** ** sleepwatch_darwin.go

    Two goroutines: one registers, runs the run loop and takes everything down
    when the loop has stopped; the other stops the loop when the context ends.
    A stop that comes before the loop runs is discarded. *)

Inductive LoopLoc := LStart | LRegistered | LRunning | LReturned | LMarked | LDone.
Inductive StopLoc := SAwaitContext | SAwaitReady | SStopping (rl : Z) | SDone.

#[export] Instance LoopLoc_eq_dec : EqDecision LoopLoc.
Proof. solve_decision. Defined.
#[export] Instance StopLoc_eq_dec : EqDecision StopLoc.
Proof. solve_decision. Defined.

Inductive IOKitCall := RunLoopRun | RunLoopStop (rl : Z) | Deregister | ServiceClose | PortDestroy.

Record Watcher := mkWatcher {
  dw_root : Z;                  (** what [registerForSystemPower] will return *)
  dw_runLoop : Z;               (** [runLoopGetCurrent()] *)
  dw_loop : LoopLoc;
  dw_stopper : StopLoc;
  dw_ready : option Z;          (** the channel *)
  dw_exited : bool;
  dw_stopped : bool;            (** the running loop was told to stop *)
  dw_ctxDone : bool;
  dw_calls : list IOKitCall
}.
#[export] Instance Watcher_eta : Eta Watcher := fun w =>
  mkWatcher (dw_root w) (dw_runLoop w) (dw_loop w) (dw_stopper w) (dw_ready w) (dw_exited w) (dw_stopped w)
    (dw_ctxDone w) (dw_calls w).

Definition newWatcher (root rl : Z) : Watcher := mkWatcher root rl LStart SAwaitContext None false false false [].

(** The next section of the run-loop goroutine; none while it waits. *)
Definition loopStep (w : Watcher) : Watcher :=
  match dw_loop w with
  | LStart =>
      if dw_root w =? 0 then w <| dw_ready := Some 0 |> <| dw_loop := LDone |>
      else w <| dw_ready := Some (dw_runLoop w) |> <| dw_loop := LRegistered |>
  | LRegistered => w <| dw_loop := LRunning |> <| dw_calls ::= fun l => l ++ [RunLoopRun] |>
  | LRunning => if dw_stopped w then w <| dw_loop := LReturned |> else w
  | LReturned => w <| dw_exited := true |> <| dw_loop := LMarked |>
  | LMarked => w <| dw_loop := LDone |> <| dw_calls ::= fun l => l ++ [Deregister; ServiceClose; PortDestroy] |>
  | LDone => w
  end.

(** The next section of the stopping goroutine. *)
Definition stopStep (w : Watcher) : Watcher :=
  match dw_stopper w with
  | SAwaitContext => if dw_ctxDone w then w <| dw_stopper := SAwaitReady |> else w
  | SAwaitReady =>
      match dw_ready w with
      | Some rl => w <| dw_ready := None |> <| dw_stopper := if rl =? 0 then SDone else SStopping rl |>
      | None => w
      end
  | SStopping rl =>
      if dw_exited w then w <| dw_stopper := SDone |>
      else w <| dw_stopped ::= fun b => b || match dw_loop w with LRunning => true | _ => false end |>
             <| dw_calls ::= fun l => l ++ [RunLoopStop rl] |>
  | SDone => w
  end.

(** The framework functions, by address. *)
Record iokitPower := mkIOKit {
  registerForSystemPower : Z;
  allowPowerChange : Z;
  deregisterForSystemPower : Z;
  serviceClose : Z;
  notificationPortRunLoopSrc : Z;
  notificationPortDestroy : Z;
  runLoopGetCurrent : Z;
  runLoopAddSource : Z;
  runLoopRun : Z;
  runLoopStop : Z;
  defaultMode : Z
}.
#[export] Instance iokitPower_eta : Eta iokitPower := fun p =>
  mkIOKit (registerForSystemPower p) (allowPowerChange p) (deregisterForSystemPower p) (serviceClose p)
    (notificationPortRunLoopSrc p) (notificationPortDestroy p) (runLoopGetCurrent p) (runLoopAddSource p)
    (runLoopRun p) (runLoopStop p) (defaultMode p).

Inductive IOKitError := OpenIOKit | OpenCoreFoundation | Unresolved (name : string) | NilMode.

Definition iokitPath : string := "/System/Library/Frameworks/IOKit.framework/IOKit".
Definition coreFoundationPath : string := "/System/Library/Frameworks/CoreFoundation.framework/CoreFoundation".

Section Frameworks.
(** purego: [Dlopen], [Dlsym] and the word at an address. *)
Variable Dlopen : string -> option Z.
Variable Dlsym : Z -> string -> option Z.
Variable wordAt : Z -> Z.

Definition bindings (iokit cf : Z) : list ((Z -> iokitPower -> iokitPower) * (iokitPower -> Z) * Z * string) :=
  [(fun f p => p <| registerForSystemPower := f |>, registerForSystemPower, iokit, "IORegisterForSystemPower");
   (fun f p => p <| allowPowerChange := f |>, allowPowerChange, iokit, "IOAllowPowerChange");
   (fun f p => p <| deregisterForSystemPower := f |>, deregisterForSystemPower, iokit, "IODeregisterForSystemPower");
   (fun f p => p <| serviceClose := f |>, serviceClose, iokit, "IOServiceClose");
   (fun f p => p <| notificationPortRunLoopSrc := f |>, notificationPortRunLoopSrc, iokit,
      "IONotificationPortGetRunLoopSource");
   (fun f p => p <| notificationPortDestroy := f |>, notificationPortDestroy, iokit, "IONotificationPortDestroy");
   (fun f p => p <| runLoopGetCurrent := f |>, runLoopGetCurrent, cf, "CFRunLoopGetCurrent");
   (fun f p => p <| runLoopAddSource := f |>, runLoopAddSource, cf, "CFRunLoopAddSource");
   (fun f p => p <| runLoopRun := f |>, runLoopRun, cf, "CFRunLoopRun");
   (fun f p => p <| runLoopStop := f |>, runLoopStop, cf, "CFRunLoopStop")].

Fixpoint bindAll (bs : list ((Z -> iokitPower -> iokitPower) * (iokitPower -> Z) * Z * string)) (p : iokitPower)
    : result IOKitError iokitPower :=
  match bs with
  | [] => Ok p
  | (set, _, l, name) :: bs =>
      sym ← of_option (Unresolved name) (Dlsym l name);
      bindAll bs (set sym p)
  end.

Definition loadIOKitPower : result IOKitError iokitPower :=
  iokit ← of_option OpenIOKit (Dlopen iokitPath);
  cf ← of_option OpenCoreFoundation (Dlopen coreFoundationPath);
  p ← bindAll (bindings iokit cf) (mkIOKit 0 0 0 0 0 0 0 0 0 0 0);
  modeSym ← of_option (Unresolved "kCFRunLoopDefaultMode") (Dlsym cf "kCFRunLoopDefaultMode");
  let p := p <| defaultMode := wordAt modeSym |> in
  if defaultMode p =? 0 then Err NilMode else Ok p.

(** No watcher where the frameworks cannot be loaded; [root] and [rl]: what the
    bound functions will return. *)
Definition startSleepWatcherDarwin (root rl : Z) : option Watcher :=
  match loadIOKitPower with
  | Err _ => None
  | Ok _ => Some (newWatcher root rl)
  end.
End Frameworks.

Inductive WatcherMove := RunLoopMoves | StopperMoves | ContextEnds.

Definition watcherStep (m : WatcherMove) (w : Watcher) : Watcher :=
  match m with
  | RunLoopMoves => loopStep w
  | StopperMoves => stopStep w
  | ContextEnds => w <| dw_ctxDone := true |>
  end.

Definition watcherRun (l : list WatcherMove) (w : Watcher) : Watcher := foldl (fun w m => watcherStep m w) w l.

(** ** logind: the lock *)

(** The delay lock is the only file descriptor held. *)
Definition holdsOnly (fd : Z) (p : Power) : Prop := pw_open p = if 0 <=? fd then {[fd]} else ∅.

Lemma holdsOnly_none p : holdsOnly (-1) p <-> pw_open p = ∅.
Proof. done. Qed.

Definition closes (fd : Z) : list PowerAction := if 0 <=? fd then [CloseFd fd] else [].

Definition logging (l : list PowerAction) (p : Power) : Power := p <| pw_log ::= fun l0 => l0 ++ l |>.

Lemma act_bind {B} a (k : unit -> M Power B) p : (act a ≫= k) p = k tt (logging [a] p).
Proof. done. Qed.

Lemma release_bind {B} fd (k : unit -> M Power B) p : holdsOnly fd p ->
  (releaseSleepDelay fd ≫= k) p = k tt (logging (closes fd) (p <| pw_open := ∅ |>)).
Proof.
  unfold holdsOnly, releaseSleepDelay, closes. destruct p as [bus m ow inh st op lg]. cbn. intros ->.
  destruct (0 <=? fd); rewrite mbind_run.
  - unfold closeFd. rewrite mbind_run. cbn. unfold logging. cbn.
    by replace ({[fd]} ∖ {[fd]} : gset Z) with (∅ : gset Z) by (apply leibniz_equiv; by rewrite difference_diag).
  - unfold logging. cbn. by rewrite app_nil_r.
Qed.

Lemma take_bind {B} (k : Z -> M Power B) p : pw_open p = ∅ ->
  exists fd got p1, (takeSleepDelay ≫= k) p = k fd (logging [TakeDelay got] p1) /\
    holdsOnly fd p1 /\ pw_owners p1 = pw_owners p /\ pw_log p1 = pw_log p.
Proof.
  intros Hp. rewrite mbind_run. unfold takeSleepDelay, call_Inhibit. rewrite mbind_run.
  destruct (default InhibitError (head (pw_inhibits p))) as [| |fd]; cbn [fst snd].
  1, 2: rewrite act_bind; cbn [fst snd mret M_ret]; by eexists (-1), None, _.
  destruct (decide _) as [[Hfd _]|]; cbn [fst snd]; rewrite act_bind; cbn [fst snd mret M_ret].
  - eexists fd, (Some fd), _. split; [reflexivity|]. split_and!; [|done..]. unfold holdsOnly. cbn. rewrite Hp.
    destruct (Z.leb_spec 0 fd); [|lia]. apply leibniz_equiv, union_empty_r.
  - by eexists (-1), None, _.
Qed.

(** ** logind: the loop *)

(** The signal is logind's own, by the answer the bus gives next. *)
Definition genuine (p : Power) (sig : Signal) : Prop :=
  sg_Name sig = prepareForSleepSignal /\ sg_Sender sig <> "" /\ head (pw_owners p) = Some (Some (sg_Sender sig)).

Lemma watchTurn_spec fd ev p : holdsOnly fd p ->
  let '(r, p') := watchTurn fd ev p in
  pw_owners p' ⊆ pw_owners p /\ exists l, pw_log p' = pw_log p ++ l /\
  match r with
  | None => ev = WatchDone /\ pw_open p' = ∅ /\ l = closes fd ++ [CloseBus]
  | Some fd' => holdsOnly fd' p' /\
      (l = [] \/ exists sig, ev = WatchSignal (Some sig) /\ genuine p sig /\
        (l = OnSleep :: closes fd \/ exists got, l = OnResume :: closes fd ++ [TakeDelay got]))
  end.
Proof.
  intros Hp. unfold watchTurn.
  assert (forall q, holdsOnly fd q -> pw_owners q ⊆ pw_owners p -> pw_log q = pw_log p ->
    pw_owners q ⊆ pw_owners p /\ exists l, pw_log q = pw_log p ++ l /\ holdsOnly fd q /\
      (l = [] \/ exists sig, ev = WatchSignal (Some sig) /\ genuine p sig /\
        (l = OnSleep :: closes fd \/ exists got, l = OnResume :: closes fd ++ [TakeDelay got]))) as Hskip.
  { intros q Hq Ho Hl. split; [done|]. exists []. rewrite app_nil_r. by auto. }
  destruct ev as [|[sig|]]; [|destruct (bool_decide_reflect (sg_Name sig = prepareForSleepSignal)) as [Hn|];
    [destruct (sg_Body sig) as [|value body]|]|]; cbn [negb]; try by apply Hskip.
  - rewrite release_bind, act_bind by done. split; [done|]. exists (closes fd ++ [CloseBus]). cbn. by rewrite app_assoc.
  - rewrite mbind_run. unfold logindOwner. cbn [fst snd].
    assert (pw_owners (p <| pw_owners ::= tail |>) ⊆ pw_owners p) as Htail.
    { cbn. destruct (pw_owners p); cbn; set_solver. }
    destruct (default None (head (pw_owners p))) as [owner|] eqn:Howner; [|by apply Hskip].
    unfold isFromLogind. destruct (bool_decide_reflect (owner = "")) as [|Hne]; [by apply Hskip|].
    destruct (bool_decide_reflect (sg_Sender sig = owner)) as [<-|]; [|by apply Hskip]. cbn [negb andb].
    assert (genuine p sig) as Hg.
    { split_and!; [done..|]. destruct (pw_owners p) as [|o l]; cbn in *; congruence. }
    destruct (default false value); rewrite act_bind, release_bind by done.
    + split; [done|]. exists (OnSleep :: closes fd). split; [cbn; by rewrite <-app_assoc|].
      split; [done|]. right. exists sig. by auto.
    + edestruct (take_bind (fun fd' => mret (Some fd'))) as (fd' & got & p1 & -> & Hh & How & Hlog); [|cbn [mret M_ret]].
      { done. }
      split; [cbn; by rewrite How|]. exists (OnResume :: closes fd ++ [TakeDelay got]).
      split; [cbn; rewrite Hlog; cbn; by rewrite <-!app_assoc|]. split; [done|]. right. exists sig. by eauto.
Qed.

Definition released (l : list PowerAction) : Prop := l = [] \/ exists fd, l = [CloseFd fd].

(** What the watcher does, in order: before a sleep the notice goes out and
    then the lock is dropped, so that the host may sleep; after it the presence
    is refreshed, a lock still held is dropped and a new one is taken; at the
    end the lock and the bus are let go. *)
Inductive in_turn : list PowerAction -> Prop :=
| turn_none : in_turn []
| turn_end close : released close -> in_turn (close ++ [CloseBus])
| turn_sleep close l : released close -> in_turn l -> in_turn (OnSleep :: close ++ l)
| turn_resume close got l : released close -> in_turn l -> in_turn (OnResume :: close ++ TakeDelay got :: l).

Lemma closes_released fd : released (closes fd).
Proof. unfold closes. destruct (0 <=? fd); [right; by exists fd|by left]. Qed.

(** No signal comes from whom the bus names as logind. *)
Definition all_forged (owners : list (option string)) (evs : list WatchEvent) : Prop :=
  forall sig, WatchSignal (Some sig) ∈ evs -> sg_Name sig = prepareForSleepSignal ->
    sg_Sender sig = "" \/ Some (sg_Sender sig) ∉ owners.

Definition notice (a : PowerAction) : bool := match a with OnSleep | OnResume => true | _ => false end.

Lemma forged_tail owners owners' ev evs : owners' ⊆ owners -> all_forged owners (ev :: evs) -> all_forged owners' evs.
Proof.
  intros Ho Hf sig Hin Hn. destruct (Hf sig) as [?|Hs]; [by right|done|by left|right]. intros Hin'. by apply Hs, Ho.
Qed.

Lemma watchLoop_spec fd evs p : holdsOnly fd p ->
  let '(r, p') := watchLoop fd evs p in
  match r with Some fd' => holdsOnly fd' p' | None => pw_open p' = ∅ end /\
  exists l, pw_log p' = pw_log p ++ l /\ in_turn l /\
    (all_forged (pw_owners p) evs -> forallb (fun a => negb (notice a)) l = true).
Proof.
  revert fd p. induction evs as [|ev evs IH]; intros fd p Hp; cbn [watchLoop].
  { split; [done|]. exists []. rewrite app_nil_r. split_and!; [done|constructor|done]. }
  rewrite mbind_run. pose proof (watchTurn_spec fd ev p Hp) as Ht.
  destruct (watchTurn fd ev p) as [[fd1|] p1]; destruct Ht as (Ho & l1 & Hl1 & Ht); cbn [fst snd].
  - destruct Ht as [Hp1 Ht]. specialize (IH fd1 p1 Hp1). destruct (watchLoop fd1 evs p1) as [r p'].
    destruct IH as (Hr & l & Hl & Hturn & Hq). split; [done|]. exists (l1 ++ l).
    split; [by rewrite Hl, Hl1, app_assoc|].
    destruct Ht as [->|(sig & -> & (Hn & Hne & Hown) & Hkind)].
    + split; [done|]. intros Hf. apply Hq. by eapply forged_tail.
    + split.
      * destruct Hkind as [->|[got ->]]; [by apply turn_sleep; [apply closes_released|]|].
        rewrite <-app_comm_cons, <-app_assoc. by apply turn_resume; [apply closes_released|].
      * intros Hf. exfalso. destruct (Hf sig) as [?|Hs]; [by left|done|done|]. apply Hs.
        destruct (pw_owners p); cbn in Hown; [done|]. injection Hown as ->. by left.
  - destruct Ht as (-> & Hopen & ->). split; [done|]. exists (closes fd ++ [CloseBus]).
    split; [done|]. split; [apply turn_end, closes_released|]. intros _. unfold closes. by destruct (0 <=? fd).
Qed.

(** The watcher from its start through a run of its loop. *)
Definition sleepWatcherLinux (keepAwake : bool) (evs : list WatchEvent) : M Power (option Z) :=
  r ← startSleepWatcherLinux keepAwake;
  match r with Some fd => watchLoop fd evs | None => mret None end.


(** A closed signal channel yields nil at once, for ever: the loop turns
    without waiting, and nothing changes. *)
Lemma closed_bus_spins n fd p : watchLoop fd (repeat (WatchSignal None) n) p = (Some fd, p).
Proof. induction n as [|n IH]; [done|]. cbn [repeat watchLoop]. rewrite mbind_run. exact IH. Qed.


(** ** IOKit: every function is bound, to its own symbol *)

(** The watcher starts with every function bound to the symbol of its name, in
    the library that has it, and with a default mode; and it starts whenever
    the libraries have them all. *)
Theorem loadIOKitPower_binds Dlopen Dlsym wordAt p :
  loadIOKitPower Dlopen Dlsym wordAt = Ok p <->
  exists iokit cf mode, Dlopen iokitPath = Some iokit /\ Dlopen coreFoundationPath = Some cf /\
    Forall (fun '(_, get, l, name) => Dlsym l name = Some (get p)) (bindings iokit cf) /\
    Dlsym cf "kCFRunLoopDefaultMode" = Some mode /\ defaultMode p = wordAt mode /\ defaultMode p <> 0.
Proof.
  unfold loadIOKitPower, bindings. split.
  - destruct (Dlopen iokitPath) as [iokit|]; cbn; [|done]. destruct (Dlopen coreFoundationPath) as [cf|]; cbn; [|done].
    repeat match goal with |- context [Dlsym ?l ?n] => destruct (Dlsym l n) eqn:?; cbn; [|done] end.
    destruct (Z.eqb_spec (wordAt z9) 0) as [|Hm]; [done|]. intros [= <-].
    exists iokit, cf, z9. split_and!; [done..| |done|done|done]. by repeat constructor.
  - intros (iokit & cf & mode & -> & -> & Hs & Hm & Hw & Hn). rewrite !Forall_cons in Hs. destruct_and! Hs.
    cbn. repeat match goal with H : Dlsym _ _ = Some _ |- _ => rewrite H; clear H; cbn end.
    rewrite Hw in Hn. destruct (Z.eqb_spec (wordAt mode) 0) as [|_]; [done|]. f_equal. destruct p. cbn in *. by subst.
Qed.

(** ** IOKit: the run loop is stopped *)

Definition takenDown : list IOKitCall := [Deregister; ServiceClose; PortDestroy].

Definition registered (w : Watcher) : bool := negb (dw_root w =? 0).

(** What a reachable watcher looks like; [CFRunLoopGetCurrent] returns no null
    reference. *)
Record watcher_ok (w : Watcher) : Prop := {
  wk_runLoop : dw_runLoop w <> 0;
  wk_registered : match dw_loop w with LStart | LDone => True | _ => registered w = true end;
  wk_exited : dw_exited w = match dw_loop w with LMarked | LDone => registered w | _ => false end;
  wk_stopped : match dw_loop w with LStart | LRegistered => dw_stopped w = false | _ => True end;
  wk_stopper : match dw_stopper w, dw_loop w with
    | (SAwaitContext | SAwaitReady), LStart => dw_ready w = None
    | (SAwaitContext | SAwaitReady), _ => dw_ready w = Some (if registered w then dw_runLoop w else 0)
    | _, LStart => False
    | SStopping rl, _ => rl = dw_runLoop w /\ registered w = true
    | SDone, _ => registered w = true -> dw_exited w = true
    end;
  wk_calls : exists c0, Forall (fun c => c = RunLoopRun \/ c = RunLoopStop (dw_runLoop w)) c0 /\
    (registered w = false -> c0 = []) /\
    dw_calls w = c0 ++ match dw_loop w with LDone => if registered w then takenDown else [] | _ => [] end
}.

Lemma newWatcher_ok root rl : rl <> 0 -> watcher_ok (newWatcher root rl).
Proof. intros Hrl. split; cbn; auto. by exists []. Qed.

(** All the locations of a watcher in reach, its flags decided. *)
Ltac watcher_cases :=
  intros [Hrl Hreg Hex Hsp Hst (c0 & Hc0 & Hz & Hcalls)];
  match goal with w : Watcher |- _ => destruct w end;
  unfold loopStep, stopStep, registered in *; cbn in Hrl, Hreg, Hex, Hsp, Hst, Hc0, Hz, Hcalls |- *;
  repeat match goal with
  | l : LoopLoc |- _ => destruct l
  | l : StopLoc |- _ => destruct l
  end; cbn in Hreg, Hex, Hsp, Hst |- *;
  match goal with H : negb (?root =? 0) = false -> c0 = [] |- _ => destruct (root =? 0) eqn:? end;
  try discriminate; cbn in *; try done; destruct_and?; subst;
  repeat match goal with b : bool |- _ => destruct b end; try discriminate; cbn in *;
  try rewrite (proj2 (Z.eqb_neq _ 0) Hrl); cbn.

Ltac calls_are l :=
  exists l; split_and!;
    [rewrite ?Forall_app, ?Forall_singleton; by auto|done|by rewrite ?app_nil_r, <-?app_assoc].

Ltac decide_root := repeat match goal with H : (?r =? 0) = _ |- context [?r =? 0] => rewrite H end.

Ltac watcher_ok_still :=
  watcher_cases; split; cbn; unfold registered; cbn;
  decide_root; cbn; try done;
  match goal with H : Forall (fun c => c = RunLoopRun \/ c = RunLoopStop ?rl) ?l |- _ =>
    first [calls_are l|calls_are (l ++ [RunLoopRun])|calls_are (l ++ [RunLoopStop rl])] end.

Lemma loopStep_ok w : watcher_ok w -> watcher_ok (loopStep w).
Proof. watcher_ok_still. Qed.

Lemma stopStep_ok w : watcher_ok w -> watcher_ok (stopStep w).
Proof. watcher_ok_still. Qed.

Lemma watcherStep_ok m w : watcher_ok w -> watcher_ok (watcherStep m w).
Proof.
  destruct m; [apply loopStep_ok|apply stopStep_ok|]. intros [H1 H2 H3 H4 H5 H6]. by split.
Qed.

Lemma watcherRun_ok l w : watcher_ok w -> watcher_ok (watcherRun l w).
Proof. revert w. induction l as [|m l IH]; intros w Hw; [done|]. by apply IH, watcherStep_ok. Qed.

Lemma watcherRun_app l l' w : watcherRun (l ++ l') w = watcherRun l' (watcherRun l w).
Proof. apply foldl_app. Qed.

Lemma watcherRun_const l w : dw_root (watcherRun l w) = dw_root w /\ dw_runLoop (watcherRun l w) = dw_runLoop w /\
  (dw_ctxDone w = true -> dw_ctxDone (watcherRun l w) = true).
Proof.
  revert w. induction l as [|m l IH]; intros w; [done|]. destruct (IH (watcherStep m w)) as (H1 & H2 & H3).
  cbn [watcherRun foldl]. fold (watcherRun l (watcherStep m w)). rewrite H1, H2. clear -H3.
  destruct w as [r rl lo sp [|] ex sd cd cs], m, lo, sp; cbn in *; repeat case_match; auto.
Qed.

(** What is left to do before both goroutines have ended. *)
Definition loopRank (l : LoopLoc) : nat :=
  match l with LStart => 5 | LRegistered => 4 | LRunning => 3 | LReturned => 2 | LMarked => 1 | LDone => 0 end.
Definition stopRank (s : StopLoc) : nat :=
  match s with SAwaitContext => 3 | SAwaitReady => 2 | SStopping _ => 1 | SDone => 0 end.
Definition toGo (w : Watcher) : nat :=
  loopRank (dw_loop w) + stopRank (dw_stopper w)
  + match dw_loop w with LDone => 0 | _ => if dw_stopped w then 0 else 1 end.

Definition advances (m : WatcherMove) (w : Watcher) : Prop := (toGo (watcherStep m w) < toGo w)%nat.

Lemma someone_advances w : watcher_ok w -> dw_ctxDone w = true -> toGo w <> 0%nat ->
  advances RunLoopMoves w \/ advances StopperMoves w.
Proof. intros Hok Hctx Hgo. unfold advances, toGo in *. cbn [watcherStep]. revert Hok Hctx Hgo. watcher_cases; lia. Qed.

(** A move that gets on stays one until it is made. *)
Lemma advances_stays m m' w : watcher_ok w -> dw_ctxDone w = true -> advances m w ->
  advances m' w \/ m' <> m /\ toGo (watcherStep m' w) = toGo w /\ advances m (watcherStep m' w).
Proof.
  intros Hok Hctx Hm. destruct (decide (toGo (watcherStep m' w) < toGo w)%nat) as [|Hno]; [by left|right].
  split; [by intros <-|]. destruct m'.
  3: { assert (watcherStep ContextEnds w = w) as -> by (destruct w; cbn in *; by subst). done. }
  all: unfold advances, toGo in *; revert Hok Hctx Hm Hno; destruct m; cbn [watcherStep]; watcher_cases; intros; try discriminate;
    decide_root; cbn; lia.
Qed.

(** In a fair segment both goroutines get their turn. *)
Definition fair (seg : list WatcherMove) : Prop := RunLoopMoves ∈ seg /\ StopperMoves ∈ seg.

Lemma toGo_step m w : watcher_ok w -> dw_ctxDone w = true -> (toGo (watcherStep m w) <= toGo w)%nat.
Proof.
  intros Hok Hctx. unfold toGo. revert Hok Hctx. destruct m; cbn [watcherStep]; [watcher_cases; lia..|done].
Qed.

Lemma toGo_run l w : watcher_ok w -> dw_ctxDone w = true -> (toGo (watcherRun l w) <= toGo w)%nat.
Proof.
  revert w. induction l as [|m l IH]; intros w Hok Hctx; [done|].
  destruct (watcherRun_const [m] w) as (_ & _ & Hc). cbn in Hc.
  pose proof (IH _ (watcherStep_ok m w Hok) (Hc Hctx)). pose proof (toGo_step m w Hok Hctx). unfold watcherRun in *. cbn. lia.
Qed.

Lemma segment_advances m seg w : watcher_ok w -> dw_ctxDone w = true -> advances m w -> m ∈ seg ->
  (toGo (watcherRun seg w) < toGo w)%nat.
Proof.
  revert w. induction seg as [|m' seg IH]; intros w Hok Hctx Hm Hin; [by apply elem_of_nil in Hin|].
  destruct (watcherRun_const [m'] w) as (_ & _ & Hc). specialize (Hc Hctx). pose proof (watcherStep_ok m' w Hok) as Hok'.
  destruct (advances_stays m m' w) as [Ha|(Hne & Heq & Ha)]; [done..| |].
  - pose proof (toGo_run seg _ Hok' Hc). unfold advances, watcherRun in *. cbn in *. lia.
  - apply elem_of_cons in Hin as [->|Hin]; [done|]. pose proof (IH _ Hok' Hc Ha Hin). unfold watcherRun in *. cbn in *. lia.
Qed.

Lemma segments_finish segs w : watcher_ok w -> dw_ctxDone w = true -> Forall fair segs ->
  (toGo (watcherRun (concat segs) w) <= toGo w - length segs)%nat.
Proof.
  intros Hok Hctx Hf. revert w Hok Hctx. induction Hf as [|seg segs [Hl Hs] _ IH]; intros w Hok Hctx; [cbn; lia|].
  cbn [concat length]. rewrite watcherRun_app.
  destruct (watcherRun_const seg w) as (_ & _ & Hc).
  pose proof (IH _ (watcherRun_ok seg w Hok) (Hc Hctx)). pose proof (toGo_run seg w Hok Hctx).
  destruct (decide (toGo w = 0%nat)) as [|Hgo]; [lia|].
  destruct (someone_advances w Hok Hctx Hgo) as [Ha|Ha]; eapply (segment_advances _ seg w) in Ha; eauto; lia.
Qed.

(** C36: however the sleep watcher of macOS is interleaved with the end of the
    context — before the run loop starts, in the middle, in any order — its
    two goroutines end once both have had nine turns after it: the stop is sent again
    until the run loop has taken it. The system is deregistered from once, as
    the last calls, so no stop reaches a run loop whose thread is released,
    and every stop is for the registered run loop; without a registration no
    call is made at all. *)
Theorem run_loop_stops root rl before segs : rl <> 0 -> length segs = 9%nat -> Forall fair segs ->
  let w := watcherRun (before ++ ContextEnds :: concat segs) (newWatcher root rl) in
  dw_loop w = LDone /\ dw_stopper w = SDone /\
  exists calls, Forall (fun c => c = RunLoopRun \/ c = RunLoopStop rl) calls /\
    dw_calls w = if root =? 0 then [] else calls ++ takenDown.
Proof.
  intros Hrl Hlen Hf w. set (w0 := watcherRun (before ++ [ContextEnds]) (newWatcher root rl)).
  assert (Hok0 : watcher_ok w0) by by apply watcherRun_ok, newWatcher_ok.
  assert (Hctx : dw_ctxDone w0 = true) by (unfold w0; by rewrite watcherRun_app).
  assert (Hw : w = watcherRun (concat segs) w0) by (unfold w, w0; by rewrite <-watcherRun_app, <-app_assoc).
  destruct (watcherRun_const (before ++ [ContextEnds]) (newWatcher root rl)) as (Hr0 & Hl0 & _).
  destruct (watcherRun_const (concat segs) w0) as (Hr & Hl & _).
  fold w0 in Hr0, Hl0. rewrite Hr0 in Hr. rewrite Hl0 in Hl. rewrite <-Hw in Hr, Hl.
  assert (Hgo : toGo w = 0%nat).
  { rewrite Hw. pose proof (segments_finish segs w0 Hok0 Hctx Hf). rewrite Hlen in *.
    assert (toGo w0 <= 9)%nat; [|lia]. unfold toGo. destruct (dw_loop w0), (dw_stopper w0), (dw_stopped w0); cbn; lia. }
  assert (Hok : watcher_ok w) by (rewrite Hw; by apply watcherRun_ok). clearbody w w0.
  assert (Hend : dw_loop w = LDone /\ dw_stopper w = SDone).
  { unfold toGo in Hgo. destruct (dw_loop w), (dw_stopper w); try (destruct (dw_stopped w)); cbn in Hgo; by try lia. }
  destruct Hend as [He Hs]. split; [done|]. split; [done|].
  destruct Hok as [_ _ _ _ _ (c0 & Hc0 & Hz & Hcalls)]. unfold registered in *. rewrite He in Hcalls.
  rewrite Hr in Hcalls, Hz. rewrite Hl in Hc0. exists c0. split; [done|]. rewrite Hcalls. cbn in Hz |- *.
  destruct (root =? 0); cbn in *; [by rewrite (Hz eq_refl)|done].
Qed.

Lemma run_loop_stops_witness :
  let w := watcherRun ([RunLoopMoves] ++ ContextEnds :: concat (repeat [StopperMoves; RunLoopMoves] 9)) (newWatcher 3 17) in
  dw_calls w = [RunLoopRun; RunLoopStop 17; RunLoopStop 17; Deregister; ServiceClose; PortDestroy] /\
  dw_loop w = LDone /\ dw_stopper w = SDone.
Proof.
  cbv zeta. split; [by vm_compute|].
  destruct (run_loop_stops 3 17 [RunLoopMoves] (repeat [StopperMoves; RunLoopMoves] 9)) as (H1 & H2 & _);
    [done|done| |exact (conj H1 H2)].
  apply Forall_forall. intros seg Hseg. apply list_elem_of_In, repeat_spec in Hseg as ->.
  split; rewrite ?elem_of_cons; auto.
Defined.
