(* ===== verification/Commands.v ===== *)
(** * internal/agent: the commands around the agent

    [pmux init] (init.go, with the default configuration of config.go),
    [pmux status] (status.go), [pmux agent status] (agent_detail.go),
    [pmux uninstall] (uninstall.go) and the passthrough to tmux
    (internal/proxy/proxy.go), composed of the modelled parts. What is printed
    is a list of lines by their meaning; the firewall tools that run are those
    of [Firewall]. *)

From S2P Require Import Prelude GoLib GoText World SecretStore Identity Pairing Token Config Supervisor PairFlow Firewall.
From Stdlib Require Import Ascii.
Open Scope Z_scope.

(** ** What the commands print *)

Inductive Line :=
| IdentityExists (id : string)
| HostName (name : string)
| AskHostName (default : string)
| IdentityGenerated (id : string)
| KeysSavedTo (dir backend : string)
| FirewallWarning
| VersionLine (version : string)
| AgentLine (pid : option Z)
| SessionsLine (n : option Z)
| NoDevicePairedYet
| PairedDeviceLine (label : string) (short : option string) (pairedAt : Z)
| PmuxVersion (version : string)
| AgentNotRunning (stale : bool)
| AgentRunningAs (pid : Z)
| UptimeLine (uptime : string)
| RecentLog (lines : list string)
| UninstallPlan (removed : option string)
| AskUninstall
| Cancelled
| StopFailed
| AgentStopped
| Unregistered
| NotUnregistered
| NoIdentityToUnregister
| ConfigRemoved (targets : string)
| ConfigPreserved
| Uninstalled.

Record Console := mkConsole { co_lines : list Line; co_shell : Shell }.
#[export] Instance Console_eta : Eta Console := fun c => mkConsole (co_lines c) (co_shell c).

(** ** Errors *)

Inductive InitError := InitLoad (e : IdentityError) | InitGenerate (e : IdentityError) | InitSave (e : FsError).
Inductive StatusError := StatusLoadDevice (e : DevicesError).
Inductive UninstallError := RemoveConfigDir (e : FsError) | RemoveKeys (e : IdentityError).

(** ** config.go: the default configuration *)

(** A quotation mark is written as a caret. *)
Definition requote (s : string) : string := ReplaceByte s "^" doubleQuote.

Definition socketLine : string := requote "# socket_name = ^pmux^".

Definition CommentedDefaultConfig : string := requote "# Pocketmux Agent Configuration

# Log level: ^debug^, ^info^, ^warn^, or ^error^ (env: PMUX_LOG_LEVEL)
# log_level = ^info^

[server]
# Signaling server URL (env: PMUX_SERVER_URL)
# url = ^https://signal.pmux.io^
# Signaling server API version prefix (env: PMUX_API_VERSION)
# Accepted values: ^v1^ (default) or ^^ (legacy, unversioned paths)
# All HTTP/WebSocket endpoints are prefixed with /<api_version> when non-empty.
# Set to ^^ only when pointing at a signaling server that predates API versioning.
# api_version = ^v1^

[identity]
# Path to Ed25519 keypair (env: PMUX_KEY_PATH)
# key_path = ^~/.config/pmux/keys/^
# Secret storage backend: ^auto^, ^keyring^, or ^file^ (env: PMUX_SECRET_BACKEND)
# auto = use system keychain if available, fall back to encrypted file
# keyring = require system keychain (macOS Keychain, Linux SecretService)
# file = always use encrypted file
# secret_backend = ^auto^

[connection]
# reconnect_interval = ^5s^
# How often the agent sends a presence heartbeat. Values above 45s are clamped
# to 45s — the signaling server marks a host offline after 90s of silence.
# keepalive_interval = ^30s^
# max_mobile_connections = 1
# Force ICE into relay-only (TURN) mode for testing/debugging (env: PMUX_FORCE_RELAY).
# When true, the agent gathers only TURN-relayed candidates — a successful connection
# proves the TURN path works; a failure isolates TURN as the problem. Leave false in
# normal use, as it disables direct peer-to-peer connections.
# force_relay = false

[tmux]
# socket_name = ^pmux^
# Absolute path to tmux binary (env: PMUX_TMUX_PATH)
# Resolved automatically during 'pmux init'. Set manually if tmux moves.
# tmux_path = ^/opt/homebrew/bin/tmux^

[update]
# Enable automatic update checking (env: PMUX_UPDATE_ENABLED)
# Defaults to true. Set to false to disable update notifications.
# enabled = true
# How often the agent checks for updates (env: PMUX_UPDATE_INTERVAL)
# check_interval = ^24h^

[power]
# Keep the host awake while the agent is running (env: PMUX_KEEP_AWAKE).
# Prevents idle sleep so the mobile app can reach this host on demand — a
# sleeping machine drops off the network and shows offline shortly after.
# Best-effort: on macOS this does NOT override closing the laptop lid
# (clamshell sleep) or forced low-battery sleep; on Linux it requires systemd.
# Defaults to false.
# keep_awake = false
".

(** ** The file system *)

(** [dir] or a directory below it. *)
Definition within (dir q : string) : bool := bool_decide (q = dir) || HasPrefix q (dir +:+ "/").

Definition filesWithin (dir : string) (w : World) : list Path :=
  base.filter (fun p => within dir (Dir p) = true) (map_to_list (w_files w)).*1.

(** [os.RemoveAll]: everything below goes, or, when it fails, some of it. *)
Definition RemoveAll (dir : string) : M World (result FsError unit) :=
  f ← next_fault;
  match f with
  | NoFault =>
      _ ← mmod (fun w => set_files (foldr delete (w_files w) (filesWithin dir w)) w);
      _ ← mmod (fun w => set_dirs (base.filter (fun q => within dir q = false) (w_dirs w)) w);
      ok tt
  | Fails n =>
      _ ← mmod (fun w => set_files (foldr delete (w_files w) (take n (filesWithin dir w))) w);
      fail FsIO
  end.

(** ** agent_detail.go: the last lines of a file *)

(** [bufio.Scanner] over the file: an error, or its lines. *)
Definition scanAll (data : list byte) : result unit (list string) :=
  if forallb (fun l => slen l <? 65536) (Split (string_of data) newline) then Ok (Lines data) else Err tt.

Definition keepLast (n : nat) (lines : list string) (line : string) : list string :=
  let lines := (lines ++ [line])%list in
  if (n <? length lines)%nat then tail lines else lines.

(** [None]: the file cannot be read. *)
Definition tailFile (path : Path) (n : nat) : M World (option (list string)) :=
  data ← ReadFile path;
  mret (match data with
        | Ok data => match scanAll data with Ok lines => Some (foldl (keepLast n) [] lines) | Err _ => None end
        | Err _ => None
        end).

Section Commands.
Context `{PairLib} {T : Type} `{SecretStore T} `{ProcArgs}.
Variable ed25519_NewKey : list byte -> list byte * list byte.
(** [os.Hostname()], [os.Executable()] and its links, the environment, the
    HMAC secret of the build, the firewall probe of the platform. *)
Variable hostname : option string.
Variables exe resolved : option string.
Variable env : Environ.
Variable hmacSecret : string.
Variable probe : string -> M Shell Status.
Variable paths : Paths.

Abbreviation Box := ((T * World) * Procs)%type.
Abbreviation Desk := (Box * Console)%type.

Definition say (x : Line) : M Desk unit := on_snd (mmod (fun c => c <| co_lines ::= fun l => (l ++ [x])%list |>)).
Definition at_shell {A} (m : M Shell A) : M Desk A := on_snd (fun c =>
  let '(a, sh) := m (co_shell c) in (a, c <| co_shell := sh |>)).
Definition at_box {A} (m : M Box A) : M Desk A := on_fst m.
Definition at_store {A} (m : M (T * World) A) : M Desk A := at_box (on_store m).
Definition at_files {A} (m : M World A) : M Desk A := at_box (on_files m).

(** ** init.go *)

Definition PrintFirewallNotice : M Desk unit :=
  match ExecutablePath exe resolved with
  | None => mret tt
  | Some exePath =>
      st ← at_shell (probe exePath);
      if NeedsAttention st then say FirewallWarning else mret tt
  end.

(** [fmt.Sprintf("name = %q\n\n", name)]. *)
Definition nameLine (name : string) : string :=
  "name = " +:+ Quote lib_IsPrint name +:+ String newline (String newline "").

(** The configuration of a host that has none. *)
Definition newConfig (name tmuxPath : string) : string :=
  let tmuxSection := socketLine +:+
    (if decide (tmuxPath = "") then "" else String newline "" +:+ "tmux_path = " +:+ Quote lib_IsPrint tmuxPath) in
  nameLine name +:+ Replace1 CommentedDefaultConfig socketLine tmuxSection.

(** An identity exists. *)
Definition showIdentity (cfg : Config) : M Desk (result InitError unit) :=
  id ←! wrap InitLoad (at_store (LoadIdentity lib_sha256 (p_KeysDir paths)));
  _ ← say (IdentityExists (id_DeviceID id));
  _ ← (if decide (c_Name cfg = "") then mret tt else say (HostName (c_Name cfg)));
  ok tt.

(** The host name: the configured one, or what is typed. *)
Definition chooseName (cfg : Config) (hasConfig : bool) (input : string) : M Desk string :=
  if hasConfig && negb (bool_decide (c_Name cfg = "")) then mret (c_Name cfg) else
  let defaultName := DefaultHostName hostname in
  _ ← say (AskHostName defaultName);
  let typed := TrimSpace (readLine input) in
  mret (if decide (typed = "") then defaultName else typed).

Definition writeConfig (cfg : Config) (existing : result FsError (list byte)) (name tmuxPath : string)
    : M World (result FsError unit) :=
  match existing with
  | Err _ => WriteFile (p_ConfigFile paths) (bytes_of (newConfig name tmuxPath)) mode0600
  | Ok existing =>
      if decide (c_Name cfg = "")
      then WriteFile (p_ConfigFile paths) (bytes_of (nameLine name) ++ existing)%list mode0600
      else ok tt
  end.

Definition RunInit (cfg : Config) (tmuxPath input : string) : M Desk (result InitError unit) :=
  has ← at_store (HasIdentity (p_KeysDir paths));
  if has : bool then showIdentity cfg else
  id ←! wrap InitGenerate (at_store (GenerateIdentity lib_sha256 ed25519_NewKey (p_KeysDir paths)));
  existing ← at_files (ReadFile (p_ConfigFile paths));
  name ← chooseName cfg (is_ok existing) input;
  _ ←! wrap InitSave (at_files (writeConfig cfg existing name tmuxPath));
  _ ← say (IdentityGenerated (id_DeviceID id));
  _ ← say (HostName name);
  _ ← say (KeysSavedTo (p_KeysDir paths) (Backend (T := T)));
  _ ← PrintFirewallNotice;
  ok tt.

(** ** status.go *)

(** [sessions]: what [ListSessions] returned, when there is a client. *)
Definition RunStatus (version : string) (pidFile : option Path) {E} (sessions : option (result E Z))
    (fw : option Status) : M Desk (result StatusError unit) :=
  _ ← (if decide (version = "") then mret tt else say (VersionLine version));
  agent ← match pidFile with
          | None => mret None
          | Some path =>
              r ← at_box (ReadPIDFile path);
              match r with
              | Err _ => mret None
              | Ok pid =>
                  running ← at_box (IsProcessRunning pid);
                  if running : bool then mret (Some pid) else _ ← at_box (RemovePIDFile path); mret None
              end
          end;
  _ ← say (AgentLine agent);
  _ ← say (SessionsLine (match sessions with None => Some 0 | Some (Ok n) => Some n | Some (Err _) => None end));
  _ ← (if from_option NeedsAttention false fw then say FirewallWarning else mret tt);
  device ←! wrap StatusLoadDevice (at_store (LoadPairedDevice lib_json_DevicesBack (p_PairedDevices paths)));
  match device with
  | None => _ ← say NoDevicePairedYet; ok tt
  | Some d =>
      let short := shortID (pd_DeviceID d) in
      _ ← say (if decide (pd_Name d = "")
               then PairedDeviceLine (sanitize short) None (pd_PairedAt d)
               else PairedDeviceLine (sanitize (pd_Name d)) (Some short) (pd_PairedAt d));
      ok tt
  end.

(** ** agent_detail.go *)

(** [ps]: what [ps -o etime= -p pid] printed, if it succeeded. *)
Definition RunAgentDetail (version : string) (ps : Z -> option string) : M Desk (result AgentError unit) :=
  _ ← say (PmuxVersion version);
  let pidFile := PIDFilePath paths in
  r ← at_box (ReadPIDFile pidFile);
  match r with
  | Err _ => _ ← say (AgentNotRunning false); fail ErrAgentNotRunning
  | Ok pid =>
      running ← at_box (IsProcessRunning pid);
      if negb running then
        _ ← say (AgentNotRunning true);
        _ ← ignore (at_box (CleanStalePIDFile pidFile));
        fail ErrAgentNotRunning
      else
      _ ← say (AgentRunningAs pid);
      _ ← match TrimSpace <$> ps pid with
          | Some uptime => if decide (uptime = "") then mret tt else say (UptimeLine uptime)
          | None => mret tt
          end;
      lines ← at_files (tailFile (agentLogPath paths) 5);
      _ ← match lines with
          | Some (l :: ls) => say (RecentLog (l :: ls))
          | _ => mret tt
          end;
      ok tt
  end.

(** ** uninstall.go *)

Definition keysOutside : bool := negb (HasPrefix (p_KeysDir paths +:+ "/") (p_ConfigDir paths +:+ "/")).

Definition removeTargets : string :=
  p_ConfigDir paths +:+ (if keysOutside then "; pmux key files in " +:+ p_KeysDir paths else "").

(** Whether the user wants it. *)
Definition confirmUninstall (skipConfirm : bool) (input : string) : M Desk bool :=
  if skipConfirm then mret true else
  _ ← say AskUninstall;
  if from_option (fun response => EqualsLower response "y") false (Fscanln input) then mret true
  else _ ← say Cancelled; mret false.

Definition unregister (id : Identity) : M Desk unit :=
  r ← at_files (LoadConfig lib_toml_Unmarshal env (p_ConfigFile paths));
  let cfg := match r with Ok cfg => cfg | Err _ => zeroConfig end in
  r ← at_files (DeleteDevice lib_hmac_sha256 lib_ed25519_Sign lib_url_Parse lib_netip_ParseAddr
        lib_idna_ToASCII lib_IsPrint lib_json_Marshal lib_json_Field id (APIBaseURL cfg) hmacSecret);
  say (if is_ok r then Unregistered else NotUnregistered).

Definition deleteSecrets : M Desk unit :=
  device ← at_store (LoadPairedDevice lib_json_DevicesBack (p_PairedDevices paths));
  _ ← match device with
      | Ok (Some d) => ignore (at_store (DeleteSecret (SharedSecretKey (pd_DeviceID d))))
      | _ => mret tt
      end;
  ignore (at_store (DeleteSecret SecretKeyEd25519Private)).

Definition removeFiles : M Desk (result UninstallError unit) :=
  _ ←! wrap RemoveConfigDir (at_files (RemoveAll (p_ConfigDir paths)));
  if keysOutside then wrap RemoveKeys (at_files (RemoveKeyFiles (p_KeysDir paths))) else ok tt.

(** The server is told and the secrets go, when there is an identity. *)
Definition forgetSecrets : M Desk unit :=
  identity ← at_store (LoadIdentity lib_sha256 (p_KeysDir paths));
  match identity with
  | Ok id => _ ← unregister id; deleteSecrets
  | Err _ => say NoIdentityToUnregister
  end.

Definition RunUninstall (keepConfig skipConfirm : bool) (input : string) : M Desk (result UninstallError unit) :=
  _ ← say (UninstallPlan (if keepConfig then None else Some removeTargets));
  yes ← confirmUninstall skipConfirm input;
  if negb yes then ok tt else
  stopped ← at_box (StopRunning paths);
  _ ← say (if is_ok stopped then AgentStopped else StopFailed);
  _ ←! (if keepConfig then _ ← say ConfigPreserved; ok tt else
          _ ← forgetSecrets;
          _ ←! removeFiles;
          _ ← say (ConfigRemoved removeTargets);
          ok tt);
  _ ← say Uninstalled;
  ok tt.
End Commands.

(** ** internal/proxy/proxy.go *)

Inductive ExecError := TmuxNotFound | ExecFailed.

(** The binary and the arguments tmux is run with; [lookPath]: tmux in PATH. *)
Definition ExecTmux (lookPath : option string) (socket tmuxBin : string) (args : list string)
    : result ExecError (string * list string) :=
  bin ← (if decide (tmuxBin = "") then of_option TmuxNotFound lookPath else Ok tmuxBin);
  Ok (bin, ["tmux"; "-L"; socket] ++ args)%list.
