(* ===== verification/CommandsProps.v ===== *)
(** * What init writes and what uninstall leaves

    A new configuration sets the name and the tmux path and nothing else,
    whatever was typed; one that exists is kept. Uninstalling leaves none of
    the program's files and no other file changed. *)

From S2P Require Import Prelude GoLib GoText World SecretStore Identity Pairing Token Config Supervisor PairFlow.
From S2P Require Import PairFlowProps Firewall Commands.
From Stdlib Require Import Ascii.
Open Scope Z_scope.

(** ** Quoted strings stay on their line *)

Lemma mem_char_string_of c b : mem_char c (string_of b) = existsb (fun x => Ascii.eqb c (ascii_of_byte x)) b.
Proof. induction b as [|x b IH]; [done|]. cbn. by rewrite <-IH. Qed.

Lemma not_newline z : 0 <= z < 256 -> z <> 10 -> Ascii.eqb newline (ascii_of_byte (Zbyte z)) = false.
Proof.
  intros Hz Hne. destruct (Ascii.eqb_spec newline (ascii_of_byte (Zbyte z))) as [He|]; [|done].
  exfalso. apply Hne. rewrite <-(Z.mod_small z 256), <-byteZ_Zbyte by done.
  rewrite <-(byte_of_ascii_of_byte (Zbyte z)), <-He. reflexivity.
Qed.

Lemma encode_rune_line r : 0 <= r -> r <> 10 -> mem_char newline (string_of (encode_rune r)) = false.
Proof.
  intros Hr Hne. rewrite mem_char_string_of. unfold encode_rune. destruct (is_scalar r) eqn:Hs; [|done]. cbn [negb].
  unfold is_scalar in Hs. rewrite orb_true_iff, !andb_true_iff, !Z.leb_le in Hs.
  destruct (r <? 128) eqn:H1; [|destruct (r <? 2048) eqn:H2; [|destruct (r <? 65536) eqn:H3]]; bool_to_prop;
    cbn [existsb]; rewrite !not_newline; try done; dlia.
Qed.

Lemma hexDigits_line n r : 0 <= r -> mem_char newline (hexDigits n r) = false.
Proof.
  revert r. induction n as [|n IH]; intros r Hr; [done|]. cbn [hexDigits]. rewrite mem_char_app, IH by dlia. cbn [mem_char].
  rewrite orb_false_r. pose proof (hex_digit_lower (r mod 16) ltac:(dlia)) as Hd.
  destruct (Ascii.eqb_spec newline (hex_digit (r mod 16))) as [He|]; [|done]. by rewrite <-He in Hd.
Qed.

Section Quote.
Variable IsPrint : Z -> bool.
(** [strconv.IsPrint]: a line feed is not printable. *)
Hypothesis newline_not_printable : IsPrint 10 = false.

Lemma escapeRune_line r : 0 <= r -> mem_char newline (escapeRune IsPrint r) = false.
Proof using newline_not_printable.
  intros Hr. unfold escapeRune. destruct ((r =? 34) || (r =? 92)) eqn:H1.
  { rewrite mem_char_app, encode_rune_line; [done|done|]. intros ->. discriminate. }
  destruct (IsPrint r) eqn:H2; [apply encode_rune_line; [done|congruence]|]. rewrite mem_char_app.
  repeat case_match; try done; rewrite mem_char_app, hexDigits_line; done.
Qed.

Lemma decode_rune_nonneg b rest : 0 <= fst (decode_rune b rest).
Proof.
  pose proof (decode_rune_scalar b rest) as Hs. unfold is_scalar in Hs.
  rewrite orb_true_iff, !andb_true_iff, !Z.leb_le in Hs. lia.
Qed.

Lemma Quote_line s : mem_char newline (Quote IsPrint s) = false.
Proof using newline_not_printable.
  unfold Quote. rewrite !mem_char_app. cbn [doubleQuote mem_char].
  assert (forall fuel b, mem_char newline (quoteBody IsPrint fuel b) = false) as ->; [|done].
  induction fuel as [|fuel IH]; intros b; [done|]. destruct b as [|x rest]; [done|]. cbn [quoteBody].
  pose proof (decode_rune_nonneg x rest) as Hr. destruct (decode_rune x rest) as [r rest']. cbn [fst] in Hr.
  rewrite mem_char_app, IH, orb_false_r. case_match; [|by apply escapeRune_line].
  rewrite !mem_char_app, hexDigits_line; [done|]. apply byteZ_range.
Qed.
End Quote.

(** ** The new configuration *)

(** The settings of a configuration file, each with the line of its table:
    what is neither blank nor a comment nor a table. *)
Fixpoint settings (table : string) (lines : list string) : list (string * string) :=
  match lines with
  | [] => []
  | l :: rest =>
      if decide (l = "") then settings table rest
      else if HasPrefix l "#" then settings table rest
      else if HasPrefix l "[" then settings l rest
      else (table, l) :: settings table rest
  end.

Lemma Replace1_Cut s old new a b : Cut s old = Some (a, b) -> Replace1 s old new = a +:+ new +:+ b.
Proof.
  revert a b. induction s as [|c s IH]; intros a b; cbn [Cut Replace1].
  - destruct (HasPrefix "" old); [|done]. by intros [= <- <-].
  - destruct (HasPrefix (String c s) old); [by intros [= <- <-]|].
    destruct (Cut s old) as [[a' b']|]; [|done]. intros [= <- <-]. by rewrite (IH a' b').
Qed.

Lemma Join_app l l' sep : l <> [] -> l' <> [] -> GoLib.Join (l ++ l') sep = GoLib.Join l sep +:+ sep +:+ GoLib.Join l' sep.
Proof.
  intros Hl Hl'. induction l as [|a [|b l] IH]; [done| |].
  - by destruct l'.
  - change (GoLib.Join ((a :: b :: l) ++ l') sep) with (a +:+ sep +:+ GoLib.Join ((b :: l) ++ l') sep).
    rewrite IH by done. change (GoLib.Join (a :: b :: l) sep) with (a +:+ sep +:+ GoLib.Join (b :: l) sep).
    by rewrite !append_assoc.
Qed.

(** The lines of the template up to the socket name, and after it. *)
Definition templateCut : string * string := default ("", "") (Cut CommentedDefaultConfig socketLine).
Definition linesBefore : list string := Eval vm_compute in removelast (Split (fst templateCut) newline).
Definition linesAfter : list string := Eval vm_compute in tail (Split (snd templateCut) newline).
Definition nl : string := String newline "".

Lemma template_parts : Cut CommentedDefaultConfig socketLine = Some (GoLib.Join linesBefore nl +:+ nl, nl +:+ GoLib.Join linesAfter nl).
Proof. by vm_compute. Qed.

Section NewConfig.
Context `{PairLib}.
Hypothesis newline_not_printable : lib_IsPrint 10 = false.

Definition tmuxLine (tmuxPath : string) : list string :=
  if decide (tmuxPath = "") then [] else ["tmux_path = " +:+ Quote lib_IsPrint tmuxPath].

Definition configLines (name tmuxPath : string) : list string :=
  (["name = " +:+ Quote lib_IsPrint name; ""] ++ linesBefore ++ [socketLine] ++ tmuxLine tmuxPath ++ linesAfter)%list.

Lemma newConfig_lines name tmuxPath : Split (newConfig name tmuxPath) newline = configLines name tmuxPath.
Proof using newline_not_printable.
  assert (newConfig name tmuxPath = GoLib.Join (configLines name tmuxPath) nl) as ->.
  { unfold newConfig, configLines, nameLine. rewrite (Replace1_Cut _ _ _ _ _ template_parts).
    unfold tmuxLine. case_decide.
    - rewrite (Join_app [_; _]), (Join_app linesBefore), (Join_app [socketLine] ([] ++ linesAfter)%list) by done.
      cbn [GoLib.Join app]. fold nl. rewrite ?append_assoc. reflexivity.
    - rewrite (Join_app [_; _]), (Join_app linesBefore), (Join_app [socketLine]), (Join_app [_]) by done.
      cbn [GoLib.Join app]. fold nl. rewrite ?append_assoc. reflexivity. }
  apply Split_Join; [done|]. pose proof (Quote_line lib_IsPrint newline_not_printable) as Hq.
  repeat (apply Forall_app; split); try by repeat constructor.
  - repeat constructor. rewrite mem_char_app. by rewrite Hq.
  - unfold tmuxLine. case_decide; repeat constructor. rewrite mem_char_app. by rewrite Hq.
Qed.

(** Whatever was typed as the name and wherever tmux is, they are all that the
    new configuration sets: neither can add a line. *)
Lemma newConfig_settings name tmuxPath :
  settings "" (Split (newConfig name tmuxPath) newline) =
  ("", "name = " +:+ Quote lib_IsPrint name) :: map (pair "[tmux]") (tmuxLine tmuxPath).
Proof using newline_not_printable.
  rewrite newConfig_lines. unfold configLines, tmuxLine. destruct (decide (tmuxPath = "")).
  all: generalize (Quote lib_IsPrint name), (Quote lib_IsPrint tmuxPath); intros q q'; reflexivity.
Qed.
End NewConfig.

(** ** A file no step writes *)

#[export] Instance stage_desk {T} : Stage T (((T * World) * Procs) * Console) :=
  {| st_store s := st_store (fst s); st_events s := st_events (fst s) |}.

Section Keeps.
Context {T : Type} `{SecretStoreLaws T}.
Variables d n : string.

(** The file is what it was, and the store's files are the same. *)
Definition untouched {S} `{Stage T S} (s s' : S) : Prop :=
  w_files (snd (st_store s')) !! Join d n = w_files (snd (st_store s)) !! Join d n /\
  (forall p, owns (fst (st_store s')) p <-> owns (fst (st_store s)) p).

Definition spares {S A} `{Stage T S} (c : M S A) : Prop :=
  forall s, ~ owns (fst (st_store s)) (Join d n) -> untouched s (snd (c s)).

Lemma untouched_trans {S} `{Stage T S} (s1 s2 s3 : S) : untouched s1 s2 -> untouched s2 s3 -> untouched s1 s3.
Proof. intros [Ha Ha'] [Hb Hb']. split; [by rewrite Hb|]. intros p. by rewrite Hb'. Qed.

Lemma spares_bind {S A B} `{Stage T S} (c : M S A) (k : A -> M S B) : spares c -> (forall a, spares (k a)) -> spares (c ≫= k).
Proof.
  intros Hc Hk s Hs. rewrite mbind_run. pose proof (Hc s Hs) as Hu. eapply untouched_trans; [exact Hu|].
  apply Hk. by rewrite (proj2 Hu).
Qed.

Lemma spares_bind_err {S E A B} `{Stage T S} (c : M S (result E A)) (k : A -> M S (result E B)) :
  spares c -> (forall a, spares (k a)) -> spares (mbind_err c k).
Proof.
  intros Hc Hk s Hs. unfold mbind_err. specialize (Hc s Hs). destruct (c s) as [[a|e] s1]; [|done].
  eapply untouched_trans; [exact Hc|]. apply Hk. cbn in Hc. by rewrite (proj2 Hc).
Qed.

Lemma spares_wrap {S E F A} `{Stage T S} (g : E -> F) (c : M S (result E A)) : spares c -> spares (wrap g c).
Proof. intros Hc s Hs. specialize (Hc s Hs). unfold wrap. by destruct (c s). Qed.

Lemma spares_ret {S A} `{Stage T S} (a : A) : spares (fun s : S => (a, s)).
Proof. by intros s Hs. Qed.

Lemma spares_files {A} (c : M World A) : touches (fun p => p <> Join d n) c -> spares (on_snd c : M (T * World) A).
Proof.
  intros Ht [t w] Hs. pose proof (Ht w) as Ha. unfold on_snd. destruct (c w) as [a w']. split; [|done].
  apply (Ha (Join d n)). auto.
Qed.

Lemma spares_Get k : spares (Get k : M (T * World) _).
Proof. intros s Hs. split; [by apply Get_frame|]. intros p. apply Get_owns. Qed.

Lemma spares_Set k v : spares (SetSecret k v : M (T * World) _).
Proof. intros s Hs. split; [by apply Set_frame|]. intros p. apply Set_owns. Qed.

Lemma spares_at_store {A} (c : M (T * World) A) : spares c -> spares (at_store c).
Proof.
  intros Hc [[tw ps] co] Hs. unfold at_store, at_box, on_store, on_fst. specialize (Hc tw Hs). by destruct (c tw).
Qed.

Lemma spares_say x : spares (say x : M (((T * World) * Procs) * Console) unit).
Proof. by intros [b co] Hs. Qed.

End Keeps.

Create HintDb spares.
#[export] Hint Resolve spares_bind spares_bind_err spares_wrap spares_ret spares_files spares_Get spares_Set spares_at_store
  spares_say : spares.
#[export] Hint Extern 1 (spares _ _ (ok _)) => apply spares_ret : spares.
#[export] Hint Extern 1 (spares _ _ (fail _)) => apply spares_ret : spares.
#[export] Hint Extern 1 (spares _ _ (mret _)) => apply spares_ret : spares.
#[export] Hint Extern 4 (spares _ _ (match ?x with _ => _ end)) => destruct x : spares.
#[export] Hint Extern 4 (touches _ _) => solve [auto with pmux] : spares.

(** ** Init *)

Lemma WriteFile_perm p data perm w w' : WriteFile p data perm w = (Ok tt, w') ->
  w_files w' !! p = Some (mkFile data (from_option f_perm perm (w_files w !! p))).
Proof.
  unfold WriteFile. intros ([] & w1 & (w0 & Hf & _ & H1)%faulty_Ok & H2)%mbind_err_Ok.
  revert H1. case_decide; [|done]. cbv zeta. intros [= <-].
  rewrite (write_handle_Ok _ _ _ _ _ H2 ltac:(apply lookup_insert_eq)), Hf. cbn. by destruct (w_files w !! p).
Qed.

Section Init.
Context `{PairLib} {T : Type} `{SecretStoreLaws T} `{ProcArgs}.
Variable ed25519_NewKey : list byte -> list byte * list byte.
Variable hostname exe resolved : option string.
Variable probe : string -> M Shell Status.
Variable paths : Paths.
Variables dir name : string.
Hypothesis config_path : p_ConfigFile paths = Join dir name.
Hypothesis config_apart : Join dir name <> Join (p_KeysDir paths) publicKeyFile.

Abbreviation Desk := (((T * World) * Procs) * Console)%type.
Abbreviation spares := (spares dir name).

Lemma spares_HasIdentity : spares (HasIdentity (p_KeysDir paths) : M (T * World) bool).
Proof. unfold HasIdentity, CheckIdentity. auto 20 with spares. Qed.

Lemma spares_LoadIdentity : spares (LoadIdentity lib_sha256 (p_KeysDir paths) : M (T * World) _).
Proof using config_apart.
  assert (touches (fun p => p <> Join dir name) (enforceKeyFilePerms (Join (p_KeysDir paths) publicKeyFile)))
    by (by apply touches_enforce; intros He; apply config_apart).
  unfold LoadIdentity. auto 20 with spares.
Qed.

Lemma spares_GenerateIdentity : spares (GenerateIdentity lib_sha256 ed25519_NewKey (p_KeysDir paths) : M (T * World) _).
Proof using config_apart.
  assert (forall pub, touches (fun p => p <> Join dir name) (WriteFile (Join (p_KeysDir paths) publicKeyFile) pub keyFilePerms))
    by (intros pub; apply touches_WriteFile; intros He; by apply config_apart).
  unfold GenerateIdentity. auto 20 with spares.
Qed.

Lemma firewall_box (s : Desk) : fst (snd (PrintFirewallNotice exe resolved probe s)) = fst s.
Proof.
  destruct s as [b co]. unfold PrintFirewallNotice. destruct (ExecutablePath exe resolved) as [p|]; [|done].
  rewrite mbind_run. unfold at_shell, on_snd. destruct (probe p _) as [st sh]. cbn [fst snd]. by destruct (NeedsAttention st).
Qed.

(** The configuration file. *)
Definition configOf (s : Desk) : option File := w_files (snd (st_store s)) !! Join dir name.

(** What reading it gave. *)
Definition reading (before : option File) (r : result FsError (list byte)) : Prop :=
  match r with
  | Ok data => f_data <$> before = Some data
  | Err FsNotExist => before = None
  | Err _ => True
  end.

(** The name of the host: the configured one, or the one that is typed. *)
Definition hostNamed (cfg : Config) (input : string) (r : result FsError (list byte)) : string :=
  if is_ok r && negb (bool_decide (c_Name cfg = "")) then c_Name cfg
  else if decide (TrimSpace (readLine input) = "") then DefaultHostName hostname else TrimSpace (readLine input).

(** What init makes of the file, given what reading it gave. *)
Definition configured (cfg : Config) (tmuxPath input : string) (before : option File) (r : result FsError (list byte))
    (after : option File) : Prop :=
  let host := hostNamed cfg input r in
  match r with
  | Ok data =>
      if decide (c_Name cfg = "")
      then f_data <$> after = Some (bytes_of (nameLine host) ++ data)%list /\ f_perm <$> after = f_perm <$> before
      else after = before
  | Err _ =>
      exists text, after = Some (mkFile (bytes_of text) (from_option f_perm mode0600 before)) /\
        settings "" (Split text newline) = ("", "name = " +:+ Quote lib_IsPrint host) :: map (pair "[tmux]") (tmuxLine tmuxPath)
  end.

Lemma at_store_run {A} (c : M (T * World) A) (s : Desk) :
  at_store c s = (fst (c (st_store s)), ((snd (c (st_store s)), snd (fst s)), snd s)).
Proof. destruct s as [[tw ps] co]. unfold at_store, at_box, on_store, on_fst. cbn. by destruct (c tw). Qed.

Lemma at_files_run {A} (c : M World A) (s : Desk) :
  at_files c s = (fst (c (snd (st_store s))), (((fst (st_store s), snd (c (snd (st_store s)))), snd (fst s)), snd s)).
Proof. destruct s as [[[t w] ps] co]. unfold at_files, at_box, on_files, on_fst, on_snd. cbn. by destruct (c w). Qed.

Lemma showIdentity_spares cfg (s : Desk) : ~ owns (fst (st_store s)) (Join dir name) ->
  let '(r, s') := showIdentity paths cfg s in
  untouched dir name s s' /\ match r with Err e => exists e', e = InitLoad e' | _ => True end.
Proof using config_apart.
  intros Hown. unfold showIdentity. pose proof (spares_at_store dir name _ spares_LoadIdentity s Hown) as Hk.
  unfold mbind_err at 1, wrap. destruct (at_store _ s) as [[id|e] s1]; cbn [map_err snd] in *; [|by eauto].
  rewrite !mbind_run. split; [|done]. destruct s1 as [b co]. destruct (decide _); exact Hk.
Qed.

Lemma chooseName_run cfg r input (s : Desk) : exists l,
  chooseName hostname cfg (is_ok r) input s = (hostNamed cfg input r, (fst s, l)).
Proof.
  destruct s as [b co]. unfold chooseName, hostNamed. destruct (is_ok r && _); [by eexists|]. rewrite mbind_run. by eexists.
Qed.

(** The file, written. *)
Lemma writeConfig_spec cfg r tmuxPath input w w' : lib_IsPrint 10 = false ->
  reading (w_files w !! Join dir name) r ->
  writeConfig paths cfg r (hostNamed cfg input r) tmuxPath w = (Ok tt, w') ->
  configured cfg tmuxPath input (w_files w !! Join dir name) r (w_files w' !! Join dir name).
Proof using config_path.
  intros Hp Hr. unfold writeConfig, configured. rewrite config_path. destruct r as [data|e].
  - case_decide; [|by intros [= <-]]. intros Hw%WriteFile_perm. rewrite Hw. cbn.
    cbn in Hr. destruct (w_files w !! Join dir name) as [fl|]; [|done]. done.
  - intros Hw%WriteFile_perm. eexists. split; [exact Hw|]. by apply newConfig_settings.
Qed.

End Init.

(** ** Uninstall *)

Lemma prefix_within c k : HasPrefix (k +:+ "/") (c +:+ "/") = true -> within c k = true.
Proof.
  unfold within, HasPrefix. revert k. induction c as [|x c IH]; intros [|y k]; change ("" +:+ "/") with "/";
    try change (String x c +:+ "/") with (String x (c +:+ "/")); try change (String y k +:+ "/") with (String y (k +:+ "/"));
    cbn [String.prefix].
  - done.
  - destruct (ascii_dec "/" y) as [->|]; [|done]. by destruct k.
  - destruct (ascii_dec x "/"); [|done]. by destruct c.
  - destruct (ascii_dec x y) as [->|]; [|done]. intros Hp%IH. rewrite orb_true_iff in *.
    destruct Hp as [Hp%bool_decide_eq_true|Hp]; [left|by right]. apply bool_decide_eq_true. by subst.
Qed.

Lemma filesWithin_spec dir w q : q ∈ filesWithin dir w <-> within dir (Dir q) = true /\ is_Some (w_files w !! q).
Proof.
  unfold filesWithin. rewrite list_elem_of_filter. apply and_iff_compat_l. rewrite list_elem_of_fmap. split.
  - intros ([p fl] & -> & Hin). apply elem_of_map_to_list in Hin. by exists fl.
  - intros [fl Hf]. exists (q, fl). split; [done|]. by apply elem_of_map_to_list.
Qed.

Lemma RemoveAll_spec dir w :
  let '(r, w') := RemoveAll dir w in
  agree (fun q => within dir (Dir q) = true) w w' /\
  (r = Ok tt -> forall q, within dir (Dir q) = true -> w_files w' !! q = None).
Proof.
  unfold RemoveAll. rewrite mbind_run.
  assert (Hw : w_files (snd (next_fault w)) = w_files w) by (unfold next_fault; by destruct (w_faults w)).
  destruct (next_fault w) as [[|n] w1]; cbn [fst snd] in *; rewrite !mbind_run; cbn.
  - split.
    + intros q Hq. rewrite <-Hw. apply lookup_foldr_delete_not_elem_of. rewrite filesWithin_spec. naive_solver.
    + intros _ q Hq. cbn. destruct (decide (q ∈ filesWithin dir w1)) as [Hin|Hin].
      * by apply lookup_foldr_delete.
      * rewrite lookup_foldr_delete_not_elem_of by done. rewrite filesWithin_spec in Hin.
        destruct (w_files w1 !! q) eqn:Hq'; [|done]. destruct Hin. split; [done|]. by eexists.
  - split; [|done]. intros q Hq. cbn. rewrite <-Hw. apply lookup_foldr_delete_not_elem_of.
    intros Hin%elem_of_take. destruct Hin as (i & Hi & _). apply list_elem_of_lookup_2, filesWithin_spec in Hi. naive_solver.
Qed.

Lemma removeAll_spec keysDir names w :
  let '(r, w') := removeAll keysDir names w in
  agree (fun q => exists k, k ∈ names /\ q = Join keysDir k) w w' /\
  (forall q, w_files w !! q = None -> w_files w' !! q = None) /\
  (r = Ok tt -> forall k, k ∈ names -> w_files w' !! Join keysDir k = None).
Proof.
  revert w. induction names as [|k names IH]; intros w.
  { cbn. split; [apply agree_refl|]. split; [done|]. intros _ k Hk. by apply elem_of_nil in Hk. }
  cbn [removeAll]. rewrite mbind_run. set (p := Join keysDir k).
  assert (Hr : let '(r, w1) := Remove p w in agree (eq p) w w1 /\ (forall q, w_files w !! q = None -> w_files w1 !! q = None) /\
    (r = Ok tt \/ r = Err FsNotExist -> w_files w1 !! p = None)).
  { unfold Remove, faulty. rewrite mbind_run.
    assert (Hw : w_files (snd (next_fault w)) = w_files w) by (unfold next_fault; by destruct (w_faults w)).
    destruct (next_fault w) as [[|n] w1]; cbn [fst snd] in *.
    - destruct (w_files w1 !! p) eqn:Hp; cbn.
      + rewrite Hw. split_and!; [by intros q Hq; cbn; rewrite lookup_delete_ne| |by rewrite lookup_delete_eq].
        intros q Hq. destruct (decide (q = p)) as [->|]; [apply lookup_delete_eq|by rewrite lookup_delete_ne].
      + split_and!; [intros q _; by rewrite Hw|by rewrite Hw|done].
    - split_and!; [intros q _; cbn; by rewrite Hw|by rewrite Hw|]. by intros []. }
  destruct (Remove p w) as [r w1]. cbn [fst snd]. destruct Hr as (Ha & Hn & Hg).
  assert (Hrest : let '(r, w') := removeAll keysDir names w1 in w_files w1 !! p = None ->
    agree (fun q => exists k', k' ∈ k :: names /\ q = Join keysDir k') w w' /\
    (forall q, w_files w !! q = None -> w_files w' !! q = None) /\
    (r = Ok tt -> forall k', k' ∈ k :: names -> w_files w' !! Join keysDir k' = None)).
  { specialize (IH w1). destruct (removeAll keysDir names w1) as [r2 w2]. destruct IH as (Ha2 & Hn2 & Hg2). intros Hp. split_and!.
    - intros q Hq. rewrite Ha2, Ha; [done|intros <-|]; [|intros (k' & Hk' & ->)]; apply Hq; eexists; rewrite elem_of_cons; eauto.
    - auto.
    - intros Hok k' [->|Hk']%elem_of_cons; auto. }
  destruct r as [[]|[]]; [destruct (removeAll keysDir names w1); apply Hrest, Hg; auto..| |].
  all: cbn; split_and!; [|done|done]; intros q Hq; apply Ha; intros <-; apply Hq; eexists; rewrite elem_of_cons; eauto.
Qed.

Section Uninstall.
Context `{PairLib} {T : Type} `{SecretStoreLaws T} `{ProcArgs}.
Variable env : Environ.
Variable hmacSecret : string.
Variable paths : Paths.
Variables dir name : string.
Variable mine : Path -> Prop.

Abbreviation Desk := (((T * World) * Procs) * Console)%type.
Abbreviation held := (held paths dir name mine).
Abbreviation calm := (calm paths dir name mine).

Lemma held_at_box {A} (Q : gmap string (list byte) -> A -> Prop) (c : M ((T * World) * Procs) A) m f (s : Desk) :
  held m f s -> (forall b, held m f b -> let '(r, b') := c b in exists m', held m' f b' /\ Q m' r) ->
  exists m', held m' f (snd (at_box c s)) /\ Q m' (fst (at_box c s)).
Proof.
  intros Hs Hc. destruct s as [b co]. unfold at_box, on_fst.
  assert (Hb : held m f b) by (destruct Hs; by split). specialize (Hc b Hb).
  destruct (c b) as [r b']. destruct Hc as (m' & Hb' & HQ). exists m'. split; [|done]. destruct Hb'. by split.
Qed.

Lemma calm_at_box {A} (c : M ((T * World) * Procs) A) : calm c -> calm (at_box c : M Desk A).
Proof.
  intros Hc m f s Hs. destruct (held_at_box (fun m' _ => m' = m) c m f s Hs) as (m' & Hh & ->); [|done].
  intros b Hb. specialize (Hc m f b Hb). destruct (c b). eauto.
Qed.

Lemma calm_say x : calm (say x : M Desk unit).
Proof. intros m f [b co] Hs. destruct Hs. by split. Qed.

#[local] Hint Resolve calm_ret calm_bind calm_bind_err calm_at_box calm_say calm_on_store calm_on_files calm_LoadIdentity
  calm_LoadPairedDevice calm_StopRunning calm_ok calm_fail : calm.
#[local] Hint Extern 4 (PairFlowProps.calm _ _ _ _ (match ?x with _ => _ end)) => destruct x : calm.
#[local] Hint Extern 4 (touches _ _) => solve [auto with pmux] : calm.

Lemma calm_unregister id : calm (unregister env hmacSecret paths id : M Desk unit).
Proof.
  unfold unregister, at_files. auto 40 with calm.
Qed.

(** Deleting secrets takes some away. *)
Lemma held_at_store_Delete k m f (s : Desk) : held m f s ->
  exists m', held m' f (snd (at_store (DeleteSecret k) s)) /\ m' ⊆ m /\
    (is_ok (fst (at_store (DeleteSecret k) s)) = true -> m' !! k = None).
Proof.
  intros Hs. destruct (held_at_box (fun m' r => m' ⊆ m /\ (is_ok r = true -> m' !! k = None)) (on_store (DeleteSecret k)) m f s Hs)
    as (m' & Hh & HQ); [|by exists m'].
  intros [tw ps] Hb. unfold on_store, on_fst.
  assert (Htw : held m f tw) by (destruct Hb; by split).
  pose proof (held_Delete paths dir name mine k m f tw Htw) as Hd. destruct (DeleteSecret k tw) as [r tw'].
  assert (Hd' : exists m', held m' f tw' /\ m' ⊆ m /\ (is_ok r = true -> m' !! k = None)).
  { destruct r as [[]|e]; [|destruct Hd as [Hd|Hd]].
    - exists (delete k m). split_and!; [done|apply delete_subseteq|intros _; apply lookup_delete_eq].
    - by exists m.
    - exists (delete k m). split_and!; [done|apply delete_subseteq|intros _; apply lookup_delete_eq]. }
  destruct Hd' as (m' & Hm & HQ). exists m'. split; [|done]. destruct Hm, Hb. by split.
Qed.

(** A store whose deletions never fail. *)
Definition reliable : Prop := forall k (st : T * World), is_ok (fst (DeleteSecret k st)) = true.

Lemma at_store_ok {A} (c : M (T * World) A) (P : A -> Prop) (s : Desk) :
  (forall st, P (fst (c st))) -> P (fst (at_store c s)).
Proof. intros HP. rewrite at_store_run. apply HP. Qed.

Lemma held_deleteSecrets m f (s : Desk) : held m f s ->
  exists m', held m' f (snd (deleteSecrets paths s)) /\ m' ⊆ m /\ (reliable -> m' !! SecretKeyEd25519Private = None).
Proof.
  intros Hs. unfold deleteSecrets. rewrite mbind_run.
  assert (Hs1 : held m f (snd (at_store (LoadPairedDevice lib_json_DevicesBack (p_PairedDevices paths)) s)))
    by (apply calm_at_box; auto with calm).
  destruct (at_store _ s) as [d s1]. cbn [fst snd] in *. rewrite mbind_run.
  assert (exists m1, held m1 f (snd (match d with
      | Ok (Some d) => ignore (at_store (DeleteSecret (SharedSecretKey (pd_DeviceID d))))
      | _ => mret tt
      end s1)) /\ m1 ⊆ m) as (m1 & Hs2 & Hsub).
  { destruct d as [[d|]|]; [|by exists m..].
    destruct (held_at_store_Delete (SharedSecretKey (pd_DeviceID d)) m f s1 Hs1) as (m1 & ? & ? & _). by exists m1. }
  set (s2 := snd (_ s1)) in *. clearbody s2. 
  destruct (held_at_store_Delete SecretKeyEd25519Private m1 f s2 Hs2) as (m2 & Hs3 & Hsub2 & Hok).
  exists m2. split; [exact Hs3|]. split; [by etransitivity|]. intros Hr. apply Hok.
  by apply (at_store_ok _ (fun r => is_ok r = true)), Hr.
Qed.

Lemma held_forgetSecrets m f (s : Desk) : held m f s ->
  let s' := snd (forgetSecrets env hmacSecret paths s) in
  exists m', held m' f s' /\ m' ⊆ m /\
    (reliable -> NoIdentityToUnregister ∉ co_lines (snd s') -> m' !! SecretKeyEd25519Private = None).
Proof.
  intros Hs. cbv zeta. unfold forgetSecrets. rewrite mbind_run.
  assert (Hs1 : held m f (snd (at_store (LoadIdentity lib_sha256 (p_KeysDir paths)) s)))
    by (apply calm_at_box; auto with calm).
  destruct (at_store _ s) as [[id|e] s1]; cbn [fst snd] in *.
  - rewrite mbind_run. pose proof (calm_unregister id m f s1 Hs1) as Hs2.
    destruct (held_deleteSecrets m f _ Hs2) as (m' & Hs3 & Hsub & Hgone). exists m'. split_and!; [done..|auto].
  - exists m. split_and!; [by apply calm_say|done|]. intros _ Hno. destruct Hno. destruct s1 as [b co]. cbn. set_solver.
Qed.

(** The files uninstalling removes. *)
Definition removed (q : Path) : Prop :=
  within (p_ConfigDir paths) (Dir q) = true \/ exists k, k ∈ keyFiles /\ q = Join (p_KeysDir paths) k.

Lemma removeFiles_spec (s : Desk) :
  let '(r, s') := removeFiles paths s in
  fst (st_store s') = fst (st_store s) /\ co_lines (snd s') = co_lines (snd s) /\
  agree removed (snd (st_store s)) (snd (st_store s')) /\
  (r = Ok tt -> forall q, removed q -> w_files (snd (st_store s')) !! q = None).
Proof.
  unfold removeFiles, mbind_err, wrap. rewrite at_files_run.
  pose proof (RemoveAll_spec (p_ConfigDir paths) (snd (st_store s))) as Hall.
  destruct (RemoveAll _ _) as [[[]|e] w1]; cbn [fst snd map_err]; destruct Hall as [Ha Hg].
  2: { split_and!; [done..| |done]. intros q Hq. apply Ha. intros Hw. apply Hq. by left. }
  unfold keysOutside. destruct (HasPrefix _ _) eqn:Hpre; cbn [negb].
  - apply prefix_within in Hpre. split_and!; [done..| |].
    + intros q Hq. apply Ha. intros Hw. apply Hq. by left.
    + intros _ q [Hw|(k & _ & ->)]; cbn; by apply Hg.
  - rewrite at_files_run. cbn [fst snd st_store stage_desk stage_box].
    pose proof (removeAll_spec (p_KeysDir paths) keyFiles w1) as Hk. unfold RemoveKeyFiles, mbind_err.
    destruct (removeAll _ _ w1) as [[[]|e] w2]; cbn [map_err fst snd]; destruct Hk as (Ha2 & Hn2 & Hg2).
    + rewrite mbind_run. unfold ignore. cbn [fst snd].
      assert (Hd : forall q, w_files (snd (RemoveDir (p_KeysDir paths) w2)) !! q = w_files w2 !! q).
      { intros q. apply (touches_RemoveDir (fun _ => False)). intros []. }
      split_and!; [done..| |].
      * intros q Hq. cbn. rewrite Hd, Ha2, Ha; [done|intros Hw; apply Hq; by left|intros (k & Hk & ->); apply Hq; right; eauto].
      * intros _ q Hq. cbn. rewrite Hd. destruct Hq as [Hw|(k & Hk & ->)]; [apply Hn2; by apply Hg|by apply Hg2].
    + split_and!; [done..| |done].
      intros q Hq. cbn. rewrite Ha2, Ha; [done|intros Hw; apply Hq; by left|intros (k & Hk & ->); apply Hq; right; eauto].
Qed.

Lemma confirmUninstall_run skip input (s : Desk) : exists l,
  confirmUninstall skip input s = (skip || agreed input, (fst s, mkConsole l (co_shell (snd s)))) /\
  (NoIdentityToUnregister ∉ co_lines (snd s) -> NoIdentityToUnregister ∉ l).
Proof.
  destruct s as [b [l sh]]. unfold confirmUninstall, agreed. destruct skip; [by exists l|]. rewrite mbind_run.
  destruct (Fscanln input) as [response|]; cbn [from_option]; [destruct (EqualsLower response "y")|];
    (eexists; split; [reflexivity|]); cbn; set_solver.
Qed.

End Uninstall.

(** *** The commands, run *)

#[local] Existing Instance PairDemo.lib.
#[local] Existing Instance linuxArgs.

Module InitDemo.
(** A host with the directories made, its configuration and its faults. *)
Definition fresh (config : option (list byte)) (faults : list Fault) : ((MemorySecretStore * World) * Procs) * Console :=
  let files := match config with Some data => {[ World.Join "cfg" "config.toml" := mkFile data mode0600 ]} | None => ∅ end in
  (((mkMemory ∅, set_faults faults (set_entropy (replicate 40 x00)
       (set_files files (set_dirs {["cfg"; "keys"]} world0)))),
    mkProcs ∅ [] [] [] []), mkConsole [] (mkShell [None; None] [])).

Definition newKey (seed : list byte) : list byte * list byte := (replicate 32 x08, replicate 64 x06).

Definition init (name : string) (input : string) (s : ((MemorySecretStore * World) * Procs) * Console) :=
  RunInit newKey (Some "host") (Some "/bin/pmux") None linuxProbe PairDemo.paths (Defaults <| c_Name := name |>) "/bin/tmux" input s.

Definition config (r : result InitError unit * (((MemorySecretStore * World) * Procs) * Console)) : string :=
  match w_files (snd (fst (fst (snd r)))) !! World.Join "cfg" "config.toml" with Some fl => string_of (f_data fl) | None => "" end.

(** A configuration without a name gets one in front; one with a name stays. *)
Example named_in_front : config (init "" "box" (fresh (Some (bytes_of "log_level = x")) [])) =
  "name = " +:+ doubleQuote +:+ "box" +:+ doubleQuote +:+ nl +:+ nl +:+ "log_level = x".
Proof. by vm_compute. Qed.

Example name_kept : config (init "mine" "" (fresh (Some (bytes_of "name = mine")) [])) = "name = mine".
Proof. by vm_compute. Qed.

(** A configuration that cannot be read is replaced. *)
Example unreadable_replaced :
  let r := init "mine" "" (fresh (Some (bytes_of "secret_backend = file")) (replicate 3 NoFault ++ [Fails 0])) in
  is_ok (fst r) = true /\ Contains (config r) "secret_backend = file" = false.
Proof. by vm_compute. Qed.
End InitDemo.


(** A file of the user's beside the key files. *)
Definition uninstallStart : ((MemorySecretStore * World) * Procs) * Console :=
  let '(((t, w), ps), _) := PairDemo.start [] in
  (((t, put_file (World.Join "home" "notes") (mkFile [x41] mode0600)
          (put_file (World.Join "cfg" "config.toml") (mkFile [] mode0600) w)), ps), mkConsole [] (mkShell [] [])).

Lemma uninstallStart_held : held PairDemo.paths "home" "notes" (fun _ => False)
  {[ SecretKeyEd25519Private := replicate 64 x06 ]} (Some (mkFile [x41] mode0600)) uninstallStart.
Proof.
  split; [done|by vm_compute|done|by intros []| |by constructor]. intros q Hq. split; [|by intros []]. intros ->.
  destruct Hq as [Hq|[k Hq]]; [|done]. vm_compute in Hq.
  repeat (apply elem_of_cons in Hq as [Hq|Hq]; [discriminate|]). by apply elem_of_nil in Hq.
Qed.


(** The status trusts the PID: a process that took over the agent's is shown
    as the agent. *)
Example status_trusts_a_reused_pid :
  let '(((t, w), ps), co) := uninstallStart in
  let s := (((t, put_file (World.Join "cfg" "agent.pid") (mkFile (bytes_of "77") mode0600) w),
             mkProcs {[ 77 := mkProc (Some "vim" ) true ]} [] [] [] []), co) in
  head (co_lines (snd (snd (RunStatus PairDemo.paths "" (Some (World.Join "cfg" "agent.pid")) (E := unit) None None s)))) =
    Some (AgentLine (Some 77)) /\
  fst (IsAgentProcess 77 (fst s)) = false.
Proof. by vm_compute. Qed.

(** ** The tail of the log *)

Lemma keepLast_spec n lines seen : (length seen <= n)%nat ->
  foldl (keepLast n) seen lines = drop (length (seen ++ lines) - n) (seen ++ lines).
Proof.
  revert seen. induction lines as [|l lines IH]; intros seen Hn.
  { cbn. rewrite app_nil_r. by replace (length seen - n)%nat with 0%nat by lia. }
  cbn [foldl]. unfold keepLast at 2. rewrite length_app. cbn [length].
  destruct (Nat.ltb_spec n (length seen + 1)) as [Hlt|Hge].
  - assert (length seen = n) by lia. destruct seen as [|x seen].
    + cbn in *. subst n. rewrite IH by (cbn; lia). cbn. by rewrite !Nat.sub_0_r.
    + cbn [app tail]. rewrite IH by (rewrite length_app; cbn in *; lia). rewrite <-app_assoc. cbn [app].
      change (length (x :: seen ++ l :: lines)) with (S (length (seen ++ l :: lines))).
      rewrite Nat.sub_succ_l by (rewrite length_app; cbn in *; lia). done.
  - rewrite IH by (rewrite length_app; cbn; lia). by rewrite <-app_assoc.
Qed.

(** [tailFile] yields the last [n] lines. *)
Lemma tailFile_last n lines : foldl (keepLast n) [] lines = drop (length lines - n) lines.
Proof. apply (keepLast_spec n lines []). cbn. lia. Qed.
