(* ===== verification/Main.v ===== *)
(** * cmd/pmux/main.go: the command line

    [pmux] as one run of the process: which command the arguments name, what
    each handler does with the modelled parts, and how the process ends - with
    an exit code, or by becoming tmux. *)

From S2P Require Import Prelude GoLib GoText World Update Updater SecretStore Identity Pairing Token Config Supervisor.
From S2P Require Import Conc Protocol Peer PeerManager Signaling PairSession PairFlow Agent Firewall Commands.
From Stdlib Require Import Ascii.
Open Scope Z_scope.

(** ** What the process finds

    The facts of the machine and the build. *)
Record Facts := mkFacts {
  fa_env : Environ;
  fa_executable : option string;               (** [os.Executable()] *)
  fa_resolved : option string;                 (** ... without links *)
  fa_hostname : option string;
  fa_pid : Z;
  fa_tmux : option string;                     (** [exec.LookPath("tmux")] *)
  fa_brew : option string;
  fa_GOOS : string; fa_GOARCH : string;
  fa_version : string; fa_hmacSecret : string; fa_installMethod : string;
  fa_probe : string -> M Shell Status          (** the platform's firewall manager *)
}.

(** What is answered while it runs. *)
Record Answers := mkAnswers {
  an_input : string;                           (** standard input *)
  an_exec : string -> list string -> bool;     (** [syscall.Exec] replaces the process *)
  an_dialed : Dialed;
  an_ctx : option nat; an_ticks : nat;         (** the wait of [pmux pair] *)
  an_sessions : string -> string -> result unit Z;  (** [ListSessions] of a socket and a binary *)
  an_ps : Z -> option string;
  an_cpuProfile : string -> bool;              (** the profile could be started *)
  an_sys : PeerManager.Sys; an_now : Z; an_signaling : SC -> RunResult
}.

(** Libraries of the update and of key generation. *)
Class MainLib := {
  lib_ed25519_NewKey : list byte -> list byte * list byte;
  lib_net_url_Parse : string -> option Updater.URL;
  lib_url_Resolve : Updater.URL -> string -> option Updater.URL;
  lib_parseRelease : list byte -> option ReleaseInfo;
  lib_parseState : list byte -> option State;
  lib_marshalState : State -> option (list byte);
  lib_untar : list byte -> option (list TarStep);
  lib_unzip : list byte -> option (list ZipEntry)
}.

(** ** How it ends, and what it prints *)

Inductive Stop := Exit (code : Z) | Becomes (bin : string) (argv : list string).

Inductive Complaint :=
| NoTmux
| NoPaths
| NoDirs (e : DirError)
| NoStore (e : NewStoreError)
| CannotExec (e : ExecError)
| CannotLoadConfig (e : LoadError)
| BadConfig (e : ConfigError)
| CannotProfile
| InitFailed (e : InitError)
| PairFailed (e : PairCmdError)
| UnpairFailed (e : UnpairError)
| UninstallFailed (e : UninstallError)
| StatusFailed (e : StatusError)
| AgentFailed (e : AgentError)
| AgentUsage
| UnknownAgentCommand (cmd : string)
| AgentFatal
| CheckFailed (e : CheckError)
| FetchFailed (e : CheckError)
| UpdateFailed (e : UpdateError).

Inductive Output :=
| Banner (current latest : string)
| ShowVersion (version : string)
| ShowHelp
| EffectiveConfig (text : string)
| Complain (c : Complaint)
| NotRunningLine
| CheckingForUpdates
| UpToDate (version : string)
| UpdateFound (current latest : string) (method : InstallMethod)
| FinishByRunning (command : string)
| UpdateComplete.

(** The commands the program takes for itself. *)
Inductive Command := CInit | CPair | CConfig | CStatus | CUnpair | CUninstall | CUpdate | CAgent | CVersion | CHelp.

#[export] Instance Command_eq_dec : EqDecision Command.
Proof. solve_decision. Defined.

(** The switch of [main]. *)
Definition interceptedCommand (arg : string) : option Command :=
  if decide (arg = "init") then Some CInit
  else if decide (arg = "pair") then Some CPair
  else if decide (arg = "config") then Some CConfig
  else if decide (arg = "status") then Some CStatus
  else if decide (arg = "unpair") then Some CUnpair
  else if decide (arg = "uninstall") then Some CUninstall
  else if decide (arg = "update") then Some CUpdate
  else if decide (arg = "agent") then Some CAgent
  else if decide (arg = "--version" \/ arg = "-v") then Some CVersion
  else if decide (arg = "--help" \/ arg = "-h") then Some CHelp
  else None.

Definition isPocketmuxCommand (cmd : string) : bool :=
  bool_decide (cmd ∈ ["init"; "pair"; "config"; "status"; "unpair"; "uninstall"; "update"; "agent";
                      "--version"; "-v"; "--help"; "-h"]).

(** The flags of uninstall and of agent run. *)
Definition uninstallFlags (args : list string) : bool * bool :=
  foldl (fun '(keepConfig, skipConfirm) arg =>
    if decide (arg = "--keep-config") then (true, skipConfirm)
    else if decide (arg = "--yes" \/ arg = "-y") then (keepConfig, true)
    else (keepConfig, skipConfirm)) (false, false) args.

Fixpoint profileFlags (args : list string) (cpuProfile memProfile : string) : string * string :=
  match args with
  | [] => (cpuProfile, memProfile)
  | arg :: rest =>
      if decide (arg = "--cpuprofile") then
        match rest with v :: rest => profileFlags rest v memProfile | [] => (cpuProfile, memProfile) end
      else if decide (arg = "--memprofile") then
        match rest with v :: rest => profileFlags rest cpuProfile v | [] => (cpuProfile, memProfile) end
      else profileFlags rest cpuProfile memProfile
  end.

Section Main.
Context `{PairLib} `{MainLib} {T : Type} `{SecretStore T} `{StoreOpener T} `{ProcArgs}.
Variable f : Facts.
Variable a : Answers.

Abbreviation Box := ((T * World) * Procs)%type.

Record Machine := mkMachine {
  ma_box : Box;
  ma_console : Console;
  ma_dialog : list Shown;
  ma_launched : list Launch;
  ma_update : Env;          (** its world is the one of [ma_box] *)
  ma_out : list Output
}.
#[local] Instance Machine_eta : Eta Machine := fun m =>
  mkMachine (ma_box m) (ma_console m) (ma_dialog m) (ma_launched m) (ma_update m) (ma_out m).

Definition print (o : Output) : M Machine unit := mmod (fun m => m <| ma_out ::= fun l => (l ++ [o])%list |>).
Definition in_box {A} (c : M Box A) : M Machine A := fun m =>
  let '(r, b) := c (ma_box m) in (r, m <| ma_box := b |>).
Definition in_store {A} (c : M (T * World) A) : M Machine A := in_box (on_store c).
Definition in_files {A} (c : M World A) : M Machine A := in_box (on_files c).
Definition in_desk {A} (c : M (Box * Console) A) : M Machine A := fun m =>
  let '(r, (b, co)) := c (ma_box m, ma_console m) in (r, m <| ma_box := b |> <| ma_console := co |>).
Definition in_term {A} (c : M (Box * list Shown) A) : M Machine A := fun m =>
  let '(r, (b, l)) := c (ma_box m, ma_dialog m) in (r, m <| ma_box := b |> <| ma_dialog := l |>).
Definition in_boot {A} (c : M (Box * list Launch) A) : M Machine A := fun m =>
  let '(r, (b, l)) := c (ma_box m, ma_launched m) in (r, m <| ma_box := b |> <| ma_launched := l |>).
Definition in_update {A} (c : M Env A) : M Machine A := fun m =>
  let '((t, w), ps) := ma_box m in
  let env := ma_update m in
  let '(r, e) := c (env <| e_world := w |>) in
  (r, m <| ma_box := ((t, e_world e), ps) |> <| ma_update := e |>).

(** Prints what is wrong and exits with 1. *)
Definition die {A} (c : Complaint) : M Machine (result Stop A) := _ ← print (Complain c); fail (Exit 1).

Definition orDie {E A} (c : E -> Complaint) (m : M Machine (result E A)) : M Machine (result Stop A) :=
  r ← m; match r with Ok x => ok x | Err e => die (c e) end.

(** ** Configuration, paths, store *)

Definition loadEffectiveConfig : M Machine Config :=
  match DefaultPaths (fa_env f) with
  | None => mret Defaults
  | Some paths => in_files (agentConfig lib_toml_Unmarshal (fa_env f) (p_ConfigFile paths))
  end.

Definition resolvePaths : M Machine (option Paths) :=
  match DefaultPaths (fa_env f) with
  | None => mret None
  | Some paths => cfg ← loadEffectiveConfig; mret (WithKeyPath (fa_env f) paths (ic_KeyPath (c_Identity cfg)))
  end.

Definition needPaths : M Machine (result Stop Paths) :=
  p ← resolvePaths; match p with Some p => ok p | None => die NoPaths end.

(** [cfg, _ := config.LoadConfig(...)]. *)
Definition looseConfig (paths : Paths) : M Machine Config :=
  r ← in_files (LoadConfig lib_toml_Unmarshal (fa_env f) (p_ConfigFile paths));
  mret (match r with Ok cfg => cfg | Err _ => zeroConfig end).

Definition initSecretStore (paths : Paths) (cfg : Config) : M Machine (result NewStoreError unit) :=
  in_store (openStore (p_KeysDir paths) (ic_SecretBackend (c_Identity cfg))).

(** ** tmux *)

Definition ensureAgent (cfg : Config) : M Machine unit :=
  p ← resolvePaths;
  match p with
  | None => mret tt
  | Some paths =>
      r ← initSecretStore paths cfg;
      match r with
      | Err e => print (Complain (NoStore e))
      | Ok _ =>
          r ← in_box (EnsureRunning (fa_executable f) paths);
          match r with
          | Ok _ | Err (IdentityCheck ErrNoIdentity) => mret tt
          | Err e => print (Complain (AgentFailed e))
          end
      end
  end.

Definition passThrough (cfg : Config) (args : list string) : M Machine (result Stop unit) :=
  _ ← ensureAgent cfg;
  match ExecTmux (fa_tmux f) (tc_SocketName (c_Tmux cfg)) (tc_TmuxPath (c_Tmux cfg)) args with
  | Err e => die (CannotExec e)
  | Ok (bin, argv) => if an_exec a bin argv then fail (Becomes bin argv) else die (CannotExec ExecFailed)
  end.

(** ** The commands *)

Definition handleInit : M Machine (result Stop unit) :=
  match fa_tmux f with
  | None => die NoTmux
  | Some tmuxPath =>
      paths ←! needPaths;
      _ ←! orDie NoDirs (in_files (EnsureDirs paths));
      cfg ← looseConfig paths;
      _ ←! orDie NoStore (initSecretStore paths cfg);
      orDie InitFailed (in_desk (RunInit lib_ed25519_NewKey (fa_hostname f) (fa_executable f) (fa_resolved f) (fa_probe f) paths
        cfg tmuxPath (an_input a)))
  end.

Definition handleConfig : M Machine (result Stop unit) :=
  paths ←! needPaths;
  r ←! orDie CannotLoadConfig (in_files (LoadConfigWithSources lib_toml_Unmarshal (fa_env f) (p_ConfigFile paths)));
  let '(cfg, sources) := r in
  _ ← print (EffectiveConfig (FormatEffective lib_IsPrint cfg sources));
  match Validate cfg with
  | Err e => _ ← print (Complain (BadConfig e)); ok tt
  | Ok _ => ok tt
  end.

Definition handlePair : M Machine (result Stop unit) :=
  paths ←! needPaths;
  cfg ← looseConfig paths;
  _ ←! orDie NoStore (initSecretStore paths cfg);
  r ← in_term (RunPair (fa_executable f) (fa_hostname f) (fa_hmacSecret f) paths cfg (an_input a) (an_dialed a)
        (an_ctx a) (an_ticks a));
  match fst r with Ok _ => ok tt | Err e => die (PairFailed e) end.

Definition handleUnpair : M Machine (result Stop unit) :=
  paths ←! needPaths;
  cfg ← looseConfig paths;
  _ ←! orDie NoStore (initSecretStore paths cfg);
  orDie UnpairFailed (in_term (RunUnpair (fa_env f) (fa_hmacSecret f) paths (an_input a))).

Definition handleUninstall (args : list string) : M Machine (result Stop unit) :=
  let '(keepConfig, skipConfirm) := uninstallFlags args in
  paths ←! needPaths;
  _ ← ignore (in_files (EnsureDirs paths));
  cfg ← looseConfig paths;
  _ ←! orDie NoStore (initSecretStore paths cfg);
  orDie UninstallFailed (in_desk (RunUninstall (fa_env f) (fa_hmacSecret f) paths keepConfig skipConfirm (an_input a))).

Definition handleStatus : M Machine (result Stop unit) :=
  paths ←! needPaths;
  cfg ← looseConfig paths;
  _ ←! orDie NoStore (initSecretStore paths cfg);
  let tmuxBin := if decide (tc_TmuxPath (c_Tmux cfg) = "") then "tmux" else tc_TmuxPath (c_Tmux cfg) in
  fwStatus ← match ExecutablePath (fa_executable f) (fa_resolved f) with
             | Some exePath => st ← in_desk (at_shell (fa_probe f exePath)); mret (Some st)
             | None => mret None
             end;
  orDie StatusFailed (in_desk (RunStatus paths (fa_version f) (Some (PIDFilePath paths))
    (Some (an_sessions a (tc_SocketName (c_Tmux cfg)) tmuxBin)) fwStatus)).

(** ** pmux agent *)

Definition runAgent (cpuProfile : string) : M Machine (result Stop unit) :=
  p ← resolvePaths;
  match p with
  | None => fail (Exit 1)
  | Some paths =>
      if negb (bool_decide (cpuProfile = "")) && negb (an_cpuProfile a cpuProfile) then die CannotProfile else
      r ← in_boot (Run (fa_pid f) (fa_hostname f) (fa_tmux f) (fa_env f) (fa_hmacSecret f) (fa_version f) (fa_installMethod f) paths
            (an_sys a) (an_now a) (an_signaling a));
      match r with
      | RunOK => ok tt
      | StartFailed (Fatal _) | SignalingFailed =>
          _ ← print (Complain AgentFatal);
          _ ← in_box (RemovePIDFile (PIDFilePath paths));
          fail (Exit 0)
      | StartFailed _ => fail (Exit 1)
      | Crashed => fail (Exit 2)
      end
  end.

Definition handleAgentStart : M Machine (result Stop unit) :=
  paths ←! needPaths;
  cfg ← loadEffectiveConfig;
  _ ←! orDie NoStore (initSecretStore paths cfg);
  orDie AgentFailed (in_box (RunAgentStart (fa_executable f) paths)).

Definition handleAgentStop : M Machine (result Stop unit) :=
  paths ←! needPaths;
  r ← in_box (RunAgentStop paths);
  match r with
  | Ok _ => ok tt
  | Err ErrAgentNotRunning => _ ← print NotRunningLine; fail (Exit 1)
  | Err e => die (AgentFailed e)
  end.

Definition handleAgentRestart : M Machine (result Stop unit) :=
  paths ←! needPaths;
  cfg ← loadEffectiveConfig;
  _ ←! orDie NoStore (initSecretStore paths cfg);
  orDie AgentFailed (in_box (RunAgentRestart (fa_executable f) paths)).

Definition handleAgentStatus : M Machine (result Stop unit) :=
  paths ←! needPaths;
  r ← in_desk (RunAgentDetail paths (fa_version f) (an_ps a));
  match r with
  | Ok _ => ok tt
  | Err ErrAgentNotRunning => fail (Exit 1)
  | Err e => die (AgentFailed e)
  end.

Definition handleAgent (args : list string) : M Machine (result Stop unit) :=
  match args with
  | [] => die AgentUsage
  | cmd :: rest =>
      if decide (cmd = "run") then runAgent (fst (profileFlags rest "" ""))
      else if decide (cmd = "start") then handleAgentStart
      else if decide (cmd = "stop") then handleAgentStop
      else if decide (cmd = "restart") then handleAgentRestart
      else if decide (cmd = "status") then handleAgentStatus
      else die (UnknownAgentCommand cmd)
  end.

(** ** pmux update *)

Definition handleUpdate : M Machine (result Stop unit) :=
  paths ←! needPaths;
  let stateFile := StateFilePath (p_ConfigDir paths) in
  _ ← print CheckingForUpdates;
  let checker := NewChecker (fa_version f) stateFile in
  method ← in_update (Detect (fa_installMethod f) (fa_executable f) (fa_resolved f));
  state ←! orDie CheckFailed (in_update (Check lib_net_url_Parse lib_url_Resolve lib_parseRelease lib_marshalState checker method));
  if negb (st_UpdateAvailable state) then _ ← print (UpToDate (fa_version f)); ok tt else
  _ ← print (UpdateFound (st_CurrentVersion state) (st_LatestVersion state) method);
  _ ← (if decide (method = MethodGitHub \/ method = MethodHomebrew)
       then ignore (in_box (RunAgentStop paths)) else mret tt);
  release ←! orDie FetchFailed (in_update (FetchRelease lib_net_url_Parse lib_url_Resolve lib_parseRelease checker));
  r ← in_update (NewUpdater lib_net_url_Parse lib_url_Resolve lib_sha256 lib_untar lib_unzip (fa_GOOS f) (fa_GOARCH f)
        (fa_brew f) method release);
  match r with
  | Err (ErrElevationRequired command) => _ ← print (FinishByRunning command); ok tt
  | Err e => die (UpdateFailed e)
  | Ok _ =>
      _ ← ignore (in_files (SaveState lib_marshalState stateFile
            (mkState 0 (st_LatestVersion state) (st_LatestVersion state) false "" (st_InstallMethod state))));
      _ ← print UpdateComplete;
      ok tt
  end.

(** ** main *)

Definition showBanner : M Machine unit :=
  p ← resolvePaths;
  match p with
  | None => mret tt
  | Some paths =>
      b ← in_files (PrintBannerIfAvailable lib_parseState (StateFilePath (p_ConfigDir paths)) (fa_version f));
      match b with Some (current, latest) => print (Banner current latest) | None => mret tt end
  end.

Definition runCommandNamed (c : Command) (args : list string) : M Machine (result Stop unit) :=
  match c with
  | CInit => handleInit
  | CPair => handlePair
  | CConfig => handleConfig
  | CStatus => handleStatus
  | CUnpair => handleUnpair
  | CUninstall => handleUninstall args
  | CUpdate => handleUpdate
  | CAgent => handleAgent args
  | CVersion => _ ← print (ShowVersion (fa_version f)); ok tt
  | CHelp => _ ← print ShowHelp; ok tt
  end.

Definition main (args : list string) : M Machine (result Stop unit) :=
  cfg ← loadEffectiveConfig;
  match args with
  | [] => passThrough cfg []
  | cmd :: rest =>
      _ ← (if isPocketmuxCommand cmd then showBanner else mret tt);
      match interceptedCommand cmd with
      | Some c => runCommandNamed c rest
      | None => passThrough cfg args
      end
  end.
End Main.
