(* ===== verification/MainProps.v ===== *)
(** * What the command line does with its arguments

    Every argument vector either names one of the program's own commands, or is
    tmux's: then tmux gets it unchanged, whether or not an agent runs. *)

From S2P Require Import Prelude GoLib GoText World Update Updater SecretStore Identity Pairing Token Config Supervisor.
From S2P Require Import Conc Protocol Peer PeerManager Signaling PairSession PairFlow PairFlowProps Agent Firewall.
From S2P Require Import Commands CommandsProps Main.
From Stdlib Require Import Ascii.
Open Scope Z_scope.

(** ** The switch *)

(** The list behind the banner is the switch of [main]. *)
Lemma isPocketmuxCommand_exact cmd : isPocketmuxCommand cmd = true <-> interceptedCommand cmd <> None.
Proof.
  unfold isPocketmuxCommand, interceptedCommand. rewrite bool_decide_eq_true. repeat setoid_rewrite elem_of_cons.
  pose proof (elem_of_nil (A := string)). repeat case_decide; naive_solver.
Qed.

Lemma uninstallFlags_spec args :
  uninstallFlags args = (existsb (fun x => bool_decide (x = "--keep-config")) args,
                         existsb (fun x => bool_decide (x = "--yes" \/ x = "-y")) args).
Proof.
  unfold uninstallFlags. set (step := fun '(keepConfig, skipConfirm) arg => _).
  enough (forall k y, foldl step (k, y) args = (k || existsb (fun x => bool_decide (x = "--keep-config")) args,
                         y || existsb (fun x => bool_decide (x = "--yes" \/ x = "-y")) args)) as -> by done.
  unfold step. clear step. induction args as [|arg args IH]; intros k y.
  { by rewrite !orb_false_r. }
  cbn [foldl existsb]. destruct (decide (arg = "--keep-config")) as [->|].
  - rewrite IH. cbn. by rewrite orb_true_r.
  - rewrite (bool_decide_eq_false_2 (arg = "--keep-config")) by done. destruct (decide (arg = "--yes" \/ arg = "-y")).
    + rewrite IH, bool_decide_eq_true_2 by done. cbn. by rewrite orb_true_r.
    + rewrite IH, bool_decide_eq_false_2 by done. done.
Qed.

(** ** Commands that end by themselves *)

Create HintDb stays.

Section Ends.
Context `{PairLib} `{MainLib} {T : Type} `{SecretStore T} `{StoreOpener T} `{ProcArgs}.
Variable f : Facts.
Variable a : Answers.

Abbreviation Machine := (Machine (T := T)).

(** The process never becomes another. *)
Definition stays {A} (c : M Machine (result Stop A)) : Prop :=
  forall m bin argv, fst (c m) <> Err (Becomes bin argv).

Lemma stays_bind {A B} (c : M Machine A) (k : A -> M Machine (result Stop B)) : (forall x, stays (k x)) -> stays (c ≫= k).
Proof. intros Hk m bin argv. rewrite mbind_run. apply Hk. Qed.

Lemma stays_bind_err {A B} (c : M Machine (result Stop A)) (k : A -> M Machine (result Stop B)) :
  stays c -> (forall x, stays (k x)) -> stays (mbind_err c k).
Proof.
  intros Hc Hk m bin argv. unfold mbind_err. specialize (Hc m bin argv). destruct (c m) as [[x|e] m']; [apply Hk|].
  cbn in *. congruence.
Qed.

Lemma stays_ok {A} (x : A) : stays (ok x).
Proof. by intros m bin argv. Qed.

Lemma stays_exit {A} code : stays (fail (Exit code) : M Machine (result Stop A)).
Proof. by intros m bin argv. Qed.

Lemma stays_die {A} c : stays (die c : M Machine (result Stop A)).
Proof. by intros m bin argv. Qed.

#[local] Hint Resolve stays_bind stays_bind_err stays_ok stays_exit stays_die : stays.
#[local] Hint Extern 4 (stays (match ?x with _ => _ end)) => destruct x : stays.

Lemma stays_orDie {E A} c (m : M Machine (result E A)) : stays (orDie c m).
Proof. unfold orDie. auto with stays. Qed.

Lemma stays_needPaths : stays (needPaths (T := T) f).
Proof. unfold needPaths. auto with stays. Qed.
#[local] Hint Resolve stays_orDie stays_needPaths : stays.

Lemma stays_handleAgent args : stays (handleAgent f a args).
Proof.
  unfold handleAgent, runAgent, handleAgentStart, handleAgentStop, handleAgentRestart, handleAgentStatus. auto 20 with stays.
Qed.

Lemma stays_command c args : stays (runCommandNamed f a c args).
Proof.
  pose proof (stays_handleAgent args). unfold runCommandNamed, handleInit, handlePair, handleConfig, handleStatus, handleUnpair,
    handleUninstall, handleUpdate. auto 20 with stays.
Qed.

(** The program's own command, if the arguments name one. *)
Definition ownCommand (args : list string) : bool := match args with cmd :: _ => isPocketmuxCommand cmd | [] => false end.

(** What running tmux with these arguments comes to, under a configuration. *)
Definition tmuxWith (cfg : Config) (args : list string) : Stop :=
  let argv := "tmux" :: "-L" :: tc_SocketName (c_Tmux cfg) :: args in
  match (if decide (tc_TmuxPath (c_Tmux cfg) = "") then fa_tmux f else Some (tc_TmuxPath (c_Tmux cfg))) with
  | Some bin => if an_exec a bin argv then Becomes bin argv else Exit 1
  | None => Exit 1
  end.

Lemma passThrough_run cfg args (m : Machine) : fst (passThrough f a cfg args m) = Err (tmuxWith cfg args).
Proof.
  unfold passThrough, ExecTmux, tmuxWith. rewrite mbind_run. destruct (decide _); cbn.
  - destruct (fa_tmux f) as [bin|]; cbn; [|done]. by destruct (an_exec a bin _).
  - by destruct (an_exec a _ _).
Qed.

(** C32: what is not pmux's is tmux's. Arguments that do not name one of the
    program's own commands - no arguments, options, tmux's commands, anything -
    reach tmux unchanged and in order behind the configured socket, with the
    configured binary or the one in PATH, whatever becomes of the agent on the
    way: no failure of the paths, the secret store or the agent keeps tmux from
    running. One of the program's own commands never runs
    tmux in its place. *)
Theorem tmux_passthrough args (m : Machine) :
  if ownCommand args then forall bin argv, fst (main f a args m) <> Err (Becomes bin argv)
  else fst (main f a args m) = Err (tmuxWith (fst (loadEffectiveConfig f m)) args).
Proof.
  unfold main. destruct args as [|cmd rest]; cbn [ownCommand]; [rewrite mbind_run; apply passThrough_run|].
  pose proof (isPocketmuxCommand_exact cmd) as Hx. destruct (isPocketmuxCommand cmd).
  - intros bin argv. rewrite !mbind_run. destruct (interceptedCommand cmd); [apply stays_command|naive_solver].
  - rewrite !mbind_run. destruct (interceptedCommand cmd) eqn:Hi; [|apply passThrough_run].
    assert (false = true) by (by apply Hx). done.
Qed.
End Ends.

(** One tmux server: under the same configuration, what the agent's client starts
    for a tmux command is the command line that the terminal's pass-through
    becomes for it - the same program and socket, the arguments untouched. *)
Lemma one_tmux_server found cfg args bin argv : tc_SocketName (c_Tmux cfg) <> "" ->
  ExecTmux found (tc_SocketName (c_Tmux cfg)) (tc_TmuxPath (c_Tmux cfg)) args = Ok (bin, argv) ->
  commandLine (configuredClient found cfg) args = bin :: tail argv.
Proof.
  intros Hs. unfold ExecTmux, commandLine, configuredClient, NewClient.
  rewrite (decide_False (P := tc_SocketName (c_Tmux cfg) = "")) by done. cbn [tx_Socket tx_TmuxBin].
  case_decide; [destruct found|]; cbn; intros [=]; by subst.
Qed.

(** ** The program, run *)

Module MainDemo.
#[local] Existing Instance PairDemo.lib.
#[local] Existing Instance linuxArgs.
#[local] Instance lib : MainLib := {|
  lib_ed25519_NewKey _ := (replicate 32 x08, replicate 64 x06);
  lib_net_url_Parse _ := None; lib_url_Resolve _ _ := None; lib_parseRelease _ := None; lib_parseState _ := None;
  lib_marshalState _ := None; lib_untar _ := None; lib_unzip _ := None
|}.

Definition facts : Facts :=
  mkFacts {[ "HOME" := "/home/u" ]} (Some "/bin/pmux") None (Some "host") 7 (Some "/bin/tmux") None "linux" "amd64" "1.2.0" "hmac" ""
    linuxProbe.

Definition answers : Answers :=
  mkAnswers "" (fun _ _ => true) (DialFailed None) None 0 (fun _ _ => Ok 0) (fun _ => None) (fun _ => true)
    (newManager Defaults (mkSys 0 false false true true true "" ∅ ∅ ∅ ∅ 0 0 false false [] [] 0 ∅ ∅ ∅ 0 [] [] [] [] [] [] [] [] []))
    0 (fun _ => CtxErr).

Definition blank : Machine (T := MemorySecretStore) :=
  mkMachine (((mkMemory ∅, set_entropy (replicate 40 x00) world0), mkProcs ∅ [] [Some 4242] [] []))
    (mkConsole [] (mkShell [] [])) [] [] (mkEnv world0 [] [] [] [] [] []) [].

(** The command lines one after another: how each ends, and the processes
    started in all. *)
Definition session (lines : list (list string)) : list (result Stop unit) * list Syscall :=
  let '(ends, m) := foldl (fun '(ends, m) args => let '(r, m') := main facts answers args m in ((ends ++ [r])%list, m'))
    ([], blank) lines in
  (ends, ps_trace (snd (ma_box m))).
End MainDemo.

(** A new host: tmux runs at once; after init the next command starts the
    agent, and the one after that finds it. *)
Example first_commands :
  MainDemo.session [["ls"]; ["init"]; ["new"; "-s"; "work"]; []; ["status"]; ["agent"; "bogus"]] =
  ([Err (Becomes "/bin/tmux" ["tmux"; "-L"; "pmux"; "ls"]); Ok tt;
    Err (Becomes "/bin/tmux" ["tmux"; "-L"; "pmux"; "new"; "-s"; "work"]);
    Err (Becomes "/bin/tmux" ["tmux"; "-L"; "pmux"]); Ok tt; Err (Exit 1)],
   [Fork (Some 4242); Probe 4242 true; ReadArgs 4242 (Some (showArgs (ProcArgs := linuxArgs) ["/bin/pmux"; "agent"; "run"]));
    Kill 4242 SIGUSR1 true; Probe 4242 true]).
Proof. by vm_compute. Qed.
