(* ===== verification/TmuxText.v ===== *)
(** * internal/tmux: what is written to and read from the tmux CLI

    The pure part of tmux.go and pty.go: the domain types, the check of target
    IDs, the argument vectors, the parsers of tmux's replies, and the shell
    quoting of the pipe command. *)

From S2P Require Import Prelude GoLib Protocol.
From Stdlib Require Import Ascii.
Open Scope Z_scope.

(** ** Domain types *)

Module Tm.
Record PaneSize := mkSize { Cols : Z; Rows : Z }.
Record Pane := mkPane {
  p_ID : string; p_Index : Z; p_Active : bool; p_Size : PaneSize;
  p_Title : string; p_CurrentCommand : string
}.
Record Window := mkWindow {
  w_ID : string; w_Name : string; w_Index : Z; w_Active : bool; w_Panes : list Pane
}.
Record Session := mkSession {
  s_ID : string; s_Name : string; s_CreatedAt : Z; s_LastActivityAt : Z;
  s_Attached : bool; s_Windows : list Window
}.
End Tm.
Import Tm.

(** ** Targets *)

Definition is_upper (c : ascii) : bool :=
  let n := N_of_ascii c in (N.leb 65 n && N.leb n 90)%N.
Definition is_lower (c : ascii) : bool :=
  let n := N_of_ascii c in (N.leb 97 n && N.leb n 122)%N.

(** The class [[a-zA-Z0-9_.$@:%\-]]. *)
Definition target_char (c : ascii) : bool :=
  is_lower c || is_upper c || is_digit c || mem_char c "_.$@:%-".

(** [ValidTmuxTarget.MatchString]: one or more characters of the class. *)
Definition ValidTmuxTarget (s : string) : bool :=
  negb (bool_decide (s = "")) && sforall target_char s.

(** ** Replies *)

Definition parseSession (line : string) : option Session :=
  match SplitN line "|" 5 with
  | [id; name; created; activity; attached] =>
      Some (mkSession id name (fst (ParseInt created)) (fst (ParseInt activity))
              (bool_decide (attached = "1")) [])
  | _ => None
  end.

Definition parseWindow (line : string) : option Window :=
  match SplitN line "|" 4 with
  | [id; name; index; active] =>
      Some (mkWindow id name (fst (Atoi index)) (bool_decide (active = "1")) [])
  | _ => None
  end.

Definition parsePane (line : string) : option Pane :=
  match SplitN line "|" 7 with
  | [id; index; active; cols; rows; title; command] =>
      Some (mkPane id (fst (Atoi index)) (bool_decide (active = "1"))
              (mkSize (fst (Atoi cols)) (fst (Atoi rows))) title command)
  | _ => None
  end.

(** The loop over the lines of a reply; a line with too few fields is
    skipped. *)
Definition parseLines {A} (parse : string -> option A) (out : string) : list A :=
  if bool_decide (out = "") then [] else omap parse (Split out (ascii_of_nat 10)).

Record PaneCursorState := mkCursor {
  CursorX : Z; CursorY : Z; AlternateOn : bool; CursorVisible : bool
}.

Definition parseCursor (out : string) : PaneCursorState :=
  let parts := SplitN (TrimSpace out) ":" 4 in
  let field i := default "" (parts !! i) in
  let n := length parts in
  mkCursor
    (if (2 <=? n)%nat then fst (Atoi (field 0%nat)) else 0)
    (if (2 <=? n)%nat then fst (Atoi (field 1%nat)) else 0)
    (if (3 <=? n)%nat then bool_decide (field 2%nat = "1") else false)
    (if (4 <=? n)%nat && negb (bool_decide (field 3%nat = ""))
     then negb (bool_decide (field 3%nat = "0")) else true).

(** ** Shell quoting *)

Definition quote : ascii := "'".

Definition shellQuote (s : string) : string :=
  "'" +:+ ReplaceByte s quote "'\''" +:+ "'".

Definition dquote : string := String (ascii_of_nat 34) "".

(** The pipe-pane command for a FIFO. *)
Definition pipeCommand (fifoPath : string) : string :=
  "exec sh -c 'cat > " +:+ dquote +:+ "$0" +:+ dquote +:+ "' " +:+ shellQuote fifoPath.

(** ** Conversion to wire types (handler.go) *)

Definition toProtocolPane (p : Pane) : TmuxPane :=
  mkTmuxPane (p_ID p) (p_Index p) (p_Active p)
    (mkPaneSize (Cols (p_Size p)) (Rows (p_Size p))) (p_Title p) (p_CurrentCommand p).
Definition toProtocolPanes (panes : list Pane) : list TmuxPane := map toProtocolPane panes.
Definition toProtocolWindows (windows : list Window) : list TmuxWindow :=
  map (fun w => mkTmuxWindow (w_ID w) (w_Name w) (w_Index w) (w_Active w)
                  (toProtocolPanes (w_Panes w))) windows.
Definition toProtocolSessions (sessions : list Session) : list TmuxSession :=
  map (fun s => mkTmuxSession (s_ID s) (s_Name s) (s_CreatedAt s)
                  (toProtocolWindows (s_Windows s)) (s_LastActivityAt s) (s_Attached s)) sessions.
