(* ===== verification/TmuxReplies.v ===== *)
(** * internal/tmux: reading back what tmux lists

    What the parsers of [TmuxText] make of the lines tmux prints for the
    formats the client asks for, and the names for which it is not what tmux
    meant. *)

From S2P Require Import Prelude GoLib GoText TmuxText.
From Stdlib Require Import Ascii.
Open Scope Z_scope.
Import Tm.

Definition bar : ascii := "|".
Definition lineFeed : ascii := ascii_of_nat 10.

(** Text that stays in its field and on its line. *)
Definition plain (s : string) : Prop := mem_char bar s = false /\ mem_char lineFeed s = false.

Definition flag (b : bool) : string := if b then "1" else "0".

(** Fields separated by bars. *)
Definition row (fs : list string) : string := GoLib.Join fs "|".

(** What tmux prints for one session, window and pane under [sessionFormat],
    [windowFormat] and [paneFormat]. *)
Definition sessionRow (s : Session) : string :=
  row [s_ID s; s_Name s; Itoa (s_CreatedAt s); Itoa (s_LastActivityAt s); flag (s_Attached s)].
Definition windowRow (w : Window) : string :=
  row [w_ID w; w_Name w; Itoa (w_Index w); flag (w_Active w)].
Definition paneRow (p : Pane) : string :=
  row [p_ID p; Itoa (p_Index p); flag (p_Active p); Itoa (Cols (p_Size p)); Itoa (Rows (p_Size p));
       p_Title p; p_CurrentCommand p].

Record session_ok (s : Session) : Prop := {
  so_ID : plain (s_ID s); so_Name : plain (s_Name s);
  so_Created : int63 (s_CreatedAt s); so_Activity : int63 (s_LastActivityAt s);
  so_Windows : s_Windows s = []
}.
Record window_ok (w : Window) : Prop := {
  wo_ID : plain (w_ID w); wo_Name : plain (w_Name w); wo_Index : int63 (w_Index w); wo_Panes : w_Panes w = []
}.
(** The command is the last field: it may hold bars. *)
Record pane_ok (p : Pane) : Prop := {
  po_ID : plain (p_ID p); po_Index : int63 (p_Index p);
  po_Cols : int63 (Cols (p_Size p)); po_Rows : int63 (Rows (p_Size p));
  po_Title : plain (p_Title p); po_Command : mem_char lineFeed (p_CurrentCommand p) = false
}.

(** ** Fields *)

Lemma cut_at_field sep a s : mem_char sep a = false -> cut_at sep (a +:+ String sep s) = Some (a, s).
Proof.
  induction a as [|c a IH]; cbn [mem_char].
  - intros _. change ("" +:+ String sep s) with (String sep s). cbn [cut_at]. by rewrite Ascii.eqb_refl.
  - intros [Hc Ha]%orb_false_iff. change (String c a +:+ String sep s) with (String c (a +:+ String sep s)).
    cbn [cut_at]. rewrite Ascii.eqb_sym, Hc || rewrite Hc. by rewrite IH.
Qed.

(** A row whose fields, the last apart, hold no bar splits into them. *)
Lemma SplitN_row fs f : Forall (fun a => mem_char bar a = false) fs ->
  SplitN (row (fs ++ [f])) bar (S (length fs)) = (fs ++ [f])%list.
Proof.
  induction 1 as [|a fs Ha _ IH]; [done|]. cbn [length].
  assert (row ((a :: fs) ++ [f]) = a +:+ String bar (row (fs ++ [f]))) as ->
    by (destruct fs; by cbn).
  change (SplitN (a +:+ String bar (row (fs ++ [f]))) bar (S (S (length fs)))) with
    (match cut_at bar (a +:+ String bar (row (fs ++ [f]))) with
     | Some (x, y) => x :: SplitN y bar (S (length fs))
     | None => [a +:+ String bar (row (fs ++ [f]))]
     end).
  rewrite cut_at_field by done. by rewrite IH.
Qed.

Lemma Itoa_bar n : 0 <= n -> mem_char bar (Itoa n) = false.
Proof. intros H. by apply Itoa_digits. Qed.

Lemma flag_bar b : mem_char bar (flag b) = false.
Proof. by destruct b. Qed.

Lemma flag_is_1 b : bool_decide (flag b = "1") = b.
Proof. by destruct b. Qed.

Lemma SplitN_fields fs f l n : l = (fs ++ [f])%list -> n = S (length fs) ->
  Forall (fun a => mem_char bar a = false) fs -> SplitN (row l) "|" n = l.
Proof. intros -> -> H. by apply SplitN_row. Qed.

(** Splits the row, whose last field is [f] and the others [fs], and reads
    the numbers back. *)
Ltac read_row fs f :=
  rewrite (SplitN_fields fs f) by
    first [reflexivity | repeat constructor; first [apply flag_bar | by apply Itoa_bar; lia | done]];
  cbv match beta; rewrite ?Atoi_Itoa, ?ParseInt_Itoa, ?flag_is_1 by done; cbn [fst].

Lemma parseSession_row s : session_ok s -> parseSession (sessionRow s) = Some s.
Proof.
  intros [[Hi _] [Hn _] Hc Ha Hw]. unfold parseSession, sessionRow. unfold int63 in *.
  read_row [s_ID s; s_Name s; Itoa (s_CreatedAt s); Itoa (s_LastActivityAt s)] (flag (s_Attached s)). destruct s; simpl in *. by subst.
Qed.

Lemma parseWindow_row w : window_ok w -> parseWindow (windowRow w) = Some w.
Proof.
  intros [[Hi _] [Hn _] Hx Hp]. unfold parseWindow, windowRow. unfold int63 in *.
  read_row [w_ID w; w_Name w; Itoa (w_Index w)] (flag (w_Active w)). destruct w; simpl in *. by subst.
Qed.

Lemma parsePane_row p : pane_ok p -> parsePane (paneRow p) = Some p.
Proof.
  intros [[Hi _] Hx Hc Hr [Ht _] _]. unfold parsePane, paneRow. unfold int63 in *.
  read_row [p_ID p; Itoa (p_Index p); flag (p_Active p); Itoa (Cols (p_Size p)); Itoa (Rows (p_Size p)); p_Title p] (p_CurrentCommand p). by destruct p as [? ? ? [] ? ?].
Qed.

(** ** Whole replies *)

(** What tmux prints for a list of objects: one row a line. *)
Definition listing {A} (line : A -> string) (l : list A) : string :=
  GoLib.Join (map line l) (String lineFeed "").

Lemma row_one_line fs : Forall (fun a => mem_char lineFeed a = false) fs -> mem_char lineFeed (row fs) = false.
Proof.
  induction 1 as [|a fs Ha Hfs IH]; [done|]. unfold row in *. destruct fs as [|b fs]; [done|].
  change (GoLib.Join (a :: b :: fs) "|") with (a +:+ "|" +:+ GoLib.Join (b :: fs) "|").
  by rewrite !mem_char_app, Ha, IH.
Qed.

Lemma row_nonempty a b fs : row (a :: b :: fs) <> "".
Proof. by destruct a. Qed.

Lemma Itoa_one_line n : 0 <= n -> mem_char lineFeed (Itoa n) = false.
Proof. intros H. by apply Itoa_digits. Qed.

Lemma flag_one_line b : mem_char lineFeed (flag b) = false.
Proof. by destruct b. Qed.

Lemma parseLines_listing {A} (line : A -> string) (parse : string -> option A) (l : list A) :
  (forall a, a ∈ l -> parse (line a) = Some a /\ line a <> "" /\ mem_char lineFeed (line a) = false) ->
  parseLines parse (listing line l) = l.
Proof.
  intros H. destruct l as [|a l]; [done|]. unfold parseLines, listing.
  assert (Hout : GoLib.Join (map line (a :: l)) (String lineFeed "") <> "").
  { destruct (H a ltac:(set_solver)) as (_ & Hne & _). cbn [map GoLib.Join].
    destruct (map line l); [done|]. by destruct (line a). }
  rewrite bool_decide_eq_false_2 by done. change (ascii_of_nat 10) with lineFeed.
  rewrite Split_Join; [|done|].
  - clear Hout. induction (a :: l) as [|b l' IH]; [done|]. cbn [map omap list_omap].
    destruct (H b ltac:(set_solver)) as (-> & _). f_equal. apply IH. set_solver.
  - apply Forall_map, Forall_forall. intros b Hb. by apply H.
Qed.

Ltac one_line :=
  apply row_one_line; unfold plain, int63 in *;
  repeat constructor; first [apply flag_one_line | by apply Itoa_one_line; lia | tauto].

(** What tmux lists is what the client reads: a reply that lists sessions,
    windows or panes, one a line, is parsed back into exactly those objects,
    however many there are and whatever the command of a pane contains, as
    long as the other names and titles hold no bar. *)
Theorem tmux_listing_roundtrip :
  (forall l, Forall session_ok l -> parseLines parseSession (listing sessionRow l) = l) /\
  (forall l, Forall window_ok l -> parseLines parseWindow (listing windowRow l) = l) /\
  (forall l, Forall pane_ok l -> parseLines parsePane (listing paneRow l) = l).
Proof.
  split_and!; intros l Hl; rewrite Forall_forall in Hl; apply parseLines_listing; intros x Hx;
    specialize (Hl x Hx); (split; [|split; [apply row_nonempty|]]).
  - by apply parseSession_row.
  - destruct Hl. one_line.
  - by apply parseWindow_row.
  - destruct Hl. one_line.
  - by apply parsePane_row.
  - destruct Hl. one_line.
Qed.

(** A bar in a session's name shifts the fields after it, and a session with
    two clients is not shown as attached: tmux counts them. *)
Example session_name_with_bar :
  parseSession (row ["$1"; "a|b"; "1700000000"; "1700000001"; "1"]) =
  Some (mkSession "$1" "a" 0 1700000000 false []).
Proof. by vm_compute. Qed.

Example session_with_two_clients :
  s_Attached <$> parseSession (row ["$1"; "a"; "1700000000"; "1700000001"; "2"]) = Some false.
Proof. by vm_compute. Qed.

Lemma tmux_listing_roundtrip_witness :
  let l := [mkPane "%1" 0 true (mkSize 80 24) "shell" "a|b"; mkPane "%2" 1 false (mkSize 80 10) "" "vim"] in
  listing paneRow l = "%1|0|1|80|24|shell|a|b" +:+ String lineFeed "%2|1|0|80|10||vim" /\
  parseLines parsePane (listing paneRow l) = l.
Proof.
  cbv zeta. split; [by vm_compute|].
  apply (proj2 (proj2 tmux_listing_roundtrip)).
  repeat constructor; unfold int63, maxInt64; cbn; try done; lia.
Defined.
