(* ===== verification/Host.v ===== *)
(** * The terminal side of the agent: state and the tmux client

    One store for the three objects that share it: the tmux [Client] and the
    [PaneBridge]s of internal/tmux, and the [Handler] of internal/agent. The
    operations are goroutines ([Own]): one atomic section per lock hold, system
    call or tmux command. What tmux, the kernel, the clock and the data channel
    answer is read from oracle lists. This file holds the state and the tmux
    client (tmux.go, resize.go); [Bridge] and [Handler] the rest. *)

From S2P Require Import Prelude GoLib Own Protocol Compress TmuxText Update.
From S2P Require TitleFilter.
From Stdlib Require Import Ascii.
Import Tm.
Open Scope Z_scope.

(** ** State *)

(** How a tmux command fails: its exit status, the timeout, or it could not be
    run. *)
Inductive RunError := ExitError | TimedOut | ExecError.

(** A tmux command that was run, with its reply. *)
Record Cmd := mkCmd {
  cmd_args : list string;
  cmd_stdin : option (list byte);
  cmd_out : string;
  cmd_err : option RunError
}.

Inductive RelayState := RelayNotStarted | RelayRunning | RelayFinished.

#[export] Instance RelayState_eq_dec : EqDecision RelayState.
Proof. solve_decision. Defined.

Record PaneBridge := mkBridge {
  b_paneID : string;
  b_fifoDir : string;
  b_initialContent : string;
  b_closed : bool;
  b_displaced : bool;
  b_done : bool;                     (** [done] is closed *)
  b_relay : RelayState;              (** [relayDone] is closed when finished *)
  b_fifo : list byte;                (** unread bytes of the FIFO *)
  b_pipe : list byte;                (** unread bytes of the relay pipe *)
  b_wClosed : bool;
  b_rClosed : bool;
  b_released : bool;                 (** FIFO fd closed, directory removed *)
  (** for the specification: what the relay took out of the FIFO, and what was
      read from the relay pipe *)
  b_taken : list byte;
  b_read : list byte
}.

#[export] Instance PaneBridge_eta : Eta PaneBridge := fun b =>
  mkBridge (b_paneID b) (b_fifoDir b) (b_initialContent b) (b_closed b) (b_displaced b)
    (b_done b) (b_relay b) (b_fifo b) (b_pipe b) (b_wClosed b) (b_rClosed b) (b_released b)
    (b_taken b) (b_read b).

(** Everything the pane wrote into the bridge's FIFO. *)
Definition printed (b : PaneBridge) : list byte := b_taken b ++ b_fifo b.

(** An output stream, by its [done] channel: what [handleAttach] created it
    with. *)
Record Stream := mkStream {
  st_peer : string;
  st_ctx : nat;
  st_bridge : nat;
  st_deflate : bool
}.

(** A message handed to the data channel. For the specification, the stream it
    belongs to. *)
Record Event := mkEvent {
  ev_peer : string;
  ev_msg : Message;
  ev_stream : option nat;
  ev_deflated : bool;
  ev_ok : bool
}.

(** What a send does: it goes out, fails, or panics. *)
Inductive SendAnswer := Sent | Refused | Panics.

(** The calls that change a pane's pipe, for the specification, in the order
    of their holds of the pane's lock. *)
Inductive PipeOp :=
| OpAttach (b : nat) (dir : string)
| OpRelease (b : nat).

Record Host := mkHost {
  (** Client *)
  h_inputSeq : Z;
  h_pipes : gmap string nat;
  h_paneLocks : gset string;         (** the pane locks that are held *)
  (** PaneSizeTracker *)
  h_forced : gset string;
  (** Handler *)
  h_agentVersion : string;
  h_hasStateFile : bool;
  h_bridges : gmap string nat;
  h_cancels : gmap string nat;
  h_streamDone : gmap string nat;
  h_superseded : gset nat;
  h_paneForPeer : gmap string string;
  h_lastPingTime : gmap string Z;
  h_lastDims : gmap string (Z * Z);
  h_exitNotified : gset string;
  (** the heap: bridges, contexts, done channels *)
  h_heap : gmap nat PaneBridge;
  h_canceled : gset nat;
  h_agentCanceled : bool;
  h_open : gset nat;                 (** done channels not closed yet *)
  h_next : nat;
  (** for the specification: the streams created, the bridges in the hands
      of one goroutine (being attached or closed), the peers with a call in
      progress *)
  h_streams : gmap nat Stream;
  h_held : gset nat;
  h_busy : gset string;
  (** oracles *)
  h_answers : list (string * option RunError);
  h_dirs : list (option string);     (** os.MkdirTemp *)
  h_bools : list bool;               (** system calls, ticks *)
  h_sends : list SendAnswer;
  h_room : bool;                     (** the data channel takes output *)
  h_flate : Flate;                   (** compress/flate *)
  h_clock : list Z;
  h_states : list (option State);    (** update.LoadState *)
  (** history *)
  h_cmds : list Cmd;
  h_log : list Event;
  h_ops : list (string * PipeOp)
}.

#[export] Instance Host_eta : Eta Host := fun s =>
  mkHost (h_inputSeq s) (h_pipes s) (h_paneLocks s) (h_forced s) (h_agentVersion s)
    (h_hasStateFile s) (h_bridges s) (h_cancels s) (h_streamDone s) (h_superseded s)
    (h_paneForPeer s) (h_lastPingTime s) (h_lastDims s) (h_exitNotified s) (h_heap s)
    (h_canceled s) (h_agentCanceled s) (h_open s) (h_next s) (h_streams s) (h_held s)
    (h_busy s) (h_answers s) (h_dirs s) (h_bools s) (h_sends s) (h_room s) (h_flate s)
    (h_clock s) (h_states s) (h_cmds s) (h_log s) (h_ops s).

(** The loops of the component. *)
Inductive LoopName :=
| LRelay (b : nat)
| LStream (ctx : nat) (peer : string) (b : nat) (compressor : option OutputCompressor) (done : nat)
    (filter : TitleFilter.t)
| LWatch (ctx : nat) (peer pane : string).

Abbreviation G A := (Go Host LoopName A).
Abbreviation HThread := (GThread Host LoopName).

(** ** Primitives *)

Definition ask_answer : M Host (string * option RunError) := fun s =>
  (default ("", Some ExecError) (head (h_answers s)), s <| h_answers ::= tail |>).
Definition ask_bool : M Host bool := fun s =>
  (default false (head (h_bools s)), s <| h_bools ::= tail |>).
Definition ask_dir : M Host (option string) := fun s =>
  (default None (head (h_dirs s)), s <| h_dirs ::= tail |>).
Definition ask_clock : M Host Z := fun s =>
  (default 0 (head (h_clock s)), s <| h_clock ::= tail |>).
Definition ask_state : M Host (option State) := fun s =>
  (default None (head (h_states s)), s <| h_states ::= tail |>).

Definition newline : string := String (ascii_of_nat 10) "".

(** [runCtxStdin]: the output without its trailing newlines, and the error. *)
Definition runStdin (stdin : option (list byte)) (args : list string) : G (string * option RunError) :=
  atomically (fun s =>
    let '((raw, err), s) := ask_answer s in
    let out := TrimRight raw newline in
    ((out, err), s <| h_cmds ::= fun l => l ++ [mkCmd args stdin out err] |>)).

Definition run (args : list string) : G (string * option RunError) := runStdin None args.

(** [ctx.Err() != nil] for a context derived from the agent's. *)
Definition ctxErr (s : Host) (ctx : nat) : bool :=
  h_agentCanceled s || bool_decide (ctx ∈ h_canceled s).

Definition ctx_canceled (ctx : nat) : G bool := atomically (fun s => (ctxErr s ctx, s)).

(** A section of a bridge ([pb.mu] hold, pipe operation). *)
Definition on_bridge (b : nat) (f : PaneBridge -> PaneBridge) : M Host unit := fun s =>
  match h_heap s !! b with
  | Some br => (tt, s <| h_heap ::= <[b := f br]> |>)
  | None => (tt, s)
  end.

Definition get_bridge {A} (b : nat) (dflt : A) (f : PaneBridge -> A) : M Host A := fun s =>
  (from_option f dflt (h_heap s !! b), s).

(** ** tmux.go *)

(** [validateTarget] fails, a command fails, or its reply has no sense. *)
Inductive TmuxError :=
| InvalidTarget (target : string)
| CommandFailed (e : RunError) (out : string)
| UnexpectedOutput (out : string).

Definition validateTarget (target : string) : result TmuxError unit :=
  check (ValidTmuxTarget target) (InvalidTarget target).

(** Run a command of which only the error matters. *)
Definition runChecked (args : list string) : G (result TmuxError unit) :=
  r ← run args;
  match r with
  | (out, Some e) => mret (Err (CommandFailed e out))
  | (_, None) => mret (Ok tt)
  end.

Definition IsServerRunning : G bool :=
  r ← run ["has-session"];
  mret (match snd r with None => true | Some _ => false end).

Definition SetGlobalEnv (key value : string) : G (result TmuxError unit) :=
  runChecked ["set-environment"; "-g"; key; value].

Definition sessionFormat : string :=
  "#{session_id}|#{session_name}|#{session_created}|#{session_last_activity}|#{session_attached}".
Definition windowFormat : string :=
  "#{window_id}|#{window_name}|#{window_index}|#{window_active}".
Definition paneFormat : string :=
  "#{pane_id}|#{pane_index}|#{pane_active}|#{pane_width}|#{pane_height}|#{pane_title}|#{pane_current_command}".

Definition ListSessions : G (result TmuxError (list Session)) :=
  r ← run ["list-sessions"; "-F"; sessionFormat];
  match r with
  | (out, Some e) =>
      if Contains out "no server running" || Contains out "no sessions" then mret (Ok [])
      else match e with
           | ExitError => if bool_decide (TrimSpace out = "") then mret (Ok [])
                          else mret (Err (CommandFailed e out))
           | _ => mret (Err (CommandFailed e out))
           end
  | (out, None) => mret (Ok (parseLines parseSession out))
  end.

Definition ListWindows (sessionID : string) : G (result TmuxError (list Window)) :=
  match validateTarget sessionID with
  | Err e => mret (Err e)
  | Ok _ =>
      r ← run ["list-windows"; "-t"; sessionID; "-F"; windowFormat];
      match r with
      | (out, Some e) => mret (Err (CommandFailed e out))
      | (out, None) => mret (Ok (parseLines parseWindow out))
      end
  end.

Definition ListPanes (windowTarget : string) : G (result TmuxError (list Pane)) :=
  match validateTarget windowTarget with
  | Err e => mret (Err e)
  | Ok _ =>
      r ← run ["list-panes"; "-t"; windowTarget; "-F"; paneFormat];
      match r with
      | (out, Some e) => mret (Err (CommandFailed e out))
      | (out, None) => mret (Ok (parseLines parsePane out))
      end
  end.

(** The inner and the outer loop of [ListAll]. *)
Fixpoint fillWindows (sessionID : string) (ws : list Window) : G (result TmuxError (list Window)) :=
  match ws with
  | [] => mret (Ok [])
  | w :: ws =>
      r ← ListPanes (sessionID +:+ ":" +:+ w_ID w);
      match r with
      | Err e => mret (Err e)
      | Ok panes =>
          rest ← fillWindows sessionID ws;
          mret (rest ≫= fun ws => Ok (mkWindow (w_ID w) (w_Name w) (w_Index w) (w_Active w) panes :: ws))
      end
  end.

Fixpoint fillSessions (ss : list Session) : G (result TmuxError (list Session)) :=
  match ss with
  | [] => mret (Ok [])
  | s :: ss =>
      r ← ListWindows (s_ID s);
      match r with
      | Err e => mret (Err e)
      | Ok windows =>
          r ← fillWindows (s_ID s) windows;
          match r with
          | Err e => mret (Err e)
          | Ok windows =>
              rest ← fillSessions ss;
              mret (rest ≫= fun ss =>
                Ok (mkSession (s_ID s) (s_Name s) (s_CreatedAt s) (s_LastActivityAt s)
                      (s_Attached s) windows :: ss))
          end
      end
  end.

Definition ListAll : G (result TmuxError (list Session)) :=
  r ← ListSessions;
  match r with
  | Err e => mret (Err e)
  | Ok ss => fillSessions ss
  end.

Definition CreateSession (name command : string) : G (result TmuxError string) :=
  r ← run (["new-session"; "-d"; "-P"; "-F"; "#{session_id}"] ++
           (if bool_decide (name = "") then [] else ["-s"; name]) ++
           (if bool_decide (command = "") then [] else [command]));
  match r with
  | (out, Some e) => mret (Err (CommandFailed e out))
  | (out, None) => mret (Ok (TrimSpace out))
  end.

Definition KillSession (session : string) : G (result TmuxError unit) :=
  match validateTarget session with
  | Err e => mret (Err e)
  | Ok _ => runChecked ["kill-session"; "-t"; session]
  end.

Definition ResizeWindow (windowTarget : string) (cols rows : Z) : G (result TmuxError unit) :=
  runChecked ["resize-window"; "-t"; windowTarget; "-x"; Itoa cols; "-y"; Itoa rows].

Definition ClearWindowSizeOverride (windowTarget : string) : G (result TmuxError unit) :=
  match validateTarget windowTarget with
  | Err e => mret (Err e)
  | Ok _ => runChecked ["set-window-option"; "-t"; windowTarget; "-u"; "window-size"]
  end.

Definition windowPaneCount (paneID : string) : G (result TmuxError Z) :=
  r ← run ["display-message"; "-t"; paneID; "-p"; "#{window_panes}"];
  match r with
  | (out, Some e) => mret (Err (CommandFailed e out))
  | (out, None) =>
      match Atoi (TrimSpace out) with
      | (n, None) => mret (Ok n)
      | (_, Some _) => mret (Err (UnexpectedOutput out))
      end
  end.

(** The query of [WindowForPane] (pty.go). *)
Definition windowQuery (paneID : string) : list string :=
  ["display-message"; "-t"; paneID; "-p"; "#{session_id}:#{window_id}"].

Definition WindowForPane (paneID : string) : G (result TmuxError string) :=
  match validateTarget paneID with
  | Err e => mret (Err e)
  | Ok _ =>
      r ← run (windowQuery paneID);
      match r with
      | (out, Some e) => mret (Err (CommandFailed e out))
      | (out, None) => mret (Ok (TrimSpace out))
      end
  end.

Definition ResizePane (paneID : string) (cols rows : Z) : G (result TmuxError unit) :=
  match validateTarget paneID with
  | Err e => mret (Err e)
  | Ok _ =>
      count ← windowPaneCount paneID;
      match count with
      | Err e => mret (Err e)
      | Ok count =>
          if count <=? 1 then
            wt ← WindowForPane paneID;
            match wt with
            | Err e => mret (Err e)
            | Ok wt => ResizeWindow wt cols rows
            end
          else runChecked ["resize-pane"; "-t"; paneID; "-x"; Itoa cols; "-y"; Itoa rows]
      end
  end.

Definition PaneDimensions (paneID : string) : G (result TmuxError (Z * Z)) :=
  match validateTarget paneID with
  | Err e => mret (Err e)
  | Ok _ =>
      r ← run ["display-message"; "-t"; paneID; "-p"; "#{pane_width}:#{pane_height}"];
      match r with
      | (out, Some e) => mret (Err (CommandFailed e out))
      | (out, None) =>
          match SplitN (TrimSpace out) ":" 2 with
          | [a; b] =>
              match Atoi a, Atoi b with
              | (cols, None), (rows, None) => mret (Ok (cols, rows))
              | _, _ => mret (Err (UnexpectedOutput out))
              end
          | _ => mret (Err (UnexpectedOutput out))
          end
      end
  end.

(** [inputSeq.Add(1)], a 64-bit counter. *)
Definition nextInput : M Host Z := fun s =>
  let n := (h_inputSeq s + 1) mod 2 ^ 64 in (n, s <| h_inputSeq := n |>).

Definition inputBuffer (n : Z) : string := "pmux-in-" +:+ FormatUint n.

Definition SendKeys (paneID : string) (data : list byte) : G (result TmuxError unit) :=
  let clean := filter (fun b => b <> x00) data in
  if bool_decide (clean = []) then mret (Ok tt)
  else
    n ← atomically nextInput;
    let name := inputBuffer n in
    r ← runStdin (Some clean)
          ["load-buffer"; "-b"; name; "-"; ";"; "paste-buffer"; "-d"; "-r"; "-b"; name; "-t"; paneID];
    match r with
    | (out, Some e) =>
        _ ← run ["delete-buffer"; "-b"; name];
        mret (Err (CommandFailed e out))
    | (_, None) => mret (Ok tt)
    end.

Definition CapturePane (paneID : string) : G (result TmuxError string) :=
  r ← run ["capture-pane"; "-t"; paneID; "-e"; "-p"];
  match r with
  | (out, Some e) => mret (Err (CommandFailed e out))
  | (out, None) => mret (Ok out)
  end.

Definition CursorState (paneID : string) : G (result TmuxError PaneCursorState) :=
  match validateTarget paneID with
  | Err e => mret (Err e)
  | Ok _ =>
      r ← run ["display-message"; "-t"; paneID; "-p";
               "#{cursor_x}:#{cursor_y}:#{alternate_on}:#{cursor_flag}"];
      match r with
      | (out, Some e) => mret (Err (CommandFailed e out))
      | (out, None) => mret (Ok (parseCursor out))
      end
  end.

Definition PaneExists (paneID : string) : G bool :=
  r ← run ["display-message"; "-t"; paneID; "-p"; "#{pane_id}"];
  match r with
  | (_, Some _) => mret false
  | (out, None) => mret (bool_decide (TrimSpace out = paneID))
  end.

(** ** resize.go *)

Definition TrackAndResize (paneID : string) (cols rows : Z) : G (result TmuxError unit) :=
  r ← ResizePane paneID cols rows;
  match r with
  | Err e => mret (Err e)
  | Ok _ =>
      _ ← atomically (mmod (fun s => s <| h_forced ::= fun f => {[paneID]} ∪ f |>));
      mret (Ok tt)
  end.

Definition ReleaseIfForced (paneID : string) : G (result TmuxError unit) :=
  forced ← atomically (fun s =>
    (bool_decide (paneID ∈ h_forced s), s <| h_forced ::= fun f => f ∖ {[paneID]} |>));
  if negb forced then mret (Ok tt)
  else
    wt ← WindowForPane paneID;
    match wt with
    | Err _ => mret (Ok tt)
    | Ok wt => ClearWindowSizeOverride wt
    end.
