(* ===== verification/Bridge.v ===== *)
(** * internal/tmux/pty.go: pane bridges

    [PaneBridge] and its relay goroutine, and the client's record of which
    bridge's pipe each pane feeds, as goroutines on the [Host] store. *)

From S2P Require Import Prelude GoLib Own Protocol TmuxText Host.
Open Scope Z_scope.

(** The size of the reads. *)
Definition bufSize : nat := 4096.
(** What an os.Pipe holds. *)
Definition pipeCapacity : nat := Z.to_nat 65536.

(** [filepath.Join(dir, "output")]. *)
Definition fifoPath (dir : string) : string := dir +:+ "/output".

Definition pipeOn (paneID dir : string) : list string :=
  ["pipe-pane"; "-t"; paneID; pipeCommand (fifoPath dir)].
Definition pipeOff (paneID : string) : list string := ["pipe-pane"; "-t"; paneID].

(** ** Pane locks *)

(** [lockPane], and the [Unlock] of the mutex it returns. *)
Definition lockPane (paneID : string) : G unit :=
  await (fun s =>
    if decide (paneID ∈ h_paneLocks s) then None
    else Some (tt, s <| h_paneLocks ::= fun l => {[paneID]} ∪ l |>)).

Definition unlockPane (paneID : string) : G unit :=
  atomically (mmod (fun s => s <| h_paneLocks ::= fun l => l ∖ {[paneID]} |>)).

(** ** The relay goroutine *)

(** [waitReadable] returns within [relayPollInterval]; nothing changes. *)
Definition waitReadable : G unit := atomically (mret tt).

(** The deferred [close(pb.relayDone)]. *)
Definition relayExit (b : nat) : G unit :=
  atomically (on_bridge b (fun br => br <| b_relay := RelayFinished |>)).

(** The top of the loop of [relayFIFOToPipe]. *)
Definition relayCheck (b : nat) : G unit :=
  stop ← atomically (get_bridge b true b_done);
  if stop : bool then relayExit b else forever (LRelay b).

(** [syscall.Read] on the non-blocking FIFO: data, no data, or an error. *)
Inductive FifoRead := FifoData (data : list byte) | FifoAgain | FifoError.

Definition fifo_Read (b : nat) : M Host FifoRead := fun s =>
  match h_heap s !! b with
  | None => (FifoError, s)
  | Some br =>
      let '(fails, s) := ask_bool s in
      if fails : bool then (FifoError, s)
      else if bool_decide (b_fifo br = []) then (FifoAgain, s)
      else (FifoData (take bufSize (b_fifo br)),
            s <| h_heap ::= <[b := br <| b_fifo ::= drop bufSize |>
                                      <| b_taken ::= fun t => t ++ take bufSize (b_fifo br) |>]> |>)
  end.

(** [pb.pipeW.Write]: waits for room, fails once an end is closed. *)
Definition pipe_Write (b : nat) (data : list byte) : G bool :=
  await (fun s =>
    match h_heap s !! b with
    | None => Some (false, s)
    | Some br =>
        if b_wClosed br || b_rClosed br then Some (false, s)
        else if (length (b_pipe br) + length data <=? pipeCapacity)%nat
        then Some (true, s <| h_heap ::= <[b := br <| b_pipe ::= fun p => p ++ data |>]> |>)
        else None
    end).

(** One iteration, from the read on. *)
Definition relayRead (b : nat) : G unit :=
  r ← atomically (fifo_Read b);
  match r with
  | FifoData data =>
      written ← pipe_Write b data;
      if written : bool then relayCheck b else relayExit b
  | FifoAgain => _ ← waitReadable; relayCheck b
  | FifoError => relayExit b
  end.

Definition relayFIFOToPipe (b : nat) : HThread := goroutine (relayCheck b).

(** ** PaneBridge methods *)

(** [displace]. *)
Definition displace (b : nat) : G unit :=
  skip ← atomically (fun s =>
    match h_heap s !! b with
    | None => (true, s)
    | Some br =>
        if b_closed br || b_displaced br then (true, s)
        else (false, s <| h_heap ::= <[b := br <| b_displaced := true |>]> |>)
    end);
  if skip : bool then mret tt
  else atomically (on_bridge b (fun br => br <| b_wClosed := true |>)).

Inductive ReadError := ReadEOF | ReadDisplaced.

(** [pb.pipeR.Read]: data, or an error once an end is closed. *)
Definition pipe_Read (b : nat) : G (option (list byte)) :=
  await (fun s =>
    match h_heap s !! b with
    | None => Some (None, s)
    | Some br =>
        if b_rClosed br then Some (None, s)
        else if negb (bool_decide (b_pipe br = []))
        then Some (Some (take bufSize (b_pipe br)),
                   s <| h_heap ::= <[b := br <| b_pipe ::= drop bufSize |>
                                             <| b_read ::= fun r => r ++ take bufSize (b_pipe br) |>]> |>)
        else if b_wClosed br then Some (None, s)
        else None
    end).

Definition Read (b : nat) : G (result ReadError (list byte)) :=
  closed ← atomically (get_bridge b true b_closed);
  if closed : bool then mret (Err ReadEOF)
  else
    r ← pipe_Read b;
    match r with
    | Some data => mret (Ok data)
    | None =>
        displaced ← atomically (get_bridge b false (fun br => b_displaced br && negb (b_closed br)));
        mret (Err (if displaced : bool then ReadDisplaced else ReadEOF))
    end.

Inductive BridgeError := BridgeClosed | BridgeTmux (e : TmuxError).

Definition Write (b : nat) (data : list byte) : G (result BridgeError Z) :=
  closed ← atomically (get_bridge b true b_closed);
  if closed : bool then mret (Err BridgeClosed)
  else
    pane ← atomically (get_bridge b "" b_paneID);
    r ← SendKeys pane data;
    mret (match r with Err e => Err (BridgeTmux e) | Ok _ => Ok (blen data) end).

Definition Resize (b : nat) (cols rows : Z) : G (result BridgeError unit) :=
  closed ← atomically (get_bridge b true b_closed);
  if closed : bool then mret (Err BridgeClosed)
  else
    pane ← atomically (get_bridge b "" b_paneID);
    r ← ResizePane pane cols rows;
    mret (map_err BridgeTmux r).

(** [releasePipe]: the hold of [pipesMu], within the pane's lock. *)
Definition disown (pane : string) (b : nat) : M Host bool := fun s =>
  let s := s <| h_ops ::= fun l => l ++ [(pane, OpRelease b)] |> in
  if decide (h_pipes s !! pane = Some b) then (true, s <| h_pipes ::= delete pane |>) else (false, s).

Definition releasePipe (b : nat) : G unit :=
  pane ← atomically (get_bridge b "" b_paneID);
  _ ← lockPane pane;
  owner ← atomically (disown pane b);
  _ ← (if owner : bool then (_ ← run (pipeOff pane); mret tt) else mret tt);
  unlockPane pane.

(** [Close]. The bridge leaves the hands of its closer ([h_held]) when the call
    is about to return. *)
Definition closed_for_good (b : nat) (s : Host) : Host := s <| h_held ::= fun c => c ∖ {[b]} |>.

Definition Close (b : nat) : G unit :=
  was ← atomically (fun s =>
    match h_heap s !! b with
    | None => (true, closed_for_good b s)
    | Some br =>
        if b_closed br then (true, closed_for_good b s)
        else (false, s <| h_heap ::= <[b := br <| b_closed := true |>]> |>)
    end);
  if was : bool then mret tt
  else
    _ ← releasePipe b;
    _ ← atomically (on_bridge b (fun br => br <| b_done := true |>));
    _ ← atomically (on_bridge b (fun br => br <| b_wClosed := true |>));
    _ ← await (fun s =>
          match h_heap s !! b with
          | Some br => if decide (b_relay br = RelayFinished) then Some (tt, s) else None
          | None => Some (tt, s)
          end);
    _ ← atomically (on_bridge b (fun br => br <| b_rClosed := true |>));
    atomically (_ ← on_bridge b (fun br => br <| b_released := true |>); mmod (closed_for_good b)).

(** ** AttachPane *)

Inductive AttachError := CreateTempDir | CreateFIFO | OpenFIFO | CreateRelayPipe | StartPipePane.

(** The system calls before the bridge exists: the directory, the FIFO, its
    descriptor, the relay pipe. *)
Definition makeFIFO : G (result AttachError string) :=
  dir ← atomically ask_dir;
  match dir with
  | None => mret (Err CreateTempDir)
  | Some dir =>
      mk ← atomically ask_bool;
      if negb mk then mret (Err CreateFIFO) else
      op ← atomically ask_bool;
      if negb op then mret (Err OpenFIFO) else
      pi ← atomically ask_bool;
      if negb pi then mret (Err CreateRelayPipe) else mret (Ok dir)
  end.

(** The hold of [pipesMu] that makes the new bridge the pane's; it yields the
    bridge and the one it replaces. *)
Definition publish (paneID dir initialContent : string) : M Host (nat * option nat) := fun s =>
  let b := h_next s in
  let br := mkBridge paneID dir initialContent false false false RelayNotStarted [] [] false false false [] [] in
  ((b, h_pipes s !! paneID),
   s <| h_next ::= S |> <| h_heap ::= <[b := br]> |> <| h_pipes ::= <[paneID := b]> |>
     <| h_held ::= fun c => {[b]} ∪ c |>
     <| h_ops ::= fun l => l ++ [(paneID, OpAttach b dir)] |>).

Definition AttachPane (paneID : string) (cols rows : Z) : G (result AttachError nat) :=
  made ← makeFIFO;
  match made with
  | Err e => mret (Err e)
  | Ok dir =>
      content ← CapturePane paneID;
      let initialContent := match content with Ok out => out | Err _ => "" end in
      _ ← lockPane paneID;
      piped ← run (pipeOn paneID dir);
      match snd piped with
      | Some _ => _ ← unlockPane paneID; mret (Err StartPipePane)
      | None =>
          new ← atomically (publish paneID dir initialContent);
          let '(b, prev) := new in
          _ ← unlockPane paneID;
          _ ← match prev with Some prev => displace prev | None => mret tt end;
          _ ← (if (cols >? 0) && (rows >? 0)
               then (_ ← ResizePane paneID cols rows; mret tt) else mret tt);
          _ ← atomically (on_bridge b (fun br => br <| b_relay := RelayRunning |>));
          _ ← spawn (relayFIFOToPipe b);
          mret (Ok b)
      end
  end.
