(* ===== verification/Handler.v ===== *)
(** * internal/agent/handler.go: the protocol handler

    [HandleMessage] and what it calls, and the goroutines it starts: one
    output stream and one pane watcher per attachment. [HandleMessage] and
    [PeerDisconnected] of one peer do not overlap (the peer's dispatch mutex
    and teardown, [PeerManager], see to it); everything else interleaves. *)

From S2P Require Import Prelude GoLib Own Protocol Compress TmuxText Update Host Bridge.
From S2P Require TitleFilter.
From Stdlib Require Import Ascii.
Import Tm.
Open Scope Z_scope.

Definition errCodeStreamReset : string := "stream_reset".

(** ** Sending *)

Definition log_event (e : Event) (s : Host) : Host := s <| h_log ::= fun l => l ++ [e] |>.

Definition ask_send : M Host SendAnswer := fun s =>
  (default Refused (head (h_sends s)), s <| h_sends ::= tail |>).

Definition sent_ok (a : SendAnswer) : bool := match a with Sent => true | _ => false end.

(** A control message: it never waits. *)
Definition send_control (stream : option nat) (deflated : bool) (peerID : string) (msg : Message) : G SendAnswer :=
  atomically (fun s =>
    let '(a, s) := ask_send s in
    (a, log_event (mkEvent peerID msg stream deflated (sent_ok a)) s)).

(** [sendMsg]. *)
Definition sendMsg (peerID : string) (msg : Message) : G bool :=
  a ← send_control None false peerID msg; mret (sent_ok a).

Definition errorEvent (code message : string) : Message :=
  Msg KError (mkError "error" code message).

Definition sendError (peerID code message : string) : G unit :=
  _ ← sendMsg peerID (errorEvent code message); mret tt.

(** [sendOutput]: it waits for room in the data channel until the stream's
    context is canceled. *)
Definition sendOutput (ctx : nat) (peerID : string) (data : list byte) (d : nat) (deflated : bool) : G SendAnswer :=
  await (fun s =>
    if h_room s then
      let '(a, s) := ask_send s in
      Some (a, log_event (mkEvent peerID (Msg KOutput (mkOutput "output" data)) (Some d) deflated (sent_ok a)) s)
    else if ctxErr s ctx then Some (Refused, s)
    else None).

(** ** Detaching *)

(** The hold of [h.mu] in [detachPeerWait]. *)
Record DetachView := mkDetachView {
  dv_bridge : option nat;
  dv_cancel : option nat;
  dv_pane : string;
  dv_done : option nat
}.

Definition detachLocked (peerID : string) (waits : bool) : M Host DetachView := fun s =>
  let v := mkDetachView (h_bridges s !! peerID) (h_cancels s !! peerID)
             (default "" (h_paneForPeer s !! peerID)) (h_streamDone s !! peerID) in
  let s := match dv_done v with
           | Some d => if waits then s <| h_superseded ::= fun m => {[d]} ∪ m |> else s
           | None => s
           end in
  let s := match dv_bridge v with
           | Some b =>
               s <| h_bridges ::= delete peerID |> <| h_cancels ::= delete peerID |>
                 <| h_paneForPeer ::= delete peerID |> <| h_lastDims ::= delete peerID |>
                 <| h_exitNotified ::= fun e => e ∖ {[peerID]} |>
                 <| h_held ::= fun c => {[b]} ∪ c |>
           | None => s
           end in
  (v, s).

Definition cancel_ctx (ctx : nat) : G unit :=
  atomically (mmod (fun s => s <| h_canceled ::= fun c => {[ctx]} ∪ c |>)).

(** [<-done]. *)
Definition await_done (d : nat) : G unit :=
  await (fun s => if decide (d ∈ h_open s) then None else Some (tt, s)).

Definition detachPeerWait (peerID : string) (waits : bool) : G unit :=
  v ← atomically (detachLocked peerID waits);
  _ ← match dv_cancel v with Some ctx => cancel_ctx ctx | None => mret tt end;
  _ ← match dv_bridge v with Some b => Close b | None => mret tt end;
  _ ← match dv_done v with
      | Some d => if waits then await_done d else mret tt
      | None => mret tt
      end;
  if bool_decide (dv_pane v = "") then mret tt
  else _ ← ReleaseIfForced (dv_pane v); mret tt.

Definition detachPeer (peerID : string) : G unit := detachPeerWait peerID true.

(** [endStream]: the hold of [h.mu], then the close of [done]. *)
Definition endStreamLocked (peerID : string) (d : nat) : M Host unit := fun s =>
  let s := if decide (h_streamDone s !! peerID = Some d) then s <| h_streamDone ::= delete peerID |> else s in
  (tt, s <| h_superseded ::= fun m => m ∖ {[d]} |>).

Definition endStream (peerID : string) (d : nat) : G unit :=
  _ ← atomically (endStreamLocked peerID d);
  atomically (mmod (fun s => s <| h_open ::= fun o => o ∖ {[d]} |>)).

(** [resetStream]. *)
Definition resetStream (peerID : string) (d : nat) (reason : string) : G unit :=
  _ ← detachPeerWait peerID false;
  superseded ← atomically (fun s => (bool_decide (d ∈ h_superseded s), s));
  if superseded : bool then mret tt
  else _ ← send_control (Some d) false peerID (errorEvent errCodeStreamReset reason); mret tt.

(** ** Sessions *)

Definition newSessionsEvent (sessions : list TmuxSession) : G Message :=
  atomically (fun s =>
    let '(update, s) :=
      if h_hasStateFile s then
        let '(st, s) := ask_state s in
        (match st with
         | Some st => if st_UpdateAvailable st && negb (IsStale st (h_agentVersion s))
                      then st_LatestVersion st else ""
         | None => ""
         end, s)
      else ("", s) in
    (Msg KSessions (mkSessions "sessions" sessions (h_agentVersion s) update), s)).

Definition paneClosed (paneID : string) : Message :=
  Msg KPaneClosed (mkPaneClosed "pane_closed" paneID).

(** [handlePaneExit]. *)
Definition exitLocked (peerID : string) : M Host (option string) := fun s =>
  match h_paneForPeer s !! peerID with
  | None => (None, s)
  | Some paneID =>
      if bool_decide (paneID = "") || bool_decide (peerID ∈ h_exitNotified s) then (None, s)
      else (Some paneID, s <| h_exitNotified ::= fun e => {[peerID]} ∪ e |>)
  end.

Definition handlePaneExit (peerID : string) (waits : bool) : G unit :=
  pane ← atomically (exitLocked peerID);
  match pane with
  | None => mret tt
  | Some paneID =>
      _ ← sendMsg peerID (paneClosed paneID);
      sessions ← ListAll;
      _ ← match sessions with
          | Err _ => mret tt
          | Ok sessions =>
              ev ← newSessionsEvent (toProtocolSessions sessions);
              _ ← sendMsg peerID ev; mret tt
          end;
      detachPeerWait peerID waits
  end.

(** ** The output stream *)

(** [compressor != nil]. *)
Definition deflates (compressor : option OutputCompressor) : bool :=
  match compressor with Some _ => true | None => false end.

(** The check of the context at the top of the loop of [streamOutput]. *)
Definition streamCheck (ctx : nat) (peerID : string) (b : nat) (compressor : option OutputCompressor) (d : nat)
    (filter : TitleFilter.t) : G unit :=
  c ← ctx_canceled ctx;
  if c : bool then endStream peerID d
  else forever (LStream ctx peerID b compressor d filter).

(** [if compressor != nil { compressor.Compress(data) }]: what to send, unless
    it failed, and the compressor afterwards. A compressor has one owner at a
    time, the pre-stream part of [handleAttach] and then the stream: it is
    handed on, and dropped where the deferred calls close it. *)
Definition compressOutput (compressor : option OutputCompressor) (data : list byte) :
    G (option (list byte) * option OutputCompressor) :=
  match compressor with
  | None => mret (Some data, None)
  | Some c => atomically (fun s =>
      let '(r, c) := Compress (h_flate s) data c in ((to_option r, Some c), s))
  end.

(** A failure of the stream's own: nothing to do if somebody else canceled it,
    else reset; then the deferred calls. *)
Definition streamFailed (ctx : nat) (peerID : string) (d : nat) (reason : string) : G unit :=
  c ← ctx_canceled ctx;
  _ ← (if c : bool then mret tt else resetStream peerID d reason);
  endStream peerID d.

(** One iteration, from the read on. *)
Definition streamRead (ctx : nat) (peerID : string) (b : nat) (compressor : option OutputCompressor) (d : nat)
    (filter : TitleFilter.t) : G unit :=
  r ← Read b;
  match r with
  | Err e =>
      c ← ctx_canceled ctx;
      if c : bool then endStream peerID d
      else
        _ ← match e with
            | ReadDisplaced => resetStream peerID d "pane attached elsewhere; re-attach"
            | ReadEOF => handlePaneExit peerID false
            end;
        endStream peerID d
  | Ok chunk =>
      c ← ctx_canceled ctx;
      if c : bool then endStream peerID d
      else
        let '(filtered, filter) := TitleFilter.Filter filter chunk in
        if bool_decide (filtered = []) then streamCheck ctx peerID b compressor d filter
        else
          r ← compressOutput compressor filtered;
          let '(data, compressor) := r in
          match data with
          | None => streamFailed ctx peerID d "output compression failed; re-attach"
          | Some data =>
              a ← sendOutput ctx peerID data d (deflates compressor);
              match a with
              | Sent => streamCheck ctx peerID b compressor d filter
              | Refused => streamFailed ctx peerID d "output stream stalled; re-attach"
              | Panics => _ ← detachPeerWait peerID false; endStream peerID d
              end
          end
  end.

Definition streamOutput (ctx : nat) (peerID : string) (b : nat) (compressor : option OutputCompressor) (d : nat) : HThread :=
  goroutine (streamCheck ctx peerID b compressor d TitleFilter.NewTitleFilter).

(** ** The pane watcher *)

(** The select of [watchPane]: a tick, or the context is done; at the end of
    the loop the next iteration. *)
Definition watchTick (ctx : nat) (peerID paneID : string) : G unit :=
  tick ← await (fun s =>
    match h_bools s with
    | true :: bs => Some (true, s <| h_bools := bs |>)
    | _ => if ctxErr s ctx then Some (false, s <| h_bools ::= tail |>) else None
    end);
  if negb tick then mret tt
  else
    exists_ ← PaneExists paneID;
    if exists_ : bool then forever (LWatch ctx peerID paneID)
    else handlePaneExit peerID true.

Definition watchPane (ctx : nat) (peerID paneID : string) : HThread := Loop (LWatch ctx peerID paneID).

(** The bodies of the loops. *)
Definition hostBody (l : LoopName) : HThread :=
  match l with
  | LRelay b => goroutine (relayRead b)
  | LStream ctx peerID b compressor d filter => goroutine (streamRead ctx peerID b compressor d filter)
  | LWatch ctx peerID paneID => goroutine (watchTick ctx peerID paneID)
  end.

(** ** Attaching *)

(** The creation of the peer's context and [done] channel, and the hold of
    [h.mu] that registers the attachment. *)
Definition register (peerID paneID : string) (b : nat) (cols rows : Z) (deflate : bool) : M Host (nat * nat) := fun s =>
  let ctx := h_next s in
  let d := Datatypes.S ctx in
  ((ctx, d),
   s <| h_next := Datatypes.S d |>
     <| h_open ::= fun o => {[d]} ∪ o |>
     <| h_streams ::= <[d := mkStream peerID ctx b deflate]> |>
     <| h_bridges ::= <[peerID := b]> |> <| h_cancels ::= <[peerID := ctx]> |>
     <| h_streamDone ::= <[peerID := d]> |> <| h_paneForPeer ::= <[peerID := paneID]> |>
     <| h_lastDims ::= <[peerID := (cols, rows)]> |>
     <| h_held ::= fun c => c ∖ {[b]} |>).

(** How the part of [handleAttach] before the stream ends. *)
Inductive PreStream := StreamOwned | PreStreamFailed | PreStreamPanic.

Definition ESC : byte := x1b.
Definition seqAlternateOn : list byte := ESC :: bytes_of "[?1049h".
Definition seqCursorHide : list byte := ESC :: bytes_of "[?25l".

(** [n + 1] on a 64-bit int. *)
Definition incr64 (n : Z) : Z := if n =? maxInt64 then minInt64 else n + 1.
Definition seqCursorTo (cs : PaneCursorState) : list byte :=
  ESC :: bytes_of ("[" +:+ Itoa (incr64 (CursorY cs)) +:+ ";" +:+ Itoa (incr64 (CursorX cs)) +:+ "H").

Definition modePrefix (cs : result TmuxError PaneCursorState) : list byte :=
  match cs with
  | Ok cs => if AlternateOn cs then seqAlternateOn else []
  | Err _ => []
  end.

(** The output sent before the stream starts, if any. *)
Definition preStreamData (reattach : bool) (initial : string) (cs : result TmuxError PaneCursorState) : option (list byte) :=
  if reattach then
    if bool_decide (initial = "") then None
    else Some (modePrefix cs ++ bytes_of initial ++
               match cs with
               | Ok cs => seqCursorTo cs ++ (if CursorVisible cs then [] else seqCursorHide)
               | Err _ => []
               end)
  else
    match cs with
    | Ok st => if AlternateOn st || negb (CursorVisible st)
               then Some (modePrefix cs ++ (if CursorVisible st then [] else seqCursorHide))
               else None
    | Err _ => None
    end.

(** [failPreStream]. *)
Definition failPreStream (ctx : nat) (peerID : string) (d : nat) (reason : string) : G PreStream :=
  c ← ctx_canceled ctx;
  _ ← (if c : bool then mret tt else resetStream peerID d reason);
  mret PreStreamFailed.

(** [sendPreStream], continued by [k] when it returns true. *)
Definition sendPreStream (ctx : nat) (peerID : string) (d : nat) (compressor : option OutputCompressor)
    (data : list byte) (k : option OutputCompressor -> G PreStream) : G PreStream :=
  r ← compressOutput compressor data;
  let '(compressed, compressor) := r in
  match compressed with
  | None => failPreStream ctx peerID d "output compression failed; re-attach"
  | Some data =>
      a ← sendOutput ctx peerID data d (deflates compressor);
      match a with
      | Sent => k compressor
      | Refused => failPreStream ctx peerID d "output stream stalled; re-attach"
      | Panics => mret PreStreamPanic
      end
  end.

(** From the attached event to the start of the goroutines. *)
Definition preStream (ctx : nat) (peerID : string) (b d : nat) (req : AttachRequest) : G PreStream :=
  let compressor := if bool_decide (ar_Compression req = "deflate") then Some NewOutputCompressor else None in
  let attached := Msg KAttached (mkAttached "attached" (ar_PaneID req)
                    (if deflates compressor then "deflate" else "")) in
  a ← send_control (Some d) (deflates compressor) peerID attached;
  match a with
  | Panics => mret PreStreamPanic
  | _ =>
      cs ← CursorState (ar_PaneID req);
      initial ← atomically (get_bridge b "" b_initialContent);
      let start compressor : G PreStream :=
        _ ← spawn (streamOutput ctx peerID b compressor d);
        _ ← spawn (watchPane ctx peerID (ar_PaneID req));
        mret StreamOwned in
      match preStreamData (ar_Reattach req) initial cs with
      | Some data => sendPreStream ctx peerID d compressor data start
      | None => start compressor
      end
  end.

Definition dimensionsOK (cols rows : Z) : bool :=
  negb ((cols <? MinDimension) || (cols >? MaxDimension) || (rows <? MinDimension) || (rows >? MaxDimension)).

Definition dimensionsMessage (cols rows : Z) : string :=
  "dimensions out of range: cols=" +:+ Itoa cols +:+ " rows=" +:+ Itoa rows +:+
  " (must be " +:+ Itoa MinDimension +:+ "-" +:+ Itoa MaxDimension +:+ ")".

Section Requests.
(** strconv.Quote, for the [%q] of two error texts. *)
Variable Quote : string -> string.

Definition handleAttach (peerID : string) (req : AttachRequest) : G unit :=
  if negb (ValidTmuxTarget (ar_PaneID req))
  then sendError peerID "attach_failed" ("invalid pane ID: " +:+ Quote (ar_PaneID req))
  else if negb (dimensionsOK (ar_Cols req) (ar_Rows req))
  then sendError peerID "attach_failed" (dimensionsMessage (ar_Cols req) (ar_Rows req))
  else
    _ ← detachPeer peerID;
    tracked ← TrackAndResize (ar_PaneID req) (ar_Cols req) (ar_Rows req);
    bridge ← AttachPane (ar_PaneID req) 0 0;
    match bridge with
    | Err _ =>
        _ ← (if is_ok tracked then (_ ← ReleaseIfForced (ar_PaneID req); mret tt) else mret tt);
        exists_ ← PaneExists (ar_PaneID req);
        if negb exists_ then
          _ ← sendMsg peerID (paneClosed (ar_PaneID req));
          sessions ← ListAll;
          match sessions with
          | Ok sessions =>
              ev ← newSessionsEvent (toProtocolSessions sessions);
              _ ← sendMsg peerID ev; mret tt
          | Err _ => mret tt
          end
        else sendError peerID "attach_failed" "failed to attach pane"
    | Ok b =>
        ids ← atomically (register peerID (ar_PaneID req) b (ar_Cols req) (ar_Rows req)
                            (bool_decide (ar_Compression req = "deflate")));
        let '(ctx, d) := ids in
        out ← preStream ctx peerID b d req;
        match out with
        | StreamOwned => mret tt
        | PreStreamFailed => endStream peerID d
        | PreStreamPanic =>
            c ← ctx_canceled ctx;
            _ ← (if c : bool then mret tt else resetStream peerID d "attach failed; re-attach");
            endStream peerID d
        end
    end.

(** ** The other requests *)

Definition paneIn (paneID : string) (sessions : list Session) : bool :=
  existsb (fun s => existsb (fun w => existsb (fun p => bool_decide (p_ID p = paneID)) (w_Panes w))
                      (s_Windows s)) sessions.

Definition handleListSessions (peerID : string) : G unit :=
  sessions ← ListAll;
  match sessions with
  | Err _ => sendError peerID "list_sessions_failed" "failed to list sessions"
  | Ok sessions =>
      attachedPane ← atomically (fun s => (default "" (h_paneForPeer s !! peerID), s));
      _ ← (if negb (bool_decide (attachedPane = "")) && negb (paneIn attachedPane sessions)
           then (_ ← sendMsg peerID (paneClosed attachedPane); detachPeer peerID)
           else mret tt);
      ev ← newSessionsEvent (toProtocolSessions sessions);
      _ ← sendMsg peerID ev; mret tt
  end.

Definition handleDetach (peerID : string) : G unit :=
  _ ← detachPeer peerID;
  _ ← sendMsg peerID (Msg KDetached (mkDetached "detached")); mret tt.

Definition inputTooLarge (n : Z) : string :=
  "input size " +:+ Itoa n +:+ " exceeds " +:+ Itoa MaxInputSize +:+ " byte limit".

Definition handleInput (peerID : string) (req : InputRequest) : G unit :=
  if blen (ir_Data req) >? MaxInputSize
  then sendError peerID "input_too_large" (inputTooLarge (blen (ir_Data req)))
  else
    bridge ← atomically (fun s => (h_bridges s !! peerID, s));
    match bridge with
    | None => sendError peerID "not_attached" "no pane attached"
    | Some b =>
        r ← Write b (ir_Data req);
        match r with
        | Err _ => sendError peerID "input_failed" "failed to send input"
        | Ok _ => mret tt
        end
    end.

Definition handleResize (peerID : string) (req : ResizeRequest) : G unit :=
  let cols := rr_Cols req in let rows := rr_Rows req in
  if negb (dimensionsOK cols rows)
  then sendError peerID "resize_failed" (dimensionsMessage cols rows)
  else
    v ← atomically (fun s => ((h_bridges s !! peerID, default (0, 0) (h_lastDims s !! peerID)), s));
    match v with
    | (None, _) => sendError peerID "not_attached" "no pane attached"
    | (Some b, last) =>
        if (fst last =? cols) && (snd last =? rows) then mret tt
        else
          r ← Resize b cols rows;
          match r with
          | Err _ => sendError peerID "resize_failed" "failed to resize pane"
          | Ok _ => atomically (mmod (fun s => s <| h_lastDims ::= <[peerID := (cols, rows)]> |>))
          end
    end.

Definition handlePing (peerID : string) : G unit :=
  _ ← atomically (now ← ask_clock; mmod (fun s => s <| h_lastPingTime ::= <[peerID := now]> |>));
  _ ← sendMsg peerID (Msg KPong (mkPong "pong" 0)); mret tt.

Definition handleKillSession (peerID : string) (req : KillSessionRequest) : G unit :=
  if negb (ValidTmuxTarget (kr_Session req))
  then sendError peerID "kill_session_failed" ("invalid session ID: " +:+ Quote (kr_Session req))
  else
    r ← KillSession (kr_Session req);
    match r with
    | Err _ => sendError peerID "kill_session_failed" "failed to kill session"
    | Ok _ => _ ← sendMsg peerID (Msg KSessionEnded (mkSessionEnded "session_ended" (kr_Session req))); mret tt
    end.

Definition handleCreateSession (peerID : string) : G unit :=
  r ← CreateSession "" "";
  match r with
  | Err _ => sendError peerID "create_session_failed" "failed to create session"
  | Ok sessionID =>
      sessions ← ListAll;
      match sessions with
      | Err _ => sendError peerID "create_session_failed" "session created but failed to fetch details"
      | Ok sessions =>
          match find (fun s => bool_decide (ts_ID s = sessionID)) (toProtocolSessions sessions) with
          | None => sendError peerID "create_session_failed" "session created but not found in session list"
          | Some created =>
              _ ← sendMsg peerID (Msg KSessionCreated (mkSessionCreated "session_created" created)); mret tt
          end
      end
  end.

Definition HandleMessage (peerID : string) (msg : Message) : G unit :=
  match msg with
  | Msg KListSessions _ => handleListSessions peerID
  | Msg KAttach m => handleAttach peerID m
  | Msg KDetach _ => handleDetach peerID
  | Msg KInput m => handleInput peerID m
  | Msg KResize m => handleResize peerID m
  | Msg KPing _ => handlePing peerID
  | Msg KKillSession m => handleKillSession peerID m
  | Msg KCreateSession _ => handleCreateSession peerID
  | _ => mret tt
  end.

Definition PeerDisconnected (peerID : string) : G unit :=
  _ ← atomically (mmod (fun s => s <| h_lastPingTime ::= delete peerID |>));
  detachPeer peerID.

(** [GetStalePeers], for a reading of the clock. *)
Definition GetStalePeers (timeout now : Z) (s : Host) : list string :=
  (filter (fun '(_, lastPing) => now - lastPing > timeout) (map_to_list (h_lastPingTime s))).*1.

(** ** The environment *)

(** A call of the peer manager into the handler, until it returns. *)
Definition called (peerID : string) (p : G unit) : HThread :=
  goroutine (_ ← p; atomically (mmod (fun s => s <| h_busy ::= fun b => b ∖ {[peerID]} |>))).

Inductive hostEnv (s : Host) : Host -> option HThread -> Prop :=
| env_message peerID msg :
    peerID ∉ h_busy s ->
    hostEnv s (s <| h_busy ::= fun b => {[peerID]} ∪ b |>) (Some (called peerID (HandleMessage peerID msg)))
| env_disconnected peerID :
    peerID ∉ h_busy s ->
    hostEnv s (s <| h_busy ::= fun b => {[peerID]} ∪ b |>) (Some (called peerID (PeerDisconnected peerID)))
| env_output b br data :
    h_heap s !! b = Some br ->
    hostEnv s (s <| h_heap ::= <[b := br <| b_fifo ::= fun f => f ++ data |>]> |>) None
| env_room room : hostEnv s (s <| h_room := room |>) None
| env_shutdown : hostEnv s (s <| h_agentCanceled := true |>) None.

Definition host_steps : Host * list HThread -> Host * list HThread -> Prop := gsteps hostBody hostEnv.
End Requests.

(** [NewHandler] and a new [Client], with what the environment will answer. *)
Definition newHost (agentVersion : string) (hasStateFile : bool) (answers : list (string * option RunError))
    (dirs : list (option string)) (bools : list bool) (sends : list SendAnswer)
    (flate : Flate) (clock : list Z) (states : list (option State)) : Host :=
  mkHost 0 ∅ ∅ ∅ agentVersion hasStateFile ∅ ∅ ∅ ∅ ∅ ∅ ∅ ∅ ∅ ∅ false ∅ 0 ∅ ∅ ∅
    answers dirs bools sends true flate clock states [] [] [].
