(* ===== verification/HostInv.v ===== *)
(** * What the terminal side keeps invariant

    The tokens the goroutines of [Handler] and [Bridge] own, the invariant of
    the [Host] store, the preorder along which it moves, what each token
    protects, and one lemma per kind of section: which of these it respects. *)

From S2P Require Import Prelude GoLib Own Protocol Compress TmuxText Host Bridge Handler.
From S2P Require TitleFilter.
Open Scope Z_scope.

(** ** Tokens *)

Inductive Token :=
| TLock (pane : string)              (** a pane's lock *)
| TRelay (b : nat)                   (** to close [relayDone] *)
| TBridge (b : nat)                  (** to register a bridge, or to close it *)
| TStream (d : nat)                  (** to send on a stream, and to close [done] *)
| TPeer (peer : string).             (** to run the calls of a peer *)

#[export] Instance Token_eq_dec : EqDecision Token.
Proof. solve_decision. Defined.

#[export] Instance Token_countable : Countable Token.
Proof.
  apply (inj_countable'
    (fun k => match k with
      | TLock p => inl (inl p) | TPeer p => inl (inr p)
      | TRelay b => inr (inl b) | TBridge b => inr (inr (inl b)) | TStream d => inr (inr (inr d))
      end)
    (fun x => match x with
      | inl (inl p) => TLock p | inl (inr p) => TPeer p
      | inr (inl b) => TRelay b | inr (inr (inl b)) => TBridge b | inr (inr (inr d)) => TStream d
      end)).
  by intros [].
Defined.

Definition relays (s : Host) : gset nat :=
  dom (filter (fun p : nat * PaneBridge => b_relay p.2 <> RelayFinished) (h_heap s)).

Definition owned (s : Host) : gset Token :=
  set_map TLock (h_paneLocks s) ∪ set_map TRelay (relays s) ∪ set_map TBridge (h_held s) ∪
  set_map TStream (h_open s) ∪ set_map TPeer (h_busy s).

(** A token exists. *)
Definition in_use (k : Token) (s : Host) : Prop :=
  match k with
  | TLock p => p ∈ h_paneLocks s
  | TRelay b => exists br, h_heap s !! b = Some br /\ b_relay br <> RelayFinished
  | TBridge b => b ∈ h_held s
  | TStream d => d ∈ h_open s
  | TPeer p => p ∈ h_busy s
  end.

Lemma elem_of_owned k s : k ∈ owned s <-> in_use k s.
Proof.
  unfold owned. rewrite !elem_of_union, !elem_of_map. unfold relays. setoid_rewrite elem_of_dom.
  destruct k as [p|b|b|d|p]; cbn; unfold is_Some; setoid_rewrite map_lookup_filter_Some; naive_solver.
Qed.

Lemma owned_eq s s' : (forall k, in_use k s' <-> in_use k s) -> owned s' = owned s.
Proof. intros H. apply set_eq. intros k. by rewrite !elem_of_owned. Qed.

(** The order of waiting: a goroutine that owns a token waits for those below
    it only. *)
Definition rank (k : Token) : nat :=
  match k with
  | TLock _ => 0
  | TRelay _ => 1
  | TBridge _ => 2
  | TStream _ => 3
  | TPeer _ => 4
  end.

(** A stream no longer registered is one a detach may wait for. *)
Definition unregistered (st : Stream) (s : Host) : Prop :=
  h_bridges s !! st_peer st <> Some (st_bridge st).

Definition wanted (k : Token) (s : Host) : Prop :=
  match k with
  | TLock _ | TBridge _ => True
  | TRelay b => exists br, h_heap s !! b = Some br /\ b_done br = true /\ b_wClosed br = true
  | TStream d => exists st, h_streams s !! d = Some st /\ unregistered st s
  | TPeer _ => False
  end.

(** The bridge of a stream is closed before the stream ends. *)
Definition prereq (s : Host) (k : Token) : option Token :=
  match k with
  | TStream d => TBridge ∘ st_bridge <$> h_streams s !! d
  | _ => None
  end.

(** ** The pipes *)

(** What the pipe-pane commands did to a pane. *)
Inductive PipeCmd := PipeOpen (command : string) | PipeClose.

Definition pipe_cmd (pane : string) (c : Cmd) : option PipeCmd :=
  if decide (cmd_args c = pipeOff pane) then Some PipeClose
  else match cmd_args c, cmd_err c with
       | [a; b; q; command], None => if decide ([a; b; q] = pipeOff pane) then Some (PipeOpen command) else None
       | _, _ => None
       end.

Definition pipe_cmds (pane : string) (s : Host) : list PipeCmd := omap (pipe_cmd pane) (h_cmds s).

(** The abstract pane: at most one bridge owns its pipe. An attach takes the
    pipe over; only the owner's release closes it. *)
Definition spec_step (owner : option nat) (op : PipeOp) : option nat * list PipeCmd :=
  match op with
  | OpAttach b dir => (Some b, [PipeOpen (pipeCommand (fifoPath dir))])
  | OpRelease b => if decide (owner = Some b) then (None, [PipeClose]) else (owner, [])
  end.

Fixpoint spec_run (owner : option nat) (ops : list PipeOp) : option nat * list PipeCmd :=
  match ops with
  | [] => (owner, [])
  | op :: ops =>
      let '(owner1, cmds1) := spec_step owner op in
      let '(owner2, cmds2) := spec_run owner1 ops in
      (owner2, cmds1 ++ cmds2)
  end.

Definition pane_ops (pane : string) (s : Host) : list PipeOp :=
  omap (fun '(p, op) => if decide (p = pane) then Some op else None) (h_ops s).

Lemma spec_run_snoc owner ops op :
  spec_run owner (ops ++ [op]) =
  let '(owner1, cmds1) := spec_run owner ops in
  let '(owner2, cmds2) := spec_step owner1 op in (owner2, cmds1 ++ cmds2).
Proof.
  revert owner. induction ops as [|o ops IH]; intros owner; cbn [app spec_run].
  - destruct (spec_step owner op) as [o1 c1]. by rewrite app_nil_r.
  - destruct (spec_step owner o) as [o1 c1]. rewrite IH. destruct (spec_run o1 ops) as [o2 c2].
    destruct (spec_step o2 op) as [o3 c3]. by rewrite app_assoc.
Qed.

(** ** The log *)

(** Which stream a peer was last told it is attached to. *)
Definition current_step (peer : string) (cur : option nat) (e : Event) : option nat :=
  if decide (ev_peer e = peer) then
    match msg_kind (ev_msg e), ev_stream e with
    | KAttached, Some d => Some d
    | KDetached, _ => None
    | _, _ => cur
    end
  else cur.

Definition current (peer : string) (log : list Event) : option nat := foldl (current_step peer) None log.

Definition of_stream (d : nat) (log : list Event) : list Event :=
  filter (fun e => ev_stream e = Some d) log.

(** Everything sent for a stream is sent while its peer was last told it is
    attached to that stream; output belongs to a stream. *)
Definition in_turn (log : list Event) : Prop :=
  forall l1 e l2, log = l1 ++ e :: l2 ->
    (msg_kind (ev_msg e) = KOutput -> is_Some (ev_stream e)) /\
    forall d, ev_stream e = Some d -> msg_kind (ev_msg e) <> KAttached -> current (ev_peer e) l1 = Some d.

(** The protocol of one stream: attached, then output that is all compressed
    or all raw, each sent before the next; nothing after output that was not
    sent but at most one stream_reset. *)
Inductive Phase := PNew | PLive | PDead | PReset | PBad.

#[export] Instance Phase_eq_dec : EqDecision Phase.
Proof. solve_decision. Defined.

Definition is_reset (m : Message) : bool :=
  match m with
  | Msg KError e => bool_decide (er_Code e = errCodeStreamReset)
  | _ => false
  end.

Definition phase_step (st : Stream) (ph : Phase) (e : Event) : Phase :=
  if negb (bool_decide (ev_peer e = st_peer st)) then PBad else
  match msg_kind (ev_msg e) with
  | KAttached =>
      match ph with
      | PNew => if Bool.eqb (ev_deflated e) (st_deflate st) then PLive else PBad
      | _ => PBad
      end
  | KOutput =>
      match ph with
      | PLive => if Bool.eqb (ev_deflated e) (st_deflate st)
                 then (if ev_ok e then PLive else PDead) else PBad
      | _ => PBad
      end
  | _ =>
      if is_reset (ev_msg e) then
        match ph with
        | PLive | PDead => PReset
        | _ => PBad
        end
      else PBad
  end.

Definition phase (st : Stream) (l : list Event) : Phase := foldl (phase_step st) PNew l.

(** What of a stream's output reached the peer. *)
Definition payload (e : Event) : list byte :=
  match ev_msg e with
  | Msg KOutput o => if ev_ok e then oe_Data o else []
  | _ => []
  end.

Definition received (d : nat) (s : Host) : list byte := concat (map payload (of_stream d (h_log s))).

(** The bytes [sent] carry the text [plain]. *)
Definition sent_as (flate : Flate) (compressor : option OutputCompressor) (sent plain : list byte) : Prop :=
  match compressor with
  | Some c => carries flate c sent plain
  | None => sent = plain
  end.

(** The output before the stream starts, for some state of the cursor. *)
Definition opening (br : PaneBridge) (pre : list byte) : Prop :=
  pre = [] \/ exists reattach cs, preStreamData reattach (b_initialContent br) cs = Some pre.

(** What reached the peer is the text of a stream that opens as it may and
    goes on with what was read from the bridge, without the titles. *)
Definition delivered (d : nat) (st : Stream) (br : PaneBridge) (s : Host) : Prop :=
  exists compressor pre plain, deflates compressor = st_deflate st /\ opening br pre /\
    sent_as (h_flate s) compressor (received d s) plain /\
    plain `prefix_of` pre ++ TitleFilter.stripped (b_read br).

(** The bytes on their way through the relay keep their order. *)
Definition flow (br : PaneBridge) : Prop := (b_read br ++ b_pipe br) `prefix_of` b_taken br.

(** ** The commands *)

(** Everything an argument of a tmux command may be: fixed text, a checked
    target, a number, the name of an input buffer, the pipe command of a FIFO,
    or what tmux answered to the window query. *)
Definition fixed_args : list string :=
  ["has-session"; "list-sessions"; "list-windows"; "list-panes"; "new-session"; "kill-session";
   "resize-window"; "resize-pane"; "set-window-option"; "display-message"; "load-buffer";
   "paste-buffer"; "delete-buffer"; "capture-pane"; "pipe-pane"; "window-size";
   "-t"; "-F"; "-d"; "-P"; "-p"; "-e"; "-b"; "-r"; "-x"; "-y"; "-u"; "-"; ";";
   sessionFormat; windowFormat; paneFormat; "#{session_id}"; "#{window_panes}";
   "#{session_id}:#{window_id}"; "#{cursor_x}:#{cursor_y}:#{alternate_on}:#{cursor_flag}"; "#{pane_id}"].

Definition arg_ok (history : list Cmd) (arg : string) : Prop :=
  arg ∈ fixed_args \/ ValidTmuxTarget arg = true \/ (exists n, arg = Itoa n) \/
  (exists n, arg = inputBuffer n) \/ (exists dir, arg = pipeCommand (fifoPath dir)) \/
  (exists c pane, c ∈ history /\ cmd_args c = windowQuery pane /\ arg = TrimSpace (cmd_out c)).

Definition cmd_ok (history : list Cmd) (c : Cmd) : Prop :=
  Forall (arg_ok history) (cmd_args c) /\
  (is_Some (cmd_stdin c) -> head (cmd_args c) = Some "load-buffer").

Definition cmds_ok (cmds : list Cmd) : Prop :=
  forall l1 c l2, cmds = l1 ++ c :: l2 -> cmd_ok l1 c.

(** ** The invariant *)

Definition bridge_shut (b : nat) (s : Host) : Prop :=
  exists br, h_heap s !! b = Some br /\ b_closed br = true /\ b_wClosed br = true.

(** The pane's record, the operations on it and the commands run agree. *)
Definition pipe_ok (pane : string) (s : Host) : Prop :=
  spec_run None (pane_ops pane s) = (h_pipes s !! pane, pipe_cmds pane s).

Record hinv (s : Host) : Prop := {
  i_heap : forall b br, h_heap s !! b = Some br -> (b < h_next s)%nat;
  i_streams : forall d st, h_streams s !! d = Some st -> (d < h_next s)%nat /\ is_Some (h_heap s !! st_bridge st);
  i_open : forall d, d ∈ h_open s -> is_Some (h_streams s !! d);
  i_held : forall b, b ∈ h_held s -> is_Some (h_heap s !! b);
  i_reg : forall p b, h_bridges s !! p = Some b ->
    (b ∉ h_held s) /\ (exists br, h_heap s !! b = Some br /\ b_closed br = false) /\
    exists d st, h_streams s !! d = Some st /\ st_peer st = p /\ st_bridge st = b /\
      h_cancels s !! p = Some (st_ctx st);
  i_inj : forall d1 d2 st1 st2, h_streams s !! d1 = Some st1 -> h_streams s !! d2 = Some st2 ->
    st_bridge st1 = st_bridge st2 -> d1 = d2;
  i_done : forall p d, h_streamDone s !! p = Some d ->
    d ∈ h_open s /\ exists st, h_streams s !! d = Some st /\ st_peer st = p;
  i_gone : forall d st, h_streams s !! d = Some st -> unregistered st s -> st_bridge st ∉ h_held s ->
    st_ctx st ∈ h_canceled s /\ bridge_shut (st_bridge st) s;
  i_pipe : forall p, p ∉ h_paneLocks s -> pipe_ok p s;
  i_tagged : forall e d, e ∈ h_log s -> ev_stream e = Some d -> is_Some (h_streams s !! d);
  i_turn : in_turn (h_log s);
  i_phase : forall d st, h_streams s !! d = Some st -> phase st (of_stream d (h_log s)) <> PBad;
  i_cmds : cmds_ok (h_cmds s);
  i_panes : (forall b br, h_heap s !! b = Some br -> ValidTmuxTarget (b_paneID br) = true) /\
    (forall p pane, h_paneForPeer s !! p = Some pane -> ValidTmuxTarget pane = true) /\
    (forall pane, pane ∈ h_forced s -> ValidTmuxTarget pane = true);
  i_flow : forall b br, h_heap s !! b = Some br -> flow br;
  i_unread : forall b br, h_heap s !! b = Some br -> b_read br <> [] ->
    exists d st, h_streams s !! d = Some st /\ st_bridge st = b;
  i_delivered : forall d st br, h_streams s !! d = Some st -> h_heap s !! st_bridge st = Some br ->
    delivered d st br s
}.

(** How a bridge may change. *)
Record bridge_le (b b' : PaneBridge) : Prop := {
  ble_pane : b_paneID b' = b_paneID b;
  ble_closed : b_closed b = true -> b_closed b' = true;
  ble_done : b_done b = true -> b_done b' = true;
  ble_wClosed : b_wClosed b = true -> b_wClosed b' = true;
  ble_initial : b_initialContent b' = b_initialContent b;
  ble_read : b_read b `prefix_of` b_read b'
}.

Definition quiet_stream (d : nat) (st : Stream) (s : Host) : Prop :=
  h_streamDone s !! st_peer st <> Some d.

Record hle (s s' : Host) : Prop := {
  r_streams : forall d st, h_streams s !! d = Some st -> h_streams s' !! d = Some st;
  r_canceled : h_canceled s ⊆ h_canceled s';
  r_agent : h_agentCanceled s = true -> h_agentCanceled s' = true;
  r_heap : forall b br, h_heap s !! b = Some br -> exists br', h_heap s' !! b = Some br' /\ bridge_le br br';
  r_unreg : forall d st, h_streams s !! d = Some st -> unregistered st s -> unregistered st s';
  r_held : forall d st, h_streams s !! d = Some st -> unregistered st s -> st_bridge st ∉ h_held s ->
    st_bridge st ∉ h_held s';
  r_open : forall d st, h_streams s !! d = Some st -> d ∉ h_open s -> d ∉ h_open s';
  r_quiet : forall d st, h_streams s !! d = Some st -> quiet_stream d st s ->
    quiet_stream d st s' /\ of_stream d (h_log s') = of_stream d (h_log s);
  r_log : h_log s `prefix_of` h_log s';
  r_cmds : h_cmds s `prefix_of` h_cmds s';
  r_flate : h_flate s' = h_flate s
}.

(** What the relay goroutine alone decides: its own state, what it took, and
    what it put into the pipe. *)
Definition relay_view (br : PaneBridge) := (b_relay br, b_taken br, b_read br ++ b_pipe br).

(** What a stream's goroutine alone adds to the log, and what its peer takes
    itself to be attached to. *)
Definition log_kept (d : nat) (s s' : Host) : Prop :=
  of_stream d (h_log s') = of_stream d (h_log s) /\
  forall st, h_streams s !! d = Some st -> h_streamDone s !! st_peer st = Some d ->
    h_streams s' !! d = Some st /\ h_streamDone s' !! st_peer st = Some d /\
    current (st_peer st) (h_log s') = current (st_peer st) (h_log s).

(** What each token protects. *)
Definition frame (k : Token) (s s' : Host) : Prop :=
  match k with
  | TLock p =>
      h_pipes s' !! p = h_pipes s !! p /\ pipe_cmds p s' = pipe_cmds p s /\ pane_ops p s' = pane_ops p s
  | TRelay b =>
      forall br, h_heap s !! b = Some br -> exists br', h_heap s' !! b = Some br' /\ relay_view br' = relay_view br
  | TBridge b =>
      (forall br, h_heap s !! b = Some br -> exists br', h_heap s' !! b = Some br' /\ b_closed br' = b_closed br) /\
      forall d st, h_streams s' !! d = Some st -> st_bridge st = b -> h_streams s !! d = Some st
  | TStream d =>
      log_kept d s s' /\
      forall st, h_streams s !! d = Some st -> h_streams s' !! d = Some st /\
        forall br, h_heap s !! st_bridge st = Some br ->
          exists br', h_heap s' !! st_bridge st = Some br' /\ b_read br' = b_read br
  | TPeer p =>
      (h_streamDone s' !! p = h_streamDone s !! p \/ h_streamDone s' !! p = None) /\
      (h_bridges s' !! p = h_bridges s !! p \/ h_bridges s' !! p = None)
  end.

#[global] Instance hle_preorder : PreOrder hle.
Proof.
  split.
  - intros s. split; try done. intros b br Hb. exists br. split; [done|by split].
  - intros s1 s2 s3 [] []. split; [eauto|set_solver|eauto| |eauto|eauto|eauto| |by etrans|by etrans|congruence].
    + intros b br Hb. destruct (r_heap0 b br Hb) as (br2 & Hb2 & []).
      destruct (r_heap1 b br2 Hb2) as (br3 & Hb3 & []). exists br3. split; [done|].
      split; [congruence|eauto|eauto|eauto|congruence|by etrans].
    + intros d st Hd Hq. destruct (r_quiet0 d st Hd Hq) as [Hq2 Hl2].
      destruct (r_quiet1 d st (r_streams0 d st Hd) Hq2) as [Hq3 Hl3]. split; [done|congruence].
Qed.

(** What a token protects was not touched. *)
Ltac untouched_go :=
  first [ done | by left | split; untouched_go
        | let br := fresh "br" in let H := fresh in intros br H; exists br; by split
        | let x := fresh in intros x; untouched_go ].
Ltac untouched := cbn; unfold log_kept; untouched_go.

#[global] Instance log_kept_preorder d : PreOrder (log_kept d).
Proof.
  split; [by split; eauto|]. intros s1 s2 s3 [H1 G1] [H2 G2]. split; [congruence|]. intros st Hst Hd.
  destruct (G1 st Hst Hd) as (Hst2 & Hd2 & Hc2). destruct (G2 st Hst2 Hd2) as (Hst3 & Hd3 & Hc3).
  split_and!; [done|done|congruence].
Qed.

#[global] Instance frame_preorder k : PreOrder (frame k).
Proof.
  split.
  - intros s. destruct k; untouched.
  - intros s1 s2 s3. destruct k as [p|b|b|d|p]; cbn.
    + intros (?&?&?) (?&?&?). split_and!; congruence.
    + intros H1 H2 br Hb. destruct (H1 br Hb) as (br2 & Hb2 & He2).
      destruct (H2 br2 Hb2) as (br3 & Hb3 & He3). exists br3. split; [done|congruence].
    + intros [H1 G1] [H2 G2]. split; [|eauto].
      intros br Hb. destruct (H1 br Hb) as (br2 & Hb2 & He2).
      destruct (H2 br2 Hb2) as (br3 & Hb3 & He3). exists br3. split; [done|congruence].
    + intros [L1 B1] [L2 B2]. split; [by etrans|].
      { intros st Hst. destruct (B1 st Hst) as [Hst2 Hr1]. destruct (B2 st Hst2) as [Hst3 Hr2]. split; [done|].
        intros br Hb. destruct (Hr1 br Hb) as (br2 & Hb2 & He2). destruct (Hr2 br2 Hb2) as (br3 & Hb3 & He3).
        exists br3. split; [done|congruence]. }
    + intros [[|] [|]] [[|] [|]]; split; intuition congruence.
Qed.

#[global] Arguments of_stream : simpl never.
#[global] Arguments current : simpl never.
#[global] Arguments phase : simpl never.
#[global] Arguments pipe_cmds : simpl never.
#[global] Arguments pane_ops : simpl never.

(** ** Sections that leave the tokens alone *)

Abbreviation hstill := (still hinv hle owned frame).
Abbreviation hguar := (guar hinv hle owned frame).
Abbreviation hkeeps := (keeps hle frame).
Abbreviation hrely := (rely hle owned frame).

Lemma hstill_trans s1 s2 s3 : hstill s1 s2 -> hstill s2 s3 -> hstill s1 s3.
Proof.
  intros (H1 & HR1 & Hf1 & Ho1) (H2 & HR2 & Hf2 & Ho2).
  split_and!; [done|by etrans| |congruence]. intros k. etrans; auto.
Qed.

(** What the specification does not speak about. *)
Definition view (s : Host) :=
  (h_pipes s, h_paneLocks s, h_bridges s, h_cancels s, h_streamDone s,
   (h_heap s, h_canceled s, h_agentCanceled s, h_open s, h_next s, h_streams s),
   (h_held s, h_busy s, h_cmds s, h_log s, h_ops s, h_paneForPeer s, h_forced s, h_flate s)).

Lemma still_view s s' : hinv s -> view s' = view s -> hstill s s'.
Proof.
  intros HI Hv. destruct s, s'. unfold view in Hv. cbn in Hv. simplify_eq.
  destruct (still_refl hinv hle owned frame _ HI) as (_ & HR & Hf & Ho).
  destruct HI. split_and!.
  - split; assumption.
  - destruct HR. split; assumption.
  - intros k. specialize (Hf k). destruct k; exact Hf.
  - reflexivity.
Qed.

(** Only the listed fields differ. *)
Ltac other_fields HI :=
  destruct HI; split; cbn; try assumption; eauto.

Ltac same_owned := apply owned_eq; intros []; reflexivity.

Lemma hle_refl_cmds s c : hle s (s <| h_cmds ::= fun l => l ++ [c] |>).
Proof.
  split; cbn; try done; eauto using prefix_app_r.
  - intros b br Hb. exists br. split; [done|by split].
Qed.

Lemma cmds_ok_snoc l c : cmds_ok l -> cmd_ok l c -> cmds_ok (l ++ [c]).
Proof.
  intros Hl Hc l1 c' l2 Heq. destruct l2 as [|x l2 _] using rev_ind.
  - apply app_inj_tail in Heq as [<- <-]. done.
  - rewrite app_comm_cons, app_assoc in Heq. apply app_inj_tail in Heq as [-> _]. by eapply Hl.
Qed.

Lemma still_cmd s c :
  hinv s -> cmd_ok (h_cmds s) c -> (forall p, pipe_cmd p c = None) ->
  hstill s (s <| h_cmds ::= fun l => l ++ [c] |>).
Proof.
  intros HI Hc Hp.
  assert (Hpc : forall p, pipe_cmds p (s <| h_cmds ::= fun l => l ++ [c] |>) = pipe_cmds p s).
  { intros p. unfold pipe_cmds. cbn. rewrite omap_app. cbn. rewrite Hp. by rewrite app_nil_r. }
  split_and!.
  - destruct HI. split; cbn; try assumption.
    + intros p Hl. unfold pipe_ok. rewrite Hpc. by apply i_pipe0.
    + by apply cmds_ok_snoc.
  - apply hle_refl_cmds.
  - intros []; cbn; rewrite ?Hpc; untouched.
  - same_owned.
Qed.

(** *** The log *)

Lemma of_stream_snoc d l e :
  of_stream d (l ++ [e]) = of_stream d l ++ (if decide (ev_stream e = Some d) then [e] else []).
Proof. unfold of_stream. rewrite filter_app. cbn. by destruct (decide _). Qed.

Lemma current_snoc p l e : current p (l ++ [e]) = current_step p (current p l) e.
Proof. unfold current. by rewrite foldl_app. Qed.

Lemma phase_snoc st l e : phase st (l ++ [e]) = phase_step st (phase st l) e.
Proof. unfold phase. by rewrite foldl_app. Qed.

Lemma in_turn_snoc l e :
  in_turn l -> (msg_kind (ev_msg e) = KOutput -> is_Some (ev_stream e)) ->
  (forall d, ev_stream e = Some d -> msg_kind (ev_msg e) <> KAttached -> current (ev_peer e) l = Some d) ->
  in_turn (l ++ [e]).
Proof.
  intros Hl Ho Hc l1 e' l2 Heq. destruct l2 as [|x l2 _] using rev_ind.
  - apply app_inj_tail in Heq as [<- <-]. done.
  - rewrite app_comm_cons, app_assoc in Heq. apply app_inj_tail in Heq as [-> _]. by eapply Hl.
Qed.

(** What was delivered stays delivered. *)
Lemma delivered_mono d st br br' s s' :
  h_flate s' = h_flate s -> of_stream d (h_log s') = of_stream d (h_log s) ->
  b_initialContent br' = b_initialContent br -> b_read br `prefix_of` b_read br' ->
  delivered d st br s -> delivered d st br' s'.
Proof.
  intros Hf Hl Hi Hr (c & pre & plain & Hc & Ho & Hs & Hp). exists c, pre, plain.
  unfold opening, received in *. rewrite Hf, Hl, Hi. split_and!; [done..|].
  etrans; [exact Hp|]. apply prefix_app. by apply TitleFilter.stripped_prefix.
Qed.

Lemma received_event d s e :
  received d (log_event e s) = received d s ++ (if decide (ev_stream e = Some d) then payload e else []).
Proof.
  unfold received, log_event. cbn. rewrite of_stream_snoc, map_app, concat_app. f_equal.
  destruct (decide _); [apply app_nil_r|done].
Qed.

Lemma delivered_silent d st br s e : payload e = [] -> delivered d st br s -> delivered d st br (log_event e s).
Proof.
  intros He (c & pre & plain & Hc & Ho & Hs & Hp). exists c, pre, plain. rewrite received_event, He.
  destruct (decide _); by rewrite app_nil_r.
Qed.

(** A message of no stream that tells the peer nothing about its attachment,
    or a detached event when the peer has no stream. *)
Definition plain_event (s : Host) (e : Event) : Prop :=
  ev_stream e = None /\ msg_kind (ev_msg e) <> KOutput /\
  (msg_kind (ev_msg e) = KDetached -> h_streamDone s !! ev_peer e = None).

Lemma still_event s e : hinv s -> plain_event s e -> hstill s (log_event e s).
Proof.
  intros HI (Hs & Ho & Hd). unfold log_event.
  assert (Hof : forall d, of_stream d (h_log s ++ [e]) = of_stream d (h_log s)).
  { intros d. rewrite of_stream_snoc, Hs. cbn. by rewrite app_nil_r. }
  assert (Hcur : forall p, h_streamDone s !! p <> None -> current p (h_log s ++ [e]) = current p (h_log s)).
  { intros p Hp. rewrite current_snoc. unfold current_step. rewrite Hs.
    destruct (decide _) as [<-|]; [|done]. destruct (msg_kind (ev_msg e)); try done. by destruct Hp; apply Hd. }
  split_and!.
  - destruct HI. split; cbn; try assumption.
    + intros e' d [He|He]%elem_of_app Hst; [eauto|]. apply list_elem_of_singleton in He. congruence.
    + apply in_turn_snoc; [done|done|]. intros d. by rewrite Hs.
    + intros d st Hst. rewrite Hof. auto.
    + intros d st br Hst Hb. by apply (delivered_mono d st br br s); [|apply Hof| | |apply i_delivered0].
  - split; cbn; try done;
      first [by apply prefix_app_r | intros b br Hb; exists br; split; [done|by split] | intros; by rewrite Hof].
  - intros []; try untouched. cbn. split; [|untouched]. split; [apply Hof|]. intros st Hst Hdone. split_and!; [done|done|].
    apply Hcur. by rewrite Hdone.
  - same_owned.
Qed.

(** What the owner of an active stream may log for it. *)
Definition stream_event (s : Host) (d : nat) (st : Stream) (e : Event) : Prop :=
  h_streams s !! d = Some st /\ h_streamDone s !! st_peer st = Some d /\
  ev_stream e = Some d /\ ev_peer e = st_peer st /\
  phase_step st (phase st (of_stream d (h_log s))) e <> PBad /\
  (msg_kind (ev_msg e) <> KAttached -> current (st_peer st) (h_log s) = Some d) /\
  forall br, h_heap s !! st_bridge st = Some br -> delivered d st br (log_event e s).

Lemma stream_event_step s d st e X :
  hinv s -> stream_event s d st e -> TStream d ∈ X ->
  hguar X s (log_event e s) /\ owned (log_event e s) = owned s /\
  hle s (log_event e s) /\ forall k, k <> TStream d -> frame k s (log_event e s).
Proof.
  intros HI (Hst & Hdone & Hs & Hpeer & Hph & Hcur & Hdel) HX. unfold log_event.
  assert (Hof : forall d', d' <> d -> of_stream d' (h_log s ++ [e]) = of_stream d' (h_log s)).
  { intros d' Hne. rewrite of_stream_snoc, Hs. rewrite decide_False by congruence. by rewrite app_nil_r. }
  assert (Hle : hle s (s <| h_log ::= fun l => l ++ [e] |>)).
  { split; cbn; try done;
      first [by apply prefix_app_r | intros b br Hb; exists br; split; [done|by split] | idtac].
    intros d' st' Hst' Hq. rewrite Hof; [done|]. intros ->. apply Hq. unfold quiet_stream in *. congruence. }
  assert (Hfr : forall k, k <> TStream d -> frame k s (s <| h_log ::= fun l => l ++ [e] |>)).
  { intros k Hk. destruct k as [p|b|b|d'|p]; cbn; eauto.
    assert (Hne : d' <> d) by congruence. split; [|untouched]. split; [by apply Hof|].
    intros st' Hst' Hd'. split_and!; [done|done|]. cbn; rewrite current_snoc. unfold current_step.
    rewrite decide_False; [done|]. intros Heq. congruence. }
  assert (Hinv : hinv (s <| h_log ::= fun l => l ++ [e] |>)).
  { destruct HI. split; cbn; try assumption.
    - intros e' d' [He|He]%elem_of_app Hst'; [eauto|]. apply list_elem_of_singleton in He. naive_solver.
    - apply in_turn_snoc; [done|by rewrite Hs|]. intros d' Hd' Hk. rewrite Hpeer. rewrite Hcur by done. congruence.
    - intros d' st' Hst'. destruct (decide (d' = d)) as [->|Hne].
      + simplify_eq. rewrite of_stream_snoc, Hs. rewrite decide_True by done. by rewrite phase_snoc.
      + rewrite Hof by done. auto.
    - intros d' st' br Hst' Hb. destruct (decide (d' = d)) as [->|Hne]; [simplify_eq; by apply Hdel|].
      apply (delivered_mono d' st' br br s); [done|by apply Hof|done|done|by apply i_delivered0]. }
  split_and!; try done. split_and!; [done|done|]. intros k _ Hk. apply Hfr. by intros ->.
Qed.

(** *** Bridges *)

Lemma heap_step s b br br' :
  hinv s -> h_heap s !! b = Some br -> bridge_le br br' -> flow br' ->
  (b_closed br' = b_closed br \/ b ∈ h_held s) ->
  (b_read br' = b_read br \/ exists d st, h_streams s !! d = Some st /\ st_bridge st = b) ->
  let s' := s <| h_heap ::= <[b := br']> |> in
  hinv s' /\ hle s s' /\ forall k, k <> TRelay b -> k <> TBridge b ->
    (forall d st, k = TStream d -> h_streams s !! d = Some st -> st_bridge st = b -> b_read br' = b_read br) ->
    frame k s s'.
Proof.
  intros HI Hb Hle Hflow Hcl Hrd s'.
  assert (Hlook : forall b0 br0, h_heap s !! b0 = Some br0 -> exists br1, h_heap s' !! b0 = Some br1 /\ bridge_le br0 br1).
  { intros b0 br0 Hb0. cbn. destruct (decide (b0 = b)) as [->|Hne].
    - rewrite lookup_insert_eq. simplify_eq. eauto.
    - rewrite lookup_insert_ne by done. exists br0. split; [done|by split]. }
  assert (Hback : forall b0 br1, h_heap s' !! b0 = Some br1 -> exists br0, h_heap s !! b0 = Some br0 /\ b_paneID br1 = b_paneID br0).
  { intros b0 br1. cbn. destruct (decide (b0 = b)) as [->|Hne].
    - rewrite lookup_insert_eq. intros [= <-]. exists br. split; [done|apply Hle].
    - rewrite lookup_insert_ne by done. eauto. }
  assert (Hex : forall b0, is_Some (h_heap s !! b0) -> is_Some (h_heap s' !! b0)).
  { intros b0 [br0 Hb0]. destruct (Hlook b0 br0 Hb0) as (br1 & H1 & _). eauto. }
  split_and!.
  - destruct HI. split; try assumption.
    + intros b0 br0 Hb0. destruct (Hback b0 br0 Hb0) as (br1 & H1 & _). by apply (i_heap0 b0 br1).
    + intros d st Hst. destruct (i_streams0 d st Hst). split; auto.
    + intros b0 Hb0. by apply Hex, i_held0.
    + intros p b0 Hp. destruct (i_reg0 p b0 Hp) as (Hnh & (br0 & Hb0 & Hc0) & Hrest).
      split_and!; [done| |done]. cbn. destruct (decide (b0 = b)) as [->|Hne].
      * rewrite lookup_insert_eq. exists br'. simplify_eq. split; [done|].
        destruct Hcl as [->|Hin]; done.
      * rewrite lookup_insert_ne by done. eauto.
    + intros d st Hst Hun Hnh. destruct (i_gone0 d st Hst Hun Hnh) as (Hc & br0 & Hb0 & Hcl0 & Hw0).
      split; [done|]. destruct (Hlook _ _ Hb0) as (br1 & Hb1 & []). exists br1. auto.
    + destruct i_panes0 as (Hp & ? & ?). split_and!; try assumption.
      intros b0 br0 Hb0. destruct (Hback b0 br0 Hb0) as (br1 & H1 & ->). eauto.
    + intros b0 br0. cbn. destruct (decide (b0 = b)) as [->|Hne].
      * rewrite lookup_insert_eq. by intros [= <-].
      * rewrite lookup_insert_ne by done. eauto.
    + intros b0 br0. cbn. destruct (decide (b0 = b)) as [->|Hne].
      * rewrite lookup_insert_eq. intros [= <-] Hne. destruct Hrd as [Heq|Hex0]; [|done].
        rewrite Heq in Hne. eauto.
      * rewrite lookup_insert_ne by done. eauto.
    + intros d st br0 Hst. cbn. destruct (decide (st_bridge st = b)) as [Heq|Hne].
      * rewrite Heq, lookup_insert_eq. intros [= <-]. subst b.
        apply (delivered_mono d st br br' s); [done|done|apply Hle|apply Hle|by apply i_delivered0].
      * rewrite lookup_insert_ne by done. intros Hb0. by apply i_delivered0.
  - split; try done.
  - intros k Hk1 Hk2 Hk3. destruct k as [p|b0|b0|d|p]; cbn; eauto.
    + intros br0 Hb0. rewrite lookup_insert_ne by congruence. eauto.
    + split; [|done]. intros br0 Hb0. rewrite lookup_insert_ne by congruence. eauto.
    + split; [done|]. intros st Hst. split; [done|]. intros br0 Hb0.
      destruct (decide (st_bridge st = b)) as [Heq|Hne].
      * rewrite Heq in *. rewrite lookup_insert_eq. simplify_eq. exists br'. split; [done|]. by eapply Hk3.
      * rewrite lookup_insert_ne by done. eauto.
Qed.

Lemma heap_frames s b br br' :
  h_heap s !! b = Some br ->
  (relay_view br' = relay_view br -> frame (TRelay b) s (s <| h_heap ::= <[b := br']> |>)) /\
  (b_closed br' = b_closed br -> frame (TBridge b) s (s <| h_heap ::= <[b := br']> |>)).
Proof.
  intros Hb. split; intros He; cbn; [|split; [|done]]; intros br0 Hb0; rewrite Hb in Hb0;
    injection Hb0 as <-; rewrite lookup_insert_eq; eauto.
Qed.

Lemma owned_heap s b br br' :
  h_heap s !! b = Some br -> (b_relay br' = RelayFinished <-> b_relay br = RelayFinished) ->
  owned (s <| h_heap ::= <[b := br']> |>) = owned s.
Proof.
  intros Hb Hr. apply owned_eq. intros [p|b0|b0|d|p]; cbn; try done.
  destruct (decide (b0 = b)) as [->|Hne].
  - rewrite lookup_insert_eq. naive_solver.
  - by rewrite lookup_insert_ne.
Qed.

(** A change of a bridge anybody may make. *)
Definition steady (br br' : PaneBridge) : Prop :=
  bridge_le br br' /\ b_closed br' = b_closed br /\ b_relay br' = b_relay br /\
  b_taken br' = b_taken br /\ b_read br' = b_read br /\ b_pipe br' = b_pipe br.

Lemma steady_flow s b br br' : hinv s -> h_heap s !! b = Some br -> steady br br' -> flow br'.
Proof.
  intros HI Hb (_ & _ & _ & Ht & Hr & Hp). unfold flow. rewrite Ht, Hr, Hp. by apply (i_flow s HI b).
Qed.

Lemma still_bridge s b br br' :
  hinv s -> h_heap s !! b = Some br -> steady br br' -> hstill s (s <| h_heap ::= <[b := br']> |>).
Proof.
  intros HI Hb Hst. pose proof (steady_flow s b br br' HI Hb Hst) as Hfl.
  destruct Hst as (Hle & Hc & Hr & Ht & Hrd & Hp).
  destruct (heap_step s b br br' HI Hb Hle Hfl (or_introl Hc) (or_introl Hrd)) as (HI' & HR & Hf).
  destruct (heap_frames s b br br' Hb) as [Hf1 Hf2]. split_and!; [done|done| |].
  - intros k. destruct (decide (k = TRelay b)) as [->|]; [apply Hf1; unfold relay_view; congruence|].
    destruct (decide (k = TBridge b)) as [->|]; [auto|]. by apply Hf.
  - apply (owned_heap s b br); [done|]. by rewrite Hr.
Qed.

(** A section that changes only what one of its tokens protects. *)
Lemma own_change k s s' X :
  hinv s' -> hle s s' -> (forall k', k' <> k -> frame k' s s') -> owned s' = owned s -> k ∈ X -> X ⊆ owned s ->
  hguar X s s' /\ handover owned X X ∅ s s' /\ hkeeps (X ∖ {[k]}) s s'.
Proof.
  intros HI HR Hf Ho Hk HX. split_and!; [split_and!; [done|done|]|by apply handover_same|split; [done|]].
  - intros k' _ Hk'. apply Hf. by intros ->.
  - intros k' Hk'. apply Hf. set_solver.
Qed.

(** The relay moves bytes, or starts. *)
Lemma relay_change s b br br' X :
  hinv s -> h_heap s !! b = Some br -> bridge_le br br' -> flow br' -> b_closed br' = b_closed br ->
  b_read br' = b_read br -> (b_relay br' = RelayFinished <-> b_relay br = RelayFinished) ->
  TRelay b ∈ X -> X ⊆ owned s ->
  let s' := s <| h_heap ::= <[b := br']> |> in
  hguar X s s' /\ handover owned X X ∅ s s' /\ hkeeps (X ∖ {[TRelay b]}) s s'.
Proof.
  intros HI Hb Hle Hfl Hc Hrd Hr HX HXs s'.
  destruct (heap_step s b br br' HI Hb Hle Hfl (or_introl Hc) (or_introl Hrd)) as (HI' & HR & Hf).
  destruct (heap_frames s b br br' Hb) as [_ Hf2].
  apply own_change; [done|done| |by apply (owned_heap s b br)|done|done].
  intros k Hk. destruct (decide (k = TBridge b)) as [->|]; [by apply Hf2|by apply Hf].
Qed.

(** The stream takes bytes out of the pipe. *)
Lemma read_change s d st br br' X :
  hinv s -> h_streams s !! d = Some st -> h_heap s !! st_bridge st = Some br -> bridge_le br br' ->
  b_closed br' = b_closed br -> relay_view br' = relay_view br -> TStream d ∈ X -> X ⊆ owned s ->
  let s' := s <| h_heap ::= <[st_bridge st := br']> |> in
  hguar X s s' /\ handover owned X X ∅ s s' /\ hkeeps (X ∖ {[TStream d]}) s s'.
Proof.
  intros HI Hst Hb Hle Hc Hv HX HXs s'. unfold relay_view in Hv. injection Hv as Hr Ht Hp.
  assert (Hfl : flow br') by (unfold flow; rewrite Ht, Hp; by apply (i_flow s HI (st_bridge st))).
  destruct (heap_step s (st_bridge st) br br' HI Hb Hle Hfl (or_introl Hc)) as (HI' & HR & Hf); [by right; eauto|].
  destruct (heap_frames s (st_bridge st) br br' Hb) as [Hf1 Hf2].
  apply own_change; [done|done| |apply (owned_heap s (st_bridge st) br); [done|by rewrite Hr]|done|done].
  intros k Hk. destruct (decide (k = TBridge (st_bridge st))) as [->|]; [by apply Hf2|].
  destruct (decide (k = TRelay (st_bridge st))) as [->|]; [apply Hf1; unfold relay_view; congruence|].
  apply Hf; [done|done|]. intros d0 st0 -> Hst0 Heq. destruct Hk. f_equal. by eapply (i_inj s HI).
Qed.

(** *** Contexts and the size tracker *)

Lemma still_canceled s ctx : hinv s -> hstill s (s <| h_canceled ::= fun c => {[ctx]} ∪ c |>).
Proof.
  intros HI. split_and!.
  - destruct HI. split; try assumption. cbn. intros d st Hst Hun Hnh.
    destruct (i_gone0 d st Hst Hun Hnh). split; [set_solver|done].
  - split; cbn; try done; [set_solver|]. intros b br Hb. exists br. split; [done|by split].
  - intros []; untouched.
  - done.
Qed.

Lemma still_forced s f :
  hinv s -> (forall pane, pane ∈ f -> ValidTmuxTarget pane = true) -> hstill s (s <| h_forced := f |>).
Proof.
  intros HI Hf. split_and!.
  - destruct HI. split; try assumption. destruct i_panes0 as (? & ? & ?). by split_and!.
  - split; cbn; try done. intros b br Hb. exists br. split; [done|by split].
  - intros []; untouched.
  - done.
Qed.

(** *** Pane locks and pipes *)

(** A section that changes nothing but which tokens exist. *)
Lemma lock_step s p :
  hinv s -> p ∉ h_paneLocks s ->
  let s' := s <| h_paneLocks ::= fun l => {[p]} ∪ l |> in
  hguar ∅ s s' /\ (forall k, frame k s s') /\ (TLock p ∉ owned s) /\ owned s' = owned s ∪ {[TLock p]}.
Proof.
  intros HI Hp s'.
  assert (HR : hle s s') by (split; cbn; try done; intros b br Hb; exists br; split; [done|by split]).
  assert (Hf : forall k, frame k s s') by (intros []; untouched).
  split_and!; [split_and!| | |]; try done.
  - destruct HI. split; try assumption. cbn. intros p0 Hp0. apply i_pipe0. set_solver.
  - by rewrite elem_of_owned.
  - apply set_eq. intros k. rewrite elem_of_union, elem_of_singleton, !elem_of_owned.
    destruct k; cbn; try (split; [by left|intros [?|?]; done]). set_solver.
Qed.

Lemma unlock_step s p :
  hinv s -> pipe_ok p s ->
  let s' := s <| h_paneLocks ::= fun l => l ∖ {[p]} |> in
  hguar ∅ s s' /\ (forall k, frame k s s') /\ owned s' = owned s ∖ {[TLock p]}.
Proof.
  intros HI Hp s'.
  assert (HR : hle s s') by (split; cbn; try done; intros b br Hb; exists br; split; [done|by split]).
  assert (Hf : forall k, frame k s s') by (intros []; untouched).
  split_and!; [split_and!| |]; try done.
  - destruct HI. split; try assumption. cbn. intros p0 Hp0.
    destruct (decide (p0 = p)) as [->|]; [done|]. apply i_pipe0. set_solver.
  - apply set_eq. intros k. rewrite elem_of_difference, elem_of_singleton, !elem_of_owned.
    destruct k; cbn; try (split; [intros; split; [done|congruence]|by intros [? _]]). set_solver.
Qed.

(** A command on the pipe of a pane whose lock is held. *)
Lemma pipe_cmd_other p q c dir :
  p <> q -> (cmd_args c = pipeOff q \/ cmd_args c = pipeOn q dir) -> pipe_cmd p c = None.
Proof.
  intros Hne Hc. unfold pipe_cmd, pipeOff, pipeOn in *.
  destruct Hc as [-> | ->]; rewrite decide_False by congruence; [done|].
  destruct (cmd_err c); [done|]. by rewrite decide_False by congruence.
Qed.

Lemma pipe_step s p c dir :
  hinv s -> p ∈ h_paneLocks s -> cmd_ok (h_cmds s) c ->
  (cmd_args c = pipeOff p \/ cmd_args c = pipeOn p dir) ->
  let s' := s <| h_cmds ::= fun l => l ++ [c] |> in
  hinv s' /\ hle s s' /\ (forall k, k <> TLock p -> frame k s s') /\
  pipe_cmds p s' = pipe_cmds p s ++ option_list (pipe_cmd p c).
Proof.
  intros HI Hp Hc Hargs s'.
  assert (Hpc : forall q, pipe_cmds q s' = pipe_cmds q s ++ option_list (pipe_cmd q c)).
  { intros q. unfold pipe_cmds. cbn. rewrite omap_app. cbn. by destruct (pipe_cmd q c). }
  assert (Hother : forall q, q <> p -> pipe_cmds q s' = pipe_cmds q s).
  { intros q Hq. rewrite Hpc, (pipe_cmd_other q p c dir) by done. apply app_nil_r. }
  split_and!; [| | |apply Hpc].
  - destruct HI. split; try assumption.
    + intros q Hl. unfold pipe_ok. rewrite Hother; [by apply i_pipe0|]. intros ->. done.
    + by apply cmds_ok_snoc.
  - apply hle_refl_cmds.
  - intros [q|b|b|d|q] Hk; try untouched; cbn [frame].
    rewrite Hother by congruence. split_and!; done.
Qed.

Lemma pane_ops_snoc p s q op :
  pane_ops p (s <| h_ops ::= fun l => l ++ [(q, op)] |>) =
  pane_ops p s ++ (if decide (q = p) then [op] else []).
Proof. unfold pane_ops. cbn. rewrite omap_app. cbn. by destruct (decide (q = p)). Qed.

(** The hold of [pipesMu] in [releasePipe]. *)
Lemma disown_step s p b :
  hinv s -> p ∈ h_paneLocks s ->
  let '(owner, s') := disown p b s in
  hinv s' /\ hle s s' /\ (forall k, k <> TLock p -> frame k s s') /\ owned s' = owned s /\
  pipe_cmds p s' = pipe_cmds p s /\ pane_ops p s' = pane_ops p s ++ [OpRelease b] /\
  owner = bool_decide (h_pipes s !! p = Some b) /\
  h_pipes s' !! p = if owner then None else h_pipes s !! p.
Proof.
  intros HI Hp. unfold disown.
  pose (s1 := s <| h_ops ::= fun l => l ++ [(p, OpRelease b)] |>). fold s1. change (h_pipes s1) with (h_pipes s).
  assert (Hops : forall q, q <> p -> pane_ops q s1 = pane_ops q s).
  { intros q Hq. unfold s1. rewrite pane_ops_snoc, decide_False by congruence. apply app_nil_r. }
  assert (Hopsp : pane_ops p s1 = pane_ops p s ++ [OpRelease b]).
  { unfold s1. by rewrite pane_ops_snoc, decide_True. }
  destruct (decide (h_pipes s !! p = Some b)) as [Hd|Hd].
  - assert (Hpo : forall q, pane_ops q (s1 <| h_pipes ::= delete p |>) = pane_ops q s1) by done.
    split_and!; try done.
    + destruct HI. split; try assumption. intros q Hq.
      assert (q <> p) by (intros ->; done). unfold pipe_ok. rewrite Hpo, Hops by done. cbn.
      rewrite lookup_delete_ne by done. by apply i_pipe0.
    + split; cbn; try done. intros b0 br Hb. exists br. split; [done|by split].
    + intros [q|b0|b0|d|q] Hk; try untouched; cbn [frame]. rewrite Hpo, Hops by congruence. cbn.
      rewrite lookup_delete_ne by congruence. done.
    + by rewrite bool_decide_eq_true_2.
    + cbn. by rewrite lookup_delete_eq.
  - split_and!; try done.
    + destruct HI. split; try assumption. intros q Hq.
      assert (q <> p) by (intros ->; done). unfold pipe_ok. rewrite Hops by done. by apply i_pipe0.
    + split; cbn; try done. intros b0 br Hb. exists br. split; [done|by split].
    + intros [q|b0|b0|d|q] Hk; try untouched; cbn [frame]. by rewrite Hops by congruence.
    + by rewrite bool_decide_eq_false_2.
Qed.

(** The hold of [pipesMu] in [AttachPane]: a new bridge, in the hands of the
    attaching goroutine. *)
Lemma publish_step s p dir content ops_owner cmds0 :
  hinv s -> p ∈ h_paneLocks s -> ValidTmuxTarget p = true ->
  spec_run None (pane_ops p s) = (ops_owner, cmds0) ->
  pipe_cmds p s = cmds0 ++ [PipeOpen (pipeCommand (fifoPath dir))] ->
  let s' := snd (publish p dir content s) in let b := h_next s in
  hinv s' /\ hle s s' /\ (forall k, k <> TLock p -> frame k s s') /\
  ({[TRelay b; TBridge b]} : gset Token) ## owned s /\
  owned s' = owned s ∪ {[TRelay b; TBridge b]} /\ pipe_ok p s' /\
  (forall d st, h_streams s' !! d = Some st -> st_bridge st <> b) /\
  (exists br, h_heap s' !! b = Some br /\ b_closed br = false /\ relay_view br = (RelayNotStarted, [], [])).
Proof.
  intros HI Hp Hv Hops Hcmds s' b.
  assert (Hfresh : h_heap s !! b = None).
  { destruct (h_heap s !! b) eqn:Hb; [|done]. pose proof (i_heap s HI b _ Hb). unfold b in *. lia. }
  assert (Hnh : b ∉ h_held s).
  { intros Hb. destruct (i_held s HI b Hb) as [br Hbr]. congruence. }
  assert (Hns : forall d st, h_streams s !! d = Some st -> st_bridge st <> b).
  { intros d st Hst Heq. destruct (i_streams s HI d st Hst) as [_ [br Hbr]]. congruence. }
  assert (Hother : forall q, q <> p -> pane_ops q s' = pane_ops q s).
  { intros q Hq. unfold s', publish. cbn [snd]. rewrite pane_ops_snoc, decide_False by congruence. apply app_nil_r. }
  assert (Hself : pane_ops p s' = pane_ops p s ++ [OpAttach b dir]).
  { unfold s', publish. cbn [snd]. rewrite pane_ops_snoc, decide_True by done. done. }
  assert (Hlook : forall b0 br, h_heap s !! b0 = Some br -> h_heap s' !! b0 = Some br).
  { intros b0 br Hb0. cbn. rewrite lookup_insert_ne; [done|]. intros <-. fold b in Hb0. congruence. }
  split_and!.
  - destruct HI. split; try assumption; cbn.
    + intros b0 br. destruct (decide (b0 = b)) as [->|Hne]; [unfold b; lia|].
      rewrite lookup_insert_ne by done. intros Hb0. specialize (i_heap0 b0 br Hb0). lia.
    + intros d st Hst. destruct (i_streams0 d st Hst) as [Hd [br Hbr]]. split; [lia|]. rewrite lookup_insert_ne; [eauto|].
      intros Heq. by apply (Hns d st Hst).
    + intros b0 [->%elem_of_singleton|Hb0]%elem_of_union; [rewrite lookup_insert_eq; eauto|].
      destruct (i_held0 b0 Hb0) as [br Hbr]. exists br. by apply Hlook.
    + intros q b0 Hq. destruct (i_reg0 q b0 Hq) as (Hnh0 & (br & Hbr & Hcl) & Hex).
      assert (b0 <> b) by (intros ->; fold b in Hbr; congruence).
      split_and!; [set_solver| |done]. exists br. split; [by apply Hlook|done].
    + intros d st Hst Hun Hnh0. destruct (i_gone0 d st Hst Hun) as (Hc & br & Hbr & Hcl); [set_solver|].
      split; [done|]. exists br. split; [by apply Hlook|done].
    + intros q Hq. assert (q <> p) by (intros ->; done). unfold pipe_ok. rewrite Hother by done. cbn.
      rewrite lookup_insert_ne by done. by apply i_pipe0.
    + destruct i_panes0 as (Hpa & ? & ?). split_and!; try assumption.
      intros b0 br. destruct (decide (b0 = b)) as [->|Hne]; [rewrite lookup_insert_eq; by intros [= <-]|].
      rewrite lookup_insert_ne by done. eauto.
    + intros b0 br. destruct (decide (b0 = b)) as [->|Hne]; [rewrite lookup_insert_eq; intros [= <-]; apply prefix_nil|].
      rewrite lookup_insert_ne by done. eauto.
    + intros b0 br. destruct (decide (b0 = b)) as [->|Hne]; [rewrite lookup_insert_eq; intros [= <-] Hx; by destruct Hx|].
      rewrite lookup_insert_ne by done. eauto.
    + intros d st br Hst. rewrite lookup_insert_ne by (intros Heq; by apply (Hns d st Hst)). by apply i_delivered0.
  - split; cbn; try done.
    + intros b0 br Hb0. exists br. split; [by apply Hlook|by split].
    + intros d st Hst _ Hh. pose proof (Hns d st Hst). set_solver.
  - intros [q|b0|b0|d|q] Hk; try untouched; cbn [frame].
    + rewrite Hother by congruence. cbn. rewrite lookup_insert_ne by congruence. done.
    + intros br Hb0. exists br. split; [by apply Hlook|done].
    + split; [|done]. intros br Hb0. exists br. split; [by apply Hlook|done].
    + split; [by split|]. intros st Hst. split; [done|]. intros br Hb0. exists br. split; [by apply Hlook|done].
  - intros k [->%elem_of_singleton | ->%elem_of_singleton]%elem_of_union; rewrite elem_of_owned; cbn.
    + fold b. rewrite Hfresh. by intros (? & ? & _).
    + done.
  - apply set_eq. intros k. rewrite !elem_of_union, !elem_of_singleton, !elem_of_owned.
    clear HI Hv Hops Hcmds Hns Hother Hself Hlook. destruct k as [q|b0|b0|d|q]; cbn; fold b; try naive_solver.
    + destruct (decide (b0 = b)) as [->|Hne]; [rewrite lookup_insert_eq; naive_solver|].
      rewrite lookup_insert_ne by done. naive_solver.
    + rewrite elem_of_union, elem_of_singleton. naive_solver.
  - unfold pipe_ok. assert (Hpc : pipe_cmds p s' = pipe_cmds p s) by done.
    assert (Hpp : h_pipes s' !! p = Some b) by (cbn; apply lookup_insert_eq).
    by rewrite Hpc, Hpp, Hcmds, Hself, spec_run_snoc, Hops.
  - exact Hns.
  - cbn. fold b. rewrite lookup_insert_eq. eauto.
Qed.

(** *** Closing a bridge *)

(** Its owner marks it closed. *)
Lemma close_step s b br X :
  hinv s -> TBridge b ∈ X -> X ⊆ owned s -> h_heap s !! b = Some br ->
  let s' := s <| h_heap ::= <[b := br <| b_closed := true |>]> |> in
  hguar X s s' /\ owned s' = owned s /\ hle s s' /\ (forall k, k <> TBridge b -> frame k s s').
Proof.
  intros HI HX Hsub Hb s'.
  assert (Hheld : b ∈ h_held s) by (apply Hsub in HX; by rewrite elem_of_owned in HX).
  assert (Hle : bridge_le br (br <| b_closed := true |>)) by by split.
  destruct (heap_step s b br _ HI Hb Hle (i_flow s HI b br Hb) (or_intror Hheld) (or_introl eq_refl)) as (HI' & HR & Hf).
  destruct (heap_frames s b br (br <| b_closed := true |>) Hb) as [Hf1 _].
  assert (Hf' : forall k, k <> TBridge b -> frame k s s').
  { intros k Hk. destruct (decide (k = TRelay b)) as [->|]; [by apply Hf1|by apply Hf]. }
  split_and!; [split_and!| | |]; try done.
  - intros k _ Hk. apply Hf'. by intros ->.
  - by apply (owned_heap s b br).
Qed.

(** The relay's last section. *)
Lemma relay_step s b br :
  hinv s -> h_heap s !! b = Some br -> b_relay br <> RelayFinished ->
  let s' := s <| h_heap ::= <[b := br <| b_relay := RelayFinished |>]> |> in
  hinv s' /\ hle s s' /\ (forall k, k <> TRelay b -> frame k s s') /\ owned s' = owned s ∖ {[TRelay b]}.
Proof.
  intros HI Hb Hr s'.
  assert (Hle : bridge_le br (br <| b_relay := RelayFinished |>)) by by split.
  destruct (heap_step s b br _ HI Hb Hle (i_flow s HI b br Hb) (or_introl eq_refl) (or_introl eq_refl)) as (HI' & HR & Hf).
  destruct (heap_frames s b br (br <| b_relay := RelayFinished |>) Hb) as [_ Hf2].
  split_and!; [done|done| |].
  - intros k Hk. destruct (decide (k = TBridge b)) as [->|]; [by apply Hf2|by apply Hf].
  - apply set_eq. intros k. rewrite elem_of_difference, elem_of_singleton, !elem_of_owned.
    destruct k as [q|b0|b0|d|q]; cbn; try (split; [intros; split; [done|congruence]|by intros [? _]]).
    destruct (decide (b0 = b)) as [->|Hne]; [rewrite lookup_insert_eq; naive_solver|].
    rewrite lookup_insert_ne by done. naive_solver.
Qed.

(** The bridge leaves its closer's hands. *)
Lemma released_step s b :
  hinv s -> b ∈ h_held s ->
  (forall d st, h_streams s !! d = Some st -> st_bridge st = b ->
     st_ctx st ∈ h_canceled s /\ bridge_shut b s) ->
  let s' := closed_for_good b s in
  hinv s' /\ hle s s' /\ (forall k, frame k s s') /\ owned s' = owned s ∖ {[TBridge b]}.
Proof.
  intros HI Hb Hgone s'. split_and!.
  - destruct HI. split; try assumption; cbn.
    + intros b0 Hb0. apply i_held0. set_solver.
    + intros q b0 Hq. destruct (i_reg0 q b0 Hq) as (Hnh & Hex & Hrest). split_and!; [set_solver|done|done].
    + intros d st Hst Hun Hnh. destruct (decide (st_bridge st = b)) as [Heq|Hne].
      * destruct (Hgone d st Hst Heq). by rewrite Heq.
      * apply (i_gone0 d st Hst Hun). set_solver.
  - split; cbn; try done; [|set_solver]. intros b0 br Hb0. exists br. split; [done|by split].
  - intros []; untouched.
  - apply set_eq. intros k. rewrite elem_of_difference, elem_of_singleton, !elem_of_owned.
    destruct k as [q|b0|b0|d|q]; cbn; try (split; [intros; split; [done|congruence]|by intros [? _]]). set_solver.
Qed.

(** *** Streams *)

(** The hold of [h.mu] in [detachPeerWait]: the peer's attachment, if any, is
    taken out of the maps into the caller's hands. *)
Lemma detach_step s p waits :
  hinv s ->
  let '(v, s') := detachLocked p waits s in
  hinv s' /\ hle s s' /\ (forall k, frame k s s') /\
  (dv_pane v <> "" -> ValidTmuxTarget (dv_pane v) = true) /\
  dv_done v = h_streamDone s !! p /\ h_streamDone s' = h_streamDone s /\ h_log s' = h_log s /\
  h_bridges s' !! p = None /\
  match dv_bridge v with
  | Some b =>
      (TBridge b ∉ owned s) /\ owned s' = owned s ∪ {[TBridge b]} /\
      (exists br, h_heap s' !! b = Some br /\ b_closed br = false) /\
      exists ctx, dv_cancel v = Some ctx /\
        forall d st, h_streams s' !! d = Some st -> st_bridge st = b -> st_ctx st = ctx
  | None => owned s' = owned s
  end.
Proof.
  intros HI. unfold detachLocked. cbn zeta.
  set (s1 := match dv_done _ with Some d => _ | None => _ end).
  assert (Hv1 : view s1 = view s).
  { unfold s1. cbn. destruct (h_streamDone s !! p); [|done]. by destruct waits. }
  destruct (still_view s s1 HI Hv1) as (HI1 & HR1 & Hf1 & Ho1). cbn [dv_bridge dv_done dv_pane dv_cancel].
  assert (Hval : default "" (h_paneForPeer s !! p) <> "" -> ValidTmuxTarget (default "" (h_paneForPeer s !! p)) = true).
  { intros Hne. destruct (h_paneForPeer s !! p) as [pane|] eqn:Hp; [|done].
    by apply (proj1 (proj2 (i_panes s HI)) p). }
  assert (Hd1 : h_streamDone s1 = h_streamDone s) by (unfold view in Hv1; by simplify_eq).
  assert (Hb1 : h_bridges s1 = h_bridges s) by (unfold view in Hv1; by simplify_eq).
  assert (Hc1 : h_cancels s1 = h_cancels s) by (unfold view in Hv1; by simplify_eq).
  assert (Hl1 : h_log s1 = h_log s) by (unfold view in Hv1; by simplify_eq).
  rewrite <-Hb1, <-Hc1, <-Hd1, <-Hl1, <-Ho1.
  assert (Hlift : forall s', hle s1 s' -> (forall k, frame k s1 s') -> hle s s' /\ forall k, frame k s s').
  { intros s' H1 H2. split; [by etrans|]. intros k. etrans; [apply Hf1|apply H2]. }
  clearbody s1. clear Hv1 Hf1 Ho1 Hd1 Hb1 Hc1 Hl1.
  destruct (h_bridges s1 !! p) as [b|] eqn:Hb.
  - destruct (i_reg s1 HI1 p b Hb) as (Hnh & Hex & d & st & Hst & Hpeer & Hbr & Hcan).
    set (s2 := s1 <| h_bridges ::= _ |> <| h_cancels ::= _ |> <| h_paneForPeer ::= _ |>
      <| h_lastDims ::= _ |> <| h_exitNotified ::= _ |> <| h_held ::= _ |>).
    assert (Huniq : forall d0 st0, h_streams s1 !! d0 = Some st0 -> st_bridge st0 = b -> st0 = st).
    { intros d0 st0 Hst0 Heq. assert (d0 = d) as -> by (by eapply (i_inj s1 HI1); eauto; congruence). congruence. }
    assert (HR2 : hle s1 s2).
    { split; cbn; try done.
      - intros b0 br0 Hb0. exists br0. split; [done|by split].
      - intros d0 st0 Hst0 Hun. unfold unregistered in *. cbn.
        destruct (decide (st_peer st0 = p)) as [->|]; [by rewrite lookup_delete_eq|by rewrite lookup_delete_ne].
      - intros d0 st0 Hst0 Hun Hh [Heq%elem_of_singleton|]%elem_of_union; [|done].
        apply Hun. rewrite (Huniq d0 st0 Hst0 Heq). congruence. }
    assert (Hf2 : forall k, frame k s1 s2).
    { intros []; try untouched. cbn. split; [by left|].
      destruct (decide (peer = p)) as [->|]; [right; by rewrite lookup_delete_eq|left; by rewrite lookup_delete_ne]. }
    destruct (Hlift s2 HR2 Hf2) as [HR Hf].
    split_and!; try done.
    + destruct HI1. split; try assumption; cbn.
      * intros b0 [->%elem_of_singleton|Hb0]%elem_of_union; [|auto]. destruct Hex as (br & Hbr0 & _). eauto.
      * intros q b0. destruct (decide (q = p)) as [->|Hq]; [by rewrite lookup_delete_eq|].
        rewrite lookup_delete_ne by done. intros Hq0.
        destruct (i_reg0 q b0 Hq0) as (Hnh0 & Hex0 & d0 & st0 & Hst0 & Hp0 & Hb0 & Hc0).
        split_and!; [|done|].
        -- intros [->%elem_of_singleton|]%elem_of_union; [|done].
           apply Hq. rewrite <-Hp0. by rewrite (Huniq d0 st0 Hst0 Hb0).
        -- exists d0, st0. split_and!; try done. by rewrite lookup_delete_ne.
      * intros d0 st0 Hst0 Hun Hnh0. apply (i_gone0 d0 st0 Hst0); [|set_solver]. intros Hreg.
        unfold unregistered in Hun. cbn in Hun. destruct (decide (st_peer st0 = p)) as [Heq|Hne].
        -- rewrite Heq in Hreg. rewrite Hb in Hreg. set_solver.
        -- apply Hun. by rewrite lookup_delete_ne.
      * destruct i_panes0 as (? & Hpan & ?). split_and!; try assumption.
        intros q pane [_ Hq]%lookup_delete_Some. eauto.
    + cbn. apply lookup_delete_eq.
    + by rewrite elem_of_owned.
    + apply set_eq. intros k. rewrite elem_of_union, elem_of_singleton, !elem_of_owned.
      destruct k; cbn; try (split; [by left|intros [?|?]; done]). rewrite elem_of_union, elem_of_singleton. naive_solver.
    + exists (st_ctx st). split; [done|]. intros d0 st0 Hst0 Heq. by rewrite (Huniq d0 st0 Hst0 Heq).
  - destruct (Hlift s1) as [HR Hf]; [done|done|]. by split_and!.
Qed.

(** The hold of [h.mu] in [endStream]. *)
Lemma end_step s p d st :
  hinv s -> h_streams s !! d = Some st -> st_peer st = p ->
  let s' := snd (endStreamLocked p d s) in
  hinv s' /\ hle s s' /\ (forall k, k <> TStream d -> frame k s s') /\ owned s' = owned s /\
  quiet_stream d st s'.
Proof.
  intros HI Hst Hp. unfold endStreamLocked. cbn zeta. cbn [snd].
  set (s1 := if decide _ then _ else _).
  assert (H1 : hinv s1 /\ hle s s1 /\ (forall k, k <> TStream d -> frame k s s1) /\ owned s1 = owned s /\ quiet_stream d st s1).
  { unfold s1. destruct (decide _) as [Hd|Hd].
    - split_and!; try done.
      + destruct HI. split; try assumption; cbn. intros q d0 [_ Hq]%lookup_delete_Some. eauto.
      + split; cbn; try done.
        * intros b br Hb. exists br. split; [done|by split].
        * intros d0 st0 Hst0 Hq. split; [|done]. unfold quiet_stream in *. cbn.
          intros [_ Hx]%lookup_delete_Some. done.
      + intros [q|b|b|d0|q] Hk; cbn; eauto.
        * split; [|untouched]. split; [done|]. intros st0 Hst0 Hd0. split_and!; [done| |done].
          cbn; rewrite lookup_delete_ne; [done|]. intros Heq. rewrite <-Heq in Hd0. congruence.
        * split; [|by left]. destruct (decide (q = p)) as [->|]; [right; apply lookup_delete_eq|left; by apply lookup_delete_ne].
      + unfold quiet_stream. cbn. rewrite Hp. by rewrite lookup_delete_eq.
    - split_and!; try done. unfold quiet_stream. by rewrite Hp. }
  destruct H1 as (HI1 & HR1 & Hf1 & Ho1 & Hq1).
  set (s2 := s1 <| h_superseded ::= _ |>).
  destruct (still_view s1 s2 HI1) as (HI2 & HR2 & Hf2 & Ho2); [done|].
  split_and!; [done|by etrans| |congruence|done]. intros k Hk. etrans; [by apply Hf1|apply Hf2].
Qed.

(** [close(done)]. *)
Lemma close_done_step s d st :
  hinv s -> h_streams s !! d = Some st -> quiet_stream d st s ->
  let s' := s <| h_open ::= fun o => o ∖ {[d]} |> in
  hinv s' /\ hle s s' /\ (forall k, frame k s s') /\ owned s' = owned s ∖ {[TStream d]}.
Proof.
  intros HI Hst Hq s'. split_and!.
  - destruct HI. split; try assumption; cbn.
    + intros d0 Hd0. apply i_open0. set_solver.
    + intros q d0 Hd0. destruct (i_done0 q d0 Hd0) as (Ho & st0 & Hst0 & Hp0). split; [|eauto].
      apply elem_of_difference. split; [done|]. intros ->%elem_of_singleton. simplify_eq.
      apply Hq. done.
  - split; cbn; try done; [|set_solver]. intros b br Hb. exists br. split; [done|by split].
  - intros []; untouched.
  - apply set_eq. intros k. rewrite elem_of_difference, elem_of_singleton, !elem_of_owned.
    destruct k; cbn; try (split; [intros; split; [done|congruence]|by intros [? _]]). set_solver.
Qed.

(** A call of the peer manager returns. *)
Lemma busy_step s p :
  hinv s ->
  let s' := s <| h_busy ::= fun b => b ∖ {[p]} |> in
  hinv s' /\ hle s s' /\ (forall k, frame k s s') /\ owned s' = owned s ∖ {[TPeer p]}.
Proof.
  intros HI s'. split_and!.
  - destruct HI. by split.
  - split; cbn; try done. intros b br Hb. exists br. split; [done|by split].
  - intros []; untouched.
  - apply set_eq. intros k. rewrite elem_of_difference, elem_of_singleton, !elem_of_owned.
    destruct k; cbn; try (split; [intros; split; [done|congruence]|by intros [? _]]). set_solver.
Qed.

(** A call of the peer manager begins. *)
Lemma call_step s p :
  hinv s -> p ∉ h_busy s ->
  let s' := s <| h_busy ::= fun b => {[p]} ∪ b |> in
  hinv s' /\ hle s s' /\ (forall k, frame k s s') /\ (TPeer p ∉ owned s) /\ owned s' = owned s ∪ {[TPeer p]}.
Proof.
  intros HI Hp s'. split_and!.
  - destruct HI. by split.
  - split; cbn; try done. intros b br Hb. exists br. split; [done|by split].
  - intros []; untouched.
  - by rewrite elem_of_owned.
  - apply set_eq. intros k. rewrite elem_of_union, elem_of_singleton, !elem_of_owned.
    destruct k; cbn; try (split; [by left|intros [?|?]; done]). set_solver.
Qed.

(** The agent's context is canceled. *)
Lemma still_shutdown s : hinv s -> hstill s (s <| h_agentCanceled := true |>).
Proof.
  intros HI. split_and!.
  - destruct HI. by split.
  - split; cbn; try done. intros b br Hb. exists br. split; [done|by split].
  - intros []; untouched.
  - done.
Qed.

(** The registration of an attachment. *)
Lemma register_step s p pane b br cols rows deflate :
  hinv s -> h_streamDone s !! p = None -> h_bridges s !! p = None ->
  b ∈ h_held s -> h_heap s !! b = Some br -> b_closed br = false ->
  (forall d st, h_streams s !! d = Some st -> st_bridge st <> b) ->
  ValidTmuxTarget pane = true ->
  let '((ctx, d), s') := register p pane b cols rows deflate s in
  let st := mkStream p ctx b deflate in
  hinv s' /\ hle s s' /\ (forall k, k <> TPeer p -> k <> TBridge b -> frame k s s') /\
  (TStream d ∉ owned s) /\ owned s' = (owned s ∖ {[TBridge b]}) ∪ {[TStream d]} /\
  h_streams s' !! d = Some st /\ h_streamDone s' !! p = Some d /\ of_stream d (h_log s') = [] /\
  h_heap s' !! b = Some br /\ b_read br = [].
Proof.
  intros HI Hsd Hbr Hheld Hb Hcl Hns Hpane. unfold register.
  set (ctx := h_next s). set (d := S ctx). set (st := mkStream p ctx b deflate).
  set (s' := s <| h_next := _ |> <| h_open ::= _ |> <| h_streams ::= _ |> <| h_bridges ::= _ |>
    <| h_cancels ::= _ |> <| h_streamDone ::= _ |> <| h_paneForPeer ::= _ |> <| h_lastDims ::= _ |>
    <| h_held ::= _ |>). cbn zeta.
  assert (Hfresh : h_streams s !! d = None).
  { destruct (h_streams s !! d) as [st0|] eqn:Hd; [|done].
    destruct (i_streams s HI d st0 Hd). unfold d, ctx in *. lia. }
  assert (Hno : d ∉ h_open s).
  { intros Ho. destruct (i_open s HI d Ho) as [st0 Hst0]. congruence. }
  assert (Hlook : forall d0 st0, h_streams s !! d0 = Some st0 -> d0 <> d /\ h_streams s' !! d0 = Some st0).
  { intros d0 st0 Hst0. assert (d0 <> d) by (intros ->; congruence). split; [done|]. cbn. by rewrite lookup_insert_ne. }
  assert (Hnew : forall d0 st0, h_streams s' !! d0 = Some st0 -> (d0 = d /\ st0 = st) \/ h_streams s !! d0 = Some st0).
  { intros d0 st0. cbn. destruct (decide (d0 = d)) as [->|]; [rewrite lookup_insert_eq; naive_solver|].
    rewrite lookup_insert_ne by done. auto. }
  assert (Hself : h_streams s' !! d = Some st) by (cbn; apply lookup_insert_eq).
  assert (Hlog : of_stream d (h_log s) = []).
  { destruct (of_stream d (h_log s)) as [|e l] eqn:He; [done|].
    assert (Hin : e ∈ of_stream d (h_log s)) by (rewrite He; constructor).
    apply list_elem_of_filter in Hin as [Hs Hin]. destruct (i_tagged s HI e d Hin Hs). congruence. }
  assert (Hreg_ne : forall q, q <> p -> h_bridges s' !! q = h_bridges s !! q) by (intros; cbn; by apply lookup_insert_ne).
  split_and!.
  - destruct HI. split; try assumption.
    + intros b0 br0 Hb0. specialize (i_heap0 b0 br0 Hb0). cbn. unfold d, ctx. lia.
    + intros d0 st0 [[-> ->]|Hst0]%Hnew.
      * cbn. split; [unfold d, ctx; lia|eauto].
      * destruct (i_streams0 d0 st0 Hst0). split; [cbn; unfold d, ctx; lia|done].
    + intros d0 [->%elem_of_singleton|Hd0]%elem_of_union; [eauto|].
      destruct (i_open0 d0 Hd0) as [st0 Hst0]. exists st0. by apply Hlook.
    + intros b0 Hb0. apply i_held0. set_solver.
    + intros q b0. destruct (decide (q = p)) as [->|Hq].
      * cbn. rewrite lookup_insert_eq. intros [= <-]. split_and!; [set_solver|eauto|].
        exists d, st. split_and!; [done|done|done|]. by rewrite lookup_insert_eq.
      * rewrite Hreg_ne by done. intros Hq0.
        destruct (i_reg0 q b0 Hq0) as (Hnh0 & Hex0 & d0 & st0 & Hst0 & Hp0 & Hb0 & Hc0).
        split_and!; [set_solver|done|]. exists d0, st0. split_and!; [by apply Hlook|done|done|].
        cbn. by rewrite lookup_insert_ne.
    + intros d1 d2 st1 st2 [[-> ->]|H1]%Hnew [[-> ->]|H2]%Hnew; [done| | |by eapply i_inj0].
      * intros Heq. by destruct (Hns d2 st2 H2).
      * intros Heq. by destruct (Hns d1 st1 H1).
    + intros q d0. destruct (decide (q = p)) as [->|Hq]; cbn.
      * rewrite lookup_insert_eq. intros [= <-]. split; [set_solver|eauto].
      * rewrite lookup_insert_ne by done. intros Hd0. destruct (i_done0 q d0 Hd0) as (Ho & st0 & Hst0 & Hp0).
        split; [set_solver|]. exists st0. split; [by apply Hlook|done].
    + intros d0 st0 [[-> ->]|Hst0]%Hnew Hun Hnh.
      * destruct Hun. cbn. by rewrite lookup_insert_eq.
      * destruct (decide (st_peer st0 = p)) as [Heq|Hne].
        -- apply (i_gone0 d0 st0 Hst0); [unfold unregistered; congruence|].
           pose proof (Hns d0 st0 Hst0). cbn in Hnh. set_solver.
        -- apply (i_gone0 d0 st0 Hst0); [unfold unregistered in *; by rewrite Hreg_ne in Hun|].
           pose proof (Hns d0 st0 Hst0). cbn in Hnh. set_solver.
    + intros e d0 He Hs. destruct (i_tagged0 e d0 He Hs) as [st0 Hst0]. exists st0. by apply Hlook.
    + intros d0 st0 [[-> ->]|Hst0]%Hnew; [|by apply i_phase0].
      change (h_log s') with (h_log s). by rewrite Hlog.
    + destruct i_panes0 as (? & Hpan & ?). split_and!; try assumption. cbn. intros q pane0.
      destruct (decide (q = p)) as [->|]; [rewrite lookup_insert_eq; by intros [= <-]|].
      rewrite lookup_insert_ne by done. eauto.
    + intros b0 br0 Hb0 Hne. destruct (i_unread0 b0 br0 Hb0 Hne) as (d0 & st0 & Hst0 & Heq).
      exists d0, st0. split; [by apply Hlook|done].
    + intros d0 st0 br0 [[-> ->]|Hst0]%Hnew Hb0; [|by apply i_delivered0].
      exists (if deflate then Some NewOutputCompressor else None), [], []. unfold received.
      change (h_log s') with (h_log s). rewrite Hlog. split_and!; [by destruct deflate|by left| |apply prefix_nil].
      destruct deflate; [apply new_carries|done].
  - split; try done.
    + intros d0 st0 Hst0. by apply Hlook.
    + intros b0 br0 Hb0. exists br0. split; [done|by split].
    + intros d0 st0 Hst0 Hun. unfold unregistered in *. destruct (decide (st_peer st0 = p)) as [Heq|Hne].
      * rewrite Heq. cbn. rewrite lookup_insert_eq. intros [= Hx]. by destruct (Hns d0 st0 Hst0).
      * by rewrite Hreg_ne.
    + intros d0 st0 Hst0 _ Hnh. cbn. set_solver.
    + intros d0 st0 Hst0 Hd0. destruct (Hlook d0 st0 Hst0). cbn. set_solver.
    + intros d0 st0 Hst0 Hq. split; [|done]. destruct (Hlook d0 st0 Hst0) as [Hne _].
      unfold quiet_stream in *. cbn. destruct (decide (st_peer st0 = p)) as [->|].
      * rewrite lookup_insert_eq. congruence.
      * by rewrite lookup_insert_ne.
  - intros [q|b0|b0|d0|q] Hk1 Hk2; try untouched; cbn [frame].
    + split; [cbn; by eauto|]. intros d0 st0 [[-> ->]|Hst0]%Hnew Heq; [|done]. cbn in Heq. congruence.
    + split; [|intros st0 Hst0; split; [by apply Hlook|untouched]]. split; [done|]. intros st0 Hst0 Hd0. split_and!; [by apply Hlook| |done].
      cbn. rewrite lookup_insert_ne; [done|]. intros Heq. rewrite <-Heq in Hd0. congruence.
    + cbn. rewrite !lookup_insert_ne by congruence. split; by left.
  - by rewrite elem_of_owned.
  - apply set_eq. intros k. rewrite elem_of_union, elem_of_difference, !elem_of_singleton, !elem_of_owned.
    destruct k as [q|b0|b0|d0|q]; cbn; try (split; [intros; left; split; [done|congruence]|intros [[? _]|?]; done]).
    + rewrite elem_of_difference, elem_of_singleton. naive_solver.
    + rewrite elem_of_union, elem_of_singleton. naive_solver.
  - done.
  - cbn. apply lookup_insert_eq.
  - done.
  - done.
  - destruct (decide (b_read br = [])) as [|Hne]; [done|].
    destruct (i_unread s HI b br Hb Hne) as (d0 & st0 & Hst0 & Heq). by destruct (Hns d0 st0 Hst0).
Qed.
