(* ===== verification/HostSafety.v ===== *)
(** * Every goroutine of the terminal side is safe

    For each operation of [Host], [Bridge] and [Handler]: it keeps the
    invariant of [HostInv], respects what the others' tokens protect, ends
    with the tokens it should, and blocks only for a reason that goes away. *)

From S2P Require Import Prelude GoLib Own Protocol Compress TmuxText Update Host Bridge Handler HostInv.
From S2P Require TitleFilter.
Open Scope Z_scope.

(** The bytes the relay has taken from the FIFO and not yet written. *)
Definition in_hand (b : nat) (data : list byte) (s : Host) : Prop :=
  exists br, h_heap s !! b = Some br /\ b_taken br = (b_read br ++ b_pipe br) ++ data.

(** The stream is its peer's, in the given phase. *)
Definition stream_at (d : nat) (st : Stream) (ph : Phase) (s : Host) : Prop :=
  h_streams s !! d = Some st /\ h_streamDone s !! st_peer st = Some d /\
  current (st_peer st) (h_log s) = Some d /\ phase st (of_stream d (h_log s)) = ph.

(** A live stream: its peer has got the text [plain]; [seen] was read from its
    bridge, after the opening [pre]. *)
Record streaming (d : nat) (st : Stream) (compressor : option OutputCompressor)
    (pre seen plain : list byte) (s : Host) : Prop := {
  sg_at : stream_at d st PLive s;
  sg_bridge : exists br, h_heap s !! st_bridge st = Some br /\ b_read br = seen /\ opening br pre;
  sg_deflate : deflates compressor = st_deflate st;
  sg_sent : sent_as (h_flate s) compressor (received d s) plain
}.

(** What holds at the start of every iteration of a loop: the relay has no
    bytes in hand; the peer has got everything its stream read, without the
    titles. *)
Definition loop_ok (X : gset Token) (s : Host) (l : LoopName) : Prop :=
  match l with
  | LRelay b => X = {[TRelay b]} /\ in_hand b [] s
  | LStream ctx p b compressor d filter =>
      X = {[TStream d]} /\ exists pre seen,
        streaming d (mkStream p ctx b (deflates compressor)) compressor pre seen (pre ++ TitleFilter.stripped seen) s /\
        TitleFilter.has_seen filter seen
  | LWatch _ _ pane => X = ∅ /\ ValidTmuxTarget pane = true
  end.

Abbreviation hsafe := (gsafe hinv hle owned frame rank wanted prereq loop_ok).
Abbreviation hsafeP := (gsafeP hinv hle owned frame rank wanted prereq loop_ok).
Abbreviation hquietP := (quietP hinv hle owned frame rank wanted prereq loop_ok).
Abbreviation hmay_block := (may_block owned rank wanted prereq).

(** The result of the operation does not matter. *)
Abbreviation anyhow := (fun _ _ => True).

(** *** The rules of [Own] for this store *)

Lemma q_ret {A} X s (a : A) (Q : Host -> A -> Prop) : Q s a -> hquietP X s (mret a) Q.
Proof. by apply quietP_ret; apply _. Qed.

Lemma q_bind {A B} X s (p : G A) (f : A -> G B) (Q : Host -> A -> Prop) (Q' : Host -> B -> Prop) :
  hquietP X s p Q -> (forall s' a, hkeeps X s s' -> Q s' a -> hquietP X s' (f a) Q') ->
  hquietP X s (p ≫= f) Q'.
Proof. by eapply quietP_bind; apply _. Qed.

Lemma q_still {A} X s0 (f : M Host A) (Q : Host -> A -> Prop) :
  (forall s, hrely X s0 s -> hinv s -> let '(a, s') := f s in hstill s s' /\ Q s' a) ->
  hquietP X s0 (atomically f) Q.
Proof. by apply quietP_still; apply _. Qed.

Lemma q_await {A} X s0 (f : Host -> option (A * Host)) (Q : Host -> A -> Prop) :
  (forall s, hrely X s0 s -> hinv s -> f s = None -> hmay_block X s (fun s' => f s' = None)) ->
  (forall s a s', hrely X s0 s -> hinv s -> f s = Some (a, s') -> hstill s s' /\ Q s' a) ->
  hquietP X s0 (await f) Q.
Proof. by apply quietP_await; apply _. Qed.

Lemma q_spawn X X' Y s0 t (Q : Host -> unit -> gset Token -> Prop) :
  X' ## Y -> X = X' ∪ Y ->
  (forall s, hrely X s0 s -> hinv s -> hsafe Y s t) -> (forall s, hrely X s0 s -> hinv s -> Q s tt X') ->
  hsafeP X s0 (spawn t) Q.
Proof. by apply gsafeP_spawn; apply _. Qed.

Lemma hkeeps_trans X s1 s2 s3 : hkeeps X s1 s2 -> hkeeps X s2 s3 -> hkeeps X s1 s3.
Proof. apply keeps_trans; apply _. Qed.

Lemma hkeeps_refl X s : hkeeps X s s.
Proof. apply keeps_refl; apply _. Qed.

(** A quiet operation, step by step. *)
Ltac q_step :=
  match goal with
  | |- hquietP _ _ (mret _) _ => apply q_ret; try exact Logic.I; try done
  | |- hquietP _ _ (match ?x with _ => _ end) _ => destruct x eqn:?
  end.

(** ** tmux commands *)

Lemma args_mono (h h' : list Cmd) args : h `prefix_of` h' -> Forall (arg_ok h) args -> Forall (arg_ok h') args.
Proof.
  intros [l ->] Hf. eapply Forall_impl; [exact Hf|]. intros a Ha. unfold arg_ok in *.
  destruct Ha as [?|[?|[?|[?|[?|(c & pane & Hc & Heq)]]]]]; auto 6.
  do 5 right. exists c, pane. split; [apply elem_of_app; by left|done].
Qed.

Lemma cmd_ok_pipe_none p args stdin out err :
  head args <> Some "pipe-pane" -> pipe_cmd p (mkCmd args stdin out err) = None.
Proof.
  intros Hh. unfold pipe_cmd, pipeOff. cbn [cmd_args cmd_err].
  rewrite decide_False by (intros ->; done).
  destruct args as [|a [|b [|q [|c [|]]]]]; try done. destruct err; [done|].
  by rewrite decide_False by (intros [= -> ?]; done).
Qed.

(** What [run] leaves in the history. *)
Definition ran (args : list string) (s : Host) (r : string * option RunError) : Prop :=
  exists c, c ∈ h_cmds s /\ cmd_args c = args /\ cmd_out c = fst r.

Lemma quiet_runStdin X s0 stdin args :
  Forall (arg_ok (h_cmds s0)) args -> head args <> Some "pipe-pane" ->
  (is_Some stdin -> head args = Some "load-buffer") ->
  hquietP X s0 (runStdin stdin args) (fun s r => ran args s r).
Proof.
  intros Hargs Hh Hin. apply q_still. intros s (HR & _ & _) HI.
  unfold ask_answer. destruct (default _ _) as [raw err].
  set (s1 := s <| h_answers ::= tail |>).
  assert (H1 : hstill s s1) by by apply still_view.
  set (c := mkCmd args stdin _ err).
  split.
  - eapply hstill_trans; [exact H1|]. apply (still_cmd s1 c); [apply H1| |].
    + split; [|exact Hin]. eapply args_mono; [apply (r_cmds _ _ HR)|exact Hargs].
    + intros p. by apply (cmd_ok_pipe_none p args).
  - exists c. split_and!; [|done|done]. cbn. apply elem_of_app. right. constructor.
Qed.

Lemma quiet_run X s0 args :
  Forall (arg_ok (h_cmds s0)) args -> head args <> Some "pipe-pane" ->
  hquietP X s0 (run args) (fun s r => ran args s r).
Proof. intros. apply quiet_runStdin; [done|done|by intros [? ?]]. Qed.

Lemma arg_fixed h a : bool_decide (a ∈ fixed_args) = true -> arg_ok h a.
Proof. intros Ha. left. by apply bool_decide_eq_true in Ha. Qed.

Lemma arg_valid h a : ValidTmuxTarget a = true -> arg_ok h a.
Proof. intros. right. by left. Qed.
Lemma arg_number h n : arg_ok h (Itoa n).
Proof. do 2 right. left. eauto. Qed.
Lemma arg_buffer h n : arg_ok h (inputBuffer n).
Proof. do 3 right. left. eauto. Qed.
Lemma arg_pipe h dir : arg_ok h (pipeCommand (fifoPath dir)).
Proof. do 4 right. left. eauto. Qed.

Create HintDb pmux_args.
#[export] Hint Resolve arg_valid arg_number arg_buffer arg_pipe : pmux_args.
#[export] Hint Extern 1 (arg_ok _ _) => (apply arg_fixed; vm_compute; reflexivity) : pmux_args.

Ltac args_ok := repeat (apply Forall_cons; split; [eauto with pmux_args|]); try apply Forall_nil_2.
Ltac q_run := apply quiet_run; [args_ok|done].

Lemma quiet_runChecked X s0 args :
  Forall (arg_ok (h_cmds s0)) args -> head args <> Some "pipe-pane" ->
  hquietP X s0 (runChecked args) anyhow.
Proof.
  intros Ha Hh. unfold runChecked. eapply q_bind; [by apply quiet_run|].
  intros s' [out [e|]] _ _; by q_step.
Qed.

Lemma valid_target t : validateTarget t = Ok tt \/ exists e, validateTarget t = Err e.
Proof. unfold validateTarget, check. destruct (ValidTmuxTarget t); eauto. Qed.

Lemma validateTarget_Ok t u : validateTarget t = Ok u -> ValidTmuxTarget t = true.
Proof. unfold validateTarget. intros H. by apply check_Ok in H. Qed.

(** A validated operation. *)
Ltac q_valid :=
  match goal with
  | |- hquietP _ _ (match validateTarget ?t with _ => _ end) _ =>
      destruct (validateTarget t) eqn:?; [|by q_step];
      match goal with H : validateTarget _ = Ok _ |- _ => apply validateTarget_Ok in H end
  end.

Lemma quiet_ListSessions X s0 : hquietP X s0 ListSessions anyhow.
Proof.
  unfold ListSessions. eapply q_bind; [q_run|]. intros s' [out [e|]] _ _; repeat q_step.
Qed.

Lemma quiet_ListWindows X s0 t : hquietP X s0 (ListWindows t) anyhow.
Proof.
  unfold ListWindows. q_valid. eapply q_bind; [q_run|]. intros s' [out [e|]] _ _; repeat q_step.
Qed.

Lemma quiet_ListPanes X s0 t : hquietP X s0 (ListPanes t) anyhow.
Proof.
  unfold ListPanes. q_valid. eapply q_bind; [q_run|]. intros s' [out [e|]] _ _; repeat q_step.
Qed.

Lemma quiet_fillWindows X s0 sid ws : hquietP X s0 (fillWindows sid ws) anyhow.
Proof.
  revert s0. induction ws as [|w ws IH]; intros s0; cbn [fillWindows]; [by q_step|].
  eapply q_bind; [apply quiet_ListPanes|]. intros s1 [panes|e] _ _; [|by q_step].
  eapply q_bind; [apply IH|]. intros; by q_step.
Qed.

Lemma quiet_fillSessions X s0 ss : hquietP X s0 (fillSessions ss) anyhow.
Proof.
  revert s0. induction ss as [|x ss IH]; intros s0; cbn [fillSessions]; [by q_step|].
  eapply q_bind; [apply quiet_ListWindows|]. intros s1 [ws|e] _ _; [|by q_step].
  eapply q_bind; [apply quiet_fillWindows|]. intros s2 [ws'|e] _ _; [|by q_step].
  eapply q_bind; [apply IH|]. intros; by q_step.
Qed.

Lemma quiet_ListAll X s0 : hquietP X s0 ListAll anyhow.
Proof.
  unfold ListAll. eapply q_bind; [apply quiet_ListSessions|].
  intros s1 [ss|e] _ _; [apply quiet_fillSessions|by q_step].
Qed.

Lemma quiet_CreateSession X s0 : hquietP X s0 (CreateSession "" "") anyhow.
Proof.
  unfold CreateSession. eapply q_bind; [q_run|]. intros s1 [out [e|]] _ _; by q_step.
Qed.

Lemma quiet_KillSession X s0 t : hquietP X s0 (KillSession t) anyhow.
Proof. unfold KillSession. q_valid. apply quiet_runChecked; [args_ok|done]. Qed.

Lemma quiet_ClearWindowSizeOverride X s0 t : hquietP X s0 (ClearWindowSizeOverride t) anyhow.
Proof. unfold ClearWindowSizeOverride. q_valid. apply quiet_runChecked; [args_ok|done]. Qed.

Lemma quiet_windowPaneCount X s0 t :
  ValidTmuxTarget t = true -> hquietP X s0 (windowPaneCount t) anyhow.
Proof.
  intros Ht. unfold windowPaneCount. eapply q_bind; [q_run|].
  intros s1 [out [e|]] _ _; repeat q_step.
Qed.

(** A window target is what tmux answered. *)
Lemma quiet_WindowForPane X s0 t :
  hquietP X s0 (WindowForPane t) (fun s r => forall wt, r = Ok wt -> arg_ok (h_cmds s) wt).
Proof.
  unfold WindowForPane. destruct (validateTarget t) eqn:Ht; [|by apply q_ret].
  apply validateTarget_Ok in Ht. eapply q_bind; [unfold windowQuery; q_run|].
  intros s1 [out [e|]] _ (c & Hc & Hargs & Hout); apply q_ret; [done|].
  intros wt [= <-]. do 5 right. exists c, t. split_and!; [done|done|]. cbn in Hout. by subst.
Qed.

Lemma quiet_ResizePane X s0 t cols rows : hquietP X s0 (ResizePane t cols rows) anyhow.
Proof.
  unfold ResizePane. q_valid. eapply q_bind; [by apply quiet_windowPaneCount|].
  intros s1 [n|e] _ _; [|by q_step]. destruct (n <=? 1).
  - eapply q_bind; [apply quiet_WindowForPane|]. intros s2 [wt|e] _ Hwt; [|by q_step].
    unfold ResizeWindow. specialize (Hwt wt eq_refl). apply quiet_runChecked; [args_ok|done].
  - apply quiet_runChecked; [args_ok|done].
Qed.

Lemma quiet_CapturePane X s0 t : ValidTmuxTarget t = true -> hquietP X s0 (CapturePane t) anyhow.
Proof.
  intros Ht. unfold CapturePane. eapply q_bind; [q_run|]. intros s1 [out [e|]] _ _; by q_step.
Qed.

Lemma quiet_CursorState X s0 t : hquietP X s0 (CursorState t) anyhow.
Proof.
  unfold CursorState. q_valid. eapply q_bind; [q_run|]. intros s1 [out [e|]] _ _; by q_step.
Qed.

Lemma quiet_PaneExists X s0 t : ValidTmuxTarget t = true -> hquietP X s0 (PaneExists t) anyhow.
Proof.
  intros Ht. unfold PaneExists. eapply q_bind; [q_run|]. intros s1 [out [e|]] _ _; by q_step.
Qed.

Lemma quiet_SendKeys X s0 t data : ValidTmuxTarget t = true -> hquietP X s0 (SendKeys t data) anyhow.
Proof.
  intros Ht. unfold SendKeys. destruct (bool_decide _); [by q_step|].
  eapply q_bind.
  { apply (q_still _ _ _ anyhow). intros s _ HI. cbn. split; [by apply still_view|done]. }
  intros s1 n _ _. eapply q_bind; [apply quiet_runStdin; [args_ok|done|done]|].
  intros s2 [out [e|]] _ _; [|by q_step].
  eapply q_bind; [q_run|]. intros; by q_step.
Qed.

(** ** resize.go *)

Lemma quiet_TrackAndResize X s0 t cols rows :
  ValidTmuxTarget t = true -> hquietP X s0 (TrackAndResize t cols rows) anyhow.
Proof.
  intros Ht. unfold TrackAndResize. eapply q_bind; [apply quiet_ResizePane|].
  intros s1 [u|e] _ _; [|by q_step]. eapply q_bind; [|intros; by q_step].
  apply (q_still _ _ _ anyhow). intros s _ HI. cbn. split; [|done].
  apply still_forced; [done|]. intros pane [->%elem_of_singleton|Hp]%elem_of_union; [done|].
  by apply (i_panes s HI).
Qed.

Lemma quiet_ReleaseIfForced X s0 t : hquietP X s0 (ReleaseIfForced t) anyhow.
Proof.
  unfold ReleaseIfForced. eapply q_bind.
  { apply (q_still _ _ _ anyhow). intros s _ HI. split; [|done].
    apply still_forced; [done|]. intros pane Hp. apply (i_panes s HI). set_solver. }
  intros s1 forced _ _. destruct (negb forced); [by q_step|].
  eapply q_bind; [apply quiet_WindowForPane|]. intros s2 [wt|e] _ _; [|by q_step].
  apply quiet_ClearWindowSizeOverride.
Qed.

(** ** Bridges *)

Lemma hkeeps_mono X Y s s' : Y ⊆ X -> hkeeps X s s' -> hkeeps Y s s'.
Proof. intros HY [HR Hf]. split; [done|]. intros k Hk. auto. Qed.

Lemma frame_pipe_ok p s s' : frame (TLock p) s s' -> pipe_ok p s -> pipe_ok p s'.
Proof. intros (H1 & H2 & H3). unfold pipe_ok. by rewrite H1, H2, H3. Qed.

Lemma bridge_kept b s s' : hle s s' -> is_Some (h_heap s !! b) -> is_Some (h_heap s' !! b).
Proof. intros HR [br Hb]. destruct (r_heap _ _ HR b br Hb) as (br' & Hb' & _). eauto. Qed.

(** A section that only reads. *)
Lemma q_read {A} X s0 (f : M Host A) (Q : Host -> A -> Prop) :
  (forall s, hrely X s0 s -> hinv s -> snd (f s) = s /\ Q s (fst (f s))) ->
  hquietP X s0 (atomically f) Q.
Proof.
  intros Hf. apply q_still. intros s Hr HI. destruct (Hf s Hr HI) as [H1 H2].
  destruct (f s) as [a s']. cbn in *. subst s'. split; [by apply still_view|done].
Qed.

Lemma q_on_bridge X s0 b f :
  (forall br, steady br (f br)) ->
  hquietP X s0 (atomically (on_bridge b f)) anyhow.
Proof.
  intros Hf. apply q_still. intros s _ HI. unfold on_bridge.
  destruct (h_heap s !! b) as [br|] eqn:Hb; [|split; [by apply still_view|done]].
  split; [|done]. by apply (still_bridge s b br).
Qed.

(** A change of the flags of a bridge. *)
Ltac steady := split; [by split|by split_and!].

Lemma quiet_displace X s0 b : hquietP X s0 (displace b) anyhow.
Proof.
  unfold displace. apply (q_bind _ _ _ _ anyhow).
  - apply q_still. intros s _ HI. destruct (h_heap s !! b) as [br|] eqn:Hb; [|split; [by apply still_view|done]].
    destruct (_ || _); [split; [by apply still_view|done]|]. split; [|done].
    apply (still_bridge s b br); [done|done|steady].
  - intros s1 [] _ _; [by q_step|]. apply q_on_bridge. intros br. steady.
Qed.

(** Locking a pane: it is not waited for with a lock held. *)
Lemma safe_lockPane X s0 p :
  (forall k, k ∈ X -> (0 < rank k)%nat) ->
  hsafeP X s0 (lockPane p) (fun s' _ X' => X' = X ∪ {[TLock p]} /\ hkeeps X s0 s' /\ pipe_ok p s').
Proof.
  intros HX. apply gsafeP_await.
  - intros s Hr HI Hn. right. exists (TLock p). split_and!; [done|exact HX|].
    intros s'. rewrite elem_of_owned. cbn. by destruct (decide (p ∈ h_paneLocks s')).
  - intros s a s' Hr HI Heq. destruct (decide (p ∈ h_paneLocks s)) as [|Hp]; [done|].
    injection Heq as <- <-. destruct (lock_step s p HI Hp) as (Hg & Hf & Hno & Ho).
    split; [destruct Hg as (? & ? & _); split_and!; auto|].
    exists (X ∪ {[TLock p]}). split_and!.
    + destruct Hr as (_ & HXs & _).
      replace (X ∪ {[TLock p]}) with ((X ∖ ∅) ∪ {[TLock p]} : gset Token) by set_solver.
      apply handover_swap; [done|set_solver|set_solver|]. etrans; [exact Ho|set_solver].
    + done.
    + eapply hkeeps_trans; [by apply (rely_keeps _ owned)|]. split; [apply Hg|auto].
    + apply (frame_pipe_ok p s); [apply Hf|]. by apply (i_pipe s HI).
Qed.

Lemma safe_unlockPane X s0 p :
  TLock p ∈ X -> pipe_ok p s0 ->
  hsafeP X s0 (unlockPane p) (fun s' _ X' => X' = X ∖ {[TLock p]} /\ hkeeps X s0 s').
Proof.
  intros HX Hok. apply gsafeP_atomically. intros s Hr HI. cbn.
  assert (Hoks : pipe_ok p s) by (eapply frame_pipe_ok; [by apply Hr|done]).
  destruct (unlock_step s p HI Hoks) as (Hg & Hf & Ho).
  split; [destruct Hg as (? & ? & _); split_and!; auto|].
  exists (X ∖ {[TLock p]}). split_and!.
  - replace (X ∖ {[TLock p]}) with ((X ∖ {[TLock p]}) ∪ ∅ : gset Token) by set_solver.
    apply handover_swap; [apply Hr|set_solver|set_solver|]. etrans; [exact Ho|set_solver].
  - done.
  - eapply hkeeps_trans; [by apply (rely_keeps _ owned)|]. split; [apply Hg|auto].
Qed.

(** A command on a pane's pipe, with the pane's lock held. *)
Lemma safe_pipe_run X s0 p args dir :
  TLock p ∈ X -> args = pipeOff p \/ args = pipeOn p dir -> ValidTmuxTarget p = true ->
  hsafeP X s0 (run args) (fun s' r X' => X' = X /\ hkeeps (X ∖ {[TLock p]}) s0 s' /\
    h_pipes s' !! p = h_pipes s0 !! p /\ pane_ops p s' = pane_ops p s0 /\
    pipe_cmds p s' = pipe_cmds p s0 ++ option_list (pipe_cmd p (mkCmd args None (fst r) (snd r)))).
Proof.
  intros HX Hargs Hv. apply gsafeP_atomically. intros s Hr HI. unfold ask_answer.
  destruct (default _ _) as [raw err]. set (s1 := s <| h_answers ::= tail |>).
  assert (H1 : hstill s s1) by by apply still_view.
  set (c := mkCmd args None _ err). destruct Hr as (HR & HXs & Hfr).
  assert (Hp : p ∈ h_paneLocks s1) by (apply HXs in HX; by rewrite elem_of_owned in HX).
  destruct (pipe_step s1 p c dir (proj1 H1) Hp) as (HI' & HR' & Hf' & Hpc).
  { split; [|by intros [? ?]]. destruct Hargs as [-> | ->]; cbn; unfold pipeOff, pipeOn; args_ok. }
  { exact Hargs. }
  destruct H1 as (_ & HR1 & Hf1 & Ho1).
  assert (Hf : forall k, k <> TLock p -> frame k s (s1 <| h_cmds ::= fun l => l ++ [c] |>)).
  { intros k Hk. etrans; [apply Hf1|by apply Hf']. }
  split; [split_and!; [done|by etrans|]|].
  { intros k _ Hk. apply Hf. by intros ->. }
  exists X. split_and!.
  - by apply handover_same.
  - done.
  - split; [etrans; [exact HR|by etrans]|]. intros k [Hk Hne]%elem_of_difference.
    etrans; [by apply Hfr|]. apply Hf. set_solver.
  - destruct (Hfr _ HX) as (Hpi & _ & _). exact Hpi.
  - destruct (Hfr _ HX) as (_ & _ & Hop). exact Hop.
  - destruct (Hfr _ HX) as (_ & Hcm & _). rewrite Hpc. f_equal. exact Hcm.
Qed.

Lemma pipe_cmd_off p out err : pipe_cmd p (mkCmd (pipeOff p) None out err) = Some PipeClose.
Proof. unfold pipe_cmd. by rewrite decide_True. Qed.

Lemma pipe_cmd_on p dir out :
  pipe_cmd p (mkCmd (pipeOn p dir) None out None) = Some (PipeOpen (pipeCommand (fifoPath dir))).
Proof. unfold pipe_cmd, pipeOn, pipeOff. cbn. rewrite decide_False by done. by rewrite decide_True. Qed.

Lemma pipe_cmd_on_failed p dir out e : pipe_cmd p (mkCmd (pipeOn p dir) None out (Some e)) = None.
Proof. unfold pipe_cmd, pipeOn, pipeOff. cbn. by rewrite decide_False. Qed.

(** Goroutines hold pane locks only inside the operations of this section. *)
Definition above (n : nat) (X : gset Token) : Prop := forall k, k ∈ X -> (n <= rank k)%nat.

Lemma above_le n m X : (m <= n)%nat -> above n X -> above m X.
Proof. intros Hle HX k Hk. specialize (HX k Hk). lia. Qed.

Lemma above_no_lock p X : above 1 X -> TLock p ∉ X.
Proof. intros HX Hin. specialize (HX _ Hin). cbn in HX. lia. Qed.

(** [releasePipe], once the lock is held. *)
Lemma safe_release_locked X s0 p b :
  TLock p ∈ X -> ValidTmuxTarget p = true -> pipe_ok p s0 ->
  hsafeP X s0 (owner ← atomically (disown p b);
               _ ← (if owner : bool then (_ ← run (pipeOff p); mret tt) else mret tt);
               unlockPane p)
    (fun s' _ X' => X' = X ∖ {[TLock p]} /\ hkeeps (X ∖ {[TLock p]}) s0 s').
Proof.
  intros HX Hv Hok.
  eapply gsafeP_bind with (Q := fun s' (owner : bool) X' => X' = X /\ hkeeps (X ∖ {[TLock p]}) s0 s' /\
    spec_run None (pane_ops p s') =
      (h_pipes s' !! p, pipe_cmds p s' ++ (if owner then [PipeClose] else []))).
  { apply gsafeP_atomically. intros s Hr HI. destruct Hr as (HR & HXs & Hfr).
    assert (Hp : p ∈ h_paneLocks s) by (apply HXs in HX; by rewrite elem_of_owned in HX).
    assert (Hoks : pipe_ok p s) by (eapply frame_pipe_ok; [by apply Hfr|done]).
    pose proof (disown_step s p b HI Hp) as Hd. destruct (disown p b s) as [owner s'].
    destruct Hd as (HI' & HR' & Hf' & Ho' & Hc' & Hops' & -> & Hpi').
    split; [split_and!; [done|done|]|].
    { intros k _ Hk. apply Hf'. by intros ->. }
    exists X. split_and!; [by apply handover_same|done| |].
    - split; [by etrans|]. intros k [Hk Hne]%elem_of_difference.
      etrans; [by apply Hfr|]. apply Hf'. set_solver.
    - rewrite Hops', spec_run_snoc, Hpi', Hc'. unfold pipe_ok in Hoks. rewrite Hoks.
      unfold spec_step. case_bool_decide as Hb; [by rewrite decide_True|by rewrite decide_False]. }
  intros s1 owner X1 (-> & Hk1 & Hspec).
  eapply gsafeP_bind with (Q := fun s' (_ : unit) X' => X' = X /\ hkeeps (X ∖ {[TLock p]}) s0 s' /\ pipe_ok p s').
  { destruct owner.
    - eapply gsafeP_bind; [apply (safe_pipe_run X s1 p _ "" HX); [by left|done]|].
      intros s2 [out err] X2 (-> & Hk2 & Hpi & Hop & Hcm). apply gsafeP_ret.
      split_and!; [done|by eapply hkeeps_trans|]. unfold pipe_ok.
      rewrite Hop, Hpi, Hcm, Hspec, pipe_cmd_off. done.
    - apply gsafeP_ret. split_and!; [done|done|]. unfold pipe_ok. by rewrite Hspec, app_nil_r. }
  intros s2 [] X2 (-> & Hk2 & Hok2). eapply gsafeP_weaken; [by apply safe_unlockPane|].
  intros s3 [] X3 (-> & Hk3). split; [done|]. eapply hkeeps_trans; [done|].
  eapply hkeeps_mono; [|exact Hk3]. set_solver.
Qed.

Lemma pane_valid s b br : hinv s -> h_heap s !! b = Some br -> ValidTmuxTarget (b_paneID br) = true.
Proof. intros HI. apply (i_panes s HI). Qed.

(** The pane of an existing bridge. *)
Lemma quiet_bridge_pane X s0 b :
  is_Some (h_heap s0 !! b) ->
  hquietP X s0 (atomically (get_bridge b "" b_paneID)) (fun s pane => ValidTmuxTarget pane = true /\
    exists br, h_heap s !! b = Some br /\ b_paneID br = pane).
Proof.
  intros Hb. apply q_read. intros s (HR & _ & _) HI. split; [done|]. cbn.
  destruct (bridge_kept b s0 s HR Hb) as [br Hbr]. rewrite Hbr. cbn. split; [|eauto].
  by eapply pane_valid.
Qed.

Lemma quiet_releasePipe X s0 b :
  above 1 X -> is_Some (h_heap s0 !! b) -> hquietP X s0 (releasePipe b) anyhow.
Proof.
  intros HX Hb. unfold releasePipe. eapply q_bind; [by apply quiet_bridge_pane|].
  intros s1 p Hk1 [Hv _]. eapply gsafeP_bind.
  { apply safe_lockPane. intros k Hk. specialize (HX k Hk). lia. }
  intros s2 [] X2 (-> & Hk2 & Hok). eapply gsafeP_weaken.
  { apply (safe_release_locked (X ∪ {[TLock p]}) s2 p b); [set_solver|done|done]. }
  intros s3 [] X3 (-> & Hk3). pose proof (above_no_lock p X HX) as Hno.
  assert (Heq : (X ∪ {[TLock p]}) ∖ {[TLock p]} = X) by set_solver. rewrite Heq in *.
  split_and!; [done| |done]. by eapply hkeeps_trans.
Qed.

(** *** Close *)

(** The bridge's streams are canceled. *)
Definition canceled_bridge (b : nat) (s : Host) : Prop :=
  forall d st, h_streams s !! d = Some st -> st_bridge st = b -> st_ctx st ∈ h_canceled s.

Lemma canceled_bridge_keeps X b s s' :
  TBridge b ∈ X -> hkeeps X s s' -> canceled_bridge b s -> canceled_bridge b s'.
Proof.
  intros HX [HR Hf] Hc d st Hst Hb. destruct (Hf _ HX) as [_ Hback].
  apply (r_canceled _ _ HR). eapply Hc; [by apply Hback|done].
Qed.

Lemma heap_flag (f : PaneBridge -> bool) b s s' :
  (forall br br', bridge_le br br' -> f br = true -> f br' = true) -> hle s s' ->
  (exists br, h_heap s !! b = Some br /\ f br = true) -> exists br, h_heap s' !! b = Some br /\ f br = true.
Proof.
  intros Hf HR (br & Hb & Ht). destruct (r_heap _ _ HR b br Hb) as (br' & Hb' & Hle). eauto.
Qed.

Lemma safe_Close X s0 b :
  TBridge b ∈ X -> above 2 X -> canceled_bridge b s0 ->
  (exists br, h_heap s0 !! b = Some br /\ b_closed br = false) ->
  hsafeP X s0 (Close b) (fun s' _ X' => X' = X ∖ {[TBridge b]} /\ hkeeps X' s0 s').
Proof.
  intros HX Habove Hcan (br0 & Hb0 & Hcl0). unfold Close.
  (* mark it closed *)
  eapply gsafeP_bind with (Q := fun s' (was : bool) X' => X' = X /\ was = false /\ hkeeps (X ∖ {[TBridge b]}) s0 s' /\
    canceled_bridge b s' /\ exists br, h_heap s' !! b = Some br /\ b_closed br = true).
  { apply gsafeP_atomically. intros s Hr HI. destruct Hr as (HR & HXs & Hfr).
    destruct (Hfr _ HX) as [Hcl _]. destruct (Hcl br0 Hb0) as (br & Hb & Hc). rewrite Hcl0 in Hc.
    rewrite Hb, Hc. destruct (close_step s b br X HI HX HXs Hb) as (Hg & Ho & HR' & Hf').
    split; [done|]. exists X. split_and!; [by apply handover_same|done|done| | |].
    - split; [by etrans|]. intros k [Hk Hne]%elem_of_difference. etrans; [by apply Hfr|]. apply Hf'. set_solver.
    - change (canceled_bridge b s). eapply canceled_bridge_keeps; [exact HX| |done]. by split.
    - cbn. rewrite lookup_insert_eq. eauto. }
  intros s1 was X1 (-> & -> & Hk1 & Hc1 & Hcl1). cbn match.
  assert (Hrest : forall s2, hkeeps X s1 s2 -> canceled_bridge b s2 /\ exists br, h_heap s2 !! b = Some br /\ b_closed br = true).
  { intros s2 Hk. split; [by eapply canceled_bridge_keeps|].
    eapply (heap_flag b_closed); [by intros ? ? []|apply Hk|done]. }
  (* release the pipe *)
  eapply gsafeP_bind; [apply (quiet_releasePipe X s1 b)|].
  { eapply above_le; [|exact Habove]. lia. }
  { destruct Hcl1 as (br & Hb & _). eauto. }
  intros s2 [] X2 (-> & Hk2 & _).
  (* stop the relay *)
  assert (Hset : forall (f : PaneBridge -> PaneBridge) (g : PaneBridge -> bool) s (P : Host -> Prop),
    (forall br, steady br (f br)) ->
    (forall br, g (f br) = true) -> is_Some (h_heap s !! b) ->
    hquietP X s (atomically (on_bridge b f)) (fun s' _ => exists br, h_heap s' !! b = Some br /\ g br = true)).
  { intros f g s _ Hf Hg Hex. apply q_still. intros s' (HR & _ & _) HI. unfold on_bridge.
    destruct (bridge_kept b s s' HR Hex) as [br Hb]. rewrite Hb.
    split; [by apply (still_bridge s' b br)|]. cbn. rewrite lookup_insert_eq. eauto. }
  assert (Hex2 : is_Some (h_heap s2 !! b)).
  { destruct (Hrest s2 Hk2) as (_ & br & Hb & _). eauto. }
  eapply gsafeP_bind; [apply (Hset (fun br => br <| b_done := true |>) b_done s2 (fun _ => True));
    [intros br; steady|done|done]|].
  intros s3 [] X3 (-> & Hk3 & Hd3).
  assert (Hex3 : is_Some (h_heap s3 !! b)) by (destruct Hd3 as (br & Hb & _); eauto).
  eapply gsafeP_bind; [apply (Hset (fun br => br <| b_wClosed := true |>) b_wClosed s3 (fun _ => True));
    [intros br; steady|done|done]|].
  intros s4 [] X4 (-> & Hk4 & Hw4).
  assert (Hd4 : exists br, h_heap s4 !! b = Some br /\ b_done br = true).
  { eapply (heap_flag b_done); [by intros ? ? []|apply Hk4|done]. }
  (* wait for it *)
  eapply gsafeP_bind with (Q := fun s' (_ : unit) X' => X' = X /\ hkeeps X s4 s' /\ True).
  { apply (q_await X s4 _ anyhow).
    - intros s (HR & _ & _) HI Hn. right. exists (TRelay b). split_and!.
      + destruct (heap_flag b_done b s4 s) as (br & Hb & Hd); [by intros ? ? []|done|done|].
        destruct (heap_flag b_wClosed b s4 s) as (br' & Hb' & Hw); [by intros ? ? []|done|done|].
        simplify_eq. exists br. done.
      + intros k Hk. specialize (Habove k Hk). cbn. lia.
      + intros s'. rewrite elem_of_owned. cbn. destruct (h_heap s' !! b) as [br|]; [|naive_solver].
        destruct (decide (b_relay br = RelayFinished)); naive_solver.
    - intros s [] s' _ HI Hs. split; [|done].
      destruct (h_heap s !! b) as [br|]; [|injection Hs as <-; by apply still_view].
      destruct (decide _); [|done]. injection Hs as <-. by apply still_view. }
  intros s5 [] X5 (-> & Hk5 & _).
  eapply gsafeP_bind; [apply (q_on_bridge X s5 b (fun br => br <| b_rClosed := true |>)); intros br; steady|].
  intros s6 [] X6 (-> & Hk6 & _).
  (* done *)
  assert (Hk : hkeeps X s1 s6).
  { do 4 (eapply hkeeps_trans; [eassumption|]). done. }
  assert (Hw6 : exists br, h_heap s6 !! b = Some br /\ b_wClosed br = true).
  { eapply (heap_flag b_wClosed); [by intros ? ? []| |exact Hw4]. etrans; [apply Hk5|apply Hk6]. }
  apply gsafeP_atomically. intros s Hr HI. destruct (Hr) as (HR & HXs & Hfr).
  assert (Hk' : hkeeps X s1 s) by (eapply hkeeps_trans; [exact Hk|by apply (rely_keeps _ owned)]).
  destruct (Hrest s Hk') as (Hcan' & br & Hb & Hcl).
  destruct (heap_flag b_wClosed b s6 s) as (br' & Hb' & Hw); [by intros ? ? []|done|done|]. simplify_eq.
  assert (Hst : hstill s (s <| h_heap ::= <[b := br <| b_released := true |>]> |>)).
  { apply (still_bridge s b br); [done|done|steady]. }
  destruct Hst as (HI1 & HR1 & Hf1 & Ho1). set (s7 := s <| h_heap ::= _ |>) in *.
  destruct (released_step s7 b HI1) as (HI2 & HR2 & Hf2 & Ho2).
  { apply HXs in HX. rewrite elem_of_owned in HX. exact HX. }
  { intros d st Hst Hbr. split; [by apply (Hcan' d st)|]. unfold bridge_shut, s7. cbn.
    rewrite lookup_insert_eq. eexists. split; [done|]. by split. }
  unfold on_bridge, mbind, M_bind. rewrite Hb. cbn beta iota.
  assert (HR12 : hle s (closed_for_good b s7)) by by etrans.
  assert (Hf12 : forall k, frame k s (closed_for_good b s7)) by (intros k; etrans; [apply Hf1|apply Hf2]).
  split; [split_and!; [done|done|auto]|].
  exists (X ∖ {[TBridge b]}). split_and!.
  - replace (X ∖ {[TBridge b]}) with ((X ∖ {[TBridge b]}) ∪ ∅ : gset Token) by set_solver.
    apply handover_swap; [done|set_solver|set_solver|]. etrans; [exact Ho2|]. rewrite Ho1. set_solver.
  - done.
  - eapply hkeeps_trans; [exact Hk1|]. eapply hkeeps_mono; [|eapply hkeeps_trans; [exact Hk'|by split]]. set_solver.
Qed.

(** *** The relay *)

Lemma safe_relayExit s0 b : hsafeP {[TRelay b]} s0 (relayExit b) (fun _ _ X' => X' = ∅).
Proof.
  apply gsafeP_atomically. intros s Hr HI. destruct Hr as (HR & HXs & Hfr).
  assert (Hin : in_use (TRelay b) s) by (apply elem_of_owned, HXs; set_solver).
  destruct Hin as (br & Hb & Hne). unfold on_bridge. rewrite Hb.
  destruct (relay_step s b br HI Hb Hne) as (HI' & HR' & Hf' & Ho').
  split; [split_and!; [done|done|]; intros k _ Hk; apply Hf'; set_solver|].
  exists (({[TRelay b]} ∖ {[TRelay b]}) ∪ ∅). split; [|set_solver].
  apply handover_swap; [done|set_solver|set_solver|]. etrans; [exact Ho'|set_solver].
Qed.

Lemma not_doomed_relay b br s :
  h_heap s !! b = Some br -> (b_done br && b_wClosed br = false) ->
  forall k, k ∈ ({[TRelay b]} : gset Token) -> ~ doomed owned wanted prereq k s.
Proof.
  intros Hb Hf k ->%elem_of_singleton [(br' & Hb' & Hd & Hw) _]. simplify_eq. by rewrite Hd, Hw in Hf.
Qed.

Lemma in_hand_keeps X b data s s' : TRelay b ∈ X -> hkeeps X s s' -> in_hand b data s -> in_hand b data s'.
Proof.
  intros HX [_ Hf] (br & Hb & Ht). destruct (Hf _ HX br Hb) as (br' & Hb' & [= _ Ht' Hp']).
  exists br'. split; [done|]. by rewrite Ht', Hp'.
Qed.

#[local] Abbreviation relay b := ({[TRelay b]} : gset Token).

Lemma relay_in b : TRelay b ∈ relay b.
Proof. set_solver. Qed.

Lemma safe_relayCheck s0 b : in_hand b [] s0 -> hsafeP (relay b) s0 (relayCheck b) (fun _ _ X' => X' = ∅).
Proof.
  intros Hin. unfold relayCheck. eapply gsafeP_bind.
  { apply (q_read _ _ _ (fun s (stop : bool) => stop = false -> exists br, h_heap s !! b = Some br /\ b_done br = false)).
    intros s _ _. split; [done|]. cbn. destruct (h_heap s !! b) as [br|]; [|done]. cbn. eauto. }
  intros s1 stop X1 (-> & Hk1 & Hstop). destruct stop; [apply safe_relayExit|].
  destruct (Hstop eq_refl) as (br & Hb & Hd). apply gsafeP_forever.
  - split; [done|]. eapply in_hand_keeps; [apply relay_in|done|done].
  - apply (not_doomed_relay b br); [done|]. by rewrite Hd.
Qed.

(** The relay takes bytes from the FIFO. *)
Lemma safe_fifo_Read s0 b :
  in_hand b [] s0 ->
  hsafeP (relay b) s0 (atomically (fifo_Read b)) (fun s r X' => X' = relay b /\
    in_hand b (match r with FifoData data => data | _ => [] end) s).
Proof.
  intros Hin. apply gsafeP_atomically. intros s Hr HI.
  assert (Hins : in_hand b [] s) by (eapply in_hand_keeps; [apply relay_in|by apply (rely_keeps _ owned)|done]).
  destruct Hins as (br & Hb & Ht). rewrite app_nil_r in Ht. destruct Hr as (_ & HXs & _).
  unfold fifo_Read. rewrite Hb. unfold ask_bool. set (s1 := s <| h_bools ::= tail |>).
  assert (H1 : hstill s s1) by by apply still_view.
  assert (Hsame : hguar (relay b) s s1 /\ exists X', handover owned (relay b) X' ∅ s s1 /\ X' = relay b /\ in_hand b [] s1).
  { split; [by apply (still_guar hinv hle owned frame)|]. exists (relay b).
    split_and!; [apply handover_same; [done|apply H1]|done|]. exists br. by rewrite app_nil_r. }
  destruct (default false _); [exact Hsame|]. destruct (bool_decide _); [exact Hsame|].
  destruct H1 as (HI1 & HR1 & Hf1 & Ho1). set (br' := br <| b_fifo ::= _ |> <| b_taken ::= _ |>).
  destruct (relay_change s1 b br br' (relay b)) as (Hg & Hh & _); try done; [|apply relay_in|].
  { unfold flow. cbn. rewrite Ht. by apply prefix_app_r. }
  split.
  - destruct Hg as (HI' & HR' & Hf'). split_and!; [done|by etrans|]. intros k Hk Hnk.
    etrans; [apply Hf1|]. apply Hf'; [by rewrite Ho1|done].
  - exists (relay b). split_and!; [by unfold handover in *; rewrite Ho1 in Hh|done|].
    exists br'. cbn. rewrite lookup_insert_eq. split; [done|]. by rewrite Ht.
Qed.

(** It writes them to the pipe. *)
Lemma safe_pipe_Write s0 b data :
  in_hand b data s0 ->
  hsafeP (relay b) s0 (pipe_Write b data) (fun s (written : bool) X' => X' = relay b /\
    (written = true -> in_hand b [] s)).
Proof.
  intros Hin. apply gsafeP_await.
  - intros s _ HI Hn. left. destruct (h_heap s !! b) as [br|] eqn:Hb; [|done].
    destruct (b_wClosed br || b_rClosed br) eqn:Hc; [done|].
    apply (not_doomed_relay b br s Hb). apply orb_false_iff in Hc as [-> _]. by destruct (b_done br).
  - intros s w s' Hr HI Heq.
    assert (Hins : in_hand b data s) by (eapply in_hand_keeps; [apply relay_in|by apply (rely_keeps _ owned)|done]).
    destruct Hins as (br & Hb & Ht). destruct Hr as (_ & HXs & _). rewrite Hb in Heq.
    destruct (b_wClosed br || b_rClosed br); [|destruct (_ <=? _)%nat; [|done]]; injection Heq as <- <-.
    + assert (Hst : hstill s s) by by apply still_view. split; [by apply (still_guar hinv hle owned frame)|].
      exists (relay b). split_and!; [by apply handover_same|done|done].
    + set (br' := br <| b_pipe ::= fun p => p ++ data |>).
      destruct (relay_change s b br br' (relay b)) as (Hg & Hh & _); try done; [|apply relay_in|].
      { unfold flow. cbn. by rewrite Ht, app_assoc. }
      split; [done|]. exists (relay b). split_and!; [done|done|]. intros _.
      exists br'. cbn. rewrite lookup_insert_eq. split; [done|]. by rewrite Ht, app_nil_r, app_assoc.
Qed.

Lemma safe_relayRead s0 b : in_hand b [] s0 -> hsafeP (relay b) s0 (relayRead b) (fun _ _ X' => X' = ∅).
Proof.
  intros Hin. unfold relayRead. eapply gsafeP_bind; [by apply safe_fifo_Read|].
  intros s1 r X1 (-> & Hin1). destruct r as [data| |]; [| |apply safe_relayExit].
  - eapply gsafeP_bind; [by apply safe_pipe_Write|]. intros s2 [] X2 (-> & Hin2); [|apply safe_relayExit].
    by apply safe_relayCheck, Hin2.
  - eapply gsafeP_bind; [by apply (q_read _ _ _ anyhow)|]. intros s2 [] X2 (-> & Hk2 & _).
    apply safe_relayCheck. eapply in_hand_keeps; [apply relay_in|done|done].
Qed.

(** *** Read, Write, Resize *)

(** The stream whose goroutine this is, and what it knows. *)
Definition my_stream (d : nat) (st : Stream) (s : Host) : Prop :=
  h_streams s !! d = Some st /\ h_streamDone s !! st_peer st = Some d.

Lemma not_doomed_stream d st s :
  hinv s -> h_streams s !! d = Some st ->
  (ctxErr s (st_ctx st) = false \/ forall br, h_heap s !! st_bridge st = Some br -> b_wClosed br = false) ->
  forall k, k ∈ ({[TStream d]} : gset Token) -> ~ doomed owned wanted prereq k s.
Proof.
  intros HI Hst Hor k ->%elem_of_singleton [(st' & Hst' & Hun) Hpre]. simplify_eq.
  destruct (i_gone s HI d st Hst Hun) as (Hc & br & Hb & _ & Hw).
  { intros Hh. apply (Hpre (TBridge (st_bridge st))); [cbn; by rewrite Hst|]. by apply elem_of_owned. }
  destruct Hor as [Hctx|Hall]; [|by rewrite (Hall br Hb) in Hw].
  unfold ctxErr in Hctx. rewrite bool_decide_eq_true_2 in Hctx by done. by rewrite orb_true_r in Hctx.
Qed.

(** What was read from a bridge. *)
Definition was_read (b : nat) (seen : list byte) (s : Host) : Prop :=
  exists br, h_heap s !! b = Some br /\ b_read br = seen.

Lemma was_read_keeps X d st seen s s' :
  TStream d ∈ X -> h_streams s !! d = Some st -> hkeeps X s s' ->
  was_read (st_bridge st) seen s -> was_read (st_bridge st) seen s'.
Proof.
  intros HX Hst [_ Hf] (br & Hb & <-). destruct (Hf _ HX) as [_ Hr]. destruct (Hr st Hst) as [_ Hbr].
  destruct (Hbr br Hb) as (br' & Hb' & He). by exists br'.
Qed.

#[local] Abbreviation mine d := ({[TStream d]} : gset Token).

Lemma safe_pipe_Read s0 d st seen :
  h_streams s0 !! d = Some st -> was_read (st_bridge st) seen s0 ->
  hsafeP (mine d) s0 (pipe_Read (st_bridge st)) (fun s r X' => X' = mine d /\ hle s0 s /\ log_kept d s0 s /\
    was_read (st_bridge st) (seen ++ default [] r) s).
Proof.
  intros Hst Hread. assert (Hin : TStream d ∈ mine d) by set_solver. apply gsafeP_await.
  - intros s (HR & _ & _) HI Hn. left. apply (not_doomed_stream d st s HI); [by apply (r_streams _ _ HR)|].
    right. intros br Hb. rewrite Hb in Hn. destruct (b_rClosed br); [done|].
    destruct (negb _); [done|]. by destruct (b_wClosed br).
  - intros s r s' Hr HI Heq. assert (Hk : hkeeps (mine d) s0 s) by by apply (rely_keeps _ owned).
    assert (Hreads : was_read (st_bridge st) seen s) by by eapply was_read_keeps.
    destruct Hreads as (br & Hb & Hs). rewrite Hb in Heq. destruct Hr as (HR & HXs & Hfr).
    assert (Hst' : h_streams s !! d = Some st) by by apply (r_streams _ _ HR).
    assert (Hnone : (None, s) = (r, s') -> hguar (mine d) s s' /\ exists X', handover owned (mine d) X' ∅ s s' /\
      X' = mine d /\ hle s0 s' /\ log_kept d s0 s' /\ was_read (st_bridge st) (seen ++ default [] r) s').
    { intros [= <- <-]. assert (Hstl : hstill s s) by by apply still_view.
      split; [by apply (still_guar hinv hle owned frame)|]. exists (mine d).
      split_and!; [by apply handover_same|done|done|apply (Hfr _ Hin)|]. exists br. by rewrite app_nil_r. }
    destruct (b_rClosed br); [by apply Hnone; injection Heq as <- <-|].
    destruct (negb _); [|destruct (b_wClosed br); [by apply Hnone; injection Heq as <- <-|done]].
    injection Heq as <- <-. set (br' := br <| b_pipe ::= drop bufSize |> <| b_read ::= fun r => r ++ take bufSize (b_pipe br) |>).
    destruct (read_change s d st br br' (mine d)) as (Hg & Hh & HR' & _); try done.
    { split; try done. cbn. by apply prefix_app_r. }
    { unfold relay_view. cbn. by rewrite <-app_assoc, take_drop. }
    split; [done|]. exists (mine d). split_and!; [done|done|by etrans| |].
    + etrans; [apply (Hfr _ Hin)|]. by split.
    + exists br'. cbn. rewrite lookup_insert_eq. by rewrite <-Hs.
Qed.

Lemma safe_Read s0 d st seen :
  h_streams s0 !! d = Some st -> was_read (st_bridge st) seen s0 ->
  hsafeP (mine d) s0 (Read (st_bridge st)) (fun s r X' => X' = mine d /\ hle s0 s /\ log_kept d s0 s /\
    was_read (st_bridge st) (match r with Ok chunk => seen ++ chunk | Err _ => seen end) s).
Proof.
  intros Hst Hread. assert (Hin : TStream d ∈ mine d) by set_solver. unfold Read.
  eapply gsafeP_bind; [by apply (q_read _ _ _ anyhow)|]. intros s1 closed X1 (-> & Hk1 & _).
  assert (Hst1 : h_streams s1 !! d = Some st) by by apply (r_streams _ _ (proj1 Hk1)).
  assert (Hread1 : was_read (st_bridge st) seen s1) by by apply (was_read_keeps (mine d) d st seen s0).
  assert (Hl1 : log_kept d s0 s1) by apply (proj2 Hk1 _ Hin).
  destruct closed; [apply gsafeP_ret; by split_and!; [|apply Hk1| |]|].
  eapply gsafeP_bind; [by apply (safe_pipe_Read s1 d st seen)|]. intros s2 r X2 (-> & HR2 & Hl2 & Hread2).
  assert (HR02 : hle s0 s2) by (etrans; [apply Hk1|done]). assert (Hl02 : log_kept d s0 s2) by by etrans.
  destruct r as [data|]; [by apply gsafeP_ret|]. cbn in Hread2. rewrite app_nil_r in Hread2.
  assert (Hst2 : h_streams s2 !! d = Some st) by by apply (r_streams _ _ HR2).
  eapply gsafeP_bind; [by apply (q_read _ _ _ anyhow)|]. intros s3 displaced X3 (-> & Hk3 & _). apply gsafeP_ret.
  split_and!; [done|etrans; [done|apply Hk3]|etrans; [done|apply (proj2 Hk3 _ Hin)]|by apply (was_read_keeps (mine d) d st seen s2)].
Qed.

(** The check of [closed] tells that the bridge exists. *)
Lemma quiet_closed X s0 b :
  hquietP X s0 (atomically (get_bridge b true b_closed)) (fun s (closed : bool) => closed = false -> is_Some (h_heap s !! b)).
Proof. apply q_read. intros s _ _. split; [done|]. cbn. by destruct (h_heap s !! b). Qed.

Lemma quiet_Write X s0 b data : hquietP X s0 (Write b data) anyhow.
Proof.
  unfold Write. eapply q_bind; [apply quiet_closed|]. intros s1 [] _ Hex; [by q_step|].
  eapply q_bind; [by apply quiet_bridge_pane, Hex|]. intros s2 pane _ [Hv _].
  eapply q_bind; [by apply quiet_SendKeys|]. intros; by q_step.
Qed.

Lemma quiet_Resize X s0 b cols rows : hquietP X s0 (Resize b cols rows) anyhow.
Proof.
  unfold Resize. eapply q_bind; [apply quiet_closed|]. intros s1 [] _ Hex; [by q_step|].
  eapply q_bind; [by apply quiet_bridge_pane, Hex|]. intros s2 pane _ [Hv _].
  eapply q_bind; [apply quiet_ResizePane|]. intros; by q_step.
Qed.

(** *** AttachPane *)

Lemma quiet_makeFIFO X s0 : hquietP X s0 makeFIFO anyhow.
Proof.
  assert (Hb : forall s, hquietP X s (atomically ask_bool) anyhow).
  { intros s. apply q_still. intros s' _ HI. cbn. split; [by apply still_view|done]. }
  unfold makeFIFO. eapply q_bind.
  { apply (q_still _ _ _ anyhow). intros s _ HI. cbn. split; [by apply still_view|done]. }
  intros s1 [dir|] _ _; [|by q_step].
  eapply q_bind; [apply Hb|]. intros s2 b1 _ _. destruct (negb b1); [by q_step|].
  eapply q_bind; [apply Hb|]. intros s3 b2 _ _. destruct (negb b2); [by q_step|].
  eapply q_bind; [apply Hb|]. intros s4 b3 _ _. destruct (negb b3); by q_step.
Qed.

(** A bridge fresh from [AttachPane], in the caller's hands. *)
Definition fresh_bridge (b : nat) (s : Host) : Prop :=
  (exists br, h_heap s !! b = Some br /\ b_closed br = false) /\
  forall d st, h_streams s !! d = Some st -> st_bridge st <> b.

Lemma fresh_keeps X b s s' : TBridge b ∈ X -> hkeeps X s s' -> fresh_bridge b s -> fresh_bridge b s'.
Proof.
  intros HX [HR Hf] [(br & Hb & Hc) Hno]. destruct (Hf _ HX) as [Hcl Hback]. split.
  - destruct (Hcl br Hb) as (br' & Hb' & Hc'). exists br'. split; [done|congruence].
  - intros d st Hst Heq. by apply (Hno d st); [apply Hback|].
Qed.

Lemma safe_AttachPane X s0 p :
  above 4 X -> ValidTmuxTarget p = true ->
  hsafeP X s0 (AttachPane p 0 0) (fun s' r X' => hkeeps X s0 s' /\
    match r with
    | Ok b => (TBridge b ∉ X) /\ X' = X ∪ {[TBridge b]} /\ fresh_bridge b s'
    | Err _ => X' = X
    end).
Proof.
  intros Habove Hv. assert (Hno : TLock p ∉ X) by (apply above_no_lock; eapply above_le; [|done]; lia).
  unfold AttachPane. eapply gsafeP_bind; [apply quiet_makeFIFO|].
  intros s1 [dir|e] X1 (-> & Hk1 & _); [|by apply gsafeP_ret].
  eapply gsafeP_bind; [by apply quiet_CapturePane|]. intros s2 content X2 (-> & Hk2 & _).
  set (initial := match content with Ok out => out | Err _ => "" end).
  eapply gsafeP_bind; [apply safe_lockPane; intros k Hk; specialize (Habove k Hk); lia|].
  intros s3 [] X3 (-> & Hk3 & Hok). set (Y := X ∪ {[TLock p]}).
  assert (HYX : Y ∖ {[TLock p]} = X) by set_solver.
  eapply gsafeP_bind; [apply (safe_pipe_run Y s3 p (pipeOn p dir) dir); [set_solver|by right|done]|].
  intros s4 [out err] X4 (-> & Hk4 & Hpi & Hop & Hcm). rewrite HYX in Hk4. cbn [snd fst] in *.
  assert (Hk : hkeeps X s0 s4) by (do 3 (eapply hkeeps_trans; [eassumption|]); done).
  destruct err as [e|].
  { rewrite pipe_cmd_on_failed, app_nil_r in Hcm.
    eapply gsafeP_bind; [apply (safe_unlockPane Y s4 p); [set_solver|unfold pipe_ok; by rewrite Hpi, Hop, Hcm]|].
    intros s5 [] X5 (-> & Hk5). rewrite HYX. apply gsafeP_ret. split; [|done].
    eapply hkeeps_trans; [exact Hk|]. eapply hkeeps_mono; [|exact Hk5]. set_solver. }
  rewrite pipe_cmd_on in Hcm. cbn [option_list] in Hcm.
  (* publish *)
  eapply gsafeP_bind with (Q := fun s' new X' => let b := fst new in
    X' = Y ∪ {[TRelay b; TBridge b]} /\ (TRelay b ∉ Y) /\ (TBridge b ∉ Y) /\ hkeeps X s4 s' /\
    fresh_bridge b s' /\ pipe_ok p s' /\ in_hand b [] s').
  { apply gsafeP_atomically. intros s Hr HI. destruct Hr as (HR & HXs & Hfr).
    destruct (Hfr (TLock p)) as (Hpi' & Hcm' & Hop'); [set_solver|].
    assert (Hp : p ∈ h_paneLocks s).
    { assert (Hin : TLock p ∈ owned s) by (apply HXs; set_solver). by rewrite elem_of_owned in Hin. }
    destruct (publish_step s p dir initial (h_pipes s3 !! p) (pipe_cmds p s3)) as
      (HI' & HR' & Hf' & Hfresh & Ho' & Hok' & Hns & br & Hb & Hcl & Hrv); [done|done|done| | |].
    { rewrite Hop', Hop. exact Hok. }
    { rewrite Hcm', Hcm. done. }
    destruct (publish p dir initial s) as [[b prev] s'] eqn:Hpub. cbn [snd] in *.
    assert (b = h_next s) as -> by (unfold publish in Hpub; by simplify_eq).
    split; [split_and!; [done|done|]; intros k _ Hk'; apply Hf'; set_solver|].
    assert (Hsub : Y ⊆ owned s) by done.
    exists (Y ∪ {[TRelay (h_next s); TBridge (h_next s)]}). cbn [fst]. split_and!; [|done|set_solver|set_solver| |split; eauto|done|].
    - replace (Y ∪ {[TRelay (h_next s); TBridge (h_next s)]})
        with ((Y ∖ ∅) ∪ {[TRelay (h_next s); TBridge (h_next s)]} : gset Token) by set_solver.
      apply handover_swap; [done|set_solver|done|]. rewrite Ho'. set_solver.
    - split; [by etrans|]. intros k Hk'. etrans; [apply Hfr; set_solver|]. apply Hf'. intros ->. done.
    - exists br. injection Hrv as _ Ht Hp'. split; [done|]. by rewrite Ht, Hp'. }
  intros s5 [b prev] X5 (-> & Hnr & Hnb & Hk5 & Hfb & Hok5 & Hin5). cbn [fst] in *.
  set (Z := X ∪ {[TRelay b; TBridge b]}).
  assert (HZ : (Y ∪ {[TRelay b; TBridge b]}) ∖ {[TLock p]} = Z) by (unfold Y, Z; set_solver).
  eapply gsafeP_bind; [apply (safe_unlockPane _ s5 p); [set_solver|done]|].
  intros s6 [] X6 (-> & Hk6). rewrite HZ. apply (hkeeps_mono _ Z) in Hk6; [|unfold Y, Z; set_solver].
  eapply gsafeP_bind with (Q := fun s' (_ : unit) X' => X' = Z /\ hkeeps Z s6 s' /\ True).
  { destruct prev as [prev|]; [apply quiet_displace|by apply (q_ret Z s6 tt anyhow)]. }
  intros s7 [] X7 (-> & Hk7 & _). cbn match.
  eapply gsafeP_bind; [by apply (q_ret Z s7 tt anyhow)|]. intros s8 [] X8 (-> & Hk8 & _).
  (* start the relay *)
  assert (HrZ : TRelay b ∈ Z) by (unfold Z; set_solver).
  assert (Hin8 : in_hand b [] s8).
  { eapply in_hand_keeps; [exact HrZ| |exact Hin5]. do 2 (eapply hkeeps_trans; [eassumption|]). done. }
  eapply gsafeP_bind with (Q := fun s' (_ : unit) X' => X' = Z /\ hkeeps (Z ∖ {[TRelay b]}) s8 s' /\ in_hand b [] s').
  { apply gsafeP_atomically. intros s Hr HI. pose proof (rely_keeps _ owned _ _ _ _ Hr) as Hk8'.
    destruct Hr as (HR & HXs & Hfr). assert (Hin : in_use (TRelay b) s) by by apply elem_of_owned, HXs.
    assert (Hins : in_hand b [] s) by by eapply in_hand_keeps.
    destruct Hins as (br & Hb & Ht). destruct Hin as (br0 & Hb0 & Hne). unfold on_bridge. rewrite Hb.
    assert (br0 = br) as -> by congruence. set (br' := br <| b_relay := RelayRunning |>).
    destruct (relay_change s b br br' Z) as (Hg & Hh & Hkeep); try done; [exact (i_flow s HI b br Hb)|].
    split; [done|]. exists Z. split_and!; [done|done| |].
    - eapply hkeeps_trans; [|exact Hkeep]. eapply hkeeps_mono; [|exact Hk8']. set_solver.
    - exists br'. cbn. by rewrite lookup_insert_eq. }
  intros s9 [] X9 (-> & Hk9 & Hin9).
  assert (HXb : X ∪ {[TBridge b]} = Z ∖ {[TRelay b]}) by (unfold Z; set_solver).
  eapply gsafeP_bind with (Q := fun s' (_ : unit) X' => X' = X ∪ {[TBridge b]} /\ hkeeps (X ∪ {[TBridge b]}) s9 s').
  { apply (q_spawn Z (X ∪ {[TBridge b]}) {[TRelay b]}); [set_solver|unfold Z; set_solver| |].
    - intros s Hr HI. apply gsafeP_goroutine, safe_relayCheck.
      eapply in_hand_keeps; [exact HrZ|by apply (rely_keeps _ owned)|done].
    - intros s Hr HI. split; [done|]. eapply hkeeps_mono; [|by apply (rely_keeps _ owned)]. unfold Z. set_solver. }
  intros s10 [] X10 (-> & Hk10). apply gsafeP_ret.
  assert (Hkb : hkeeps (X ∪ {[TBridge b]}) s5 s10).
  { rewrite HXb in *. assert (Hsub : Z ∖ {[TRelay b]} ⊆ Z) by set_solver.
    eapply hkeeps_trans; [by eapply hkeeps_mono; [|exact Hk6]|].
    eapply hkeeps_trans; [by eapply hkeeps_mono; [|exact Hk7]|].
    eapply hkeeps_trans; [by eapply hkeeps_mono; [|exact Hk8]|]. by eapply hkeeps_trans. }
  split_and!; [|set_solver|done|].
  - eapply hkeeps_trans; [exact Hk|]. eapply hkeeps_trans; [exact Hk5|].
    eapply hkeeps_mono; [|exact Hkb]. set_solver.
  - eapply fresh_keeps; [|exact Hkb|done]. set_solver.
Qed.
