(* ===== verification/HandlerSafety.v ===== *)
(** * The protocol handler is safe

    [HostSafety] continued: the operations of [Handler], its goroutines and
    its environment. *)

From S2P Require Import Prelude GoLib Own Protocol Compress TmuxText Update Host Bridge Handler HostInv HostSafety.
From S2P Require TitleFilter.
Open Scope Z_scope.

(** ** Sending *)

Lemma still_ask_send s : hinv s -> hstill s (snd (ask_send s)).
Proof. intros HI. by apply still_view. Qed.

(** A message of no stream. *)
Lemma quiet_send X s0 p msg :
  msg_kind msg <> KOutput ->
  (msg_kind msg = KDetached -> TPeer p ∈ X /\ h_streamDone s0 !! p = None) ->
  hquietP X s0 (sendMsg p msg) anyhow.
Proof.
  intros Ho Hd. unfold sendMsg. eapply q_bind; [|intros; by q_step].
  apply (q_still _ _ _ anyhow). intros s Hr HI.
  pose proof (still_ask_send s HI) as H1. destruct (ask_send s) as [a s1]. cbn [snd] in H1.
  split; [|done]. eapply hstill_trans; [exact H1|]. apply still_event; [apply H1|].
  split_and!; [done|done|]. cbn. intros Hk. destruct (Hd Hk) as [HX Hnone].
  destruct Hr as (_ & _ & Hfr). destruct (Hfr _ HX) as [Hsd _].
  destruct H1 as (_ & _ & Hf1 & _). destruct (Hf1 (TPeer p)) as [Hsd1 _]. intuition congruence.
Qed.

Lemma quiet_sendMsg X s0 p msg :
  msg_kind msg <> KOutput -> msg_kind msg <> KDetached -> hquietP X s0 (sendMsg p msg) anyhow.
Proof. intros. by apply quiet_send. Qed.

Lemma quiet_sendError X s0 p code text : hquietP X s0 (sendError p code text) anyhow.
Proof. unfold sendError. eapply q_bind; [by apply quiet_sendMsg|]. intros; by q_step. Qed.

Lemma quiet_newSessionsEvent X s0 ss :
  hquietP X s0 (newSessionsEvent ss) (fun _ m => msg_kind m = KSessions).
Proof.
  apply q_still. intros s _ HI. destruct (h_hasStateFile s).
  - destruct (ask_state s) as [st s1] eqn:Hs. split; [|done]. unfold ask_state in Hs. injection Hs as _ <-.
    by apply still_view.
  - split; [by apply still_view|done].
Qed.

(** A section that changes nothing the specification speaks about. *)
Lemma q_view {A} X s0 (f : M Host A) :
  (forall s, view (snd (f s)) = view s) -> hquietP X s0 (atomically f) anyhow.
Proof.
  intros Hf. apply q_still. intros s _ HI. specialize (Hf s). destruct (f s) as [a s'].
  split; [by apply still_view|done].
Qed.

(** ** Detaching *)

Lemma peer_none (f : Host -> gmap string nat) p X s s' :
  (f = h_streamDone \/ f = h_bridges) -> TPeer p ∈ X -> hkeeps X s s' -> f s !! p = None -> f s' !! p = None.
Proof. intros Hf HX [_ Hfr] Hn. destruct (Hfr _ HX) as [H1 H2]. destruct Hf as [-> | ->]; intuition congruence. Qed.

(** What the hold of [h.mu] leaves to do. *)
Definition detaching (p : string) (X X' : gset Token) (s : Host) (v : DetachView) : Prop :=
  (dv_pane v <> "" -> ValidTmuxTarget (dv_pane v) = true) /\ h_bridges s !! p = None /\
  h_streamDone s !! p = dv_done v /\
  (forall d, dv_done v = Some d -> exists st, h_streams s !! d = Some st /\ unregistered st s) /\
  match dv_bridge v with
  | Some b =>
      (TBridge b ∉ X) /\ X' = X ∪ {[TBridge b]} /\
      (exists br, h_heap s !! b = Some br /\ b_closed br = false) /\
      exists ctx, dv_cancel v = Some ctx /\
        forall d st, h_streams s !! d = Some st -> st_bridge st = b -> st_ctx st = ctx
  | None => X' = X
  end.

Lemma safe_detachLocked X s0 p waits :
  hsafeP X s0 (atomically (detachLocked p waits)) (fun s' v X' => hkeeps X s0 s' /\ detaching p X X' s' v).
Proof.
  apply gsafeP_atomically. intros s Hr HI. pose proof (detach_step s p waits HI) as Hd.
  destruct (detachLocked p waits s) as [v s']. destruct Hd as (HI' & HR' & Hf' & Hv & Hdone & Hsd & _ & Hb & Hrest).
  split; [by split_and!|]. assert (Hk : hkeeps X s0 s').
  { eapply hkeeps_trans; [by apply (rely_keeps _ owned)|]. by split. }
  assert (Hw : forall d, dv_done v = Some d -> exists st, h_streams s' !! d = Some st /\ unregistered st s').
  { intros d Hd. rewrite Hdone, <-Hsd in Hd. destruct (i_done s' HI' p d Hd) as (_ & st & Hst & Hp).
    exists st. split; [done|]. unfold unregistered. by rewrite Hp, Hb. }
  destruct Hr as (_ & HXs & _). unfold detaching. destruct (dv_bridge v) as [b|].
  - destruct Hrest as (Hno & Ho & Hbr & Hctx). exists ((X ∖ ∅) ∪ {[TBridge b]}). split.
    { apply handover_swap; [done|set_solver|set_solver|]. rewrite Ho. set_solver. }
    split; [done|]. split_and!; try done; [congruence|set_solver|set_solver].
  - exists X. split; [by apply handover_same|]. split; [done|]. split_and!; try done. congruence.
Qed.

Lemma safe_detachClose X X1 s0 p v :
  detaching p X X1 s0 v -> above 2 X ->
  hsafeP X1 s0 (_ ← match dv_cancel v with Some ctx => cancel_ctx ctx | None => mret tt end;
                match dv_bridge v with Some b => Close b | None => mret tt end)
    (fun s' _ X' => X' = X /\ hkeeps X s0 s').
Proof.
  intros (_ & _ & _ & _ & Hrest) Hab.
  assert (Hcancel : forall Y ctx, hquietP Y s0 (cancel_ctx ctx) (fun s _ => ctx ∈ h_canceled s)).
  { intros Y ctx. apply q_still. intros s _ HI. cbn. split; [by apply still_canceled|]. set_solver. }
  destruct (dv_bridge v) as [b|].
  - destruct Hrest as (Hno & -> & (br & Hbr & Hcl) & ctx & -> & Hctx).
    eapply gsafeP_bind; [apply Hcancel|]. intros s1 [] X1 (-> & Hk1 & Hc).
    assert (HX1 : TBridge b ∈ X ∪ {[TBridge b]}) by set_solver.
    pose proof (proj2 Hk1 _ HX1) as [Hclf Hback]. eapply gsafeP_weaken; [apply (safe_Close _ s1 b HX1)|].
    + intros k [Hk|Hk]%elem_of_union; [by apply Hab|]. apply elem_of_singleton in Hk as ->. done.
    + intros d st Hst Hb. by rewrite (Hctx d st (Hback d st Hst Hb) Hb).
    + destruct (Hclf br Hbr) as (br' & Hbr' & Heq). exists br'. split; [done|congruence].
    + intros s2 [] X2 (-> & Hk2). assert (HXe : (X ∪ {[TBridge b]}) ∖ {[TBridge b]} = X) by set_solver.
      rewrite HXe in *. split; [done|]. eapply hkeeps_trans; [|exact Hk2]. eapply hkeeps_mono; [|exact Hk1]. set_solver.
  - subst X1. destruct (dv_cancel v) as [ctx|].
    + eapply gsafeP_bind; [apply Hcancel|]. intros s1 [] X1 (-> & Hk1 & _). apply gsafeP_ret. by split.
    + eapply gsafeP_bind; [apply (q_ret X s0 tt anyhow); done|]. intros s1 [] X1 (-> & Hk1 & _). apply gsafeP_ret. by split.
Qed.

(** How far a detach waits: with [waits], for the stream it takes over. *)
Definition detach_rank (waits : bool) : nat := if waits then 4 else 3.

Lemma quiet_await_done X s0 p d :
  above 4 X -> (exists st, h_streams s0 !! d = Some st /\ unregistered st s0) ->
  hquietP X s0 (await_done d) (fun s _ => h_streamDone s !! p <> Some d).
Proof.
  intros Hab (st & Hst & Hun). apply q_await.
  - intros s (HR & _ & _) HI Hn. right. exists (TStream d). split_and!.
    + exists st. split; [by apply (r_streams _ _ HR)|by eapply (r_unreg _ _ HR)].
    + intros k Hk. specialize (Hab k Hk). cbn. lia.
    + intros s'. rewrite elem_of_owned. cbn. by destruct (decide (d ∈ h_open s')).
  - intros s [] s' _ HI Heq. destruct (decide (d ∈ h_open s)) as [|Hno]; [done|]. injection Heq as <-.
    split; [by apply still_view|]. intros Hd. by destruct (i_done s HI p d Hd).
Qed.

Lemma quiet_detachPeerWait X s0 p waits :
  above (detach_rank waits) X ->
  hquietP X s0 (detachPeerWait p waits) (fun s _ => waits = true -> TPeer p ∈ X ->
    h_streamDone s !! p = None /\ h_bridges s !! p = None).
Proof.
  intros Hab. assert (Hab2 : above 2 X) by (eapply above_le; [|exact Hab]; destruct waits; cbn; lia).
  unfold detachPeerWait. eapply gsafeP_bind; [apply safe_detachLocked|].
  intros s1 v X1 (Hk1 & Hd). pose proof (safe_detachClose X X1 s1 p v Hd Hab2) as Hclose.
  destruct Hd as (Hv & Hbr & Hsd & Hw & _).
  match goal with |- hsafeP _ _ (?c ≫= fun _ => ?cl ≫= ?f) ?Q =>
    change (hsafeP X1 s1 ((c ≫= fun _ => cl) ≫= f) Q) end.
  eapply gsafeP_bind; [exact Hclose|]. intros s2 [] X2 (-> & Hk2).
  assert (Hw2 : forall d, dv_done v = Some d -> exists st, h_streams s2 !! d = Some st /\ unregistered st s2).
  { intros d Hdv. destruct (Hw d Hdv) as (st & Hst & Hun). destruct Hk2 as [HR2 _].
    exists st. split; [by apply (r_streams _ _ HR2)|by eapply (r_unreg _ _ HR2)]. }
  assert (Hk12 : hkeeps X s0 s2) by by eapply hkeeps_trans.
  eapply gsafeP_weaken.
  { set (Q := fun s (_ : unit) => waits = true -> TPeer p ∈ X -> h_streamDone s !! p = None).
    apply (q_bind X s2 _ _ Q Q).
    - destruct (dv_done v) as [d|]; [destruct waits|].
      + eapply quietP_weaken; [by apply (quiet_await_done X s2 p d), Hw2|].
        intros s3 [] Hk3 Hne _ HX. assert (Hk13 : hkeeps X s1 s3) by by eapply hkeeps_trans.
        destruct (proj2 Hk13 _ HX) as [[Hs|Hs] _]; [congruence|done].
      + by apply q_ret.
      + apply q_ret. intros _ HX. by apply (peer_none h_streamDone p X s1 s2); [left| | |].
    - intros s3 [] Hk3 Hn. destruct (bool_decide _).
      + apply q_ret. exact Hn.
      + eapply q_bind; [apply quiet_ReleaseIfForced|]. intros s4 r Hk4 _. apply q_ret.
        intros Hwt HX. by apply (peer_none h_streamDone p X s3 s4); [left| | |apply Hn]. }
  intros s3 [] X3 (-> & Hk3 & Hn). split_and!; [done|by eapply hkeeps_trans|].
  intros Hwt HX. split; [by apply Hn|]. apply (peer_none h_bridges p X s1 s3); [by right|done| |done].
  by eapply hkeeps_trans.
Qed.

Lemma quiet_detachPeer X s0 p :
  above 4 X -> hquietP X s0 (detachPeer p) (fun s _ => TPeer p ∈ X ->
    h_streamDone s !! p = None /\ h_bridges s !! p = None).
Proof.
  intros Hab. eapply quietP_weaken; [by apply (quiet_detachPeerWait X s0 p true)|]. cbn. auto.
Qed.

Lemma quiet_handlePaneExit X s0 p waits :
  above (detach_rank waits) X -> hquietP X s0 (handlePaneExit p waits) anyhow.
Proof.
  intros Hab. unfold handlePaneExit. eapply q_bind.
  { apply q_view. intros s. unfold exitLocked. destruct (h_paneForPeer s !! p) as [pane|]; [|done].
    by destruct (_ || _). }
  intros s1 [pane|] _ _; [|by q_step].
  eapply q_bind; [by apply quiet_sendMsg|]. intros s2 _ _ _.
  eapply q_bind; [apply quiet_ListAll|]. intros s3 sessions _ _.
  apply (q_bind _ _ _ _ anyhow).
  { destruct sessions as [ss|e]; [|by q_step]. eapply q_bind; [apply quiet_newSessionsEvent|].
    intros s4 ev _ Hev. eapply q_bind; [by apply quiet_sendMsg; rewrite Hev|]. intros; by q_step. }
  intros s4 [] _ _. eapply quietP_weaken; [by apply quiet_detachPeerWait|]. done.
Qed.

(** ** A stream and its owner *)

Lemma stream_at_log d st ph s s' : log_kept d s s' -> stream_at d st ph s -> stream_at d st ph s'.
Proof.
  intros [Hof H] (Hst & Hd & Hc & Hph). destruct (H st Hst Hd) as (? & ? & Hc'). split_and!; congruence.
Qed.

Lemma stream_at_keeps X d st ph s s' :
  TStream d ∈ X -> hkeeps X s s' -> stream_at d st ph s -> stream_at d st ph s'.
Proof. intros HX [_ Hf]. apply stream_at_log, (Hf _ HX). Qed.

(** The output may open with [pre]. *)
Definition opens (st : Stream) (pre : list byte) (s : Host) : Prop :=
  exists br, h_heap s !! st_bridge st = Some br /\ opening br pre.

Lemma opens_later st pre s s' : hle s s' -> opens st pre s -> opens st pre s'.
Proof.
  intros HR (br & Hb & Ho). destruct (r_heap _ _ HR _ _ Hb) as (br' & Hb' & Hle). exists br'. split; [done|].
  unfold opening. by rewrite (ble_initial _ _ Hle).
Qed.

Lemma received_log d s s' : log_kept d s s' -> received d s' = received d s.
Proof. intros [Hof _]. unfold received. by rewrite Hof. Qed.

(** More was read for a stream. *)
Lemma streaming_read d st c pre seen seen' plain s s' :
  hle s s' -> log_kept d s s' -> was_read (st_bridge st) seen' s' ->
  streaming d st c pre seen plain s -> streaming d st c pre seen' plain s'.
Proof.
  intros HR Hl (br & Hb & Hr) [Hat (br0 & Hb0 & _ & Ho) Hd Hs]. split.
  - by eapply stream_at_log.
  - destruct (opens_later st pre s s' HR) as (br1 & Hb1 & Ho1); [by exists br0|]. exists br. by simplify_eq.
  - done.
  - by rewrite (r_flate _ _ HR), (received_log d s s').
Qed.

Lemma streaming_seen d st c pre seen plain s : streaming d st c pre seen plain s -> was_read (st_bridge st) seen s.
Proof. intros [_ (br & Hb & Hr & _) _ _]. by exists br. Qed.

Lemma streaming_opens d st c pre seen plain s : streaming d st c pre seen plain s -> opens st pre s.
Proof. intros [_ (br & Hb & _ & Ho) _ _]. by exists br. Qed.

Lemma streaming_keeps X d st c pre seen plain s s' :
  TStream d ∈ X -> hkeeps X s s' -> streaming d st c pre seen plain s -> streaming d st c pre seen plain s'.
Proof.
  intros HX Hk Hs. apply (streaming_read d st c pre seen seen plain s); [apply Hk|apply (proj2 Hk _ HX)| |done].
  apply (was_read_keeps X d st seen s); [done|apply Hs|done|by eapply streaming_seen].
Qed.

(** Its owner sends for it; a step before the send changes nothing of note. *)
Lemma stream_send X s s1 d st ph e :
  hinv s -> hstill s s1 -> X ⊆ owned s -> TStream d ∈ X -> stream_at d st ph s ->
  ev_stream e = Some d -> ev_peer e = st_peer st -> msg_kind (ev_msg e) <> KAttached ->
  msg_kind (ev_msg e) <> KDetached -> phase_step st ph e <> PBad ->
  (forall br, h_heap s1 !! st_bridge st = Some br -> delivered d st br s1 -> delivered d st br (log_event e s1)) ->
  hguar X s (log_event e s1) /\ handover owned X X ∅ s (log_event e s1) /\
  hkeeps (X ∖ {[TStream d]}) s (log_event e s1) /\ stream_at d st (phase_step st ph e) (log_event e s1).
Proof.
  intros HI (HI1 & HR1 & Hf1 & Ho1) HXs HX Hat Hs Hp Hk Hk' Hnb Hdel.
  assert (Hk1 : hkeeps X s s1) by (split; [done|auto]).
  destruct (stream_at_keeps X d st ph s s1 HX Hk1 Hat) as (Hst & Hd & Hc & Hph).
  destruct (stream_event_step s1 d st e X HI1) as ((HI' & HR' & Hf') & Ho & HR & Hf); [|done|].
  { split_and!; try done; [by rewrite Hph|]. intros br Hb. apply Hdel; [done|]. by apply (i_delivered s1 HI1). }
  split_and!; [split_and!; [done|by etrans|]|apply handover_same; [done|congruence]|split; [by etrans|]|].
  - intros k Hin Hnin. etrans; [apply Hf1|]. apply Hf'; [by rewrite Ho1|done].
  - intros k [_ Hne]%elem_of_difference. etrans; [apply Hf1|]. apply Hf. set_solver.
  - split_and!; [done|done| |]; unfold log_event; cbn.
    + rewrite current_snoc. unfold current_step. rewrite decide_True by done. rewrite Hs.
      by destruct (msg_kind (ev_msg e)).
    + rewrite of_stream_snoc, decide_True by done. by rewrite phase_snoc, Hph.
Qed.

Lemma stream_at_owner d st s ph : stream_at d st ph s -> my_stream d st s.
Proof. intros (? & ? & _). by split. Qed.

(** The stream, whatever was sent for it. *)
Definition stream_up (d : nat) (st : Stream) (s : Host) : Prop :=
  stream_at d st PLive s \/ stream_at d st PDead s.

Lemma stream_up_keeps X d st s s' :
  TStream d ∈ X -> hkeeps X s s' -> stream_up d st s -> stream_up d st s'.
Proof. intros HX Hk [H|H]; [left|right]; by eapply stream_at_keeps. Qed.

Lemma safe_resetStream X s0 d st reason :
  TStream d ∈ X -> above 3 X -> stream_up d st s0 ->
  hsafeP X s0 (resetStream (st_peer st) d reason) (fun s' _ X' => X' = X /\
    hkeeps (X ∖ {[TStream d]}) s0 s' /\ h_streams s' !! d = Some st).
Proof.
  intros HX Hab Hup. unfold resetStream.
  eapply gsafeP_bind; [by apply (quiet_detachPeerWait X s0 (st_peer st) false)|]. intros s1 [] X1 (-> & Hk1 & _).
  eapply gsafeP_bind; [by apply (q_read _ _ _ anyhow)|]. intros s2 superseded X2 (-> & Hk2 & _).
  assert (Hk12 : hkeeps X s0 s2) by by eapply hkeeps_trans.
  assert (Hkm : hkeeps (X ∖ {[TStream d]}) s0 s2) by (eapply hkeeps_mono; [|exact Hk12]; set_solver).
  assert (Hup2 : stream_up d st s2) by by eapply stream_up_keeps.
  destruct superseded.
  { apply gsafeP_ret. split_and!; [done|done|]. by destruct Hup2 as [(? & _)|(? & _)]. }
  eapply gsafeP_bind with (Q := fun s' _ X' => X' = X /\ hkeeps (X ∖ {[TStream d]}) s2 s' /\ h_streams s' !! d = Some st).
  - apply gsafeP_atomically. intros s Hr HI.
    assert (Hups : stream_up d st s) by (eapply stream_up_keeps; [exact HX|by apply (rely_keeps _ owned)|done]).
    pose proof (still_ask_send s HI) as H1. destruct (ask_send s) as [a s1']. cbn [snd] in H1.
    set (e := mkEvent _ _ _ _ _).
    assert (Hsend : exists ph, stream_at d st ph s /\ phase_step st ph e = PReset).
    { destruct Hups as [H|H]; eexists; (split; [exact H|]); unfold phase_step, e; cbn;
        rewrite (bool_decide_eq_true_2 (st_peer st = st_peer st)) by done; done. }
    destruct Hsend as (ph & Hat & Hph).
    destruct (stream_send X s s1' d st ph e) as (Hg & Hh & Hkeep & Hat'); try done; [apply Hr|congruence| |].
    { intros br _. by apply delivered_silent. }
    split; [done|]. exists X. split_and!; [done|done| |apply Hat'].
    eapply hkeeps_trans; [|exact Hkeep]. eapply hkeeps_mono; [|by apply (rely_keeps _ owned)]. set_solver.
  - intros s3 a X3 (-> & Hk3 & Hst). apply gsafeP_ret. split_and!; [done|by eapply hkeeps_trans|done].
Qed.

Lemma safe_endStream X s0 d st :
  TStream d ∈ X -> h_streams s0 !! d = Some st ->
  hsafeP X s0 (endStream (st_peer st) d) (fun s' _ X' => X' = X ∖ {[TStream d]} /\ hkeeps X' s0 s').
Proof.
  intros HX Hst. unfold endStream.
  eapply gsafeP_bind with (Q := fun s' _ X' => X' = X /\ hkeeps (X ∖ {[TStream d]}) s0 s' /\
    h_streams s' !! d = Some st /\ quiet_stream d st s').
  - apply gsafeP_atomically. intros s Hr HI. destruct (Hr) as (HR & HXs & Hfr).
    assert (Hsts : h_streams s !! d = Some st) by by apply (r_streams _ _ HR).
    destruct (end_step s (st_peer st) d st HI Hsts) as (HI' & HR' & Hf' & Ho' & Hq); [done|].
    destruct (endStreamLocked _ _ s) as [[] s']. cbn [snd] in *.
    split; [split_and!; [done|done|]; intros k _ Hk; apply Hf'; by intros ->|].
    exists X. split_and!; [by apply handover_same|done| |by apply (r_streams _ _ HR')|done].
    split; [by etrans|]. intros k [Hk Hne]%elem_of_difference. etrans; [by apply Hfr|]. apply Hf'. set_solver.
  - intros s1 [] X1 (-> & Hk1 & Hst1 & Hq1). apply gsafeP_atomically. intros s Hr HI. destruct (Hr) as (HR & HXs & Hfr).
    destruct (r_quiet _ _ HR d st Hst1 Hq1) as [Hq _].
    destruct (close_done_step s d st HI) as (HI' & HR' & Hf' & Ho'); [by apply (r_streams _ _ HR)|done|].
    cbn. split; [by split_and!|]. exists ((X ∖ {[TStream d]}) ∪ ∅). split_and!.
    + apply handover_swap; [done|set_solver|set_solver|]. etrans; [exact Ho'|set_solver].
    + set_solver.
    + rewrite (union_empty_r_L _). eapply hkeeps_trans; [exact Hk1|]. eapply hkeeps_trans.
      * eapply hkeeps_mono; [|by apply (rely_keeps _ owned)]. set_solver.
      * by split.
Qed.

(** ** The output stream *)

(** A stream's context: once it is not canceled, the stream's owner is not to
    be waited for. *)
Lemma quiet_ctx_canceled X s0 d st :
  h_streams s0 !! d = Some st ->
  hquietP X s0 (ctx_canceled (st_ctx st)) (fun s c => c = false ->
    forall k, k ∈ ({[TStream d]} : gset Token) -> ~ doomed owned wanted prereq k s).
Proof.
  intros Hst. apply q_read. intros s (HR & _ & _) HI. split; [done|]. cbn. intros Hc.
  apply (not_doomed_stream d st s HI); [by apply (r_streams _ _ HR)|by left].
Qed.

(** What the next message must be for the peer to get [plain]. *)
Definition carries_on (d : nat) (st : Stream) (c : option OutputCompressor) (data plain : list byte) (s : Host) : Prop :=
  deflates c = st_deflate st /\ sent_as (h_flate s) c (received d s ++ data) plain.

Lemma quiet_compressOutput X s0 d st c pre seen plain data :
  TStream d ∈ X -> streaming d st c pre seen plain s0 ->
  hquietP X s0 (compressOutput c data) (fun s r => streaming d st c pre seen plain s /\
    forall out, fst r = Some out -> carries_on d st (snd r) out (plain ++ data) s).
Proof.
  intros HX Hs0. destruct c as [c|]; cbn [compressOutput].
  - apply q_read. intros s Hr _. assert (Hs : streaming d st (Some c) pre seen plain s)
      by (eapply streaming_keeps; [exact HX|by apply (rely_keeps _ owned)|done]).
    destruct (Compress (h_flate s) data c) as [r c'] eqn:Hc. cbn. split; [done|split; [done|]].
    destruct r as [out'|]; [|done]. intros out [= <-]. destruct Hs as [_ _ Hd Hsent]. split; [done|].
    cbn in *. by eapply Compress_carries.
  - apply q_ret. split; [done|]. destruct Hs0 as [_ _ Hd Hsent]. cbn in *. intros out [= <-]. split; [done|].
    cbn. congruence.
Qed.

Lemma safe_sendOutput X s0 d st c c' pre pre' seen plain plain' data :
  TStream d ∈ X -> (forall k, k ∈ X -> k = TStream d \/ exists p, k = TPeer p) ->
  streaming d st c pre seen plain s0 -> carries_on d st c' data plain' s0 ->
  opens st pre' s0 -> plain' `prefix_of` pre' ++ TitleFilter.stripped seen ->
  hsafeP X s0 (sendOutput (st_ctx st) (st_peer st) data d (deflates c')) (fun s' a X' => X' = X /\
    hkeeps (X ∖ {[TStream d]}) s0 s' /\ stream_up d st s' /\
    (a = Sent -> streaming d st c' pre' seen plain' s')).
Proof.
  intros HX Honly Hs0 [Hd' Hsent'] Hop Hpre. apply gsafeP_await.
  - intros s Hr HI Hn. left.
    assert (Hats : stream_at d st PLive s) by (eapply stream_at_keeps; [exact HX|by apply (rely_keeps _ owned)|apply Hs0]).
    intros k Hk. destruct (Honly k Hk) as [-> | [p ->]].
    + apply (not_doomed_stream d st s HI); [apply Hats| |set_solver]. left.
      destruct (h_room s); [by destruct (ask_send s)|]. by destruct (ctxErr s (st_ctx st)).
    + by intros [Hw _].
  - intros s a s' Hr HI Heq. pose proof (rely_keeps _ owned _ _ _ _ Hr) as Hkr.
    assert (Hss : streaming d st c pre seen plain s) by by eapply streaming_keeps.
    assert (Hk0 : hkeeps (X ∖ {[TStream d]}) s0 s) by (eapply hkeeps_mono; [|exact Hkr]; set_solver).
    destruct (h_room s).
    + pose proof (still_ask_send s HI) as H1. destruct (ask_send s) as [b s1]. cbn [snd] in H1.
      injection Heq as <- <-. set (e := mkEvent _ _ _ _ _).
      assert (Hk1 : hkeeps X s0 s1) by (eapply hkeeps_trans; [exact Hkr|by apply (still_keeps hinv hle owned frame)]).
      assert (Hs1 : streaming d st c pre seen plain s1) by by apply (streaming_keeps X d st c pre seen plain s0).
      rewrite <-(r_flate _ _ (proj1 Hk1)), <-(received_log d s0 s1) in Hsent' by apply (proj2 Hk1 _ HX).
      assert (Hop1 : opens st pre' s1) by (eapply opens_later; [apply Hk1|done]).
      assert (Hph : phase_step st PLive e = if sent_ok b then PLive else PDead).
      { unfold phase_step, e; cbn. rewrite (bool_decide_eq_true_2 (st_peer st = st_peer st)) by done. cbn.
        by rewrite Hd', Bool.eqb_reflx. }
      assert (Hpay : payload e = if sent_ok b then data else []) by done.
      destruct (stream_send X s s1 d st PLive e) as (Hg & Hh & Hkeep & Hat'); try done;
        [apply Hr|apply Hss|rewrite Hph; by destruct (sent_ok b)| |].
      { intros br Hb Hdel. destruct (sent_ok b); [|by apply delivered_silent].
        destruct Hs1 as [_ (br1 & Hb1 & Hseen & _) _ _]. destruct Hop1 as (br2 & Hb2 & Ho2). simplify_eq.
        exists c', pre', plain'. rewrite received_event, Hpay. by rewrite decide_True. }
      rewrite Hph in Hat'. split; [done|]. exists X. split_and!; [done|done|by eapply hkeeps_trans| |].
      * destruct b; [by left|by right|by right].
      * intros ->. split; [done| |done|].
        -- destruct Hs1 as [_ (br1 & Hb1 & Hseen & _) _ _]. destruct Hop1 as (br2 & Hb2 & Ho2). simplify_eq.
           by eexists.
        -- rewrite received_event, Hpay. by rewrite decide_True.
    + destruct (ctxErr s (st_ctx st)); [|done]. injection Heq as <- <-.
      assert (Hst : hstill s s) by by apply still_view.
      split; [by apply (still_guar hinv hle owned frame)|]. exists X.
      split_and!; [apply handover_same; [apply Hr|done]|done|done|left; apply Hss|done].
Qed.

Section OneStream.
Context (d : nat) (st : Stream).
#[local] Abbreviation mine := ({[TStream d]} : gset Token).
#[local] Abbreviation p := (st_peer st).
#[local] Abbreviation ctx := (st_ctx st).
#[local] Abbreviation nothing := (fun (_ : Host) (_ : unit) (X' : gset Token) => X' = ∅).

Lemma mine_in : TStream d ∈ mine.
Proof. set_solver. Qed.

Lemma mine_above : above 3 mine.
Proof. intros k ->%elem_of_singleton. done. Qed.

Lemma safe_end s0 : h_streams s0 !! d = Some st -> hsafeP mine s0 (endStream p d) nothing.
Proof.
  intros Hst. eapply gsafeP_weaken; [by apply (safe_endStream mine s0 d st), Hst; apply mine_in|].
  intros s' [] X' [-> _]. set_solver.
Qed.

(** A quiet step of the stream's goroutine. *)
Lemma stream_then {A} s0 (q : G A) (f : A -> G unit) c pre seen plain Q :
  streaming d st c pre seen plain s0 -> hquietP mine s0 q Q ->
  (forall s a, streaming d st c pre seen plain s -> Q s a -> hsafeP mine s (f a) nothing) ->
  hsafeP mine s0 (q ≫= f) nothing.
Proof.
  intros Hs Hq Hf. eapply gsafeP_bind; [exact Hq|]. intros s a X (-> & Hk & HQ).
  apply Hf; [|done]. eapply streaming_keeps; [apply mine_in|done|done].
Qed.

Lemma streaming_stream s c pre seen plain : streaming d st c pre seen plain s -> h_streams s !! d = Some st.
Proof. intros [[]]. done. Qed.

Lemma streaming_up s c pre seen plain : streaming d st c pre seen plain s -> stream_up d st s.
Proof. intros [Hat]. by left. Qed.

Lemma safe_streamCheck s0 c pre seen filter :
  streaming d st c pre seen (pre ++ TitleFilter.stripped seen) s0 -> TitleFilter.has_seen filter seen ->
  hsafeP mine s0 (streamCheck ctx p (st_bridge st) c d filter) nothing.
Proof.
  intros Hs0 Hfil. unfold streamCheck. eapply stream_then; [done|by eapply quiet_ctx_canceled, streaming_stream|].
  intros s [] Hs Hnd; [by eapply safe_end, streaming_stream|]. apply gsafeP_forever; [|by apply Hnd].
  split; [done|]. exists pre, seen. split; [|done]. pose proof (sg_deflate _ _ _ _ _ _ _ Hs) as Hdef.
  destruct st. cbn in *. by subst.
Qed.

Lemma safe_resetEnd s0 (c : bool) reason :
  stream_up d st s0 ->
  hsafeP mine s0 (_ ← (if c then mret tt else resetStream p d reason); endStream p d) nothing.
Proof.
  intros Hup. assert (Hst : h_streams s0 !! d = Some st) by (by destruct Hup as [H|H]; apply H). destruct c.
  - eapply gsafeP_bind; [by apply (q_ret mine s0 tt anyhow)|]. intros s1 [] X1 (-> & Hk1 & _).
    apply safe_end. by apply (r_streams _ _ (proj1 Hk1)).
  - eapply gsafeP_bind; [by apply (safe_resetStream mine s0 d st); [apply mine_in|apply mine_above|]|].
    intros s1 [] X1 (-> & Hk1 & Hst1). by apply safe_end.
Qed.

Lemma safe_streamFailed s0 reason :
  stream_up d st s0 -> hsafeP mine s0 (streamFailed ctx p d reason) nothing.
Proof.
  intros Hup. unfold streamFailed. eapply gsafeP_bind; [by apply (q_read _ _ _ anyhow)|].
  intros s1 c X1 (-> & Hk1 & _). apply safe_resetEnd. by eapply stream_up_keeps; [apply mine_in| |].
Qed.

(** A quiet operation, then the deferred calls. *)
Lemma safe_quietEnd {A} s0 (q : G A) :
  h_streams s0 !! d = Some st -> hquietP mine s0 q anyhow ->
  hsafeP mine s0 (_ ← q; endStream p d) nothing.
Proof.
  intros Hst Hq. eapply gsafeP_bind; [exact Hq|]. intros s a X (-> & Hk & _).
  apply safe_end. by apply (r_streams _ _ (proj1 Hk)).
Qed.

(** The output of one read. *)
Lemma safe_streamData s0 c pre seen plain chunk filter filtered filter' :
  streaming d st c pre (seen ++ chunk) plain s0 -> plain = pre ++ TitleFilter.stripped seen ->
  TitleFilter.has_seen filter seen -> TitleFilter.Filter filter chunk = (filtered, filter') ->
  hsafeP mine s0
    (if bool_decide (filtered = []) then streamCheck ctx p (st_bridge st) c d filter'
     else
       r ← compressOutput c filtered;
       let '(data, c) := r in
       match data with
       | None => streamFailed ctx p d "output compression failed; re-attach"
       | Some data =>
           a ← sendOutput ctx p data d (deflates c);
           match a with
           | Sent => streamCheck ctx p (st_bridge st) c d filter'
           | Refused => streamFailed ctx p d "output stream stalled; re-attach"
           | Panics => _ ← detachPeerWait p false; endStream p d
           end
       end) nothing.
Proof.
  intros Hs Hplain Hseen Hfil. destruct (TitleFilter.Filter_has_seen filter seen chunk Hseen) as [Hout Hseen'].
  rewrite Hfil in Hout, Hseen'. cbn [fst snd] in *.
  assert (Hnext : plain ++ filtered = pre ++ TitleFilter.stripped (seen ++ chunk)) by by rewrite Hout, Hplain, app_assoc.
  case_bool_decide as Hnil.
  { eapply safe_streamCheck; [|done]. rewrite <-Hnext, Hnil, app_nil_r. exact Hs. }
  eapply stream_then; [exact Hs|by eapply quiet_compressOutput; [apply mine_in|]|].
  intros s1 [data c'] _ [Hs1 Hcarry]. cbn [fst snd] in Hcarry.
  destruct data as [data|]; [|by eapply safe_streamFailed, streaming_up].
  eapply gsafeP_bind; [eapply (safe_sendOutput mine s1 d st c c' pre pre (seen ++ chunk) plain (plain ++ filtered))|].
  { apply mine_in. }
  { set_solver. }
  { done. }
  { by apply Hcarry. }
  { by eapply streaming_opens. }
  { by rewrite Hnext. }
  intros s2 a X2 (-> & Hk2 & Hup2 & Hsent). destruct a.
  - eapply safe_streamCheck; [|done]. rewrite <-Hnext. by apply Hsent.
  - by apply safe_streamFailed.
  - apply safe_quietEnd; [by destruct Hup2 as [H|H]; apply H|]. eapply quietP_weaken; [apply quiet_detachPeerWait, mine_above|done].
Qed.

Lemma safe_streamRead s0 c pre seen filter :
  streaming d st c pre seen (pre ++ TitleFilter.stripped seen) s0 -> TitleFilter.has_seen filter seen ->
  hsafeP mine s0 (streamRead ctx p (st_bridge st) c d filter) nothing.
Proof.
  intros Hs0 Hfil. unfold streamRead.
  eapply gsafeP_bind; [by apply (safe_Read s0 d st seen); [eapply streaming_stream|eapply streaming_seen]|].
  intros s1 r X1 (-> & HR1 & Hl1 & Hread1).
  pose proof (fun seen' H => streaming_read d st c pre seen seen' _ s0 s1 HR1 Hl1 H Hs0) as Hs1.
  assert (Hctx : forall s, hquietP mine s (ctx_canceled ctx) anyhow) by (intros; by apply q_read).
  destruct r as [chunk|e].
  - eapply stream_then; [by apply Hs1|apply Hctx|]. intros s2 [] Hs2 _; [by eapply safe_end, streaming_stream|].
    destruct (TitleFilter.Filter filter chunk) as [filtered filter'] eqn:Hf. by eapply safe_streamData.
  - eapply stream_then; [by apply Hs1|apply Hctx|]. intros s2 [] Hs2 _; [by eapply safe_end, streaming_stream|]. destruct e.
    + apply safe_quietEnd; [by eapply streaming_stream|]. apply quiet_handlePaneExit, mine_above.
    + apply (safe_resetEnd s2 false). by eapply streaming_up.
Qed.
End OneStream.

(** ** The pane watcher *)

Lemma above_empty n : above n ∅.
Proof. intros k Hk. set_solver. Qed.

Lemma safe_watchTick s0 ctx p pane :
  ValidTmuxTarget pane = true -> hsafeP ∅ s0 (watchTick ctx p pane) (fun _ _ X' => X' = ∅).
Proof.
  intros Hv. unfold watchTick. eapply gsafeP_bind.
  { apply (q_await ∅ s0 _ anyhow).
    - intros s _ _ _. left. intros k Hk. clear - Hk. set_solver.
    - intros s t s' _ HI Heq. split; [|done]. destruct (h_bools s) as [|[] bs].
      + destruct (ctxErr s ctx); [|done]. injection Heq as <- <-. by apply still_view.
      + injection Heq as <- <-. by apply still_view.
      + destruct (ctxErr s ctx); [|done]. injection Heq as <- <-. by apply still_view. }
  intros s1 [] X1 (-> & _ & _); [|by apply gsafeP_ret]. cbn match.
  eapply gsafeP_bind; [by apply quiet_PaneExists|]. intros s2 [] X2 (-> & _ & _).
  - apply gsafeP_forever; [by split|]. intros k Hk. clear - Hk. set_solver.
  - eapply gsafeP_weaken; [apply (quiet_handlePaneExit ∅ s2 p true), above_empty|]. by intros s3 [] X3 (-> & _).
Qed.

(** Every iteration of every loop is safe. *)
Lemma loop_safe X s l : loop_ok X s l -> hsafe X s (hostBody l).
Proof.
  destruct l as [b|ctx p b compressor d filter|ctx p pane]; cbn [loop_ok hostBody].
  - intros [-> Hin]. by apply gsafeP_goroutine, safe_relayRead.
  - intros (-> & pre & seen & Hs & Hfil). apply gsafeP_goroutine.
    by apply (safe_streamRead d (mkStream p ctx b (deflates compressor)) s compressor pre seen).
  - intros [-> Hv]. by apply gsafeP_goroutine, safe_watchTick.
Qed.

(** ** Attaching *)

Section Attach.
Context (d : nat) (st : Stream).
#[local] Abbreviation p := (st_peer st).
#[local] Abbreviation ctx := (st_ctx st).
#[local] Abbreviation both := ({[TPeer p; TStream d]} : gset Token).

(** What an outcome of the part before the stream leaves. *)
Definition pre_stream (s : Host) (out : PreStream) (X : gset Token) : Prop :=
  match out with
  | StreamOwned => X = {[TPeer p]}
  | PreStreamFailed => X = both /\ h_streams s !! d = Some st
  | PreStreamPanic => X = both /\ stream_up d st s
  end.

Lemma both_in : TStream d ∈ both.
Proof. set_solver. Qed.
Lemma both_above : above 3 both.
Proof. intros k [->%elem_of_singleton | ->%elem_of_singleton]%elem_of_union; cbn; lia. Qed.

Lemma safe_failPreStream s0 reason :
  stream_up d st s0 -> hsafeP both s0 (failPreStream ctx p d reason) pre_stream.
Proof.
  intros Hup. unfold failPreStream. eapply gsafeP_bind; [by apply (q_read _ _ _ anyhow)|].
  intros s1 c X1 (-> & Hk1 & _). assert (Hup1 : stream_up d st s1) by (by eapply stream_up_keeps; [apply both_in| |]).
  destruct c.
  - eapply gsafeP_bind; [by apply (q_ret both s1 tt anyhow)|]. intros s2 [] X2 (-> & Hk2 & _). apply gsafeP_ret.
    split; [done|]. apply (r_streams _ _ (proj1 Hk2)). by destruct Hup1 as [H|H]; apply H.
  - eapply gsafeP_bind; [by apply (safe_resetStream both s1 d st); [apply both_in|apply both_above|]|].
    intros s2 [] X2 (-> & _ & Hst). by apply gsafeP_ret.
Qed.

Lemma safe_sendPreStream s0 c data k :
  streaming d st c [] [] [] s0 -> opens st data s0 ->
  (forall s c, streaming d st c data [] data s -> hsafeP both s (k c) pre_stream) ->
  hsafeP both s0 (sendPreStream ctx p d c data k) pre_stream.
Proof.
  intros Hs0 Hop Hk. unfold sendPreStream.
  eapply gsafeP_bind; [by eapply quiet_compressOutput; [apply both_in|]|].
  intros s1 [out c'] X1 (-> & Hk1 & Hs1 & Hcarry). cbn [fst snd] in Hcarry.
  destruct out as [out|]; [|by apply safe_failPreStream; left; apply Hs1].
  eapply gsafeP_bind; [eapply (safe_sendOutput both s1 d st c c' [] data [] [] data)|].
  { apply both_in. }
  { intros k0 [->%elem_of_singleton | ->%elem_of_singleton]%elem_of_union; eauto. }
  { done. }
  { by apply Hcarry. }
  { eapply opens_later; [apply Hk1|done]. }
  { by apply prefix_app_r. }
  intros s2 a X2 (-> & _ & Hup2 & Hsent). destruct a; [by apply Hk, Hsent|by apply safe_failPreStream|].
  by apply gsafeP_ret.
Qed.

(** The goroutines of the attachment. *)
Lemma safe_start s0 c pre pane :
  ValidTmuxTarget pane = true -> streaming d st c pre [] pre s0 ->
  hsafeP both s0 (_ ← spawn (streamOutput ctx p (st_bridge st) c d);
                  _ ← spawn (watchPane ctx p pane); mret StreamOwned) pre_stream.
Proof.
  intros Hv Hs0. eapply gsafeP_bind with (Q := fun _ _ X' => X' = {[TPeer p]}).
  - apply (q_spawn both {[TPeer p]} {[TStream d]}); [set_solver|done| |done].
    intros s Hr HI. apply gsafeP_goroutine. apply (safe_streamCheck d st s c pre []); [|done].
    change (TitleFilter.stripped []) with (@nil byte). rewrite app_nil_r.
    eapply streaming_keeps; [apply both_in|by apply (rely_keeps _ owned)|done].
  - intros s1 [] X1 ->. eapply gsafeP_bind with (Q := fun _ _ X' => X' = {[TPeer p]}).
    + apply (q_spawn _ {[TPeer p]} ∅); [set_solver|set_solver| |done].
      intros s _ _. constructor; [by split|]. intros k Hk. clear - Hk. set_solver.
    + intros s2 [] X2 ->. by apply gsafeP_ret.
Qed.

(** What an attachment starts from. *)
Definition registered (s : Host) : Prop :=
  my_stream d st s /\ of_stream d (h_log s) = [] /\ was_read (st_bridge st) [] s.

(** The attached event. *)
Lemma safe_attached s0 c msg :
  registered s0 -> c = (if st_deflate st then Some NewOutputCompressor else None) -> msg_kind msg = KAttached ->
  hsafeP both s0 (send_control (Some d) (deflates c) p msg)
    (fun s _ X' => X' = both /\ streaming d st c [] [] [] s).
Proof.
  intros ([Hst Hd] & Hnew & Hread) Hc Hmsg. apply gsafeP_atomically. intros s Hr HI.
  pose proof (rely_keeps _ owned _ _ _ _ Hr) as Hkr. destruct Hr as (HR & HXs & Hfr).
  destruct (Hfr _ both_in) as [[Hof H] _]. destruct (H st Hst Hd) as (Hst1 & Hd1 & _).
  pose proof (was_read_keeps both d st [] s0 s both_in Hst Hkr Hread) as Hreads.
  pose proof (still_ask_send s HI) as H1. destruct (ask_send s) as [a s1]. cbn [snd] in H1.
  assert (Hk1 : hkeeps both s s1) by by apply (still_keeps hinv hle owned frame).
  pose proof (was_read_keeps both d st [] s s1 both_in Hst1 Hk1 Hreads) as Hread1.
  destruct H1 as (HI1 & HR1 & Hf1 & Ho1). destruct (Hf1 (TStream d)) as [[Hof1 Hd2] _].
  destruct (Hd2 st Hst1 Hd1) as (Hst2 & Hd2' & _). rewrite Hnew in Hof. rewrite Hof in Hof1.
  set (e := mkEvent _ _ _ _ _). assert (Hdef : deflates c = st_deflate st) by (rewrite Hc; by destruct (st_deflate st)).
  assert (Hph : phase_step st PNew e = PLive).
  { unfold phase_step, e; cbn. rewrite (bool_decide_eq_true_2 (st_peer st = st_peer st)) by done. cbn.
    by rewrite Hmsg, Hdef, Bool.eqb_reflx. }
  assert (Hpay : payload e = []).
  { unfold payload, e. cbn. by destruct msg as [[]]. }
  assert (Hrec : received d s1 = []) by (unfold received; by rewrite Hof1).
  destruct (stream_event_step s1 d st e both HI1) as ((HI2 & HR2 & Hf2) & Ho2 & _ & _); [|apply both_in|].
  { split_and!; try done.
    - rewrite Hof1. change (phase st []) with PNew. by rewrite Hph.
    - intros br Hb. apply delivered_silent; [done|]. by apply (i_delivered s1 HI1). }
  split.
  - split_and!; [done|by etrans|]. intros k Hin Hnin. etrans; [apply Hf1|]. apply Hf2; [by rewrite Ho1|done].
  - exists both. split_and!; [apply handover_same; [done|congruence]|done|]. split.
    + split_and!; [done|done| |]; unfold log_event; cbn.
      * rewrite current_snoc. unfold current_step. cbn. rewrite Hmsg. by rewrite decide_True.
      * rewrite of_stream_snoc, Hof1. cbn. rewrite decide_True by done. exact Hph.
    + destruct Hread1 as (br & Hb & Hr). exists br. split_and!; [done|done|by left].
    + done.
    + rewrite received_event, Hpay, Hrec. rewrite decide_True by done. rewrite Hc.
      destruct (st_deflate st); [apply new_carries|done].
Qed.

Lemma safe_preStream s0 req :
  ValidTmuxTarget (ar_PaneID req) = true -> st_deflate st = bool_decide (ar_Compression req = "deflate") ->
  registered s0 -> hsafeP both s0 (preStream ctx p (st_bridge st) d req) pre_stream.
Proof.
  intros Hv Hdef Hreg. unfold preStream. rewrite <-Hdef. set (c := if st_deflate st then _ else _).
  eapply gsafeP_bind; [by apply (safe_attached s0 c)|]. intros s1 a X1 [-> Hs1].
  assert (Hgo : hsafeP both s1
    (cs ← CursorState (ar_PaneID req);
     initial ← atomically (get_bridge (st_bridge st) "" b_initialContent);
     let start c : G PreStream :=
       _ ← spawn (streamOutput ctx p (st_bridge st) c d);
       _ ← spawn (watchPane ctx p (ar_PaneID req));
       mret StreamOwned in
     match preStreamData (ar_Reattach req) initial cs with
     | Some data => sendPreStream ctx p d c data start
     | None => start c
     end) pre_stream); [|destruct a; [done|done|apply gsafeP_ret; split; [done|left; apply Hs1]]].
  eapply gsafeP_bind; [apply quiet_CursorState|]. intros s2 cs X2 (-> & Hk2 & _).
  assert (Hs2 : streaming d st c [] [] [] s2) by (eapply streaming_keeps; [apply both_in|done|done]).
  eapply gsafeP_bind.
  { apply (q_read _ _ _ (fun s initial => forall reattach pre, preStreamData reattach initial cs = Some pre -> opens st pre s)).
    intros s Hr HI. split; [done|]. intros reattach pre Hpre.
    assert (Hs : streaming d st c [] [] [] s) by (eapply streaming_keeps; [apply both_in|by apply (rely_keeps _ owned)|done]).
    destruct (streaming_opens _ _ _ _ _ _ _ Hs) as (br & Hb & _). exists br. split; [done|]. right.
    exists reattach, cs. cbn in Hpre. by rewrite Hb in Hpre. }
  intros s3 initial X3 (-> & Hk3 & Hpre).
  assert (Hs3 : streaming d st c [] [] [] s3) by (eapply streaming_keeps; [apply both_in|done|done]).
  cbv zeta. destruct (preStreamData (ar_Reattach req) initial cs) as [data|] eqn:Hdata.
  - apply safe_sendPreStream; [done|by eapply Hpre|]. intros s c' Hs. by eapply safe_start.
  - by eapply safe_start.
Qed.
End Attach.

Section Calls.
Context (p : string).
#[local] Abbreviation call := ({[TPeer p]} : gset Token).

Lemma call_in : TPeer p ∈ call.
Proof using Type. set_solver. Qed.
Lemma call_above : above 4 call.
Proof using Type. intros k ->%elem_of_singleton. done. Qed.

(** The registration of a bridge fresh from [AttachPane]. *)
Lemma safe_register s0 pane b cols rows deflate :
  ValidTmuxTarget pane = true -> h_streamDone s0 !! p = None -> h_bridges s0 !! p = None ->
  fresh_bridge b s0 ->
  hsafeP (call ∪ {[TBridge b]}) s0 (atomically (register p pane b cols rows deflate))
    (fun s ids X' => let st := mkStream p (fst ids) b deflate in
       X' = {[TPeer p; TStream (snd ids)]} /\ registered (snd ids) st s).
Proof using Type.
  intros Hv Hsd Hbr Hfresh. set (X := call ∪ {[TBridge b]}). apply gsafeP_atomically. intros s Hr HI.
  assert (HP : TPeer p ∈ X) by (unfold X; set_solver). assert (HB : TBridge b ∈ X) by (unfold X; set_solver).
  pose proof (rely_keeps _ owned _ _ _ _ Hr) as Hk. destruct Hr as (_ & HXs & _).
  assert (Hsd' : h_streamDone s !! p = None) by (by apply (peer_none h_streamDone p X s0 s); [left| | |]).
  assert (Hbr' : h_bridges s !! p = None) by (by apply (peer_none h_bridges p X s0 s); [right| | |]).
  destruct (fresh_keeps X b s0 s HB Hk Hfresh) as [(br & Hb & Hcl) Hns].
  assert (Hheld : b ∈ h_held s) by (apply HXs in HB; by rewrite elem_of_owned in HB).
  pose proof (register_step s p pane b br cols rows deflate HI Hsd' Hbr' Hheld Hb Hcl Hns Hv) as Hreg.
  destruct (register p pane b cols rows deflate s) as [[ctx d] s']. cbn [fst snd].
  destruct Hreg as (HI' & HR' & Hf' & Hno & Ho' & Hst & Hd & Hof & Hb' & Hread).
  split; [split_and!; [done|done|]; intros k _ Hnk; apply Hf'; intros ->; done|].
  exists ((X ∖ {[TBridge b]}) ∪ {[TStream d]}). split_and!; [apply handover_swap; [done|set_solver|set_solver|done]| |split; [by split|split; [done|by exists br]]].
  unfold X. set_solver.
Qed.

Lemma quiet_attachFailed s0 pane (tracked : bool) :
  ValidTmuxTarget pane = true ->
  hquietP call s0
    (_ ← (if tracked then (_ ← ReleaseIfForced pane; mret tt) else mret tt);
     exists_ ← PaneExists pane;
     if negb exists_ then
       _ ← sendMsg p (paneClosed pane);
       sessions ← ListAll;
       match sessions with
       | Ok sessions =>
           ev ← newSessionsEvent (toProtocolSessions sessions);
           _ ← sendMsg p ev; mret tt
       | Err _ => mret tt
       end
     else sendError p "attach_failed" "failed to attach pane") anyhow.
Proof using Type.
  intros Hv. apply (q_bind _ _ _ _ anyhow).
  { destruct tracked; [|by q_step]. eapply q_bind; [apply quiet_ReleaseIfForced|]. intros; by q_step. }
  intros s1 [] _ _. eapply q_bind; [by apply quiet_PaneExists|]. intros s2 [] _ _; cbn match; [apply quiet_sendError|].
  eapply q_bind; [by apply quiet_sendMsg|]. intros s3 _ _ _.
  eapply q_bind; [apply quiet_ListAll|]. intros s4 [ss|e] _ _; [|by q_step].
  eapply q_bind; [apply quiet_newSessionsEvent|]. intros s5 ev _ Hev.
  eapply q_bind; [by apply quiet_sendMsg; rewrite Hev|]. intros; by q_step.
Qed.

(** After the part before the stream. *)
Lemma safe_outcome s0 d st out X :
  st_peer st = p -> pre_stream d st s0 out X ->
  hsafeP X s0 (match out with
    | StreamOwned => mret tt
    | PreStreamFailed => endStream p d
    | PreStreamPanic =>
        c ← ctx_canceled (st_ctx st);
        _ ← (if c : bool then mret tt else resetStream p d "attach failed; re-attach");
        endStream p d
    end) (fun _ _ X' => X' = call).
Proof using Type.
  intros Hp Hout. assert (Hend : forall s, h_streams s !! d = Some st ->
    hsafeP {[TPeer p; TStream d]} s (endStream p d) (fun _ _ X' => X' = call)).
  { intros s Hst. rewrite <-Hp. eapply gsafeP_weaken; [apply (safe_endStream _ s d st); [set_solver|done]|].
    intros s1 [] X1 [-> _]. set_solver. }
  destruct out; cbn in Hout; rewrite ?Hp in Hout.
  - subst. by apply gsafeP_ret.
  - destruct Hout as [-> Hst]. by apply Hend.
  - destruct Hout as [-> Hup]. eapply gsafeP_bind; [by apply (q_read _ _ _ anyhow)|].
    intros s1 c X1 (-> & Hk1 & _). assert (Hin : TStream d ∈ ({[TPeer p; TStream d]} : gset Token)) by set_solver.
    assert (Hup1 : stream_up d st s1) by by eapply stream_up_keeps.
    eapply gsafeP_bind with (Q := fun s _ X' => X' = {[TPeer p; TStream d]} /\ h_streams s !! d = Some st).
    + destruct c.
      * apply gsafeP_ret. split; [done|]. by destruct Hup1 as [H|H]; apply H.
      * rewrite <-Hp. eapply gsafeP_weaken; [apply (safe_resetStream _ s1 d st); [set_solver| |done]|].
        -- apply both_above.
        -- by intros s2 [] X2 (-> & _ & Hst).
    + intros s2 [] X2 [-> Hst]. by apply Hend.
Qed.

Lemma safe_handleAttach Quote s0 req :
  hsafeP call s0 (handleAttach Quote p req) (fun _ _ X' => X' = call).
Proof using Type.
  assert (Hq : forall s (q : G unit), hquietP call s q anyhow -> hsafeP call s q (fun _ _ X' => X' = call)).
  { intros s q Hq. eapply gsafeP_weaken; [exact Hq|]. by intros s' [] X' (-> & _). }
  unfold handleAttach. destruct (ValidTmuxTarget (ar_PaneID req)) eqn:Hv; cbn [negb]; [|apply Hq, quiet_sendError].
  destruct (dimensionsOK _ _); cbn [negb]; [|apply Hq, quiet_sendError].
  eapply gsafeP_bind; [apply quiet_detachPeer, call_above|]. intros s1 [] X1 (-> & Hk1 & Hdet).
  destruct (Hdet call_in) as [Hsd1 Hbr1].
  eapply gsafeP_bind; [by apply quiet_TrackAndResize|]. intros s2 tracked X2 (-> & Hk2 & _).
  eapply gsafeP_bind; [by apply safe_AttachPane; [apply call_above|]|]. intros s3 r X3 [Hk3 Hr].
  assert (Hk13 : hkeeps call s1 s3) by by eapply hkeeps_trans.
  destruct r as [b|e]; [|subst X3; by apply Hq, quiet_attachFailed].
  destruct Hr as (_ & -> & Hfresh).
  eapply gsafeP_bind; [apply safe_register; [done| | |done]|].
  { by apply (peer_none h_streamDone p call s1 s3); [left|apply call_in| |]. }
  { by apply (peer_none h_bridges p call s1 s3); [right|apply call_in| |]. }
  intros s4 [ctx d] X4 (-> & Hreg). cbn [fst snd] in *. set (st := mkStream p ctx b _) in *.
  eapply gsafeP_bind; [by apply (safe_preStream d st s4 req)|].
  intros s5 out X5 Hout. by apply (safe_outcome s5 d st out X5).
Qed.

Lemma quiet_handleListSessions s0 : hquietP call s0 (handleListSessions p) anyhow.
Proof using Type.
  unfold handleListSessions. eapply q_bind; [apply quiet_ListAll|].
  intros s1 [ss|e] _ _; [|apply quiet_sendError].
  eapply q_bind; [by apply (q_read _ _ _ anyhow)|]. intros s2 pane _ _.
  apply (q_bind _ _ _ _ anyhow).
  { destruct (_ && _); [|by q_step]. eapply q_bind; [by apply quiet_sendMsg|]. intros s3 _ _ _.
    eapply quietP_weaken; [apply quiet_detachPeer, call_above|done]. }
  intros s3 [] _ _. eapply q_bind; [apply quiet_newSessionsEvent|]. intros s4 ev _ Hev.
  eapply q_bind; [by apply quiet_sendMsg; rewrite Hev|]. intros; by q_step.
Qed.

Lemma quiet_handleDetach s0 : hquietP call s0 (handleDetach p) anyhow.
Proof using Type.
  unfold handleDetach. eapply q_bind; [apply quiet_detachPeer, call_above|]. intros s1 [] _ Hdet.
  eapply q_bind; [|intros; by q_step]. apply quiet_send; [done|]. intros _. split; [apply call_in|apply Hdet, call_in].
Qed.

Lemma quiet_handleInput s0 req : hquietP call s0 (handleInput p req) anyhow.
Proof using Type.
  unfold handleInput. destruct (_ >? _); [apply quiet_sendError|].
  eapply q_bind; [by apply (q_read _ _ _ anyhow)|]. intros s1 [b|] _ _; [|apply quiet_sendError].
  eapply q_bind; [apply quiet_Write|]. intros s2 [n|e] _ _; [by q_step|apply quiet_sendError].
Qed.

Lemma quiet_handleResize s0 req : hquietP call s0 (handleResize p req) anyhow.
Proof using Type.
  unfold handleResize. destruct (negb _); [apply quiet_sendError|].
  eapply q_bind; [by apply (q_read _ _ _ anyhow)|]. intros s1 [[b|] last] _ _; [|apply quiet_sendError].
  destruct (_ && _); [by q_step|]. eapply q_bind; [apply quiet_Resize|].
  intros s2 [n|e] _ _; [|apply quiet_sendError]. by apply q_view.
Qed.

Lemma quiet_handlePing s0 : hquietP call s0 (handlePing p) anyhow.
Proof using Type.
  unfold handlePing. eapply q_bind; [by apply q_view|]. intros s1 [] _ _.
  eapply q_bind; [by apply quiet_sendMsg|]. intros; by q_step.
Qed.

Lemma quiet_handleKillSession Quote s0 req : hquietP call s0 (handleKillSession Quote p req) anyhow.
Proof using Type.
  unfold handleKillSession. destruct (negb _); [apply quiet_sendError|].
  eapply q_bind; [apply quiet_KillSession|]. intros s1 [[]|e] _ _; [|apply quiet_sendError].
  eapply q_bind; [by apply quiet_sendMsg|]. intros; by q_step.
Qed.

Lemma quiet_handleCreateSession s0 : hquietP call s0 (handleCreateSession p) anyhow.
Proof using Type.
  unfold handleCreateSession. eapply q_bind; [apply quiet_CreateSession|].
  intros s1 [sid|e] _ _; [|apply quiet_sendError].
  eapply q_bind; [apply quiet_ListAll|]. intros s2 [ss|e] _ _; [|apply quiet_sendError].
  destruct (find _ _) as [created|]; [|apply quiet_sendError].
  eapply q_bind; [by apply quiet_sendMsg|]. intros; by q_step.
Qed.

Lemma safe_HandleMessage Quote s0 msg : hsafeP call s0 (HandleMessage Quote p msg) (fun _ _ X' => X' = call).
Proof using Type.
  assert (Hq : forall (q : G unit), hquietP call s0 q anyhow -> hsafeP call s0 q (fun _ _ X' => X' = call)).
  { intros q Hq. eapply gsafeP_weaken; [exact Hq|]. by intros s' [] X' (-> & _). }
  destruct msg as [[] m]; cbn [HandleMessage]; first
    [ by apply gsafeP_ret | apply safe_handleAttach
    | apply Hq; first [apply quiet_handleListSessions | apply quiet_handleDetach | apply quiet_handleInput
        | apply quiet_handleResize | apply quiet_handlePing | apply quiet_handleKillSession
        | apply quiet_handleCreateSession ] ].
Qed.

Lemma safe_PeerDisconnected s0 : hsafeP call s0 (PeerDisconnected p) (fun _ _ X' => X' = call).
Proof using Type.
  unfold PeerDisconnected. eapply gsafeP_bind; [by apply q_view|]. intros s1 [] X1 (-> & _).
  eapply gsafeP_weaken; [apply quiet_detachPeer, call_above|]. by intros s2 [] X2 (-> & _).
Qed.

Lemma safe_called s0 q :
  hsafeP call s0 q (fun _ _ X' => X' = call) -> hsafe call s0 (called p q).
Proof using Type.
  intros Hq. apply gsafeP_goroutine. eapply gsafeP_bind; [exact Hq|]. intros s1 [] X1 ->.
  apply gsafeP_atomically. intros s (HR & HXs & Hfr) HI.
  destruct (busy_step s p HI) as (HI' & HR' & Hf' & Ho'). cbn. split; [by split_and!|].
  exists ((call ∖ call) ∪ ∅). split; [|set_solver].
  apply handover_swap; [done|done|set_solver|]. etrans; [exact Ho'|set_solver].
Qed.
End Calls.

(** ** The whole *)

Section Whole.
Variable Quote : string -> string.

Lemma env_ok s s' new :
  hinv s -> hostEnv Quote s s' new ->
  hguar ∅ s s' /\ exists Y, Y ## owned s /\ owned s' = owned s ∪ Y /\
    (forall u, new = Some u -> hsafe Y s' u) /\ (new = None -> Y = ∅).
Proof using Type.
  intros HI Henv.
  assert (Hquiet : forall s1, hstill s s1 -> new = None -> s' = s1 ->
    hguar ∅ s s' /\ exists Y, Y ## owned s /\ owned s' = owned s ∪ Y /\
      (forall u, new = Some u -> hsafe Y s' u) /\ (new = None -> Y = ∅)).
  { intros s1 Hst -> ->. split; [by apply (still_guar hinv hle owned frame)|]. exists ∅.
    destruct Hst as (_ & _ & _ & Ho). split_and!; [set_solver|rewrite Ho; set_solver|done|done]. }
  assert (Hcall : forall p q, p ∉ h_busy s -> s' = s <| h_busy ::= fun b => {[p]} ∪ b |> -> new = Some (called p q) ->
    (forall s0, hsafeP {[TPeer p]} s0 q (fun _ _ X' => X' = {[TPeer p]})) ->
    hguar ∅ s s' /\ exists Y, Y ## owned s /\ owned s' = owned s ∪ Y /\
      (forall u, new = Some u -> hsafe Y s' u) /\ (new = None -> Y = ∅)).
  { intros p q Hp -> -> Hq. destruct (call_step s p HI Hp) as (HI' & HR' & Hf' & Hno & Ho').
    split; [by split_and!|]. exists {[TPeer p]}. split_and!; [set_solver|done| |done].
    intros u [= <-]. by apply safe_called. }
  destruct Henv as [p msg Hp|p Hp|b br data Hb|room|].
  - eapply Hcall; [done|done|done|]. intros. apply safe_HandleMessage.
  - eapply Hcall; [done|done|done|]. intros. apply safe_PeerDisconnected.
  - eapply Hquiet; [|done|done]. by apply (still_bridge s b br).
  - eapply Hquiet; [|done|done]. by apply still_view.
  - eapply Hquiet; [|done|done]. by apply still_shutdown.
Qed.
End Whole.
