(* ===== verification/HostProps.v ===== *)
(** * What the terminal side guarantees

    The theorems about internal/tmux and the protocol handler, for every
    execution: any interleaving of the goroutines, any messages and
    disconnects, any answers of tmux, the file system and the data channel. *)

From S2P Require Import Prelude GoLib Own Protocol Compress TmuxText Update Host Bridge Handler HostInv HostSafety HandlerSafety.
From S2P Require TitleFilter.
Open Scope Z_scope.

(** A fresh handler and client, whatever the environment will answer. *)
Definition initial (s : Host) : Prop :=
  exists version file answers dirs bools sends flate clock states,
    s = newHost version file answers dirs bools sends flate clock states.

Definition reachable (Quote : string -> string) (c : Host * list HThread) : Prop :=
  exists s0, initial s0 /\ host_steps Quote (s0, []) c.

Lemma initial_ok s : initial s -> hinv s /\ owned s = ∅.
Proof.
  intros (version & file & answers & dirs & bools & sends & flate & clock & states & ->). split.
  - split; cbn; try done.
    + intros e d He. by apply elem_of_nil in He.
    + intros [|e0 l1] e l2 Heq; discriminate Heq.
    + intros [|c0 l1] c l2 Heq; discriminate Heq.
  - apply set_eq. intros k. rewrite elem_of_owned. destruct k; cbn; set_solver.
Qed.

Abbreviation host_ok := (pool_ok hinv hle owned frame rank wanted prereq loop_ok).

Lemma reachable_ok Quote c : reachable Quote c -> exists own, host_ok own c.
Proof.
  intros (s0 & Hinit & Hsteps). destruct (initial_ok s0 Hinit) as [HI Ho].
  destruct (gsteps_ok hostBody hinv hle owned frame rank wanted prereq loop_ok loop_safe
    (hostEnv Quote) (env_ok Quote) (fun _ => ∅) _ _ Hsteps) as [_ Hex]; [by apply pool_ok_init|done].
Qed.

Lemma host_reachable_inv Quote s ts : reachable Quote (s, ts) -> hinv s.
Proof. intros Hr. destruct (reachable_ok _ _ Hr) as [own Hp]. apply (pool_inv _ _ _ _ _ _ _ _ _ _ Hp). Qed.

(** ** Executions for examples *)

(** What happens next: goroutine [i] runs, or something outside happens. *)
Inductive Act :=
| Do (i : nat)
| Gets (peer : string) (msg : Message)
| Leaves (peer : string)
| Prints (b : nat) (data : list byte)
| Room (room : bool)
| Stops.

Section Exec.
Variable Quote : string -> string.

Definition act (c : Host * list HThread) (a : Act) : Host * list HThread :=
  let '(s, ts) := c in
  match a with
  | Do i => sched_one hostBody i c
  | Gets p msg =>
      if decide (p ∈ h_busy s) then c
      else (s <| h_busy ::= fun b => {[p]} ∪ b |>, ts ++ [called p (HandleMessage Quote p msg)])
  | Leaves p =>
      if decide (p ∈ h_busy s) then c
      else (s <| h_busy ::= fun b => {[p]} ∪ b |>, ts ++ [called p (PeerDisconnected p)])
  | Prints b data =>
      match h_heap s !! b with
      | Some br => (s <| h_heap ::= <[b := br <| b_fifo ::= fun f => f ++ data |>]> |>, ts)
      | None => c
      end
  | Room room => (s <| h_room := room |>, ts)
  | Stops => (s <| h_agentCanceled := true |>, ts)
  end.

Definition exec (acts : list Act) (c : Host * list HThread) : Host * list HThread := foldl act c acts.

Lemma act_steps a c : host_steps Quote c (act c a).
Proof using Type.
  assert (Henv : forall s s' ts new, hostEnv Quote s s' new -> host_steps Quote (s, ts) (s', ts ++ option_list new)).
  { intros s s' ts new He. eapply gsteps_step; [constructor|]. by apply gstep_env. }
  assert (Hnone : forall s s' ts, hostEnv Quote s s' None -> host_steps Quote (s, ts) (s', ts)).
  { intros s s' ts He. apply Henv with (ts := ts) in He. cbn in He. by rewrite app_nil_r in He. }
  destruct c as [s ts]. destruct a as [i|p msg|p|b data|room|]; unfold act.
  - destruct (sched_one_step hostBody (hostEnv Quote) i (s, ts)) as [-> | Hs]; [constructor|].
    eapply gsteps_step; [constructor|done].
  - destruct (decide _); [constructor|]. by apply (Henv _ _ _ (Some _)); constructor.
  - destruct (decide _); [constructor|]. by apply (Henv _ _ _ (Some _)); constructor.
  - destruct (h_heap s !! b) as [br|] eqn:Hb; [|constructor]. apply Hnone. by constructor.
  - apply Hnone. constructor.
  - apply Hnone. constructor.
Qed.

Lemma exec_reachable acts c : reachable Quote c -> reachable Quote (exec acts c).
Proof using Type.
  intros (s0 & Hi & Hs). exists s0. split; [done|]. revert c Hs. induction acts as [|a acts IH]; intros c Hs; [done|].
  cbn. apply IH. eapply gsteps_trans; [exact Hs|apply act_steps].
Qed.
End Exec.

(** Goroutine [i] runs up to [n] sections. *)
Definition go (i n : nat) : list Act := replicate n (Do i).

(** ** The theorems *)

Lemma wanted_stable k s s' : hle s s' -> k ∈ owned s' -> wanted k s -> wanted k s'.
Proof.
  intros HR _. destruct k as [p|b|b|d|p]; cbn; try done.
  - intros (br & Hb & Hd & Hw). destruct (r_heap _ _ HR b br Hb) as (br' & Hb' & []). exists br'. auto.
  - intros (st & Hst & Hun). exists st. split; [by apply (r_streams _ _ HR)|by eapply (r_unreg _ _ HR)].
Qed.

Lemma prereq_stable k s s' : hle s s' -> k ∈ owned s' -> wanted k s -> prereq s' k = prereq s k.
Proof.
  intros HR _. destruct k; cbn; try done. intros (st & Hst & _).
  by rewrite Hst, (r_streams _ _ HR _ _ Hst).
Qed.

Lemma prereq_free k k' s s' :
  hle s s' -> wanted k s -> prereq s k = Some k' -> k ∈ owned s' -> k' ∉ owned s -> k' ∉ owned s'.
Proof.
  intros HR Hw Hp _. destruct k as [| | |d|]; try done. destruct Hw as (st & Hst & Hun). cbn in Hp.
  rewrite Hst in Hp. injection Hp as <-. rewrite !elem_of_owned. cbn. by apply (r_held _ _ HR d st).
Qed.

Lemma prereq_below k k' s : prereq s k = Some k' -> (rank k' < rank k)%nat.
Proof. destruct k as [| | |d|]; cbn; try done. destruct (h_streams s !! d); [|done]. intros [= <-]. cbn. lia. Qed.

Lemma prereq_wanted k k' s : hinv s -> wanted k s -> prereq s k = Some k' -> k' ∈ owned s -> wanted k' s.
Proof.
  intros _ _. destruct k as [| | |d|]; cbn; try done. destruct (h_streams s !! d); [|done]. by intros [= <-].
Qed.

Lemma body_section l : exists f, hostBody l = Section_ f.
Proof. destruct l; eexists; reflexivity. Qed.

(** A token somebody waits for is freed by the goroutines alone. *)
Lemma host_released Quote c k :
  reachable Quote c -> k ∈ owned (fst c) -> wanted k (fst c) ->
  exists c', isteps hostBody c c' /\ k ∉ owned (fst c').
Proof.
  intros Hr Hk Hw. destruct (reachable_ok _ _ Hr) as [own Hp].
  eapply (released hostBody hinv hle owned frame rank wanted prereq loop_ok loop_safe wanted_stable prereq_stable
    prereq_free body_section prereq_below prereq_wanted (S (rank k))); [lia|exact Hp|done|done].
Qed.



(** C15: the protocol of a stream. What a peer gets for one attachment is the
    attached event, then output - all deflated or all raw, as the attached
    event said - and, after an output that was not sent, nothing but at most
    one [stream_reset]: a hole in the stream is never papered over. *)
Theorem stream_protocol Quote s ts d st :
  reachable Quote (s, ts) -> h_streams s !! d = Some st ->
  phase st (of_stream d (h_log s)) <> PBad.
Proof. intros Hr. apply (i_phase s (host_reachable_inv Quote s ts Hr)). Qed.

(** C14: the client implements an abstract pane with at most one pipe. Between
    the holds of a pane's lock, the recorded owner and the pipe-pane commands
    tmux accepted are exactly those of the abstract pane run over the attaches
    and releases in the order they happened: an attach takes the pipe over
    from whoever had it, and only the current owner's release closes it. *)
Theorem pipe_refines_owner Quote s ts pane :
  reachable Quote (s, ts) -> pane ∉ h_paneLocks s ->
  spec_run None (pane_ops pane s) = (h_pipes s !! pane, pipe_cmds pane s).
Proof. intros Hr. apply (i_pipe s (host_reachable_inv Quote s ts Hr)). Qed.

(** C16: nothing a peer sends is run. Every argument of every tmux command is
    fixed text, a target that [ValidTmuxTarget] accepts, a number, the name of
    an input buffer, the quoted pipe command of a FIFO, or what tmux itself
    answered to an earlier window query; the bytes of an input only ever go to
    the standard input of [load-buffer]. *)
Theorem tmux_arguments Quote s ts l1 c l2 :
  reachable Quote (s, ts) -> h_cmds s = l1 ++ c :: l2 ->
  Forall (arg_ok l1) (cmd_args c) /\ (is_Some (cmd_stdin c) -> head (cmd_args c) = Some "load-buffer").
Proof. intros Hr. by apply (i_cmds s (host_reachable_inv Quote s ts Hr)). Qed.

(** ** An execution *)

Definition attachTo (pane : string) : Message := Msg KAttach (mkAttach "attach" pane 80 24 false "").
Definition reply (out : string) : string * option RunError := (out, None).
Definition attach_replies : list (string * option RunError) :=
  map reply ["1"; "$0:@1"; ""; ""; ""; "0:0:0:1"].
Definition detach_replies : list (string * option RunError) := map reply [""; "$0:@1"; ""].
Definition demo_host (answers : list (string * option RunError)) (bools : list bool) : Host :=
  newHost "1.0" false answers [Some "/tmp/a"; Some "/tmp/b"] bools (replicate 10 Sent) stored [] [].

(** Goroutines [is_] run in turn. *)
Definition rounds (n : nat) (is_ : list nat) : list Act := mjoin (replicate n (Do <$> is_)).

(** A peer attaches to pane %1 and gets the bytes the pane prints. *)
Definition streaming : list Act :=
  [Gets "p" (attachTo "%1")] ++ go 0 40 ++ [Prints 0 (bytes_of "hello")] ++ go 1 5 ++ go 2 6.

(** The data channel is full, and the peer attaches to another pane: its call
    waits for the old stream, which waits for room. *)
Definition stuck : list Act :=
  streaming ++ [Room false; Prints 0 (bytes_of "world")] ++ go 1 4 ++ go 2 6 ++
  [Gets "p" (attachTo "%2")] ++ go 4 6.

(** The re-attach completes, and the new pane prints. *)
Definition moved : list Act :=
  stuck ++ go 4 10 ++ rounds 40 [4; 2; 1]%nat ++ [Room true; Prints 3 (bytes_of "there")] ++ rounds 10 [5; 6]%nat.

Definition demo_config (acts : list Act) : Host * list HThread :=
  exec id acts (demo_host (attach_replies ++ detach_replies ++ attach_replies)
    (replicate 3 true ++ replicate 3 false ++ replicate 3 true), []).

Lemma exec_from_fresh acts answers bools : reachable id (exec id acts (demo_host answers bools, [])).
Proof. apply exec_reachable. exists (demo_host answers bools). split; [by repeat eexists|constructor]. Qed.

Definition output (text : string) : Message := Msg KOutput (mkOutput "output" (bytes_of text)).
Definition attached (pane : string) : Message := Msg KAttached (mkAttached "attached" pane "").

Definition summary (s : Host) : list (Message * option nat) := map (fun e => (ev_msg e, ev_stream e)) (h_log s).

(** The watcher of the old pane found it gone just before its peer attached to
    another pane; it then tells the peer that the new pane is closed, and
    closes it, although tmux was never asked about it. *)
Definition stale_watch : list Act :=
  streaming ++ go 3 3 ++ [Gets "p" (attachTo "%2")] ++ go 4 10 ++ rounds 40 [4; 2; 1]%nat ++ go 3 20.

Definition stale_config : Host * list HThread :=
  exec id stale_watch
    (demo_host (attach_replies ++ [("", Some ExitError)] ++ detach_replies ++ attach_replies ++ [("", Some ExitError)])
       (replicate 3 true ++ [false; true; false] ++ replicate 3 true), []).

Theorem stale_watcher_closes_new_pane :
  let s := fst stale_config in
  reachable id stale_config /\
  summary s = [(attached "%1", Some 2%nat); (output "hello", Some 2%nat); (attached "%2", Some 5%nat);
               (paneClosed "%2", None); (Msg KSessions (mkSessions "sessions" [] "1.0" ""), None)] /\
  last (h_cmds s) = Some (mkCmd (pipeOff "%2") None "" (Some ExecError)) /\
  Forall (fun c => cmd_args c <> ["display-message"; "-t"; "%2"; "-p"; "#{pane_id}"]) (h_cmds s).
Proof.
  split; [apply exec_from_fresh|]. split_and!; [by vm_compute|by vm_compute|].
  apply (bool_decide_unpack _). by vm_compute.
Qed.

(** ** Witnesses *)


Definition moved_state : Host := fst (demo_config moved).

Lemma moved_reachable : reachable id (moved_state, snd (demo_config moved)).
Proof. unfold moved_state. rewrite <-surjective_pairing. apply exec_from_fresh. Qed.

Definition moved_last : Event := mkEvent "p" (output "there") (Some 5%nat) false true.

Lemma moved_log :
  h_log moved_state = [mkEvent "p" (attached "%1") (Some 2%nat) false true;
    mkEvent "p" (output "hello") (Some 2%nat) false true; mkEvent "p" (attached "%2") (Some 5%nat) false true] ++ [moved_last].
Proof. by vm_compute. Qed.


Lemma stream_protocol_witness :
  h_streams moved_state !! 5%nat = Some (mkStream "p" 4 3 false) /\
  length (of_stream 5 (h_log moved_state)) = 2%nat /\
  phase (mkStream "p" 4 3 false) (of_stream 5 (h_log moved_state)) <> PBad.
Proof.
  assert (Hst : h_streams moved_state !! 5%nat = Some (mkStream "p" 4 3 false)) by (by vm_compute).
  split_and!; [exact Hst|by vm_compute|].
  apply (stream_protocol id moved_state (snd (demo_config moved))); [apply moved_reachable|exact Hst].
Defined.

Lemma pipe_refines_owner_witness :
  pane_ops "%1" moved_state = [OpAttach 0 "/tmp/a"; OpRelease 0] /\
  spec_run None (pane_ops "%1" moved_state) = (h_pipes moved_state !! "%1", pipe_cmds "%1" moved_state) /\
  pipe_cmds "%1" moved_state = [PipeOpen (pipeCommand "/tmp/a/output"); PipeClose].
Proof.
  split; [by vm_compute|split; [|by vm_compute]].
  apply (pipe_refines_owner id moved_state (snd (demo_config moved))); [apply moved_reachable|].
  apply (bool_decide_unpack _). vm_compute. exact Logic.I.
Defined.

Lemma tmux_arguments_witness :
  let l1 := take 2 (h_cmds moved_state) in
  h_cmds moved_state =
    l1 ++ mkCmd ["resize-window"; "-t"; "$0:@1"; "-x"; "80"; "-y"; "24"] None "" None :: drop 3 (h_cmds moved_state) /\
  Forall (arg_ok l1) ["resize-window"; "-t"; "$0:@1"; "-x"; "80"; "-y"; "24"].
Proof.
  assert (Hl : h_cmds moved_state = take 2 (h_cmds moved_state) ++
    mkCmd ["resize-window"; "-t"; "$0:@1"; "-x"; "80"; "-y"; "24"] None "" None :: drop 3 (h_cmds moved_state)) by (by vm_compute).
  split; [exact Hl|].
  apply (tmux_arguments id moved_state (snd (demo_config moved)) _ _ _ moved_reachable Hl).
Defined.
