(* ===== verification/Delivery.v ===== *)
(** * The phone sees the pane

    What a stream delivers, from the bytes a pane prints to the text the phone
    reads: [Compress], [TitleFilter], [Bridge] and [Handler] together, in every
    execution. *)

From S2P Require Import Prelude GoLib Own TitleFilter Protocol Compress TmuxText Update Host Bridge Handler HostInv.
From S2P Require Import HostSafety HandlerSafety HostProps.
Open Scope Z_scope.

Section Phone.
Context (inflate : list byte -> list byte).

(** What the phone has read of a stream. *)
Definition text (d : nat) (st : Stream) (s : Host) : list byte :=
  if st_deflate st then inflate (received d s) else received d s.

Lemma sent_text d st c plain s :
  FlateLaws (h_flate s) inflate -> deflates c = st_deflate st -> sent_as (h_flate s) c (received d s) plain ->
  text d st s = plain.
Proof.
  intros Hl Hd Hs. unfold text. rewrite <-Hd. destruct c as [c|]; [|done]. by eapply carries_inflate.
Qed.
End Phone.

(** What is known of a goroutine at the start of an iteration. *)
Lemma loop_known Quote s ts i l :
  reachable Quote (s, ts) -> ts !! i = Some (Loop l) ->
  exists X s0, hrely X s0 s /\ loop_ok X s0 l.
Proof.
  intros Hr Hi. destruct (reachable_ok _ _ Hr) as [own Hp].
  destruct (pool_safe _ _ _ _ _ _ _ _ _ _ Hp i (Loop l) Hi) as (s0 & Hrel & Hsafe).
  exists (own i), s0. split; [done|]. by inversion Hsafe.
Qed.


(** ** An execution *)

(** A pane prints a title and two words. *)
Definition titled : list byte := bytes_of "one" ++ (x1b :: bytes_of "kvim") ++ (x1b :: bytes_of "\two").

(** A peer re-attaches to pane %1 with compression, and the pane prints. *)
Definition delivery : list Act :=
  [Gets "p" (Msg KAttach (mkAttach "attach" "%1" 80 24 true "deflate"))] ++ go 0 40 ++
  [Prints 0 titled] ++ go 1 5 ++ go 2 8.

Definition delivery_host : Host :=
  demo_host (map reply ["1"; "$0:@1"; ""; "$ "; ""; "2:0:0:1"]) (replicate 3 true ++ replicate 9 false).

Definition delivery_config : Host * list HThread := exec id delivery (delivery_host, []).

Lemma exec_steps Quote acts c : host_steps Quote c (exec Quote acts c).
Proof.
  revert c. induction acts as [|a acts IH]; intros c; [constructor|].
  eapply gsteps_trans; [apply act_steps|apply IH].
Qed.

(** The process keeps its compress/flate. *)
Lemma flate_constant Quote s0 c : initial s0 -> host_steps Quote (s0, []) c -> h_flate (fst c) = h_flate s0.
Proof.
  intros Hinit Hsteps. destruct (initial_ok s0 Hinit) as [HI Ho].
  destruct (gsteps_ok hostBody hinv hle owned frame rank wanted prereq loop_ok loop_safe
    (hostEnv Quote) (env_ok Quote) (fun _ => ∅) _ _ Hsteps) as [HR _]; [by apply pool_ok_init|].
  by apply (r_flate _ _ HR).
Qed.

Definition delivered_state : Host := fst delivery_config.
Definition delivered_stream : Stream := mkStream "p" 1 0 true.

Lemma delivered_reachable : reachable id (delivered_state, snd delivery_config).
Proof. unfold delivered_state. rewrite <-surjective_pairing. apply exec_from_fresh. Qed.

