(* ===== verification/PairedAgent.v ===== *)
(** * From the pair command to the running agent

    The processes that share the store and the record of the paired device,
    composed: what [RunPair] leaves ([PairFlowProps]) is what [startAgent] loads
    and what the running agent admits ([AgentProps]). *)

From S2P Require Import Prelude GoLib World Update Updater SecretStore Identity Pairing Token Config PairSession Supervisor.
From S2P Require Import Conc Protocol Peer PeerManager PeerSafety PeerProps Signaling PairFlow PairFlowProps Agent AgentProps.
Open Scope Z_scope.

(** ** Nobody else changes the pairing *)

(** What another process may do meanwhile: it changes no file of the store and
    not the record. *)
Definition aside {Store : Type} `{SecretStoreLaws Store} (record : Path) (st st' : Store * World) : Prop :=
  fst st' = fst st /\ agree (fun q => q <> record /\ ~ owns (fst st) q) (snd st) (snd st').

Section Paired.
Context {T : Type} `{SecretStoreLaws T} `{StoreOpener T} `{ProcArgs} `{PairLib}.
Variable paths : Paths.
Variables dir name : string.
Variable mine : Path -> Prop.

Abbreviation record := (Join dir name).
Abbreviation held := (held paths dir name mine).
Abbreviation calm := (calm paths dir name mine).
Abbreviation elsewhere := (elsewhere dir name mine).
Abbreviation aside := (aside record).

(** What is written for the devices is read back with their IDs. *)
Hypothesis json_back : forall ds data back,
  lib_json_Devices ds = Some data -> lib_json_DevicesBack data = Some back -> map pd_DeviceID back = map pd_DeviceID ds.

Lemma held_box m f (s : (((T * World) * Procs) * list Shown)) : held m f s -> held m f (fst s).
Proof using Type. intros []. by split. Qed.

(** *** The record lists one device *)

Section Only.
Variable m : Secrets.
Variable id : string.

(** Only the device [id] is listed in [f]. *)
Definition only (f : option File) : Prop := Forall (fun d => pd_DeviceID d = id) (listed f).
(** The store holds [m] and the record lists [id] only. *)
Definition kept {S : Type} `{Stage T S} (s : S) : Prop := exists f, held m f s /\ only f.
Definition load_ok (r : result DevicesError (option PairedDevice)) : Prop :=
  match r with Ok (Some d) => pd_DeviceID d = id | _ => True end.

Lemma only_written ds data : Forall (fun d => pd_DeviceID d = id) ds ->
  lib_json_Devices (map withoutSecret ds) = Some data -> only (Some (mkFile data mode0600)).
Proof using json_back.
  intros Hds Hj. unfold only. cbn. destruct (lib_json_DevicesBack data) as [back|] eqn:Hb; [|by constructor].
  pose proof (json_back _ _ _ Hj Hb) as Hm. rewrite map_map in Hm. change (map pd_DeviceID back = map pd_DeviceID ds) in Hm.
  apply (Forall_map pd_DeviceID (fun x => x = id)) in Hds. apply (Forall_map pd_DeviceID (fun x => x = id)). cbn. by rewrite Hm.
Qed.

Lemma kept_Load (s : T * World) : kept s ->
  let '(r, s') := LoadPairedDevice lib_json_DevicesBack record s in kept s' /\ load_ok r.
Proof using Type.
  intros (f & Hs & Hf). pose proof (held_Load paths dir name mine m f s Hs) as Hl.
  unfold LoadPairedDevice, mbind_err, ok. destruct (LoadPairedDevices _ _ s) as [[ds|e] s'].
  - destruct Hl as [Hl Hds]. split; [by exists f|]. rewrite (Hds ds eq_refl).
    unfold only in Hf. destruct (listed f) as [|d l]; cbn; [done|]. rewrite secretIn_ID. by apply Forall_cons in Hf as [? _].
  - split; [|done]. exists f. by destruct Hl.
Qed.

Lemma kept_rename d n (s : T * World) : kept s ->
  kept (snd (UpdatePairedDeviceName lib_json_Devices lib_json_DevicesBack record d n s)).
Proof using json_back.
  intros Hs. pose proof (kept_Load s Hs) as Hl. unfold UpdatePairedDeviceName, mbind_err at 1, wrap at 1.
  destruct (LoadPairedDevice _ _ s) as [[[dev|]|e] s1]; cbn [fst snd map_err]; destruct Hl as [Hk Hr]; try done.
  case_decide; [done|]. case_decide; [done|]. destruct Hk as (f & Hh & Hf).
  pose proof (held_save paths dir name mine [withName n dev] m f s1 Hh) as Hsv. unfold mbind_err, wrap.
  destruct (on_snd _ s1) as [[[]|e] s2]; cbn [snd map_err]; [|by exists f].
  destruct Hsv as (data & Hj & Hh2). eexists. split; [exact Hh2|]. eapply only_written; [|exact Hj].
  by repeat constructor.
Qed.

Lemma held_aside f (st st' : T * World) : aside st st' -> held m f st -> held m f st'.
Proof using Type.
  destruct st as [t w], st' as [t' w']. intros [Ht Hw] Hs. cbn in *. subst t'.
  assert (w_files w' !! record = w_files w !! record) as Hr by (apply Hw; tauto).
  destruct Hs as [Hv Hf Hm Ha Ho He]. split; try done; cbn in *; [|by rewrite Hr].
  eapply view_frame; [|exact Hv]. intros p Hp. apply Hw. tauto.
Qed.

Lemma kept_answered l (st st' : T * World) : answered l st st' -> kept st -> kept st'.
Proof using Type.
  intros Ha (f & Hs & Hf). exists f. split; [|done].
  by destruct Ha; [apply (calm_Get paths dir name mine)..|].
Qed.

(** *** The running agent *)

Section Agent.
Variable unmarshalEnvelope : list byte -> option string.
Variable unmarshalInto : forall k : Kind, list byte -> option (payload k).
Variable marshal : Message -> option (list byte).

Abbreviation agent_step := (agent_step unmarshalEnvelope unmarshalInto marshal record aside).
Abbreviation agent_steps := (agent_steps unmarshalEnvelope unmarshalInto marshal record aside).

Definition agent_kept (a : Agent T) : Prop := kept (a_store a) /\ Forall load_ok (a_loads a).

Lemma agent_kept_step a a' : agent_step a a' -> agent_kept a -> agent_kept a'.
Proof using json_back.
  intros Hstep [Hk Hl].
  destruct Hstep as [before f after s' new t l st' _ _ _ Ha|f s' new t l st' _ _ _ Ha|e s' new _ _|msg s' new _ _
    |msg d n _|d n rest _|r st' _ Hld|st' Ho]; try done.
  - split; [by eapply kept_answered|done].
  - split; [by eapply kept_answered|done].
  - split; [by apply kept_rename|done].
  - pose proof (kept_Load (a_store a) Hk) as Hk'. rewrite Hld in Hk'. destruct Hk' as [Hk' Hr].
    split; [done|]. cbn. apply Forall_app. split; [done|by repeat constructor].
  - split; [|done]. destruct Hk as (f & Hs & Hf). exists f. split; [by eapply held_aside|done].
Qed.

Lemma agent_kept_steps a a' : agent_steps a a' -> agent_kept a -> agent_kept a'.
Proof using json_back. induction 1; [done|]. eauto using agent_kept_step. Qed.

Lemma aside_good (st st' : T * World) : aside st st' -> good dir name (eq m) st -> good dir name (eq m) st'.
Proof using Type.
  destruct st as [t w], st' as [t' w']. intros [Ht Hw] (m' & Hv & Ho & <-). cbn in *. subst t'.
  exists m. split_and!; [|done|done]. eapply view_frame; [|exact Hv]. intros p Hp. apply Hw. by intros [_ Hn].
Qed.

Lemma held_good f (st : T * World) : held m f st -> good dir name (eq m) st.
Proof using Type.
  intros Hs. exists m. split_and!; [apply Hs| |done]. intros p Hp Hown. apply (he_mine _ _ _ _ _ _ _ Hs) in Hown.
  destruct Hp as [->|[k ->]]; [by apply (he_apart _ _ _ _ _ _ _ Hs)|].
  destruct (he_ours _ _ _ _ _ _ _ Hs (Temp dir ".paired-" k)) as [_ Hn]; [right; eauto|]. by apply Hn.
Qed.

(** Started on a record of one device, the agent admits no other, and that one
    with the secret that is stored for it. *)
Lemma kept_admits cfg answers (st : T * World) a d r allowed before after :
  keys_valid m -> kept st -> agent_steps (agentStart record cfg answers st) a ->
  s_log (a_sys a) = before ++ EInserted d r allowed :: after ->
  d = id /\ exists p, s_store (a_sys a) !! r = Some p /\ p_DeviceID p = d /\
    m !! SharedSecretKey d = Some (p_sharedSecret p).
Proof using json_back.
  intros Hv Hk Hs Hl. pose proof Hk as (f & Hh & _).
  assert (agent_kept (agentStart record cfg answers st)) as Hstart.
  { unfold agentStart. pose proof (kept_Load st Hk) as Hld. destruct (LoadPairedDevice _ record st) as [res st'].
    destruct Hld. split; [done|by repeat constructor]. }
  destruct (inserted_was_loaded _ _ _ _ _ _ _ aside_good cfg answers st a d r allowed before after
    (held_good f st Hh) Hs Hl) as ((earlier & res & Hpre & Hres & _) & p & Hp & Hid & a1 & m1 & _ & _ & (_ & _ & <-) & Hm).
  split; [|by exists p].
  assert (ValidateDeviceID d = Ok tt) as Hd by (apply Hv; by eexists).
  destruct (reloadTarget_valid res d Hd Hres) as (dev & -> & <-).
  pose proof (agent_kept_steps _ _ Hs Hstart) as [_ Hloads]. rewrite Forall_forall in Hloads.
  destruct Hpre as [rest Hpre]. apply (Hloads (Ok (Some dev))). rewrite Hpre. apply elem_of_app. left.
  apply elem_of_app. right. by apply list_elem_of_singleton.
Qed.
End Agent.
End Only.

(** *** The start *)

(** Opening the store of a process leaves what is in it; the rotated log is no
    file of the store and not the record. *)
Hypothesis opens : forall keys backend, calm (openStore keys backend : M (T * World) _).
Hypothesis rotated : elsewhere (rotatedLogPath paths).

Lemma calm_beside {A} (c : M World A) :
  touches (fun q => ours paths dir q \/ q = rotatedLogPath paths) c -> calm (on_snd c : M (T * World) A).
Proof using rotated.
  intros Ht m f [t w] Hs. pose proof (Ht w) as Ha. rewrite on_snd_run. cbn [fst snd].
  assert (Hq : forall q, ~ elsewhere q -> w_files (snd (c w)) !! q = w_files w !! q).
  { intros q Hq. apply Ha. intros [Ho| ->]; [|done]. by apply Hq, (he_ours _ _ _ _ _ _ _ Hs). }
  eapply held_frame; [exact Hs|done| | |done]; cbn.
  - eapply view_frame; [|apply Hs]. intros p Hp. apply Hq. intros [_ Hn]. by apply Hn, (he_mine _ _ _ _ _ _ _ Hs).
  - rewrite Hq; [apply Hs|]. by intros [? _].
Qed.

Lemma calm_rotateLog : calm (on_files (rotateLogIfNeeded paths) : M ((T * World) * Procs) unit).
Proof using rotated.
  apply calm_on_store, calm_beside. unfold rotateLogIfNeeded.
  apply touches_bind; [apply touches_faulty; by intros w q _|]. intros [size|e]; [|apply touches_ret].
  case_match; [apply touches_ret|]. apply touches_ignore, touches_Rename; [left; apply ours_log|by right].
Qed.

Lemma calm_WritePIDFile pid : calm (WritePIDFile paths pid : M ((T * World) * Procs) _).
Proof using Type.
  assert (ours paths dir (pidTmpPath paths)) by (left; rewrite !elem_of_cons; auto).
  assert (ours paths dir (PIDFilePath paths)) by apply ours_pid.
  unfold WritePIDFile. apply calm_bind_err.
  - apply calm_wrap, calm_on_files. by apply touches_WriteFile.
  - intros _. apply calm_bind; [by apply calm_on_files, touches_Rename|]. intros [[]|e]; [apply calm_ok|].
    apply calm_bind; [|intros _; apply calm_fail]. by apply calm_ignore, calm_on_files, touches_Remove.
Qed.

Section Start.
Variables (pid : Z) (hostname tmuxFound : option string) (env : Environ).
Variables hmacSecret version installMethod : string.

Abbreviation Boot := ((((T * World) * Procs) * list Launch)%type).
Abbreviation startAgent := (startAgent pid hostname tmuxFound env hmacSecret version installMethod paths).

Section Steps.
Variable m : Secrets.
Variable f : option File.

Lemma boot_calm {A B} (c : M ((T * World) * Procs) A) (k : A -> M Boot B) (s : Boot) r s' :
  calm c -> held m f (fst s) -> (boot_box c ≫= k) s = (r, s') -> exists a s1, held m f (fst s1) /\ k a s1 = (r, s').
Proof using Type.
  intros Hc Hs. rewrite mbind_run. intros Hk. exists (fst (boot_box c s)), (snd (boot_box c s)). split; [|done].
  destruct s as [b l]. unfold boot_box, on_fst. specialize (Hc m f b Hs). by destruct (c b).
Qed.

Lemma boot_calm_err {E F A B} (c : M ((T * World) * Procs) (result E A)) (g : E -> F)
    (k : A -> M Boot (result F B)) (s : Boot) b s' :
  calm c -> held m f (fst s) -> mbind_err (wrap g (boot_box c)) k s = (Ok b, s') ->
  exists a s1, held m f (fst s1) /\ k a s1 = (Ok b, s').
Proof using Type.
  intros Hc Hs (a & s1 & Hm%wrap_Ok & Hk)%mbind_err_Ok. exists a, s1. split; [|done].
  destruct s as [bx l]. unfold boot_box, on_fst in Hm. specialize (Hc m f bx Hs).
  destruct (c bx) as [r1 b1]. by injection Hm as _ <-.
Qed.

Lemma boot_calm_ignore {A B} (c : M ((T * World) * Procs) A) (k : unit -> M Boot B) (s : Boot) r s' :
  calm c -> held m f (fst s) -> (ignore (boot_box c) ≫= k) s = (r, s') -> exists s1, held m f (fst s1) /\ k tt s1 = (r, s').
Proof using Type.
  intros Hc Hs. rewrite mbind_run. intros Hk. exists (snd (boot_box c s)). split; [|done].
  destruct s as [b l]. unfold boot_box, on_fst. specialize (Hc m f b Hs). by destruct (c b).
Qed.

Lemma boot_launch {B} x (k : unit -> M Boot B) (s : Boot) r s' :
  held m f (fst s) -> (launch x ≫= k) s = (r, s') -> exists s1, held m f (fst s1) /\ k tt s1 = (r, s').
Proof using Type. rewrite launch_bind. intros Hs Hk. by exists (fst s, snd s ++ [x]). Qed.

(** The pairing is loaded from what the agent was started on. *)
Lemma startAgent_loads answers now (s : Boot) parts s' :
  held m f (fst s) -> startAgent answers now s = (Ok parts, s') ->
  exists st, held m f st /\ agentStart (p_PairedDevices paths) (ap_Config parts) answers st =
    mkAgent (fst (fst s')) (ap_Manager parts) Done [] [] [fst (LoadPairedDevice lib_json_DevicesBack (p_PairedDevices paths) st)].
Proof using opens rotated.
  intros Hs. unfold startAgent. intros ([] & s1 & Hs1 & Hk)%(boot_calm _ _ _ _ _ calm_rotateLog Hs).
  assert (calm (on_files (openCreate (agentLogPath paths) mode0600) : M ((T * World) * Procs) _)) as Hlog
    by (apply calm_on_files, touches_openCreate, ours_log).
  apply (boot_calm_err _ _ _ _ _ _ Hlog Hs1) in Hk as ([] & s2 & Hs2 & Hk). clear s1 Hs1 Hs Hlog.
  apply (boot_calm_ignore _ _ _ _ _ (calm_WritePIDFile pid) Hs2) in Hk as (s3 & Hs3 & Hk).
  apply (boot_launch _ _ _ _ _ Hs3) in Hk as (s4 & Hs4 & Hk). clear s2 s3 Hs2 Hs3.
  assert (calm (on_files (agentConfig lib_toml_Unmarshal env (p_ConfigFile paths)) : M ((T * World) * Procs) _)) as Hcfg.
  { apply calm_on_files, touches_bind; [apply touches_LoadConfig|]. intros [cfg|e]; apply touches_ret. }
  apply (boot_calm _ _ _ _ _ Hcfg Hs4) in Hk as (cfg & s5 & Hs5 & Hk). clear Hcfg s4 Hs4.
  apply (boot_calm_err _ _ _ _ _ _ (calm_on_store _ _ _ _ _ (opens _ _)) Hs5) in Hk as ([] & s6 & Hs6 & Hk).
  apply (boot_calm_err _ _ _ _ _ _ (calm_on_store _ _ _ _ _ (calm_LoadIdentity _ _ _ _)) Hs6) in Hk as (id & s7 & Hs7 & Hk).
  clear s5 s6 Hs5 Hs6. cbv zeta in Hk. apply (boot_launch _ _ _ _ _ Hs7) in Hk as (s8 & Hs8 & Hk). clear s7 Hs7.
  assert (calm (on_files (fun w => (w, w)) : M ((T * World) * Procs) _)) as Hw by (apply calm_on_files; by intros ? ?).
  apply (boot_calm _ _ _ _ _ Hw Hs8) in Hk as (w & s9 & Hs9 & Hk). clear s8 Hs8.
  rewrite mbind_run in Hk. destruct s9 as [[st ps] l]. unfold boot_store, boot_box, on_store, on_fst in Hk.
  exists st. split; [by destruct Hs9|]. unfold agentStart.
  destruct (LoadPairedDevice lib_json_DevicesBack (p_PairedDevices paths) st) as [paired st']. cbn [fst snd] in *.
  revert Hk. destruct (pc_KeepAwake (c_Power cfg)), (uc_Enabled (c_Update cfg) && _); by intros [= <- <-].
Qed.
End Steps.

(** ** The theorem *)

Variable executable : option string.
Variable unmarshalEnvelope : list byte -> option string.
Variable unmarshalInto : forall k : Kind, list byte -> option (payload k).
Variable marshal : Message -> option (list byte).
Hypothesis record_path : p_PairedDevices paths = record.
(** HKDF is read for 32 bytes. *)
Hypothesis hkdf_length : forall ikm salt info d, lib_hkdf_read ikm salt info = Some d -> length d = 32%nat.

Abbreviation Term := ((((T * World) * Procs) * list Shown)%type).

End Start.
End Paired.

(** ** From the pair command to a connection *)

#[local] Existing Instance PairDemo.lib.
#[local] Existing Instance linuxArgs.

Module PairedDemo.
(** The host after [pmux pair], which showed the code and ended well. *)
Definition after : ((MemorySecretStore * World) * Procs) * list Shown := PairDemo.paired.
Definition start := startAgent 4242 (Some "host") (Some "/usr/bin/tmux") ∅ "hmac" "dev" "manual" PairDemo.paths
  (AgentDemo.answers [Some AgentDemo.secret]) 0 (fst after, []).
(** The log once the phone connected. *)
Definition connected (x : result DevicesError (option PairedDevice)) (parts : AgentParts)
    (b' : (((MemorySecretStore * World) * Procs) * list Launch)) : option (list Effect) :=
  AgentDemo.log AgentDemo.connecting (mkAgent (fst (fst b')) (ap_Manager parts) Done [] [] [x]).
Definition admitted : list Effect :=
  [EAllowed PairDemo.mobile; ESecret PairDemo.mobile (Some AgentDemo.secret);
   EConnection false stunServers; EInserted PairDemo.mobile 0%nat PairDemo.mobile].
End PairedDemo.

(** The agent gets ready, and the phone its peer. *)
Lemma PairedDemo_log x :
  match PairedDemo.start with (Ok parts, b') => PairedDemo.connected x parts b' | _ => None end = Some PairedDemo.admitted.
Proof. by vm_compute. Qed.

Lemma session_of {E S : Type} (x : (result E unit * option PairSession) * S) id :
  match x with ((Ok _, Some ss), _) => pm_MobileDeviceID <$> ss_received ss | _ => None end = Some id ->
  exists ss, x = ((Ok tt, Some ss), snd x) /\ pm_MobileDeviceID <$> ss_received ss = Some id.
Proof. destruct x as [[[[]|e] [ss|]] s]; try done. intros Hx. by exists ss. Qed.

Lemma PairedDemo_session : exists ss, PairDemo.run [x0a; x0b; x0c] = ((Ok tt, Some ss), PairedDemo.after) /\
  pm_MobileDeviceID <$> ss_received ss = Some PairDemo.mobile.
Proof. unfold PairedDemo.after, PairDemo.paired. apply (session_of (PairDemo.run [x0a; x0b; x0c])). by vm_compute. Qed.

Lemma ready_of {E A S X : Type} (p : result E A * S) (l : list Effect) (f : X -> A -> S -> option (list Effect)) :
  X -> (forall x, match p with (Ok a, s) => f x a s | _ => None end = Some l) ->
  exists a, p = (Ok a, snd p) /\ forall x, f x a (snd p) = Some l.
Proof. intros x0 Hf. destruct p as [[a|e] s]; [by exists a|]. by specialize (Hf x0). Qed.

Lemma PairedDemo_json ds data back :
  lib_json_Devices ds = Some data -> lib_json_DevicesBack data = Some back -> map pd_DeviceID back = map pd_DeviceID ds.
Proof.
  cbn. destruct (map pd_DeviceID ds) as [|id [|]]; [by intros [= <-] [= <-]| |done].
  case_decide; [|done]. subst. by intros [= <-] [= <-].
Qed.

Lemma PairedDemo_sees m f :
  held PairDemo.paths "cfg" "paired_devices.json" (fun _ => False) m f PairedDemo.after ->
  held PairDemo.paths "cfg" "paired_devices.json" (fun _ => False) m f (fst PairedDemo.after) /\ keys_valid m.
Proof.
  intros Hh. split; [by apply held_box|]. destruct AgentDemo_host as (m' & Hv & _ & Hk).
  assert (m' = m) as <-; [|done]. rewrite <-Hv. exact (he_view _ _ _ _ _ _ _ Hh).
Qed.

Lemma PairedDemo_rotated : elsewhere "cfg" "paired_devices.json" (fun _ => False) (rotatedLogPath PairDemo.paths).
Proof. split; [by vm_compute|by intros []]. Qed.

Lemma PairedDemo_opens keys backend : calm PairDemo.paths "cfg" "paired_devices.json" (fun _ => False)
  (openStore keys backend : M (MemorySecretStore * World) _).
Proof. by intros m f s Hs. Qed.

